(* ===== verification/_CoqProject ===== *)
-Q . S2P
Prelude.v
PyStr.v
Regex.v
PyDict.v
PyStrFacts.v
Json.v
JsonFacts.v
SurfaceLex.v
SurfaceParse.v
SurfaceDiff.v
SurfaceSpec.v
SurfaceClass.v
SurfaceRoundtrip.v
SurfaceLexFacts.v
SurfaceTree.v
RegexFacts.v
SurfacePrintable.v
EnumFacts.v
Graph.v
TopoSort.v
Logger.v
PyOs.v
PathFacts.v
AidlInterface.v
Document.v
Examples.v
SurfaceCli.v
SurfaceCliFacts.v
InterfaceFacts.v
LibDeps.v
LibDepsFacts.v
Imports.v
ImportsFacts.v
ResolveFacts.v
LinkFacts.v
Checks.v
Api.v
Evolution.v
ApiFacts.v
ApiProgress.v
ImportFiles.v
GenRule.v
Getopt.v
IfaceUpdate.v
Yaml.v
IfaceUpdateFacts.v
Shell.v
FreezeCycle.v
Ops.v
GenRuleFacts.v
GenCppFacts.v
OpsFacts.v
