(* ===== verification/Prelude.v ===== *)
(** * The AIDL host tooling of linux_binder_idl: a verification development

    The Python programs under src/host/ manage AIDL interfaces: they load
    interface definitions ([interface.yaml] or [interface.json]), resolve the
    imports between interfaces and their versions, check a changed interface
    against its frozen versions, freeze a version, generate C++ sources with the
    aidl compiler, and compare the declared surface of two source trees.  This
    library models all of them as executable functions and proves what makes
    them correct.

    ** The parts and how they interact

    [aidl_ops.py] is the command line.  For [dump-surface] and [diff-surface] it
    hands over to [aidl_surface.py], which is self-contained.  Otherwise it loads
    every interface below the given roots ([aidl_interface.py]) and runs one
    operation: update-api or freeze-api ([aidl_api.py]), C++ generation or the
    library dependency file ([aidl_gen_rule.py]).  The operations share the
    checks and the import resolution of [aidl_interface.py].  Freezing calls
    [interface-update.py] through the shell, which appends the new version to
    the definition; the next load reads it.  All of them print through
    [logger.py].

    ** Shared files

    - [Prelude]: text, exceptions and results ([res]), loops over lists.
    - [PyStr], [PyStrFacts]: CPython's [str] methods, [int], [%d], [repr], and
      their laws (among them that [int] reads back what [%d] prints).
    - [Regex], [RegexFacts]: a backtracking matcher for the fragment of [re] in
      use, and its soundness: what is matched and captured is in the language of
      the pattern.
    - [PyDict]: dictionaries in insertion order, as association lists.
    - [PyOs]: [posixpath], a file system, [os.walk], [glob], [fnmatch], the state
      [world] and the state-and-exception monad [M], with its laws up to the
      state and [preserves], a computation that leaves a part of it alone.  The
      class [Os] is what the operating system supplies, above all the effect of a
      command ([run_process]); [Loader] is what a definition file is read with.
      Theorems are proved against these classes; [Examples] has the instances on
      which the witnesses evaluate.
    - [Json], [JsonFacts]: the values that JSON texts and Python literals hold,
      one parser for both dialects, [json.loads], [json.dump] with [indent] and
      [ast.literal_eval]; the parser is sound and complete for the grammar, and
      reads back what is printed.  The class [Floats] is what the interpreter
      makes of a floating-point number.
    - [Document]: the fields of a definition taken out of such a value, and the
      [Loader] that does so with [json] and a YAML parser ([SafeLoader]).
    - [Evolution]: what a computation does to the file system and the commands as
      a relation between the states before and after, closed under the constructs
      of [M]; the relations [grown] (commands are only added) and [undisturbed].
    - [Shell]: what is relied on of [/bin/sh] for the command that records a
      version ([PosixShell]) and of the tool it runs ([UpdateInstalled]), with an
      instance that evaluates both.
    - [PathFacts]: [realpath] gives normal paths, and [relpath] leads from one
      to another.
    - [Graph]: dependency graphs, orders with dependencies first, chains of
      dependencies (without end exactly on a cycle), the depth-first traversal
      that [process_imports] and [topological_sort] are compared with.
    - [Getopt]: [getopt.getopt].

    ** Components

    - aidl_surface.py.  [SurfaceLex] ([_string_end], [strip_comments],
      [_normalize], [_split_statements]), [SurfaceParse] ([_parse_type],
      [parse_aidl], [dump_surface]; the dict [types] is passed along),
      [SurfaceDiff] ([parse_dump], [diff_surface]), [SurfaceCli] ([main]).
      [SurfaceSpec] states what a comparison promises: the relations [Additive]
      and [SameSurface].  [SurfaceClass] proves the classification exact for
      surfaces with distinctly named members, that non-breaking steps compose,
      antisymmetry, and what goes wrong without distinct names.
      [SurfaceRoundtrip] proves that a dump is read back as what was dumped, and
      joins both: comparing two dumps decides the relations on the surfaces.
      [SurfaceLexFacts] proves the index scan of [_string_end] equal to the
      structural one and that texts that differ in comments strip to the same;
      [SurfaceTree], that a dump depends on the code only, not on comments or
      the order of directories; [SurfacePrintable], that what is parsed from
      sources meets the conditions of the round trip; [EnumFacts], the value of
      every enumerator; [SurfaceCliFacts], the exit codes.
    - [topological_sort].  [TopoSort]: it terminates, puts dependencies first,
      raises [ValueError] exactly on a cycle and [KeyError] exactly for an
      unknown dependency.
    - logger.py.  [Logger]: levels, filtering, colouring, and the layout of a
      line.  The time stamp and the caller are arguments.
    - aidl_interface.py, one interface.  [AidlInterface] has the object as a
      record, its construction from a definition and the version arithmetic;
      [InterfaceFacts] proves which entries are accepted, what is stored, the
      numbering and the imports of each version.
    - aidl_interface.py, all interfaces.  [LibDeps] has [load_interfaces] and
      [generate_libraries_dependencies]; [LibDepsFacts] proves that the order
      does not depend on the file system's, that a [current] definition is never
      replaced by a snapshot, and all outcomes of the dependency file.
    - aidl_interface.py, imports.  [Imports] has [ApiDependencies] and
      [process_imports]; the object that the code mutates along the recursion is
      the accumulator, and the global [rec_counter] a field of [world].
      [ImportsFacts] proves that resolving the next version finds exactly the
      transitive imports in dependency order, that nothing recorded is lost or
      lowered, and how the counter is left.  [ResolveFacts] covers all three
      modes (next, latest, frozen): a resolution that succeeds has every
      interface that comes up, at the highest of its versions, and a boolean
      function decides beforehand which versions can be resolved.  [LinkFacts]:
      for a frozen version, the libraries of the dependency file are those of the
      dependencies found.
    - aidl_interface.py, checks, and aidl_api.py.  [Checks] and [Api] have the
      handlers, with every command as the text that is run; [ApiFacts] proves
      which commands a successful validation has run with exit status 0, that
      update-api copies nothing unless
      the sources are compatible, the order of the steps of both operations, and
      that frozen imports are read back.  [ApiProgress] proves the converse:
      in a workspace in order, with tools that do their work, both operations
      succeed.
    - aidl_gen_rule.py.  [GenRule] has the generation, [ImportFiles] the search
      for the files that sources import.  [GenRuleFacts]: the version handed to
      the compiler and the versions that can be asked for; [GenCppFacts]: the
      command that compiles the sources and how its failures end; [ImportFiles]:
      the search ends exactly if no file imports itself through others, and then
      finds exactly the files below the sources.
    - interface-update.py.  [IfaceUpdate], [IfaceUpdateFacts]: the definition is
      read, changed and written as a JSON or YAML value ([Editor] is ruamel.yaml);
      the file then loads as the same definition with one more version.
      [Yaml] states what is relied on of the two YAML libraries ([YamlLaws]).
      [FreezeCycle] puts the last command of a freeze, the shell, this program
      and the next load together: after a freeze the interface loads with the
      frozen version and its recorded imports.
    - aidl_ops.py.  [Ops], [OpsFacts]: an operation is started exactly when one
      operation, and one interface where needed, is asked for.

    ** Fuel

    Loops that are not structural take a bound that is never reached: the length
    of the text in the lexical layer, the parser and the regular expressions;
    the number of libraries in [topo_loop] (each is queued once, which the
    correctness theorem shows); the number of paths in [os_walk] (a directory is
    shorter than what it contains).  [process_imports] recurses as deep as
    [recursion_depth], one more than there are versions to resolve; the code
    recurses deeper only if an interface is processed inside itself, without end,
    and both then raise [RecursionError].  The search of [ImportFiles] takes the
    depth at which the interpreter gives up as an argument: any depth above the
    number of files is enough where the files do not import each other in a
    circle, and none is where they do.

    ** Limits of the model

    - A text has code points below 256; a mark or dash beyond them in a message
      is left out or printed as a hyphen.
    - An exception carries its message as a template with its values.
    - Log calls at the levels DEBUG and VERBOSE are left out: every tool's level
      is INFO.  Standard output is modelled where it is the result
      (dump-surface and diff-surface) and left out elsewhere.
    - There are no symbolic links, permissions or encodings errors; a path is
      looked up as it is written, so theorems about files speak of absolute
      paths.
    - A definition file holds a document with typed fields: a field of another
      type, which would raise somewhere in the code, is not covered
      ([doc_of_value] is [None]).
    - Of YAML little is used: of a document that PyYAML (YAML 1.1) and ruamel.yaml
      (YAML 1.2) read alike, made of words, names, versions and paths that mean
      themselves in both ([portable]; not yes, on, 12:30 or floats), PyYAML reads
      what ruamel.yaml makes of it after a change as the changed document, up to
      the order of keys ([YamlLaws]).
    - A floating-point number is its [repr]; a JSON text escapes characters up to
      code point 255; [ast.literal_eval] reads dicts, lists, quoted texts,
      integers, [True], [False] and [None].
    - Shell commands are modelled up to their text; what the shell, rsync, sha1sum
      and the aidl compiler do is [run_process].
    - Not modelled: the methods [append_preprocessed], [append_import] and
      [append_generated], which nothing calls and which name attributes that no
      object has; [aidl_hash_gen], a shell script; and everything outside
      src/host/ (build system, generated stubs, patches, examples, tests).

    ** Open

    To be added: several freezes in a row as one theorem; and a definition with
    fields of other types, each with the exception it raises. *)

From Stdlib Require Export Ascii ZArith Lia.
From Stdlib Require Strings.Byte.
From stdpp Require Export base list sorting gmap strings.

#[global] Set Default Goal Selector "!".
#[global] Arguments Nat.ltb : simpl never.
#[global] Arguments Nat.leb : simpl never.
#[global] Arguments N.leb : simpl never.
#[global] Arguments N.ltb : simpl never.
#[global] Arguments N.eqb : simpl never.
#[global] Arguments N_of_ascii : simpl never.

(** ** Text

    A Python [str] is a list of characters whose code points are below 256
    (Latin-1): the development covers exactly the texts made of those. *)

Abbreviation str := (list ascii).

Declare Scope str_scope.
Delimit Scope str_scope with str.

Definition str_of_bytes (l : list Byte.byte) : str := map ascii_of_byte l.
Definition bytes_of_str (l : str) : list Byte.byte := map byte_of_ascii l.
String Notation str str_of_bytes bytes_of_str : str_scope.

(** ** Exceptions and results

    A Python call either returns or raises.  The message of an exception is
    kept unformatted: the template and the values it is formatted with. *)

Inductive exn : Type :=
| ValueError (msg : str) (args : list str)
| KeyError (key : str)
| IndexError
| AssertionError (msg : str) (args : list str)
| RuntimeError (msg : str) (args : list str)
| TypeError
| AttributeError
| NameError (name : str)
| SyntaxError
| RecursionError
| OSError
| GetoptError
| SystemExit (code : Z).

Inductive res (A : Type) : Type :=
| Ok (a : A)
| Err (e : exn).
Arguments Ok {A} _.
Arguments Err {A} _.

#[export] Instance exn_eq_dec : EqDecision exn.
Proof. solve_decision. Defined.

#[export] Instance res_eq_dec {A} `{EqDecision A} : EqDecision (res A).
Proof. solve_decision. Defined.

#[export] Instance res_ret : MRet res := fun A a => Ok a.
#[export] Instance res_bind : MBind res := fun A B f m =>
  match m with Ok a => f a | Err e => Err e end.

(** [mapM_res f l] runs [f] over [l] from the left and stops at the first
    exception, as a comprehension or a [for] loop does. *)
Fixpoint mapM_res {A B} (f : A -> res B) (l : list A) : res (list B) :=
  match l with
  | [] => Ok []
  | x :: l => y ← f x; ys ← mapM_res f l; Ok (y :: ys)
  end.

(** [foldM_res f a l] is a [for] loop over [l] that updates [a]. *)
Fixpoint foldM_res {A B} (f : A -> B -> res A) (a : A) (l : list B) : res A :=
  match l with
  | [] => Ok a
  | x :: l => a' ← f a x; foldM_res f a' l
  end.

(** ** Automation *)

Create HintDb pylib.

(** Inverts every equation [m = Ok _] or [m = Err _] whose [m] is a bind. *)
Ltac res_inv :=
  repeat match goal with
  | H : Ok _ = Ok _ |- _ => injection H as H; subst
  | H : Err _ = Err _ |- _ => injection H as H; subst
  | H : Ok _ = Err _ |- _ => discriminate H
  | H : Err _ = Ok _ |- _ => discriminate H
  | H : mbind _ ?m = Ok _ |- _ =>
      let E := fresh "E" in
      destruct m eqn:E; cbn [mbind res_bind] in H; [| discriminate H]
  end.

(** Case analysis on every [if]/[match] scrutinee in the goal. *)
Ltac split_ifs :=
  repeat match goal with
  | |- context [if ?b then _ else _] => let E := fresh "E" in destruct b eqn:E
  end.

Ltac bool_hyps :=
  repeat match goal with
  | H : _ && _ = true |- _ => apply andb_true_iff in H as [? ?]
  | H : _ || _ = false |- _ => apply orb_false_iff in H as [? ?]
  | H : negb _ = true |- _ => apply negb_true_iff in H
  | H : negb _ = false |- _ => apply negb_false_iff in H
  end.

(** ** Generic lemmas *)

Section results.
Context {A B : Type}.
Implicit Types (f : A -> res B) (l : list A).

Lemma mapM_res_app f l1 l2 :
  mapM_res f (l1 ++ l2) =
    (x ← mapM_res f l1; y ← mapM_res f l2; Ok (x ++ y)).
Proof.
  induction l1 as [|a l1 IH]; cbn.
  - by destruct (mapM_res f l2).
  - destruct (f a); cbn; [|done]. rewrite IH.
    destruct (mapM_res f l1); cbn; [|done]. by destruct (mapM_res f l2).
Qed.

Lemma mapM_res_Ok f l ys :
  mapM_res f l = Ok ys <-> Forall2 (fun x y => f x = Ok y) l ys.
Proof.
  revert ys; induction l as [|a l IH]; intros ys; cbn.
  - split; [intros [= <-]; constructor | by inversion 1].
  - split.
    + intros H. res_inv. constructor; [done | by apply IH].
    + inversion 1 as [|? ? ? ? H1 H2]; subst.
      rewrite H1; cbn. apply IH in H2. by rewrite H2.
Qed.

Lemma mapM_res_fmap (g : A -> B) l : mapM_res (fun x => Ok (g x)) l = Ok (g <$> l).
Proof. induction l as [|a l IH]; cbn; [done|]. by rewrite IH. Qed.

Lemma mapM_res_ext f f' l :
  (forall x, x ∈ l -> f x = f' x) -> mapM_res f l = mapM_res f' l.
Proof.
  induction l as [|a l IH]; intros H; cbn; [done|].
  rewrite H by constructor. rewrite IH; [done|].
  intros x Hx. apply H. by constructor.
Qed.
End results.

Section loops.
Context {A B : Type} (f : A -> B -> res A).

Lemma foldM_res_app a l1 l2 :
  foldM_res f a (l1 ++ l2) = (a' ← foldM_res f a l1; foldM_res f a' l2).
Proof.
  revert a; induction l1 as [|b l1 IH]; intros a; cbn; [done|].
  destruct (f a b); cbn; [apply IH|done].
Qed.

(** The loop rule: what every iteration preserves holds at the end. *)
Lemma foldM_res_inv (P : A -> Prop) a l a' :
  (forall x b y, b ∈ l -> P x -> f x b = Ok y -> P y) ->
  P a -> foldM_res f a l = Ok a' -> P a'.
Proof.
  revert a; induction l as [|b l IH]; intros a Hf Ha H; cbn in H.
  - by injection H as <-.
  - res_inv. eapply IH; [| |done].
    + intros x c y Hc. apply Hf. by constructor.
    + eapply Hf; [by constructor|done|done].
Qed.

(** A loop that fails does so in one of its iterations. *)
Lemma foldM_res_err a l e : foldM_res f a l = Err e -> exists a' b, b ∈ l /\ f a' b = Err e.
Proof.
  revert a; induction l as [|b l IH]; intros a H; cbn in H; [done|].
  destruct (f a b) as [a'|e'] eqn:E; cbn in H.
  - destruct (IH a' H) as (a2 & b2 & Hb & H2). exists a2, b2. split; [by right|done].
  - exists a, b. split; [left|congruence].
Qed.
End loops.

(** ** Longest prefix satisfying a predicate *)

Section span.
Context {A : Type} (p : A -> bool).

Fixpoint take_while (l : list A) : list A :=
  match l with
  | [] => []
  | x :: l => if p x then x :: take_while l else []
  end.

Fixpoint drop_while (l : list A) : list A :=
  match l with
  | [] => []
  | x :: l' => if p x then drop_while l' else l
  end.

Lemma take_drop_while l : take_while l ++ drop_while l = l.
Proof. induction l as [|x l IH]; cbn; [done|]. destruct (p x); cbn; congruence. Qed.

Lemma drop_while_length l : length (drop_while l) <= length l.
Proof. induction l as [|x l IH]; cbn; [lia|]. destruct (p x); cbn; lia. Qed.

Lemma take_while_Forall l : Forall (fun x => p x = true) (take_while l).
Proof.
  induction l as [|x l IH]; cbn; [done|]. destruct (p x) eqn:E; [by constructor|done].
Qed.

Lemma drop_while_app_all l k :
  Forall (fun x => p x = true) l -> drop_while (l ++ k) = drop_while k.
Proof. induction 1 as [|x l Hx _ IH]; cbn; [done|]. by rewrite Hx. Qed.

Lemma take_while_app_all l k :
  Forall (fun x => p x = true) l -> take_while (l ++ k) = l ++ take_while k.
Proof. induction 1 as [|x l Hx _ IH]; cbn; [done|]. by rewrite Hx, IH. Qed.

Lemma drop_while_head l : match drop_while l with x :: _ => p x = false | [] => True end.
Proof. induction l as [|x l IH]; cbn; [done|]. by destruct (p x) eqn:E. Qed.

Lemma drop_while_stop x k : p x = false -> drop_while (x :: k) = x :: k.
Proof. intros H. cbn. by rewrite H. Qed.

Lemma take_while_stop x k : p x = false -> take_while (x :: k) = [].
Proof. intros H. cbn. by rewrite H. Qed.

(** What comes after a text does not matter if it begins with a stop. *)
Lemma take_while_app_stop l k : match k with x :: _ => p x = false | [] => True end ->
  take_while (l ++ k) = take_while l /\ drop_while (l ++ k) = drop_while l ++ k.
Proof.
  intros Hk. induction l as [|x l [IH1 IH2]]; cbn.
  - destruct k as [|x k]; [done|]. cbn. by rewrite Hk.
  - destruct (p x); [|done]. by rewrite IH1, IH2.
Qed.

Lemma drop_while_all l : Forall (fun x => p x = true) l -> drop_while l = [].
Proof. intros H. rewrite <- (app_nil_r l). by rewrite drop_while_app_all. Qed.
End span.

#[export] Hint Resolve take_while_Forall : pylib.


(** [find] returns the first element that qualifies. *)
Lemma find_first {A} (f : A -> bool) l x : List.find f l = Some x ->
  exists pre post, l = pre ++ x :: post /\ f x = true /\ forall y, y ∈ pre -> f y = false.
Proof.
  induction l as [|y l IH]; [done|]. cbn. destruct (f y) eqn:E.
  - intros [= ->]. exists [], l. split_and!; [done..|]. by intros y ?%elem_of_nil.
  - intros (pre & post & -> & Hx & Hpre)%IH. exists (y :: pre), post. split_and!; [done..|].
    intros z [->|Hz]%elem_of_cons; auto.
Qed.

Lemma filter_all {A} (P : A -> Prop) `{forall x, Decision (P x)} (l : list A) :
  (forall x, x ∈ l -> P x) -> filter P l = l.
Proof.
  induction l as [|x l IH]; [done|]. intros Hl.
  rewrite filter_cons_True by (apply Hl; constructor).
  f_equal. apply IH. intros y Hy. apply Hl. by constructor.
Qed.

Lemma filter_none {A} (P : A -> Prop) `{forall x, Decision (P x)} (l : list A) :
  (forall x, x ∈ l -> ~ P x) -> filter P l = [].
Proof.
  induction l as [|x l IH]; [done|]. intros Hl.
  rewrite filter_cons_False by (apply Hl; constructor).
  apply IH. intros y Hy. apply Hl. by constructor.
Qed.

Section totality.
Context {A B : Type} (f : A -> res B).

Lemma mapM_res_total l : (forall x, x ∈ l -> exists y, f x = Ok y) -> exists ys, mapM_res f l = Ok ys.
Proof.
  induction l as [|x l IH]; intros H; cbn; [by exists []|].
  destruct (H x) as [y ->]; [left|]. destruct IH as [ys ->]; [|cbn; eauto].
  intros z Hz. apply H. by right.
Qed.

Lemma mapM_res_elem l ys y :
  mapM_res f l = Ok ys -> y ∈ ys <-> exists x, x ∈ l /\ f x = Ok y.
Proof.
  intros H%mapM_res_Ok. induction H as [|x y' l ys Hx _ IH].
  - split; [by intros ?%elem_of_nil|by intros (? & ?%elem_of_nil & _)].
  - rewrite elem_of_cons, IH. setoid_rewrite elem_of_cons. split.
    + intros [->|(z & Hz & E)]; eauto.
    + intros (z & [->|Hz] & E); [left; congruence|eauto].
Qed.
End totality.

Lemma elem_of_concat {A} (x : A) ls : x ∈ concat ls <-> exists l, l ∈ ls /\ x ∈ l.
Proof.
  rewrite list_elem_of_In, in_concat. by setoid_rewrite <- list_elem_of_In.
Qed.

Lemma elem_of_map {A B} (f : A -> B) (l : list A) y : y ∈ map f l <-> exists x, y = f x /\ x ∈ l.
Proof. apply list_elem_of_fmap. Qed.

(** What a function distinguishes less, it distinguishes less on lists. *)
Lemma map_eq_mono {A B C} (f : A -> B) (g : A -> C) l l' :
  (forall x y, f x = f y -> g x = g y) -> map f l = map f l' -> map g l = map g l'.
Proof.
  intros Hfg. revert l'. induction l as [|x l IH]; intros [|y l']; try done. cbn. intros [= Hx Hl].
  f_equal; auto.
Qed.

Lemma Forall_mp {A} (P Q : A -> Prop) (l : list A) : Forall (fun x => P x -> Q x) l -> Forall P l -> Forall Q l.
Proof. induction 1; inversion 1; constructor; auto. Qed.

Lemma filter_partition {A} (P : A -> Prop) `{forall x, Decision (P x)} (l : list A) :
  filter P l ++ filter (fun x => ~ P x) l ≡ₚ l.
Proof.
  induction l as [|x l IH]; [done|]. destruct (decide (P x)).
  - rewrite filter_cons_True, filter_cons_False by tauto. cbn. by rewrite IH.
  - rewrite filter_cons_False, filter_cons_True by tauto. by rewrite <- Permutation_middle, IH.
Qed.
