(* ===== verification/PyStr.v ===== *)
(** * Python [str] operations used by the host tools

    Character classes, stripping, searching, splitting, joining, ordering and
    integer conversion of CPython's [str], on texts whose code points are
    below 256.  Every predicate is the restriction of the Unicode one to that
    range. *)

From S2P Require Import Prelude.
From Stdlib Require Import Decimal DecimalN DecimalPos DecimalFacts.

Open Scope str_scope.

(** ** Characters *)

Definition code (c : ascii) : N := N_of_ascii c.

Definition in_range (lo hi : N) (c : ascii) : bool :=
  ((lo <=? code c) && (code c <=? hi))%N.

(** [str.isspace], and the class [\s] of [re]. *)
Definition is_space (c : ascii) : bool :=
  in_range 9 13 c || in_range 28 32 c || (code c =? 133)%N || (code c =? 160)%N.

(** The line boundaries of [str.splitlines]; [\r\n] counts as one. *)
Definition is_linebreak (c : ascii) : bool :=
  in_range 10 13 c || in_range 28 30 c || (code c =? 133)%N.

(** The class [\d] of [re] ([str.isdecimal]). *)
Definition is_decimal (c : ascii) : bool := in_range 48 57 c.

(** [str.isdigit] of one character: superscripts are digits. *)
Definition is_digit (c : ascii) : bool :=
  is_decimal c || in_range 178 179 c || (code c =? 185)%N.

Definition is_alpha (c : ascii) : bool :=
  in_range 65 90 c || in_range 97 122 c || (code c =? 170)%N || (code c =? 181)%N
  || (code c =? 186)%N || in_range 192 214 c || in_range 216 246 c || in_range 248 255 c.

(** [str.isnumeric]: digits and the vulgar fractions. *)
Definition is_numeric (c : ascii) : bool := is_digit c || in_range 188 190 c.

(** The class [\w] of [re]: alphanumeric or underscore. *)
Definition is_word (c : ascii) : bool :=
  is_alpha c || is_numeric c || (code c =? 95)%N.

Definition is_hex (c : ascii) : bool :=
  is_decimal c || in_range 97 102 c || in_range 65 70 c.

(** [s.isdigit()]: false on the empty string. *)
Definition isdigit (s : str) : bool :=
  match s with [] => false | _ => forallb is_digit s end.

Definition dquote : ascii := "034"%char.
Definition backslash : ascii := "092"%char.
Definition newline : ascii := "010"%char.
Definition space : ascii := " "%char.

(** A text between double quotes. *)
Definition quoted (s : str) : str := dquote :: s ++ [dquote].

(** ** Stripping *)

Definition lstrip (s : str) : str := drop_while is_space s.
Definition rstrip (s : str) : str := reverse (drop_while is_space (reverse s)).
Definition strip (s : str) : str := rstrip (lstrip s).

(** ** Searching *)

Fixpoint startswith (p s : str) : bool :=
  match p, s with
  | [], _ => true
  | c :: p, d :: s => bool_decide (c = d) && startswith p s
  | _ :: _, [] => false
  end.

Definition endswith (p s : str) : bool := startswith (reverse p) (reverse s).

(** [find p s] is the least [i] with [s[i:]] starting with [p]; [None]
    stands for [-1]. *)
Fixpoint find (p s : str) : option nat :=
  if startswith p s then Some 0
  else match s with
       | [] => None
       | _ :: s => S <$> find p s
       end.

(** [sub in s] *)
Definition contains (p s : str) : bool :=
  match find p s with Some _ => true | None => false end.

(** [s.partition(p)] *)
Definition partition (p s : str) : str * str * str :=
  match find p s with
  | Some i => (take i s, p, drop (i + length p) s)
  | None => (s, [], [])
  end.

(** ** Splitting and joining *)

(** [s.split(c)] for a one-character separator. *)
Fixpoint split_char (c : ascii) (s : str) : list str :=
  match s with
  | [] => [[]]
  | d :: s =>
      if bool_decide (d = c) then [] :: split_char c s
      else match split_char c s with
           | w :: ws => (d :: w) :: ws
           | [] => [[d]]
           end
  end.

(** [s.split()]: maximal runs of non-space characters. *)
Fixpoint split_ws (s : str) : list str :=
  match s with
  | [] => []
  | c :: s' =>
      if is_space c then split_ws s'
      else match s' with
           | [] => [[c]]
           | d :: _ =>
               if is_space d then [c] :: split_ws s'
               else match split_ws s' with
                    | w :: ws => (c :: w) :: ws
                    | [] => [[c]]
                    end
           end
  end.

(** [s.splitlines()] *)
Fixpoint splitlines_from (cur : str) (s : str) : list str :=
  match s with
  | [] => match cur with [] => [] | _ => [reverse cur] end
  | c :: s' =>
      if is_linebreak c then
        match s' with
        | d :: s'' =>
            if bool_decide (c = "013"%char /\ d = newline)
            then reverse cur :: splitlines_from [] s''
            else reverse cur :: splitlines_from [] s'
        | [] => [reverse cur]
        end
      else splitlines_from (c :: cur) s'
  end.
Definition splitlines (s : str) : list str := splitlines_from [] s.

(** [sep.join(l)] *)
Fixpoint join (sep : str) (l : list str) : str :=
  match l with
  | [] => []
  | [w] => w
  | w :: ws => w ++ sep ++ join sep ws
  end.

(** [s.replace(c, r)] for a one-character [c]. *)
Fixpoint replace_char (c : ascii) (r : str) (s : str) : str :=
  match s with
  | [] => []
  | d :: s => (if bool_decide (d = c) then r else [d]) ++ replace_char c r s
  end.

(** [s.replace(p, r)] for a non-empty [p]: left to right, non-overlapping. *)
Fixpoint replace_fuel (n : nat) (p r s : str) : str :=
  match n with
  | 0 => s
  | S n =>
      match find p s with
      | None => s
      | Some i => take i s ++ r ++ replace_fuel n p r (drop (i + length p) s)
      end
  end.
Definition replace (p r s : str) : str := replace_fuel (length s) p r s.

(** Universal newlines, as [open(..., 'r')] translates them. *)
Fixpoint universal_newlines (s : str) : str :=
  match s with
  | [] => []
  | c :: s' =>
      if bool_decide (c = "013"%char) then
        newline :: match s' with
                   | d :: s'' => if bool_decide (d = newline)
                                 then universal_newlines s'' else universal_newlines s'
                   | [] => []
                   end
      else c :: universal_newlines s'
  end.

(** ** Ordering: by code point, as [sorted] and [<] compare strings *)

Fixpoint str_leb (s t : str) : bool :=
  match s, t with
  | [], _ => true
  | _ :: _, [] => false
  | c :: s, d :: t =>
      (code c <? code d)%N || ((code c =? code d)%N && str_leb s t)
  end.

Definition str_le (s t : str) : Prop := str_leb s t = true.

#[export] Instance str_le_dec s t : Decision (str_le s t).
Proof. unfold str_le. apply _. Defined.

(** [sorted(l)] for a list of strings *)
Definition sorted (l : list str) : list str := merge_sort str_le l.

(** ** Integers *)

Definition digit_val (c : ascii) : option Z :=
  if is_decimal c then Some (Z.of_N (code c) - 48)%Z
  else if in_range 97 122 c then Some (Z.of_N (code c) - 87)%Z
  else if in_range 65 90 c then Some (Z.of_N (code c) - 55)%Z
  else None.

(** Digits of one base with single underscores between them; [us] says that
    an underscore may not come next. *)
Fixpoint int_digits (base acc : Z) (us : bool) (s : str) : option Z :=
  match s with
  | [] => if us then None else Some acc
  | c :: s =>
      if bool_decide (c = "_"%char) then
        if us then None else int_digits base acc true s
      else match digit_val c with
           | Some d => if (d <? base)%Z then int_digits base (acc * base + d)%Z false s
                       else None
           | None => None
           end
  end.

(** ** Printing: [repr], [capitalize], [%] *)

Definition hex_digit (n : N) : ascii :=
  if (n <? 10)%N then ascii_of_N (48 + n) else ascii_of_N (87 + n).

Definition squote : ascii := "'"%char.

(** One character of [repr(s)] between quotes [q]. *)
Definition repr_char (q c : ascii) : str :=
  if bool_decide (c = q) || bool_decide (c = backslash) then [backslash; c]
  else if bool_decide (c = newline) then [backslash; "n"%char]
  else if (code c =? 13)%N then [backslash; "r"%char]
  else if (code c =? 9)%N then [backslash; "t"%char]
  else if in_range 32 126 c || in_range 161 172 c || in_range 174 255 c then [c]
  else [backslash; "x"%char; hex_digit (code c / 16); hex_digit (code c mod 16)].

(** [repr(s)]: double quotes only if [s] holds single and no double ones. *)
Definition py_repr (s : str) : str :=
  let q := if bool_decide (squote ∈ s /\ dquote ∉ s) then dquote else squote in
  q :: concat (map (repr_char q) s) ++ [q].

Definition to_lower (c : ascii) : ascii :=
  if in_range 65 90 c || in_range 192 214 c || in_range 216 222 c then ascii_of_N (code c + 32) else c.

(** The title case of a character; that of the micro sign and of a y with
    diaeresis is not Latin-1, and they are left as they are. *)
Definition to_title (c : ascii) : str :=
  if in_range 97 122 c || in_range 224 246 c || in_range 248 254 c then [ascii_of_N (code c - 32)]
  else if (code c =? 223)%N then "Ss" else [c].

(** [s.capitalize()] *)
Definition capitalize (s : str) : str :=
  match s with c :: s => to_title c ++ map to_lower s | [] => [] end.

(** [msg % args] for the conversions [%s], [%d], [%r] of arguments that are
    already converted. *)
Fixpoint percent (msg : str) (args : list str) : str :=
  match msg with
  | "%"%char :: c :: msg =>
      match args with
      | a :: args => if bool_decide (c ∈ "sdr") then a ++ percent msg args
                     else "%"%char :: c :: percent msg (a :: args)
      | [] => "%"%char :: c :: percent msg []
      end
  | c :: msg => c :: percent msg args
  | [] => []
  end.

(** [str(e)], of the exceptions whose text the code prints. *)
Definition exn_str (e : exn) : str :=
  match e with
  | ValueError m a | AssertionError m a | RuntimeError m a => percent m a
  | KeyError k => py_repr k
  | RecursionError => "maximum recursion depth exceeded"
  | _ => []
  end.

Example percent_repr :
  percent "entry %r of %s" [py_repr "it's"; capitalize "hAL"] = "entry " ++ quoted "it's" ++ " of Hal".
Proof. reflexivity. Qed.

Definition invalid_int (base s : str) : exn :=
  ValueError "invalid literal for int() with base %s: %r" [base; py_repr s].

Definition split_sign (s : str) : Z * str :=
  match s with
  | c :: s' => if bool_decide (c = "-"%char) then ((-1)%Z, s')
               else if bool_decide (c = "+"%char) then (1%Z, s') else (1%Z, s)
  | [] => (1%Z, s)
  end.

(** [int(s)] *)
Definition py_int (s : str) : res Z :=
  let (sg, body) := split_sign (strip s) in
  match int_digits 10 0 true body with
  | Some v => Ok (sg * v)%Z
  | None => Err (invalid_int "10" s)
  end.

(** [int(s, 0)]: the base is read off the prefix, and a decimal literal has
    no leading zero unless it is zero. *)
Definition base_prefix (s : str) : option (Z * str) :=
  match s with
  | z :: x :: s' =>
      if bool_decide (z = "0"%char) then
        if bool_decide (x = "x"%char) || bool_decide (x = "X"%char) then Some (16%Z, s')
        else if bool_decide (x = "o"%char) || bool_decide (x = "O"%char) then Some (8%Z, s')
        else if bool_decide (x = "b"%char) || bool_decide (x = "B"%char) then Some (2%Z, s')
        else None
      else None
  | _ => None
  end.

Definition py_int0 (s : str) : res Z :=
  let (sg, body) := split_sign (strip s) in
  let v :=
    match base_prefix body with
    | Some (b, c :: digits) =>
        if bool_decide (c = "_"%char) then int_digits b 0 true digits
        else int_digits b 0 true (c :: digits)
    | Some (_, []) => None
    | None =>
        match int_digits 10 0 true body with
        | Some v => if (v =? 0)%Z || negb (startswith "0" body) then Some v else None
        | None => None
        end
    end in
  match v with
  | Some v => Ok (sg * v)%Z
  | None => Err (invalid_int "0" s)
  end.

Fixpoint uint_str (u : Decimal.uint) : str :=
  match u with
  | Decimal.Nil => []
  | Decimal.D0 u => "0"%char :: uint_str u
  | Decimal.D1 u => "1"%char :: uint_str u
  | Decimal.D2 u => "2"%char :: uint_str u
  | Decimal.D3 u => "3"%char :: uint_str u
  | Decimal.D4 u => "4"%char :: uint_str u
  | Decimal.D5 u => "5"%char :: uint_str u
  | Decimal.D6 u => "6"%char :: uint_str u
  | Decimal.D7 u => "7"%char :: uint_str u
  | Decimal.D8 u => "8"%char :: uint_str u
  | Decimal.D9 u => "9"%char :: uint_str u
  end.

(** [str(z)], and ["%d" % z] *)
Definition fmt_d (z : Z) : str :=
  match z with
  | Z0 => "0"
  | Zpos p => uint_str (Pos.to_uint p)
  | Zneg p => "-"%char :: uint_str (Pos.to_uint p)
  end.

(** ** Lemmas on ordering *)

Lemma code_inj c d : code c = code d -> c = d.
Proof.
  unfold code. intros H. rewrite <- (ascii_N_embedding c), <- (ascii_N_embedding d). congruence.
Qed.

Lemma str_leb_refl s : str_leb s s = true.
Proof.
  induction s as [|c s IH]; cbn; [done|]. rewrite IH, N.eqb_refl. by rewrite orb_true_r.
Qed.

Lemma str_leb_cons c s d t :
  str_leb (c :: s) (d :: t) = true <->
  (code c < code d)%N \/ (c = d /\ str_leb s t = true).
Proof.
  cbn. rewrite orb_true_iff, andb_true_iff, N.ltb_lt, N.eqb_eq.
  split; intros [H|[H1 H2]]; auto; right; split; auto using code_inj; congruence.
Qed.

#[export] Instance str_le_total : Total str_le.
Proof.
  unfold Total, str_le. intros s; induction s as [|c s IH]; intros [|d t]; [by left..| |].
  - by right.
  - rewrite !str_leb_cons. destruct (N.lt_trichotomy (code c) (code d)) as [H|[H|H]]; auto.
    apply code_inj in H as ->. destruct (IH t); auto.
Qed.

#[export] Instance str_le_antisymm : AntiSymm eq str_le.
Proof.
  unfold AntiSymm, str_le. intros s; induction s as [|c s IH]; intros [|d t]; try done.
  rewrite !str_leb_cons. intros [H1|[-> H1]] [H2|[E H2]]; try subst; try lia.
  f_equal. auto.
Qed.

#[export] Instance str_le_trans : Transitive str_le.
Proof.
  unfold Transitive, str_le. intros s; induction s as [|c s IH]; intros [|d t] [|e u]; try done.
  rewrite !str_leb_cons. intros [H1|[-> H1]] [H2|[-> H2]]; eauto; left; lia.
Qed.

Lemma elem_of_sorted l x : x ∈ sorted l <-> x ∈ l.
Proof. unfold sorted. by rewrite (merge_sort_Permutation str_le l). Qed.

Lemma sorted_perm l k : l ≡ₚ k -> sorted l = sorted k.
Proof.
  intros H. apply (Sorted_unique str_le); try apply Sorted_merge_sort, _.
  unfold sorted. by rewrite !merge_sort_Permutation.
Qed.

Lemma sorted_sorted l : sorted (sorted l) = sorted l.
Proof. apply sorted_perm. apply merge_sort_Permutation. Qed.
