(* ===== verification/Regex.v ===== *)
(** * The fragment of Python's [re] that the host tools use

    A backtracking matcher with greedy and lazy repetition, capturing groups
    and anchors, in the order in which CPython's engine tries alternatives.
    The patterns of the sources are values of [re]; [re_match], [re_search],
    [re_sub] and [re_findall] are the entry points the sources call. *)

From S2P Require Import Prelude PyStr.

(** ** Patterns *)

Inductive re : Type :=
| Eps
| Cls (p : ascii -> bool)
| Cat (r1 r2 : re)
| Alt (r1 r2 : re)
| Star (greedy : bool) (r : re)
| Grp (n : nat) (r : re)
| Bol (multiline : bool)
| Eol.

Definition Chr (c : ascii) : re := Cls (fun d => bool_decide (d = c)).
Definition OneOf (s : str) : re := Cls (fun d => bool_decide (d ∈ s)).
Definition NoneOf (s : str) : re := Cls (fun d => bool_decide (d ∉ s)).
Definition Plus (r : re) : re := Cat r (Star true r).
Definition Opt (r : re) : re := Alt r Eps.
Fixpoint Lit (s : str) : re :=
  match s with [] => Eps | c :: s => Cat (Chr c) (Lit s) end.
Fixpoint Seq (l : list re) : re :=
  match l with [] => Eps | [r] => r | r :: l => Cat r (Seq l) end.

Definition Space : re := Cls is_space.
Definition Word : re := Cls is_word.

(** ** Positions and captures

    A position is the character before it ([None] at the beginning of the
    text) and the text after it. *)

Record pos : Type := Pos { before : option ascii; rest : str }.
Definition start (s : str) : pos := Pos None s.
Definition step (c : ascii) (s : str) : pos := Pos (Some c) s.

Definition caps : Type := list (nat * str).

(** [m.group(n)] *)
Fixpoint group (cs : caps) (n : nat) : option str :=
  match cs with
  | [] => None
  | (k, s) :: cs => if (k =? n)%nat then Some s else group cs n
  end.

Definition at_bol (multiline : bool) (q : pos) : bool :=
  match before q with
  | None => true
  | Some c => multiline && bool_decide (c = newline)
  end.

Definition at_eol (q : pos) : bool :=
  match rest q with
  | [] => true
  | [c] => bool_decide (c = newline)
  | _ => false
  end.

(** ** The matcher *)

Section matcher.
Context {A : Type}.

(** Repetition: an iteration must consume something. *)
Fixpoint rstar (greedy : bool)
    (m : pos -> caps -> (pos -> caps -> option A) -> option A)
    (n : nat) (q : pos) (cs : caps) (k : pos -> caps -> option A) : option A :=
  match n with
  | 0 => k q cs
  | S n =>
      let more := fun _ : unit => m q cs (fun q' cs' =>
        if (length (rest q') <? length (rest q))%nat
        then rstar greedy m n q' cs' k else None) in
      if greedy
      then match more tt with Some x => Some x | None => k q cs end
      else match k q cs with Some x => Some x | None => more tt end
  end.

Fixpoint rmatch (r : re) (q : pos) (cs : caps)
    (k : pos -> caps -> option A) : option A :=
  match r with
  | Eps => k q cs
  | Cls p =>
      match rest q with
      | c :: s => if p c then k (step c s) cs else None
      | [] => None
      end
  | Cat r1 r2 => rmatch r1 q cs (fun q' cs' => rmatch r2 q' cs' k)
  | Alt r1 r2 =>
      match rmatch r1 q cs k with
      | Some x => Some x
      | None => rmatch r2 q cs k
      end
  | Star greedy r => rstar greedy (rmatch r) (S (length (rest q))) q cs k
  | Grp n r =>
      rmatch r q cs (fun q' cs' =>
        k q' ((n, take (length (rest q) - length (rest q')) (rest q)) :: cs'))
  | Bol multiline => if at_bol multiline q then k q cs else None
  | Eol => if at_eol q then k q cs else None
  end.
End matcher.

Definition match_at (r : re) (q : pos) : option (pos * caps) :=
  rmatch r q [] (fun q' cs => Some (q', cs)).

(** The text a match starting at [q] and ending at [q'] covers. *)
Definition covered (q q' : pos) : str :=
  take (length (rest q) - length (rest q')) (rest q).

(** [re.match(r, s)]: the text matched, the text after it, the groups. *)
Definition re_match (r : re) (s : str) : option (str * str * caps) :=
  match match_at r (start s) with
  | Some (q, cs) => Some (covered (start s) q, rest q, cs)
  | None => None
  end.

(** [re.search(r, s)]: the groups of the leftmost match. *)
Fixpoint search_from (r : re) (b : option ascii) (s : str) : option caps :=
  match match_at r (Pos b s) with
  | Some (_, cs) => Some cs
  | None => match s with
            | [] => None
            | c :: s' => search_from r (Some c) s'
            end
  end.
Definition re_search (r : re) (s : str) : option caps := search_from r None s.

(** [re.sub(r, f, s)] and [re.findall(r, s)]: leftmost matches, left to
    right, without overlap.  No pattern that the sources pass to them matches
    the empty text, and an empty match is skipped here. *)
Section scan.
Context (r : re).

Definition consuming (q : pos) : option (pos * caps) :=
  match match_at r q with
  | Some (q', cs) =>
      if (length (rest q') <? length (rest q))%nat then Some (q', cs) else None
  | None => None
  end.

Fixpoint sub_from (f : caps -> str) (n : nat) (q : pos) : str :=
  match n with
  | 0 => rest q
  | S n =>
      match rest q with
      | [] => []
      | c :: s =>
          match consuming q with
          | Some (q', cs) => f cs ++ sub_from f n q'
          | None => c :: sub_from f n (step c s)
          end
      end
  end.

Fixpoint findall_from (n : nat) (q : pos) : list caps :=
  match n with
  | 0 => []
  | S n =>
      match rest q with
      | [] => []
      | c :: s =>
          match consuming q with
          | Some (q', cs) => cs :: findall_from n q'
          | None => findall_from n (step c s)
          end
      end
  end.
End scan.

Definition re_sub (r : re) (f : caps -> str) (s : str) : str :=
  sub_from r f (S (length s)) (start s).

Definition re_findall (r : re) (s : str) : list caps :=
  findall_from r (S (length s)) (start s).

(** ** Soundness: a match consumes a prefix *)

(** [q'] is reached from [q] by consuming characters. *)
Definition reaches (q q' : pos) : Prop :=
  exists l, rest q = l ++ rest q' /\
            before q' = match last l with Some c => Some c | None => before q end.

Lemma reaches_refl q : reaches q q.
Proof. by exists []. Qed.

Lemma reaches_trans q1 q2 q3 : reaches q1 q2 -> reaches q2 q3 -> reaches q1 q3.
Proof.
  intros (l1 & H1 & B1) (l2 & H2 & B2). exists (l1 ++ l2). split.
  - by rewrite H1, H2, app_assoc.
  - rewrite last_app, B2, B1. by destruct (last l2).
Qed.

Lemma reaches_step q c s : rest q = c :: s -> reaches q (step c s).
Proof. intros H. exists [c]. by rewrite H. Qed.

#[export] Hint Resolve reaches_refl reaches_step : pylib.

Lemma rstar_reaches {A} g (m : pos -> caps -> (pos -> caps -> option A) -> option A) n :
  (forall q cs k x, m q cs k = Some x ->
     exists q' cs', reaches q q' /\ k q' cs' = Some x) ->
  forall q cs k x, rstar g m n q cs k = Some x ->
    exists q' cs', reaches q q' /\ k q' cs' = Some x.
Proof.
  intros Hm. induction n as [|n IH]; intros q cs k x H; cbn in H; [eauto with pylib|].
  set (more := m q cs _) in H.
  assert (Hmore : more = Some x -> exists q' cs', reaches q q' /\ k q' cs' = Some x).
  { intros E. apply Hm in E as (q1 & cs1 & R1 & E).
    destruct (_ <? _)%nat; [|done]. apply IH in E as (q2 & cs2 & R2 & E).
    eauto using reaches_trans. }
  destruct g; [destruct more eqn:E|destruct (k q cs) eqn:E];
    try (injection H as <-); eauto with pylib.
Qed.

Lemma rmatch_reaches {A} r : forall q cs (k : pos -> caps -> option A) x,
  rmatch r q cs k = Some x -> exists q' cs', reaches q q' /\ k q' cs' = Some x.
Proof.
  induction r as [|p|r1 IH1 r2 IH2|r1 IH1 r2 IH2|g r IH|n r IH|ml|];
    intros q cs k x H; cbn [rmatch] in H.
  - eauto with pylib.
  - destruct (rest q) as [|c s] eqn:E; [done|]. destruct (p c); [|done].
    eauto with pylib.
  - apply IH1 in H as (q1 & cs1 & R1 & H). apply IH2 in H as (q2 & cs2 & R2 & H).
    eauto using reaches_trans.
  - destruct (rmatch r1 q cs k) eqn:E; [injection H as <-|]; eauto.
  - eapply rstar_reaches; eauto.
  - apply IH in H as (q1 & cs1 & R1 & H). eauto.
  - destruct (at_bol ml q); [eauto with pylib|done].
  - destruct (at_eol q); [eauto with pylib|done].
Qed.

Lemma match_at_reaches r q q' cs : match_at r q = Some (q', cs) -> reaches q q'.
Proof.
  unfold match_at. intros H. apply rmatch_reaches in H as (q1 & cs1 & R & H).
  by injection H as -> ->.
Qed.

Lemma covered_app q q' : reaches q q' -> covered q q' ++ rest q' = rest q.
Proof.
  intros (l & H & _). unfold covered. rewrite H, length_app.
  replace (length l + length (rest q') - length (rest q')) with (length l) by lia.
  by rewrite take_app_length.
Qed.

(** What [re.match] returns splits the text. *)
Lemma re_match_split r s m t cs : re_match r s = Some (m, t, cs) -> s = m ++ t.
Proof.
  unfold re_match. destruct (match_at r (start s)) as [[q cs']|] eqn:E; [|done].
  intros [= <- <- <-]. apply match_at_reaches in E. by rewrite (covered_app _ _ E).
Qed.

(** ** Repetition of a character class *)

(** The position after the longest run of [p] characters. *)
Definition skip (p : ascii -> bool) (q : pos) : pos :=
  Pos (match last (take_while p (rest q)) with Some c => Some c | None => before q end)
      (drop_while p (rest q)).

Lemma skip_stop p q : match rest q with [] => True | c :: _ => p c = false end ->
  skip p q = q.
Proof.
  unfold skip. destruct q as [b [|c s]]; cbn; [done|]. by intros ->.
Qed.

Lemma skip_step p q c s : rest q = c :: s -> p c = true -> skip p q = skip p (step c s).
Proof.
  intros H Hc. unfold skip. rewrite H. cbn. rewrite Hc. f_equal.
  rewrite last_cons. by destruct (last (take_while p s)).
Qed.

Section star_class.
Context {A : Type} (p : ascii -> bool).
Implicit Types k : pos -> caps -> option A.

Lemma rstar_cls_unfold g n q cs k c s : rest q = c :: s ->
  rstar g (rmatch (Cls p)) (S n) q cs k =
    if p c then
      if g then match rstar g (rmatch (Cls p)) n (step c s) cs k with
                | Some x => Some x | None => k q cs end
      else match k q cs with
           | Some x => Some x | None => rstar g (rmatch (Cls p)) n (step c s) cs k end
    else k q cs.
Proof.
  intros H. cbn. rewrite H. cbn. destruct (p c); cbn.
  - replace (length s <? S (length s))%nat with true; [done|].
    symmetry. apply Nat.ltb_lt. lia.
  - destruct g; [done|]. by destruct (k q cs).
Qed.

Lemma rstar_cls_nil g n q cs k : rest q = [] ->
  rstar g (rmatch (Cls p)) n q cs k = k q cs.
Proof.
  intros H. destruct n; cbn; [done|]. rewrite H.
  destruct g; [done|]. by destruct (k q cs).
Qed.

(** Greedy and deterministic: when the continuation refuses to start on a
    [p] character, the run is consumed whole. *)
Lemma rstar_cls_greedy n q cs k : length (rest q) <= n ->
  (forall q', match rest q' with c :: _ => p c = true -> k q' cs = None | [] => True end) ->
  rstar true (rmatch (Cls p)) n q cs k = k (skip p q) cs.
Proof.
  intros Hn Hk. revert q Hn. induction n as [|n IH]; intros q Hn.
  - destruct (rest q) eqn:E; [|cbn in Hn; lia].
    cbn. rewrite skip_stop; [done|]. by rewrite E.
  - destruct (rest q) as [|c s] eqn:E.
    + rewrite rstar_cls_nil by done. rewrite skip_stop; [done|]. by rewrite E.
    + rewrite (rstar_cls_unfold _ _ _ _ _ _ _ E).
      destruct (p c) eqn:Hc.
      * rewrite IH by (cbn in *; lia). rewrite (skip_step _ _ _ _ E Hc).
        destruct (k (skip p (step c s)) cs) eqn:Ek; [done|].
        specialize (Hk q). rewrite E in Hk. auto.
      * rewrite skip_stop; [done|]. by rewrite E.
Qed.

Lemma star_cls_greedy q cs k :
  (forall q', match rest q' with c :: _ => p c = true -> k q' cs = None | [] => True end) ->
  rmatch (Star true (Cls p)) q cs k = k (skip p q) cs.
Proof. intros Hk. cbn [rmatch]. apply rstar_cls_greedy; [lia|done]. Qed.

(** Greedy: when the continuation accepts after the whole run, that is the match. *)
Lemma star_cls_accept q cs k x :
  k (skip p q) cs = Some x -> rmatch (Star true (Cls p)) q cs k = Some x.
Proof.
  cbn [rmatch]. generalize (Nat.le_succ_diag_r (length (rest q))).
  generalize (S (length (rest q))). intros n Hn. revert q Hn.
  induction n as [|n IH]; intros q Hn Hk.
  - destruct (rest q) eqn:E; [|cbn in Hn; lia].
    cbn. rewrite skip_stop in Hk; [done|]. by rewrite E.
  - destruct (rest q) as [|c s] eqn:E.
    + rewrite rstar_cls_nil by done. rewrite skip_stop in Hk; [done|]. by rewrite E.
    + rewrite (rstar_cls_unfold _ _ _ _ _ _ _ E). destruct (p c) eqn:Hc.
      * rewrite IH; [done|cbn in *; lia|]. by rewrite <- (skip_step _ _ _ _ E Hc).
      * rewrite skip_stop in Hk; [done|]. by rewrite E.
Qed.
End star_class.

(** A literal matches exactly itself. *)
Lemma rmatch_lit {A} l : forall q cs (k : pos -> caps -> option A),
  rmatch (Lit l) q cs k =
    if startswith l (rest q)
    then k (Pos (match last l with Some c => Some c | None => before q end)
                (drop (length l) (rest q))) cs
    else None.
Proof.
  induction l as [|c l IH]; intros [b s] cs k.
  - cbn. by rewrite drop_0.
  - cbn [Lit rmatch Chr rest startswith]. destruct s as [|d s]; [done|].
    destruct (decide (d = c)) as [->|Hne].
    + rewrite !bool_decide_eq_true_2 by done. cbn [andb].
      rewrite IH. cbn [rest step before length drop].
      destruct (startswith l s); [|done]. f_equal. f_equal.
      rewrite last_cons. by destruct (last l).
    + rewrite !bool_decide_eq_false_2 by congruence. done.
Qed.

(** ** One step of the matcher *)

Section steps.
Context {A : Type}.
Implicit Types k : pos -> caps -> option A.

Lemma rmatch_cat r1 r2 q cs k :
  rmatch (Cat r1 r2) q cs k = rmatch r1 q cs (fun q' cs' => rmatch r2 q' cs' k).
Proof. done. Qed.

Lemma rmatch_opt r q cs k :
  rmatch (Opt r) q cs k = match rmatch r q cs k with Some x => Some x | None => k q cs end.
Proof. done. Qed.

Lemma rmatch_grp n r q cs k :
  rmatch (Grp n r) q cs k = rmatch r q cs (fun q' cs' => k q' ((n, covered q q') :: cs')).
Proof. done. Qed.

Lemma rmatch_cls p q cs k :
  rmatch (Cls p) q cs k =
    match rest q with c :: s => if p c then k (step c s) cs else None | [] => None end.
Proof. done. Qed.

Lemma rmatch_chr_yes c b s cs k : rmatch (Chr c) (Pos b (c :: s)) cs k = k (step c s) cs.
Proof. unfold Chr. rewrite rmatch_cls. cbn. by rewrite bool_decide_eq_true_2. Qed.

Lemma rmatch_chr_no c q cs k :
  match rest q with d :: _ => d <> c | [] => True end -> rmatch (Chr c) q cs k = None.
Proof.
  unfold Chr. rewrite rmatch_cls. destruct (rest q) as [|d s]; [done|]. intros H.
  by rewrite bool_decide_eq_false_2.
Qed.
End steps.
