(* ===== verification/PyDict.v ===== *)
(** * Python dictionaries

    A [dict] is an association list in insertion order: assigning to a key
    that is present keeps its place, a new key goes last. *)

From S2P Require Import Prelude.

Abbreviation dict K V := (list (K * V)).

Section dict.
Context {K V : Type} `{EqDecision K}.
Implicit Types (d : dict K V) (k : K) (v : V).

(** [d.get(k)] *)
Fixpoint dget d k : option V :=
  match d with
  | [] => None
  | (k', v) :: d => if decide (k' = k) then Some v else dget d k
  end.

(** [k in d] *)
Definition dmem d k : bool :=
  match dget d k with Some _ => true | None => false end.

(** [d[k] = v] *)
Fixpoint dset d k v : dict K V :=
  match d with
  | [] => [(k, v)]
  | (k', v') :: d => if decide (k' = k) then (k', v) :: d else (k', v') :: dset d k v
  end.

(** [del d[k]], for a key that is present *)
Fixpoint ddel d k : dict K V :=
  match d with
  | [] => []
  | (k', v') :: d => if decide (k' = k) then d else (k', v') :: ddel d k
  end.

Definition dkeys d : list K := fst <$> d.

(** [dict(pairs)]: a repeated key keeps its first place and its last value. *)
Definition dict_of (l : list (K * V)) : dict K V :=
  foldl (fun d kv => dset d (fst kv) (snd kv)) [] l.

Lemma dget_dset d k v k' :
  dget (dset d k v) k' = if decide (k = k') then Some v else dget d k'.
Proof.
  induction d as [|[k0 v0] d IH]; cbn.
  - repeat case_decide; congruence.
  - destruct (decide (k0 = k)); cbn; rewrite ?IH; repeat case_decide; congruence.
Qed.

Lemma dget_dset_eq d k v : dget (dset d k v) k = Some v.
Proof. rewrite dget_dset. by case_decide. Qed.

Lemma dget_dset_ne d k v k' : k <> k' -> dget (dset d k v) k' = dget d k'.
Proof. intros. rewrite dget_dset. by case_decide. Qed.

Lemma dmem_dkeys d k : dmem d k = true <-> k ∈ dkeys d.
Proof.
  unfold dmem, dkeys. induction d as [|[k0 v0] d IH]; cbn.
  - split; [done|]. by intros ?%elem_of_nil.
  - rewrite elem_of_cons. case_decide; [|rewrite IH]; clear IH; naive_solver.
Qed.

Lemma dget_None d k : dget d k = None <-> k ∉ dkeys d.
Proof.
  rewrite <- dmem_dkeys. unfold dmem. destruct (dget d k); naive_solver.
Qed.

Lemma dget_Some_elem d k v : dget d k = Some v -> (k, v) ∈ d.
Proof.
  induction d as [|[k0 v0] d IH]; cbn; [done|].
  case_decide; [intros [= ->]; subst; constructor | intros; right; auto].
Qed.

Lemma dget_elem d k v : NoDup (dkeys d) -> (k, v) ∈ d -> dget d k = Some v.
Proof.
  induction d as [|[k0 v0] d IH]; cbn; [by intros _ ?%elem_of_nil|].
  intros [Hn Hd]%NoDup_cons Hin%elem_of_cons.
  destruct Hin as [[= <- <-]|Hin]; [by case_decide|].
  case_decide as E; [|auto]. subst. destruct Hn.
  apply list_elem_of_fmap. by exists (k, v).
Qed.

Lemma dkeys_dset d k v :
  dkeys (dset d k v) = if decide (k ∈ dkeys d) then dkeys d else dkeys d ++ [k].
Proof.
  unfold dkeys. induction d as [|[k0 v0] d IH]; cbn.
  - case_decide as E; [by apply elem_of_nil in E|done].
  - destruct (decide (k0 = k)); cbn; rewrite ?IH; repeat case_decide; set_solver.
Qed.

Lemma NoDup_dset d k v : NoDup (dkeys d) -> NoDup (dkeys (dset d k v)).
Proof.
  intros H. rewrite dkeys_dset. case_decide; [done|].
  apply NoDup_app; split_and!; [done|set_solver|apply NoDup_singleton].
Qed.

Lemma elem_of_dkeys_dset d k v k' : k' ∈ dkeys (dset d k v) <-> k' = k \/ k' ∈ dkeys d.
Proof. rewrite dkeys_dset. case_decide; set_solver. Qed.

Lemma dset_fresh d k v : k ∉ dkeys d -> dset d k v = d ++ [(k, v)].
Proof.
  unfold dkeys. induction d as [|[k0 v0] d IH]; cbn; [done|]. intros Hk.
  case_decide; [set_solver|]. rewrite IH; set_solver.
Qed.

Lemma ddel_gone d k : NoDup (dkeys d) -> k ∉ dkeys (ddel d k).
Proof.
  unfold dkeys. induction d as [|[k0 v0] d IH]; cbn; [intros _; by intros ?%elem_of_nil|].
  intros [Hn Hd]%NoDup_cons. case_decide as E; [by subst|]. cbn. set_solver.
Qed.

Lemma NoDup_ddel d k : NoDup (dkeys d) -> NoDup (dkeys (ddel d k)).
Proof.
  unfold dkeys. induction d as [|[k0 v0] d IH]; cbn; [done|]. intros [Hn Hd]%NoDup_cons.
  case_decide; [done|]. cbn. constructor; [|by apply IH].
  intros ([k1 v1] & E & H1)%list_elem_of_fmap. cbn in E. subst k1. apply Hn.
  apply list_elem_of_fmap. exists (k0, v1). split; [done|]. clear -H1.
  induction d as [|[k2 v2] d IHd]; [done|]. cbn in H1. case_decide; [by right|].
  apply elem_of_cons in H1 as [->|H1]; [left|right; by apply IHd].
Qed.

Lemma dget_ddel d k k' : k <> k' -> dget (ddel d k) k' = dget d k'.
Proof.
  intros Hk. induction d as [|[k0 v0] d IH]; [done|]. cbn.
  destruct (decide (k0 = k)); cbn; repeat case_decide; subst; done.
Qed.

Lemma dict_of_snoc l k v : dict_of (l ++ [(k, v)]) = dset (dict_of l) k v.
Proof. unfold dict_of. by rewrite foldl_snoc. Qed.

Lemma dkeys_dict_of l k : k ∈ dkeys (dict_of l) <-> k ∈ l.*1.
Proof.
  induction l as [|[k0 v0] l IH] using rev_ind; [done|].
  rewrite dict_of_snoc, elem_of_dkeys_dset, fmap_app, elem_of_app, IH. set_solver.
Qed.

Lemma NoDup_dict_of l : NoDup (dkeys (dict_of l)).
Proof.
  induction l as [|[k v] l IH] using rev_ind; [constructor|].
  rewrite dict_of_snoc. by apply NoDup_dset.
Qed.

(** A dict built from pairs with distinct keys is the list of pairs. *)
Lemma dict_of_NoDup l : NoDup (l.*1) -> dict_of l = l.
Proof.
  induction l as [|[k v] l IH] using rev_ind; [done|].
  rewrite fmap_app. intros (Hl & Hk & _)%NoDup_app.
  rewrite dict_of_snoc, IH by done. apply dset_fresh. unfold dkeys. set_solver.
Qed.

Lemma dget_dict_of_elem l k v : dget (dict_of l) k = Some v -> (k, v) ∈ l.
Proof.
  induction l as [|[k0 v0] l IH] using rev_ind; [done|].
  rewrite dict_of_snoc, dget_dset. case_decide; [|set_solver].
  intros [= ->]. subst. set_solver.
Qed.

Lemma dget_app d1 d2 k :
  dget (d1 ++ d2) k = match dget d1 k with Some v => Some v | None => dget d2 k end.
Proof. induction d1 as [|[k0 v0] d1 IH]; cbn; [done|]. by case_decide. Qed.
End dict.

(** ** Dictionaries with the same bindings

    Two dicts that answer every lookup alike are [≡d], whatever their order. *)

Definition dict_equiv {K V} `{EqDecision K} (d1 d2 : dict K V) : Prop :=
  forall k, dget d1 k = dget d2 k.
Infix "≡d" := dict_equiv (at level 70).

#[export] Instance dict_equiv_equivalence {K V} `{EqDecision K} :
  Equivalence (@dict_equiv K V _).
Proof. split; unfold dict_equiv; congruence. Qed.

#[export] Instance dget_proper {K V} `{EqDecision K} :
  Proper (dict_equiv ==> eq ==> eq) (@dget K V _).
Proof. by intros d1 d2 H k ? <-. Qed.

#[export] Instance dmem_proper {K V} `{EqDecision K} :
  Proper (dict_equiv ==> eq ==> eq) (@dmem K V _).
Proof. intros d1 d2 H k ? <-. unfold dmem. by rewrite H. Qed.

#[export] Instance dset_proper {K V} `{EqDecision K} :
  Proper (dict_equiv ==> eq ==> eq ==> dict_equiv) (@dset K V _).
Proof. intros d1 d2 H k ? <- v ? <- k'. rewrite !dget_dset. by rewrite H. Qed.

(** Equal bindings and the same set of keys up to order. *)
Lemma dict_equiv_perm {K V} `{EqDecision K} (d1 d2 : dict K V) :
  NoDup (dkeys d1) -> NoDup (dkeys d2) -> d1 ≡d d2 -> d1 ≡ₚ d2.
Proof.
  intros N1 N2 H. apply NoDup_Permutation.
  - by apply (NoDup_fmap_1 fst).
  - by apply (NoDup_fmap_1 fst).
  - intros [k v]. split; intros Hin.
    + apply dget_Some_elem. rewrite <- H. by apply dget_elem.
    + apply dget_Some_elem. rewrite H. by apply dget_elem.
Qed.

#[export] Hint Resolve NoDup_dset NoDup_dict_of : pylib.

(** With distinct keys, the order of the bindings does not matter. *)
Lemma dget_perm {K V} `{EqDecision K} (d1 d2 : dict K V) k :
  NoDup (dkeys d1) -> d1 ≡ₚ d2 -> dget d1 k = dget d2 k.
Proof.
  intros N P. assert (N2 : NoDup (dkeys d2)) by (unfold dkeys in *; by rewrite <- P).
  destruct (dget d2 k) as [v|] eqn:E.
  - apply dget_elem; [done|]. rewrite P. by apply dget_Some_elem.
  - apply dget_None. apply dget_None in E. unfold dkeys in *. by rewrite P.
Qed.

(** ** Dicts filled by a loop *)

Section fill.
Context {K V : Type} `{EqDecision K}.

(** The value last assigned to [k] by a list of assignments. *)
Definition last_value (l : list (K * V)) (k : K) : option V :=
  snd <$> List.find (fun kv => bool_decide (fst kv = k)) (reverse l).

Lemma last_value_snoc l k v k' :
  last_value (l ++ [(k, v)]) k' = if decide (k = k') then Some v else last_value l k'.
Proof.
  unfold last_value. rewrite reverse_snoc. cbn. case_bool_decide; by case_decide.
Qed.

Lemma dget_foldl_dset (l : list (K * V)) d k :
  dget (foldl (fun d kv => dset d (fst kv) (snd kv)) d l) k =
    match last_value l k with Some v => Some v | None => dget d k end.
Proof.
  induction l as [|[k0 v0] l IH] using rev_ind; [done|].
  rewrite foldl_snoc, last_value_snoc. cbn. rewrite dget_dset, IH. by case_decide.
Qed.

Lemma dget_dict_of (l : list (K * V)) k : dget (dict_of l) k = last_value l k.
Proof. unfold dict_of. rewrite dget_foldl_dset. by destruct (last_value l k). Qed.

Lemma last_value_None (l : list (K * V)) k : last_value l k = None <-> k ∉ l.*1.
Proof. by rewrite <- dget_dict_of, dget_None, dkeys_dict_of. Qed.

Lemma last_value_elem (l : list (K * V)) k v : last_value l k = Some v -> (k, v) ∈ l.
Proof. rewrite <- dget_dict_of. apply dget_dict_of_elem. Qed.
End fill.
