(* ===== verification/PyStrFacts.v ===== *)
(** * Facts about Python strings and integers

    [int] reads back what [%d] prints, [strip] and [isdigit] on digits,
    [partition] at the first separator, [split] and [join]. *)

From Stdlib Require DecimalPos.
From S2P Require Import Prelude PyStr.

(** ** Decimal numerals *)

Lemma uint_str_decimal u : Forall (fun c => is_decimal c = true) (uint_str u).
Proof. induction u; cbn; repeat constructor; done. Qed.

Lemma decimal_not_space c : is_decimal c = true -> is_space c = false.
Proof.
  unfold is_decimal, is_space, in_range. rewrite andb_true_iff, !N.leb_le. intros [H1 H2].
  repeat (apply orb_false_iff; split); try (apply andb_false_iff; rewrite !N.leb_gt; lia);
    apply N.eqb_neq; lia.
Qed.

Lemma decimal_sign c : is_decimal c = true -> c <> "-"%char /\ c <> "+"%char /\ c <> "_"%char.
Proof. intros H. split_and!; intros ->; vm_compute in H; done. Qed.

Lemma lstrip_id s : Forall (fun c => is_space c = false) s -> lstrip s = s.
Proof.
  intros H. unfold lstrip. destruct H as [|c s Hc]; [done|]. by apply drop_while_stop.
Qed.

Lemma rstrip_id s : Forall (fun c => is_space c = false) s -> rstrip s = s.
Proof.
  intros H. unfold rstrip. assert (drop_while is_space (reverse s) = reverse s) as ->.
  { apply (lstrip_id (reverse s)). by apply Forall_reverse. }
  apply reverse_involutive.
Qed.

Lemma strip_id s : Forall (fun c => is_space c = false) s -> strip s = s.
Proof. intros H. unfold strip. by rewrite (lstrip_id s), rstrip_id. Qed.

Lemma strip_decimal s : Forall (fun c => is_decimal c = true) s -> strip s = s.
Proof. intros H. apply strip_id. eapply Forall_impl; [done|]. apply decimal_not_space. Qed.

Lemma split_sign_decimal s : Forall (fun c => is_decimal c = true) s -> split_sign s = (1%Z, s).
Proof.
  intros [|c s' Hc _]; [done|]. apply decimal_sign in Hc as (H1 & H2 & _). cbn.
  by rewrite !bool_decide_eq_false_2.
Qed.

Lemma int_digits_step c acc us s :
  is_decimal c = true ->
  int_digits 10 acc us (c :: s) = int_digits 10 (acc * 10 + (Z.of_N (code c) - 48)) false s.
Proof.
  intros H. cbn [int_digits]. unfold digit_val. pose proof (decimal_sign c H) as (_ & _ & Hu).
  rewrite bool_decide_eq_false_2, H by done.
  unfold is_decimal, in_range in H. apply andb_true_iff in H. rewrite !N.leb_le in H.
  assert ((Z.of_N (code c) - 48 <? 10)%Z = true) as -> by (apply Z.ltb_lt; lia). done.
Qed.

Ltac digit_step :=
  cbn [uint_str]; rewrite int_digits_step by reflexivity;
  match goal with |- context [(Z.of_N ?n - 48)%Z] =>
    let v := eval vm_compute in (Z.of_N n - 48)%Z in change (Z.of_N n - 48)%Z with v
  end.

Lemma int_digits_acc u : forall acc us, (u = Decimal.Nil -> us = false) ->
  int_digits 10 (Zpos acc) us (uint_str u) = Some (Zpos (Pos.of_uint_acc u acc)).
Proof.
  induction u; intros acc us H; [cbn; by rewrite H|digit_step..];
    cbn [Pos.of_uint_acc]; rewrite <- IHu with (us := false) by done; f_equal; lia.
Qed.

Lemma int_digits_pos p : int_digits 10 0 true (uint_str (Pos.to_uint p)) = Some (Zpos p).
Proof.
  assert (H : forall u n, Pos.of_uint u = N.pos n -> forall us,
    int_digits 10 0 us (uint_str u) = Some (Zpos n)).
  { induction u; intros n Hn us; cbn in Hn; [done|digit_step..];
      rewrite Z.mul_0_l, Z.add_0_l; [by apply IHu|..];
      injection Hn as <-; by rewrite <- int_digits_acc with (us := false). }
  apply H. apply (DecimalPos.Unsigned.of_to p).
Qed.

(** [int(str(z)) == z] *)
Lemma py_int_fmt_d z : py_int (fmt_d z) = Ok z.
Proof.
  unfold py_int. destruct z as [|p|p]; [done|..]; cbn [fmt_d].
  - rewrite strip_decimal, split_sign_decimal by apply uint_str_decimal.
    rewrite int_digits_pos. by rewrite Z.mul_1_l.
  - rewrite strip_id.
    + cbn [split_sign]. rewrite bool_decide_eq_true_2 by done. rewrite int_digits_pos. done.
    + constructor; [done|]. eapply Forall_impl; [apply uint_str_decimal|]. apply decimal_not_space.
Qed.

Lemma fmt_d_inj z z' : fmt_d z = fmt_d z' -> z = z'.
Proof. intros H. apply (f_equal py_int) in H. rewrite !py_int_fmt_d in H. by injection H. Qed.

Lemma uint_str_nil u : uint_str u = [] -> u = Decimal.Nil.
Proof. by destruct u. Qed.

Lemma fmt_d_nonneg z : (0 <= z)%Z -> Forall (fun c => is_decimal c = true) (fmt_d z) /\ fmt_d z <> [].
Proof.
  intros Hz. destruct z as [|p|p]; [|cbn [fmt_d]|lia].
  - split; [repeat constructor|done].
  - split; [apply uint_str_decimal|]. intros H%uint_str_nil.
    pose proof (int_digits_pos p) as E. rewrite H in E. done.
Qed.

Lemma fmt_d_chars z : Forall (fun c => is_decimal c = true \/ c = "-"%char) (fmt_d z).
Proof.
  assert (H : forall u, Forall (fun c => is_decimal c = true \/ c = "-"%char) (uint_str u)).
  { intros u. eapply Forall_impl; [apply uint_str_decimal|]. by left. }
  destruct z; cbn; [by repeat constructor; left|apply H|constructor; [by right|apply H]].
Qed.

Lemma isdigit_fmt_d z : (0 <= z)%Z -> isdigit (fmt_d z) = true.
Proof.
  intros [H Hn]%fmt_d_nonneg. unfold isdigit. destruct (fmt_d z); [done|].
  apply forallb_forall. rewrite List.Forall_forall in H. intros c Hc. unfold is_digit.
  by rewrite H.
Qed.

(** ** Searching *)

Lemma startswith_app p s : startswith p (p ++ s) = true.
Proof. induction p as [|c p IH]; cbn; [done|]. by rewrite bool_decide_eq_true_2. Qed.

Lemma startswith_spec p s : startswith p s = true <-> exists t, s = p ++ t.
Proof.
  revert s; induction p as [|c p IH]; intros s; cbn; [by split; eauto|].
  destruct s as [|d s]; [split; [done|by intros [t ?]]|].
  rewrite andb_true_iff, bool_decide_eq_true, IH. split.
  - intros [-> [t ->]]. eauto.
  - intros [t [= -> ->]]. eauto.
Qed.

Lemma find_char c s : find [c] s = None <-> c ∉ s.
Proof.
  induction s as [|d s IH]; cbn; [set_solver|]. rewrite andb_true_r.
  case_bool_decide as E; [set_solver|]. rewrite fmap_None, IH. set_solver.
Qed.

Lemma contains_char c s : contains [c] s = true <-> c ∈ s.
Proof.
  unfold contains. pose proof (find_char c s) as H. destruct (find [c] s); split; try done.
  - intros _. destruct (decide (c ∈ s)); [done|]. by apply H in n0.
  - intros Hc. by destruct (proj1 H eq_refl).
Qed.

Lemma find_char_app c a b : c ∉ a -> find [c] (a ++ c :: b) = Some (length a).
Proof.
  induction a as [|d a IH]; cbn; intros H.
  - by rewrite bool_decide_eq_true_2.
  - rewrite bool_decide_eq_false_2 by set_solver. cbn. rewrite IH by set_solver. done.
Qed.

(** The separator of [partition] is its first occurrence. *)
Lemma partition_char c a b : c ∉ a -> partition [c] (a ++ c :: b) = (a, [c], b).
Proof.
  intros H. unfold partition. rewrite find_char_app by done.
  rewrite take_app_length, <- drop_drop, drop_app_length. done.
Qed.

Lemma partition_char_before c s : c ∉ fst (fst (partition [c] s)).
Proof.
  destruct (decide (c ∈ s)) as [Hc|Hc].
  - apply list_elem_of_split_l in Hc as (a & b & -> & Ha). by rewrite partition_char.
  - unfold partition. by rewrite (proj2 (find_char c s) Hc).
Qed.

Lemma find_2_app c d a b :
  c <> d -> contains [c; d] a = false -> find [c; d] (a ++ c :: d :: b) = Some (length a).
Proof.
  intros Hcd. unfold contains. induction a as [|x a IH]; intros H.
  - pose proof (startswith_app [c; d] b) as E. cbn [app] in *. cbn [find]. by rewrite E.
  - assert (startswith [c; d] (x :: a ++ c :: d :: b) = false) as E.
    { apply not_true_is_false. intros (t & [= -> Ht])%startswith_spec.
      destruct a as [|y a]; injection Ht as <- Ht; [done|].
      pose proof (startswith_app [c; y] a) as E. cbn [app] in E. cbn [find] in H. by rewrite E in H. }
    change ((x :: a) ++ c :: d :: b) with (x :: (a ++ c :: d :: b)).
    cbn [find]. rewrite E. rewrite IH; [done|].
    cbn [find] in H. destruct (startswith [c; d] (x :: a)); [done|].
    by destruct (find [c; d] a).
Qed.

(** What is found is there. *)
Lemma find_split p s k : find p s = Some k -> s = take k s ++ p ++ drop (k + length p) s.
Proof.
  revert k; induction s as [|c s IH]; intros k; cbn [find].
  - destruct (startswith p []) eqn:E; [|done]. intros [= <-]. apply startswith_spec in E as [t Ht].
    destruct p; [by rewrite drop_nil|done].
  - destruct (startswith p (c :: s)) eqn:E.
    + intros [= <-]. apply startswith_spec in E as [t Ht]. rewrite Ht. cbn [take Nat.add app].
      by rewrite drop_app_length.
    + destruct (find p s) as [j|]; [|done]. intros [= <-]. cbn. f_equal. by apply IH.
Qed.

Lemma partition_2 c d a b :
  c <> d -> contains [c; d] a = false -> partition [c; d] (a ++ [c; d] ++ b) = (a, [c; d], b).
Proof.
  intros Hcd H. unfold partition. change (a ++ [c; d] ++ b) with (a ++ c :: d :: b). rewrite find_2_app by done.
  rewrite take_app_length, <- drop_drop, drop_app_length. done.
Qed.

(** ** [int] of digit strings *)

Lemma digit_val_range c d : digit_val c = Some d -> (d <? 10)%Z = true -> is_decimal c = true.
Proof.
  unfold digit_val. destruct (is_decimal c) eqn:E; [done|].
  destruct (in_range 97 122 c) eqn:E1.
  { intros [= <-] H%Z.ltb_lt. unfold in_range in E1. bool_hyps. rewrite !N.leb_le in *. lia. }
  destruct (in_range 65 90 c) eqn:E2; [|done].
  intros [= <-] H%Z.ltb_lt. unfold in_range in E2. bool_hyps. rewrite !N.leb_le in *. lia.
Qed.

Lemma digit_not_space c : is_digit c = true -> is_space c = false /\ c <> "-"%char /\ c <> "+"%char /\ c <> "_"%char.
Proof.
  intros H. split_and!; try (intros ->; vm_compute in H; done).
  destruct (is_decimal c) eqn:Ed; [by apply decimal_not_space|].
  unfold is_digit in H. rewrite Ed in H. cbn in H. unfold is_space, in_range in *.
  apply orb_true_iff in H. rewrite andb_true_iff, !N.leb_le, N.eqb_eq in H.
  repeat (apply orb_false_iff; split); try (apply andb_false_iff; rewrite !N.leb_gt; lia);
    apply N.eqb_neq; lia.
Qed.

Lemma isdigit_Forall s : isdigit s = true -> s <> [] /\ Forall (fun c => is_digit c = true) s.
Proof.
  unfold isdigit. destruct s as [|c s]; [done|]. intros H. split; [done|].
  rewrite List.Forall_forall. by apply forallb_forall.
Qed.

Lemma int_digits_decimal s : forall acc us v,
  Forall (fun c => c <> "_"%char) s -> int_digits 10 acc us s = Some v -> (0 <= acc)%Z ->
  Forall (fun c => is_decimal c = true) s /\ (acc <= v)%Z.
Proof.
  induction s as [|c s IH]; intros acc us v HF H Ha; cbn in H.
  - destruct us; [done|]. injection H as <-. split; [constructor|lia].
  - apply Forall_cons in HF as [Hc HF]. rewrite bool_decide_eq_false_2 in H by done.
    destruct (digit_val c) as [d|] eqn:Ed; [|done]. destruct (d <? 10)%Z eqn:Hd; [|done].
    pose proof (digit_val_range c d Ed Hd) as Hdec.
    assert (0 <= d)%Z.
    { unfold digit_val in Ed. rewrite Hdec in Ed. injection Ed as <-.
      unfold is_decimal, in_range in Hdec. bool_hyps. rewrite !N.leb_le in *. lia. }
    apply IH in H as [HFd Hv]; [|done|lia]. split; [by constructor|lia].
Qed.

(** [int] of a string that passes [isdigit]: decimal digits are read, and
    anything else raises. *)
Lemma py_int_isdigit s : isdigit s = true ->
  match py_int s with
  | Ok v => Forall (fun c => is_decimal c = true) s /\ (0 <= v)%Z
  | Err e => e = invalid_int "10" s /\ ~ Forall (fun c => is_decimal c = true) s
  end.
Proof.
  intros [Hn HF]%isdigit_Forall. unfold py_int.
  rewrite strip_id by (eapply Forall_impl; [done|]; intros c Hc; by apply digit_not_space).
  assert (split_sign s = (1%Z, s)) as ->.
  { destruct s as [|c s]; [done|]. apply Forall_cons in HF as [Hc _].
    apply digit_not_space in Hc as (_ & H1 & H2 & _). cbn. by rewrite !bool_decide_eq_false_2. }
  destruct (int_digits 10 0 true s) as [v|] eqn:E.
  - apply int_digits_decimal in E as [H1 H2]; [split; [done|lia]| |lia].
    eapply Forall_impl; [done|]. intros c Hc. by apply digit_not_space.
  - split; [done|]. intros HD.
    assert (forall s acc us, Forall (fun c => is_decimal c = true) s -> (s = [] -> us = false) ->
      int_digits 10 acc us s <> None) as Hgen.
    { clear. induction s as [|c s IH]; intros acc us HD Hu; [by cbn; rewrite Hu|].
      apply Forall_cons in HD as [Hc HD]. rewrite int_digits_step by done. by apply IH. }
    by eapply Hgen in E.
Qed.

(** A text without carriage returns is read as it is. *)
Lemma universal_newlines_id s : "013"%char ∉ s -> universal_newlines s = s.
Proof.
  induction s as [|c s IH]; intros H; [done|]. cbn [universal_newlines].
  rewrite bool_decide_eq_false_2 by (intros ->; apply H; left).
  f_equal. apply IH. intros Hs. apply H. by right.
Qed.

(** ** Words: texts without white space *)

Definition no_space (s : str) : Prop := Forall (fun c => is_space c = false) s.

Definition word (s : str) : Prop := no_space s /\ s <> [].

Lemma split_ws_word w : word w -> split_ws w = [w].
Proof.
  intros [H Hn]. induction H as [|c w Hc Hw IH]; [done|]. cbn [split_ws]. rewrite Hc.
  destruct w as [|d w]; [done|]. apply Forall_cons in Hw as Hd. destruct Hd as [-> _].
  by rewrite IH.
Qed.
