(* ===== verification/Json.v ===== *)
(** * JSON and literals

    The [json] module and [ast.literal_eval], as far as the host tools use them:
    texts to values and back.  Both read the same containers and differ in white
    space, strings and atoms. *)

From S2P Require Import Prelude PyStr PyDict.

(** ** Values *)

(** What JSON documents are made of.  A float is its [repr]. *)
Inductive value : Type :=
| VNull
| VBool (b : bool)
| VInt (z : Z)
| VFloat (repr : str)
| VStr (s : str)
| VList (l : list value)
| VDict (d : list (str * value)).

(** Floating-point numbers: the text of a number to its [repr]. *)
Class Floats : Type := { float_repr : str -> str }.

(** ** Containers *)

(** White space; a string literal and any other literal at the beginning of a
    text, with the rest of the text. *)
Record syntax : Type := Syntax {
  sx_space : ascii -> bool;
  sx_string : str -> option (str * str);
  sx_atom : str -> option (value * str)
}.

Section parser.
Context (sx : syntax).

Definition skip (s : str) : str := drop_while (sx_space sx) s.

(** A value at the beginning of a text; then the items of a list up to its
    bracket, and the members of a dict up to its brace, from the first one on. *)
Fixpoint parse_value (fuel : nat) (s : str) : option (value * str) :=
  match fuel with
  | 0 => None
  | S fuel =>
      match sx_string sx s with
      | Some (t, r) => Some (VStr t, r)
      | None =>
          match s with
          | c :: s' =>
              if bool_decide (c = "["%char) then
                match skip s' with
                | d :: r =>
                    if bool_decide (d = "]"%char) then Some (VList [], r)
                    else l ← parse_items fuel (d :: r); Some (VList (fst l), snd l)
                | [] => None
                end
              else if bool_decide (c = "{"%char) then
                match skip s' with
                | d :: r =>
                    if bool_decide (d = "}"%char) then Some (VDict [], r)
                    else l ← parse_members fuel (d :: r); Some (VDict (dict_of (fst l)), snd l)
                | [] => None
                end
              else sx_atom sx s
          | [] => None
          end
      end
  end
with parse_items (fuel : nat) (s : str) : option (list value * str) :=
  match fuel with
  | 0 => None
  | S fuel =>
      v ← parse_value fuel s;
      match skip (snd v) with
      | c :: r =>
          if bool_decide (c = "]"%char) then Some ([fst v], r)
          else if bool_decide (c = ","%char) then
            l ← parse_items fuel (skip r); Some (fst v :: fst l, snd l)
          else None
      | [] => None
      end
  end
with parse_members (fuel : nat) (s : str) : option (list (str * value) * str) :=
  match fuel with
  | 0 => None
  | S fuel =>
      k ← sx_string sx s;
      match skip (snd k) with
      | c :: r =>
          if bool_decide (c = ":"%char) then
            v ← parse_value fuel (skip r);
            match skip (snd v) with
            | c :: r =>
                if bool_decide (c = "}"%char) then Some ([(fst k, fst v)], r)
                else if bool_decide (c = ","%char) then
                  l ← parse_members fuel (skip r); Some ((fst k, fst v) :: fst l, snd l)
                else None
            | [] => None
            end
          else None
      | [] => None
      end
  end.

(** A text that is a value and nothing else.  One step of the parser takes a
    character or begins to read an item. *)
Definition parse_text (s : str) : option value :=
  v ← parse_value (S (2 * length s)) (skip s);
  match skip (snd v) with [] => Some (fst v) | _ => None end.
End parser.

(** The value of hexadecimal digits. *)
Definition hex_value (s : str) : option Z :=
  if forallb is_hex s then int_digits 16 0 true s else None.

(** The character with a given code point, if it is one of the model. *)
Definition chr (z : Z) : option ascii :=
  if (z <? 256)%Z then Some (ascii_of_N (Z.to_N z)) else None.

(** [startswith(p)], with the rest of the text. *)
Definition prefixed (p s : str) : option str := if startswith p s then Some (drop (length p) s) else None.

(** The first of several words that the text begins with. *)
Fixpoint first_word (words : list (str * value)) (s : str) : option (value * str) :=
  match words with
  | [] => None
  | (p, v) :: words =>
      match prefixed p s with Some r => Some (v, r) | None => first_word words s end
  end.

(** ** [json.loads] *)

Definition json_space (c : ascii) : bool := bool_decide (c ∈ [space; "009"%char; newline; "013"%char]).

(** One of the escapes that stand for a character. *)
Definition json_escape (c : ascii) : option ascii :=
  if bool_decide (c ∈ [dquote; backslash; "/"%char]) then Some c
  else if bool_decide (c = "b"%char) then Some "008"%char
  else if bool_decide (c = "f"%char) then Some "012"%char
  else if bool_decide (c = "n"%char) then Some newline
  else if bool_decide (c = "r"%char) then Some "013"%char
  else if bool_decide (c = "t"%char) then Some "009"%char
  else None.

Definition cons_char (c : ascii) (x : str * str) : str * str := (c :: fst x, snd x).

(** The text after a quote, up to the closing one.  An escape that stands for a
    character beyond Latin-1 is not in the model. *)
Fixpoint json_scan (s : str) : option (str * str) :=
  match s with
  | [] => None
  | c :: s =>
      if bool_decide (c = dquote) then Some ([], s)
      else if bool_decide (c = backslash) then
        match s with
        | [] => None
        | e :: s =>
            if bool_decide (e = "u"%char) then
              match s with
              | h1 :: h2 :: h3 :: h4 :: s =>
                  z ← hex_value [h1; h2; h3; h4]; d ← chr z; cons_char d <$> json_scan s
              | _ => None
              end
            else d ← json_escape e; cons_char d <$> json_scan s
        end
      else if (code c <? 32)%N then None
      else cons_char c <$> json_scan s
  end.

Definition json_literal (s : str) : option (str * str) :=
  match s with
  | c :: s => if bool_decide (c = dquote) then json_scan s else None
  | [] => None
  end.

(** The parts of a number: an integer without leading zeros, a fraction, an
    exponent.  The latter two are empty if absent. *)
Definition digits_int (s : str) : option (str * str) :=
  match s with
  | c :: s' =>
      if bool_decide (c = "0"%char) then Some ([c], s')
      else if is_decimal c then Some (take_while is_decimal s, drop_while is_decimal s)
      else None
  | [] => None
  end.

Definition number_int (s : str) : option (str * str) :=
  match s with
  | c :: s' =>
      if bool_decide (c = "-"%char) then ir ← digits_int s'; Some (c :: fst ir, snd ir)
      else digits_int s
  | [] => None
  end.

Definition number_frac (s : str) : str * str :=
  match s with
  | c :: s' =>
      if bool_decide (c = "."%char) then
        match take_while is_decimal s' with
        | [] => ([], s)
        | ds => (c :: ds, drop_while is_decimal s')
        end
      else ([], s)
  | [] => ([], s)
  end.

Definition number_exp (s : str) : str * str :=
  match s with
  | c :: s' =>
      if bool_decide (c ∈ "eE") then
        let (sign, s'') := match s' with
                           | d :: s'' => if bool_decide (d ∈ "+-") then ([d], s'') else ([], s')
                           | [] => ([], s')
                           end in
        match take_while is_decimal s'' with
        | [] => ([], s)
        | ds => (c :: sign ++ ds, drop_while is_decimal s'')
        end
      else ([], s)
  | [] => ([], s)
  end.

Definition number `{Floats} (s : str) : option (value * str) :=
  '(i, r) ← number_int s;
  let (f, r) := number_frac r in
  let (e, r) := number_exp r in
  match f ++ e with
  | [] => match py_int i with Ok z => Some (VInt z, r) | Err _ => None end
  | _ => Some (VFloat (float_repr (i ++ f ++ e)), r)
  end.

Definition json_words : list (str * value) :=
  [("null", VNull); ("true", VBool true); ("false", VBool false); ("NaN", VFloat "nan");
   ("Infinity", VFloat "inf"); ("-Infinity", VFloat "-inf")]%str.

Definition json_atom `{Floats} (s : str) : option (value * str) :=
  match first_word json_words s with Some v => Some v | None => number s end.

Definition json `{Floats} : syntax := Syntax json_space json_literal json_atom.

(** [json.loads(s)]: a [JSONDecodeError] is a [ValueError]. *)
Definition json_loads `{Floats} (s : str) : res value :=
  match parse_text json s with
  | Some v => Ok v
  | None => Err (ValueError "JSONDecodeError" [])
  end.

(** ** [json.dumps] *)

Definition json_char (c : ascii) : str :=
  let n := code c in
  if (n =? 34)%N then backslash :: [dquote]
  else if (n =? 92)%N then [backslash; backslash]
  else if (n =? 10)%N then backslash :: "n"
  else if (n =? 13)%N then backslash :: "r"
  else if (n =? 9)%N then backslash :: "t"
  else if (n =? 12)%N then backslash :: "f"
  else if (n =? 8)%N then backslash :: "b"
  else if in_range 32 126 c then [c]
  else backslash :: "u00" ++ [hex_digit (n / 16); hex_digit (n mod 16)].

Definition json_string (s : str) : str := dquote :: concat (map json_char s) ++ [dquote].

Definition json_float (repr : str) : str :=
  if bool_decide (repr = "nan"%str) then "NaN"
  else if bool_decide (repr = "inf"%str) then "Infinity"
  else if bool_decide (repr = "-inf"%str) then "-Infinity"
  else repr.

(** [json.dumps(v, indent=indent)] at a nesting of [level]. *)
Fixpoint json_text (indent level : nat) (v : value) : str :=
  let line n : str := newline :: replicate (indent * n) space in
  let container (opening closing : str) (l : list str) : str :=
    match l with
    | [] => opening ++ closing
    | _ => opening ++ join "," (map (app (line (S level))) l) ++ line level ++ closing
    end in
  match v with
  | VNull => "null"
  | VBool true => "true"
  | VBool false => "false"
  | VInt z => fmt_d z
  | VFloat repr => json_float repr
  | VStr s => json_string s
  | VList l => container "[" "]" (map (json_text indent (S level)) l)
  | VDict d => container "{" "}"
      (map (fun kv => json_string (fst kv) ++ ": " ++ json_text indent (S level) (snd kv)) d)
  end.

Definition json_dumps (indent : nat) (v : value) : str := json_text indent 0 v.

(** ** [ast.literal_eval] *)

(** Literals of texts, decimal integers, lists, dicts with texts as keys, and the
    constants; other literals (tuples, sets, bytes, floats, adjacent texts, a
    comma at the end) are not in the model. *)

Definition py_space (c : ascii) : bool := bool_decide (c ∈ [space; "009"%char; newline; "012"%char]).

Definition py_escape (c : ascii) : option ascii :=
  if bool_decide (c ∈ [dquote; squote; backslash]) then Some c
  else if bool_decide (c = "a"%char) then Some "007"%char
  else if bool_decide (c = "v"%char) then Some "011"%char
  else json_escape c.

Fixpoint py_scan (q : ascii) (s : str) : option (str * str) :=
  match s with
  | [] => None
  | c :: s =>
      if bool_decide (c = q) then Some ([], s)
      else if bool_decide (c = newline \/ c = "013"%char) then None
      else if bool_decide (c = backslash) then
        match s with
        | [] => None
        | e :: s => if bool_decide (e = "/"%char) then None
                    else d ← py_escape e; cons_char d <$> py_scan q s
        end
      else cons_char c <$> py_scan q s
  end.

(** A text in quotes; three quotes in a row begin a literal of another kind. *)
Definition py_literal (s : str) : option (str * str) :=
  match s with
  | q :: s' =>
      if bool_decide (q ∈ [dquote; squote]) && negb (startswith [q; q; q] s) then py_scan q s' else None
  | [] => None
  end.

(** An integer has no leading zeros; its sign is an operator. *)
Definition py_atom (s : str) : option (value * str) :=
  match first_word [("None", VNull); ("True", VBool true); ("False", VBool false)]%str s with
  | Some v => Some v
  | None =>
      '(i, r) ← number_int s;
      match py_int i with Ok z => Some (VInt z, r) | Err _ => None end
  end.

Definition py_syntax : syntax := Syntax py_space py_literal py_atom.

(** [ast.literal_eval(s)]: what is not a literal raises [SyntaxError] or
    [ValueError]; the first stands for both. *)
Definition literal_eval (s : str) : res value :=
  match parse_text py_syntax s with
  | Some v => Ok v
  | None => Err SyntaxError
  end.

(** Examples *)

Definition identity_floats : Floats := {| float_repr := fun s => s |}.

Definition sample : value :=
  VDict [("name", VStr "hal"); ("imports", VList [VStr "a@current"; VNull]);
         ("n", VList [VInt (-12); VInt 0; VFloat "1.5e+3"; VBool true]); ("d", VDict [])]%str.

Example sample_roundtrip : json_loads (H := identity_floats) (json_dumps 4 sample) = Ok sample.
Proof. vm_compute. reflexivity. Qed.

Example sample_text : json_dumps 1 (VDict [("a", VList [VInt 1; VInt 2])]%str) =
  "{
 " ++ quoted "a" ++ ": [
  1,
  2
 ]
}".
Proof. vm_compute. reflexivity. Qed.

Example literal_eval_entry :
  literal_eval ("{'version': '2', " ++ quoted "imports" ++ ": ['a-v1','b-v2']}") =
    Ok (VDict [("version", VStr "2"); ("imports", VList [VStr "a-v1"; VStr "b-v2"])]%str).
Proof. vm_compute. reflexivity. Qed.

Example not_json : json_loads (H := identity_floats) "[1, 02]" = Err (ValueError "JSONDecodeError" []).
Proof. vm_compute. reflexivity. Qed.
