(* ===== verification/JsonFacts.v ===== *)
(** * Correctness of the JSON parser and printer

    The parser against a grammar; what [json.dumps] prints is read back as the
    value that was printed, and everything that [json.loads] reads can be
    printed so. *)

From S2P Require Import Prelude PyStr PyStrFacts PyDict Json.
From Stdlib Require DecimalFacts DecimalPos.

(** Follow the way a parser has taken to a result. *)
Ltac option_inv :=
  repeat match goal with
  | H : mbind _ ?m = Some _ |- _ =>
      let E := fresh "E" in destruct m as [[? ?]|] eqn:E; [cbn [mbind option_bind fst snd] in H|discriminate H]
  | H : (if bool_decide _ then _ else _) = Some _ |- _ => case_bool_decide
  | H : match ?l with [] => _ | _ :: _ => _ end = Some _ |- _ =>
      let E := fresh "E" in destruct l eqn:E
  | H : None = Some _ |- _ => discriminate H
  | H : Some _ = Some _ |- _ => injection H as <- <-
  end.

(** ** Values *)

Lemma value_ind' (P : value -> Prop) :
  P VNull -> (forall b, P (VBool b)) -> (forall z, P (VInt z)) -> (forall f, P (VFloat f)) ->
  (forall s, P (VStr s)) -> (forall l, Forall P l -> P (VList l)) ->
  (forall d, Forall (fun kv => P (snd kv)) d -> P (VDict d)) -> forall v, P v.
Proof.
  intros Hn Hb Hz Hf Hs Hl Hd. fix IH 1. intros [| | | | |l|d]; [exact Hn|apply Hb|apply Hz|apply Hf|apply Hs|..].
  - apply Hl. induction l as [|v l IHl]; constructor; [apply IH|exact IHl].
  - apply Hd. induction d as [|kv d IHd]; constructor; [apply IH|exact IHd].
Qed.

(** ** The grammar *)

(** A text begins with a value, and the rest comes after it. *)
Inductive reads (sx : syntax) : str -> value -> str -> Prop :=
| reads_string s t r : sx_string sx s = Some (t, r) -> reads sx s (VStr t) r
| reads_nil s r : sx_string sx ("["%char :: s) = None -> skip sx s = "]"%char :: r ->
    reads sx ("["%char :: s) (VList []) r
| reads_list s c s' l r : sx_string sx ("["%char :: s) = None -> skip sx s = c :: s' ->
    c <> "]"%char -> reads_items sx (c :: s') l r -> reads sx ("["%char :: s) (VList l) r
| reads_empty s r : sx_string sx ("{"%char :: s) = None -> skip sx s = "}"%char :: r ->
    reads sx ("{"%char :: s) (VDict []) r
| reads_dict s c s' l r : sx_string sx ("{"%char :: s) = None -> skip sx s = c :: s' ->
    c <> "}"%char -> reads_members sx (c :: s') l r -> reads sx ("{"%char :: s) (VDict (dict_of l)) r
| reads_atom c s v r : sx_string sx (c :: s) = None -> c <> "["%char -> c <> "{"%char ->
    sx_atom sx (c :: s) = Some (v, r) -> reads sx (c :: s) v r
with reads_items (sx : syntax) : str -> list value -> str -> Prop :=
| items_last s v r1 r : reads sx s v r1 -> skip sx r1 = "]"%char :: r -> reads_items sx s [v] r
| items_cons s v r1 r2 l r : reads sx s v r1 -> skip sx r1 = ","%char :: r2 ->
    reads_items sx (skip sx r2) l r -> reads_items sx s (v :: l) r
with reads_members (sx : syntax) : str -> list (str * value) -> str -> Prop :=
| members_last s k r0 r1 v r2 r : sx_string sx s = Some (k, r0) -> skip sx r0 = ":"%char :: r1 ->
    reads sx (skip sx r1) v r2 -> skip sx r2 = "}"%char :: r -> reads_members sx s [(k, v)] r
| members_cons s k r0 r1 v r2 r3 l r : sx_string sx s = Some (k, r0) -> skip sx r0 = ":"%char :: r1 ->
    reads sx (skip sx r1) v r2 -> skip sx r2 = ","%char :: r3 ->
    reads_members sx (skip sx r3) l r -> reads_members sx s ((k, v) :: l) r.

Scheme reads_mut := Minimality for reads Sort Prop
with items_mut := Minimality for reads_items Sort Prop
with members_mut := Minimality for reads_members Sort Prop.
Combined Scheme reads_combined from reads_mut, items_mut, members_mut.

#[export] Hint Constructors reads reads_items reads_members : pylib.

(** A literal takes at least one character. *)
Class Consuming (sx : syntax) : Prop := {
  string_shorter s t r : sx_string sx s = Some (t, r) -> length r < length s;
  atom_shorter s v r : sx_atom sx s = Some (v, r) -> length r < length s
}.

Section parser.
Context (sx : syntax).

Lemma skip_shorter s : length (skip sx s) <= length s.
Proof. apply drop_while_length. Qed.

Lemma skip_eq_shorter s c r : skip sx s = c :: r -> length r < length s.
Proof. intros E. pose proof (skip_shorter s). rewrite E in *. cbn in *. lia. Qed.

(** What the parser returns follows the grammar. *)
Lemma parse_sound fuel :
  (forall s v r, parse_value sx fuel s = Some (v, r) -> reads sx s v r) /\
  (forall s l r, parse_items sx fuel s = Some (l, r) -> reads_items sx s l r) /\
  (forall s l r, parse_members sx fuel s = Some (l, r) -> reads_members sx s l r).
Proof.
  induction fuel as [|fuel (IHv & IHi & IHm)]; [done|]. split_and!; intros s x r H; cbn in H.
  - destruct (sx_string sx s) as [[t r']|] eqn:Es; option_inv; subst; eauto with pylib.
  - option_inv; subst; eauto with pylib.
  - option_inv; subst; eauto with pylib.
Qed.

(** With enough fuel the parser finds what the grammar allows. *)
Ltac learn pf :=
  let T := type of pf in
  lazymatch goal with _ : T |- _ => fail | _ => pose proof pf end.

Ltac lengths :=
  repeat match goal with
  | E : skip _ _ = _ :: _ |- _ => learn (skip_eq_shorter _ _ _ E)
  | E : sx_string _ _ = Some (_, _) |- _ => learn (string_shorter _ _ _ E)
  | _ : length _ < length (skip _ ?s) |- _ => learn (skip_shorter s)
  end; cbn [length] in *; lia.

Ltac run_parser :=
  repeat first
    [ match goal with
      | E : sx_string ?sx ?s = _ |- context [sx_string ?sx ?s] => rewrite E
      | E : skip ?sx ?s = _ |- context [skip ?sx ?s] => rewrite E
      | IH : forall fuel, _ -> parse_value ?sx fuel ?s = _ |- context [parse_value ?sx _ ?s] => rewrite IH by lengths
      | IH : forall fuel, _ -> parse_items ?sx fuel ?s = _ |- context [parse_items ?sx _ ?s] => rewrite IH by lengths
      | IH : forall fuel, _ -> parse_members ?sx fuel ?s = _ |- context [parse_members ?sx _ ?s] => rewrite IH by lengths
      end
    | rewrite bool_decide_eq_true_2 by done
    | rewrite bool_decide_eq_false_2 by done
    | progress cbn [mbind option_bind fst snd] ]; try done.

Lemma parse_complete `{Consuming sx} :
  (forall s v r, reads sx s v r -> length r < length s /\
     forall fuel, 2 * length s < fuel -> parse_value sx fuel s = Some (v, r)) /\
  (forall s l r, reads_items sx s l r -> length r < length s /\
     forall fuel, 2 * length s + 1 < fuel -> parse_items sx fuel s = Some (l, r)) /\
  (forall s l r, reads_members sx s l r -> length r < length s /\
     forall fuel, 2 * length s + 1 < fuel -> parse_members sx fuel s = Some (l, r)).
Proof.
  apply reads_combined; intros; destruct_and?;
    (split; [first [eapply atom_shorter; eassumption|lengths]|intros [|fuel] Hf; [lia|]; cbn; run_parser]).
Qed.

(** The parser accepts exactly the texts of the grammar. *)
Lemma parse_text_reads `{Consuming sx} s v :
  parse_text sx s = Some v <-> exists r, reads sx (skip sx s) v r /\ skip sx r = [].
Proof.
  unfold parse_text. split.
  - intros H0. destruct (parse_value sx _ _) as [[v' r]|] eqn:E; [|done].
    cbn [mbind option_bind fst snd] in H0.
    destruct (skip sx r) eqn:Er; [|done]. injection H0 as <-. exists r.
    split; [apply (proj1 (parse_sound _) _ _ _ E)|done].
  - intros (r & [_ Hp]%(proj1 parse_complete) & Hr). rewrite Hp; [cbn [mbind option_bind fst snd]; by rewrite Hr|].
    pose proof (skip_shorter s). lia.
Qed.
End parser.

(** ** Numbers *)

Definition no_decimal (r : str) : Prop :=
  match r with c :: _ => is_decimal c = false | [] => True end.

(** A number ends before these. *)
Definition stops (r : str) : Prop :=
  match r with c :: _ => is_decimal c = false /\ c ∉ ".eE"%str | [] => True end.

Lemma stops_no_decimal r : stops r -> no_decimal r.
Proof. destruct r; [done|]. by intros []. Qed.

Lemma decimals_stop (s t : str) : no_decimal t ->
  take_while is_decimal (take_while is_decimal s ++ t) = take_while is_decimal s /\
  drop_while is_decimal (take_while is_decimal s ++ t) = t.
Proof.
  intros Ht. pose proof (take_while_Forall is_decimal s) as Hs.
  rewrite take_while_app_all, drop_while_app_all by done.
  destruct t as [|c t]; [by rewrite app_nil_r|]. cbn in Ht.
  by rewrite take_while_stop, drop_while_stop, app_nil_r.
Qed.

(** The characters of a number. *)
Definition number_char (c : ascii) : Prop := is_decimal c = true \/ c ∈ ".eE+-"%str.

Lemma decimals_number l : Forall (fun c => is_decimal c = true) l -> Forall number_char l.
Proof. intros H. eapply Forall_impl; [exact H|]. by left. Qed.

Lemma digits_int_spec s i r : digits_int s = Some (i, r) ->
  s = i ++ r /\ ~ no_decimal i /\ Forall number_char i /\
  forall t, no_decimal t -> digits_int (i ++ t) = Some (i, t).
Proof.
  unfold digits_int. destruct s as [|c s]; [done|]. case_bool_decide as Hc.
  - intros [= <- <-]. subst. split_and!; try done. repeat constructor.
  - destruct (is_decimal c) eqn:Ec; [|done]. intros H.
    assert (i = take_while is_decimal (c :: s) /\ r = drop_while is_decimal (c :: s)) as [-> ->]
      by (by simplify_eq).
    clear H. rewrite take_drop_while. split; [done|]. pose proof (decimals_stop (c :: s)) as Hd.
    pose proof (decimals_number _ (take_while_Forall is_decimal (c :: s))).
    destruct (take_while is_decimal (c :: s)) as [|d ds] eqn:E; cbn in E; rewrite Ec in E; [done|].
    injection E as <- E. split; [cbn; by rewrite Ec|]. split; [done|]. intros t [H1 H2]%Hd.
    cbn [app]. rewrite bool_decide_eq_false_2, Ec by done. cbn [app] in *. by rewrite H1, H2.
Qed.

(** An integer begins with a digit or with a minus before a digit. *)
Definition int_start (s : str) : Prop :=
  match s with c :: s' => is_decimal c = true \/ (c = "-"%char /\ ~ no_decimal s') | [] => False end.

Lemma no_decimal_false s : ~ no_decimal s -> exists c s', s = c :: s' /\ is_decimal c = true.
Proof. destruct s as [|c s]; cbn; [by intros []|]. intros H. exists c, s. by destruct (is_decimal c). Qed.

Lemma number_int_spec s i r : number_int s = Some (i, r) ->
  s = i ++ r /\ int_start i /\ Forall number_char i /\
  forall t, no_decimal t -> number_int (i ++ t) = Some (i, t).
Proof.
  unfold number_int. destruct s as [|c s]; [done|]. case_bool_decide as Hc.
  - destruct (digits_int s) as [[i' r']|] eqn:E; [|done].
    apply digits_int_spec in E as (-> & Hi & Hn & E). cbn. intros [= <- <-].
    split_and!; [done|cbn; auto|constructor; [right; set_solver|done]|].
    intros t Ht. cbn. by rewrite bool_decide_eq_true_2, E.
  - intros (Hs & (d & s' & -> & Hd)%no_decimal_false & Hn & E)%digits_int_spec. injection Hs as <- ->.
    split_and!; [done|by left|done|]. intros t Ht. cbn [app]. rewrite bool_decide_eq_false_2 by done.
    by apply E.
Qed.

Lemma number_frac_spec s f r : number_frac s = (f, r) ->
  s = f ++ r /\ (f = [] \/ exists ds, f = "."%char :: ds) /\ Forall number_char f /\
  forall t, no_decimal t -> match t with c :: _ => c <> "."%char | [] => True end ->
    number_frac (f ++ t) = (f, t).
Proof.
  assert (Hn : forall t, match t with c :: _ => c <> "."%char | [] => True end -> number_frac t = ([], t)).
  { intros [|c t] Ht; [done|]. cbn. by rewrite bool_decide_eq_false_2. }
  unfold number_frac at 1. destruct s as [|c s]; [intros [= <- <-]; auto|].
  case_bool_decide as Hc; [|intros [= <- <-]; auto].
  destruct (take_while is_decimal s) as [|d ds] eqn:E; [intros [= <- <-]; auto|].
  intros [= <- <-]. subst c. pose proof (decimals_number _ (take_while_Forall is_decimal s)) as Hc.
  rewrite E in Hc. split_and!; [|eauto|constructor; [right; set_solver|done]|].
  - rewrite <- (take_drop_while is_decimal s) at 1. by rewrite E.
  - intros t [H1 H2]%(decimals_stop s) _. rewrite E in H1, H2. cbn [app number_frac] in *.
    rewrite bool_decide_eq_true_2 by done. by rewrite H1, H2.
Qed.

Lemma number_exp_spec s e r : number_exp s = (e, r) ->
  s = e ++ r /\ (e = [] \/ exists c ds, e = c :: ds /\ c ∈ "eE"%str) /\ Forall number_char e /\
  forall t, stops t -> number_exp (e ++ t) = (e, t).
Proof.
  assert (Hs : forall t, stops t -> number_exp t = ([], t)).
  { intros [|c t] Ht; [done|]. destruct Ht as [_ Ht]. cbn. rewrite bool_decide_eq_false_2; [done|set_solver]. }
  unfold number_exp at 1. destruct s as [|c s]; [intros [= <- <-]; auto|].
  case_bool_decide as Hc; [|intros [= <- <-]; auto].
  destruct (match s with d :: _ => _ | [] => _ end) as [sg s'] eqn:Es.
  destruct (take_while is_decimal s') as [|d ds] eqn:E; [intros [= <- <-]; auto|].
  intros [= <- <-]. pose proof (decimals_number _ (take_while_Forall is_decimal s')) as Hn. rewrite E in Hn.
  assert (Hsg : sg = [] \/ exists x, sg = [x] /\ x ∈ "+-"%str).
  { destruct s as [|x s]; [|case_bool_decide]; injection Es as <- <-; eauto. }
  split_and!; [|eauto 10| |].
  - cbn. f_equal. rewrite <- app_assoc. change (d :: ds ++ ?x) with ((d :: ds) ++ x). rewrite <- E, take_drop_while.
    destruct s as [|x s]; [by injection Es as <- <-|]. case_bool_decide; by injection Es as <- <-.
  - constructor; [right; set_unfold; naive_solver|]. apply Forall_app. split; [|done].
    destruct Hsg as [->|(x & -> & Hsg)]; [done|]. apply Forall_singleton. right.
    set_unfold. naive_solver.
  - intros t Ht%stops_no_decimal. apply (decimals_stop s') in Ht as [H1 H2]. rewrite E in H1, H2.
    assert (Hx : d ∉ "+-"%str).
    { pose proof (take_while_Forall is_decimal s') as F. rewrite E in F. apply Forall_inv in F. cbn in F.
      intros Hin. set_unfold. naive_solver. }
    unfold number_exp. cbn [app] in *. rewrite bool_decide_eq_true_2 by done.
    destruct Hsg as [->|(x & -> & Hsg)]; cbn [app].
    + rewrite bool_decide_eq_false_2 by done. by rewrite H1, H2.
    + rewrite bool_decide_eq_true_2 by done. by rewrite H1, H2.
Qed.

Lemma number_spec `{Floats} s f r : number s = Some (VFloat f, r) ->
  exists n, s = n ++ r /\ f = float_repr n /\ int_start n /\ Forall number_char n /\
    forall t, stops t -> number (n ++ t) = Some (VFloat f, t).
Proof.
  unfold number. destruct (number_int s) as [[i r1]|] eqn:Ei; [|done]. cbn [mbind option_bind].
  destruct (number_frac r1) as [f1 r2] eqn:Ef. destruct (number_exp r2) as [e r3] eqn:Ee.
  apply number_int_spec in Ei as (-> & Hi & Ni & Ei).
  apply number_frac_spec in Ef as (-> & Hf & Nf & Ef). apply number_exp_spec in Ee as (-> & He & Ne & Ee).
  destruct (f1 ++ e) as [|c l] eqn:Hfe; [by destruct (py_int i)|]. intros [= <- <-].
  exists (i ++ c :: l). rewrite <- Hfe, <- !app_assoc. split_and!; [done|done| |by repeat apply Forall_app_2|].
  - destruct i as [|x i]; [done|]. destruct Hi as [Hi|[-> Hi]]; [by left|right].
    split; [done|]. by destruct i; [destruct Hi|].
  - assert (Hx : forall t, stops t -> no_decimal (e ++ t) /\
               match e ++ t with c :: _ => c <> "."%char | [] => True end).
    { intros [|x t] Ht; destruct He as [->|(d & ds & -> & Hd)]; cbn; try done;
        [set_unfold; naive_solver..| |set_unfold; naive_solver].
      destruct Ht as [? Ht]. split; [done|]. set_unfold. naive_solver. }
    intros t Ht. destruct (Hx t Ht). rewrite <- !app_assoc, Ei.
    + cbn [mbind option_bind]. rewrite Ef, Ee by done. by rewrite Hfe.
    + by destruct Hf as [->|(ds & ->)].
Qed.

(** A printed integer has no leading zeros. *)
Lemma to_uint_head p : ~ exists u, Pos.to_uint p = Decimal.D0 u.
Proof.
  intros [u Hu].
  assert (E : Decimal.unorm (Pos.to_uint p) = Pos.to_uint p).
  { rewrite <- DecimalPos.Unsigned.to_of. by rewrite DecimalPos.Unsigned.of_to. }
  rewrite Hu in E. unfold Decimal.unorm in E.
  destruct (Decimal.nzhead (Decimal.D0 u)) eqn:En; try discriminate E.
  - injection E as <-. by apply (DecimalPos.Unsigned.to_uint_nonzero p).
  - by apply DecimalFacts.nzhead_nonzero in En.
Qed.

Lemma to_uint_digits p : exists c s, uint_str (Pos.to_uint p) = c :: s /\ c <> "0"%char /\
  is_decimal c = true /\ Forall (fun c => is_decimal c = true) s.
Proof.
  pose proof (uint_str_decimal (Pos.to_uint p)) as Hd. pose proof (to_uint_head p) as H0.
  destruct (uint_str (Pos.to_uint p)) as [|c s] eqn:E.
  { apply uint_str_nil in E. by destruct (DecimalPos.Unsigned.to_uint_nonnil p). }
  apply Forall_cons in Hd as [? ?]. exists c, s. split_and!; try done.
  intros ->. apply H0. destruct (Pos.to_uint p); try discriminate E; eauto.
Qed.

Lemma digits_int_to_uint p t : no_decimal t ->
  digits_int (uint_str (Pos.to_uint p) ++ t) = Some (uint_str (Pos.to_uint p), t).
Proof.
  intros Ht. destruct (to_uint_digits p) as (c & s & -> & Hc & Hd & Hs).
  cbn [app digits_int]. rewrite bool_decide_eq_false_2, Hd, app_comm_cons by done.
  rewrite take_while_app_all, drop_while_app_all by by constructor.
  destruct t as [|d t]; [by rewrite app_nil_r|]. cbn in Ht.
  by rewrite take_while_stop, drop_while_stop, app_nil_r.
Qed.

Lemma number_fmt_d `{Floats} z r : stops r -> number (fmt_d z ++ r) = Some (VInt z, r).
Proof.
  intros Hr. assert (Hi : number_int (fmt_d z ++ r) = Some (fmt_d z, r)).
  { pose proof (stops_no_decimal r Hr). destruct z as [|p|p]; cbn [fmt_d].
    - done.
    - pose proof (digits_int_to_uint p r) as Hi. destruct (to_uint_digits p) as (c & s & E & _ & Hd & _).
      rewrite E in *. cbn [app number_int]. rewrite bool_decide_eq_false_2; [by apply Hi|].
      by apply decimal_sign in Hd as [? _].
    - cbn [app number_int]. rewrite bool_decide_eq_true_2 by done. by rewrite digits_int_to_uint. }
  unfold number. rewrite Hi. cbn [mbind option_bind].
  assert (number_frac r = ([], r) /\ number_exp r = ([], r)) as [-> ->].
  { destruct r as [|c r]; [done|]. destruct Hr as [_ Hr]. cbn.
    by rewrite !bool_decide_eq_false_2 by set_solver. }
  cbn. by rewrite py_int_fmt_d.
Qed.

(** ** Strings *)

Lemma json_scan_char c s : json_scan (json_char c ++ s) = cons_char c <$> json_scan s.
Proof. destruct c as [[] [] [] [] [] [] [] []]; reflexivity. Qed.

Lemma json_scan_string t r : json_scan (concat (map json_char t) ++ dquote :: r) = Some (t, r).
Proof.
  induction t as [|c t IH]; [done|]. cbn [map concat]. by rewrite <- app_assoc, json_scan_char, IH.
Qed.

Lemma json_literal_string t r : json_literal (json_string t ++ r) = Some (t, r).
Proof.
  unfold json_string. cbn [app json_literal]. rewrite bool_decide_eq_true_2 by done.
  rewrite <- app_assoc. apply json_scan_string.
Qed.

Lemma json_scan_shorter n : forall s t r, length s <= n -> json_scan s = Some (t, r) -> length r < length s.
Proof.
  induction n as [|n IH]; intros [|c s] t r Hn H; cbn in Hn; [done|lia|done|]. cbn [json_scan] in H.
  assert (Hs : forall c s' t r, length s' <= length s -> cons_char c <$> json_scan s' = Some (t, r) ->
            length r < S (length s)).
  { intros d s' t' r' Hl Hd. destruct (json_scan s') as [[t1 r1]|] eqn:E; [|done].
    apply IH in E; [|lia]. cbn in Hd. injection Hd as <- <-. lia. }
  case_bool_decide; [by injection H as <- <-; cbn; lia|]. case_bool_decide; cbn [length].
  - destruct s as [|e s]; [done|]. case_bool_decide.
    + destruct s as [|h1 [|h2 [|h3 [|h4 s]]]]; try done.
      destruct (hex_value _); [|done]. cbn [mbind option_bind] in H. destruct (chr z); [|done].
      eapply Hs; [|exact H]. cbn. lia.
    + destruct (json_escape e); [|done]. eapply Hs; [|exact H]. cbn. lia.
  - destruct (code c <? 32)%N; [done|]. by eapply Hs; [|exact H].
Qed.

(** ** Atoms *)

Lemma first_word_Some words s v r : first_word words s = Some (v, r) ->
  exists p, (p, v) ∈ words /\ s = p ++ r.
Proof.
  induction words as [|[p x] words IH]; [done|]. cbn. unfold prefixed. destruct (startswith p s) eqn:E.
  - intros [= <- <-]. apply startswith_spec in E as [t ->]. exists p. split; [left|].
    by rewrite drop_app_length.
  - intros (q & Hq & ->)%IH. exists q. split; [by right|done].
Qed.

Lemma number_shorter `{Floats} s v r : number s = Some (v, r) -> length r < length s.
Proof.
  unfold number. destruct (number_int s) as [[i r1]|] eqn:Ei; [|done]. cbn [mbind option_bind].
  destruct (number_frac r1) as [f1 r2] eqn:Ef. destruct (number_exp r2) as [e r3] eqn:Ee.
  apply number_int_spec in Ei as (-> & Hi & _). apply number_frac_spec in Ef as (-> & _).
  apply number_exp_spec in Ee as (-> & _).
  intros Hv. assert (r3 = r) as ->.
  { destruct (f1 ++ e); [destruct (py_int i)|]; by simplify_eq. }
  rewrite !length_app. destruct i; [done|]. cbn. lia.
Qed.

#[export] Instance json_consuming `{Floats} : Consuming json.
Proof.
  split; cbn.
  - intros [|c s] t r; [done|]. cbn. case_bool_decide; [|done].
    intros E%(json_scan_shorter (length s)); [lia|done].
  - unfold json_atom. intros s v r. destruct (first_word json_words s) as [[v' r']|] eqn:E.
    + intros [= -> ->]. apply first_word_Some in E as (p & Hp & ->). rewrite length_app.
      unfold json_words in Hp. set_unfold. destruct_or!; simplify_eq; cbn; lia.
    + apply number_shorter.
Qed.

(** A number is no word. *)
Lemma first_word_number s : int_start s -> first_word json_words s = None.
Proof.
  intros Hs. destruct (first_word json_words s) as [[v r]|] eqn:E; [|done].
  apply first_word_Some in E as (p & Hp & ->). exfalso. unfold json_words in Hp. set_unfold.
  destruct_or!; simplify_eq; cbn in Hs; destruct_or!; destruct_and?; try done.
Qed.

(** ** Printing and reading back *)

Section roundtrip.
Context `{Floats}.

(** The [repr] of a float is not a number, or a text that is read as that float. *)
Definition stable_float (f : str) : Prop :=
  f ∈ ["nan"; "inf"; "-inf"]%str \/
  (int_start f /\ Forall number_char f /\ forall t, stops t -> number (f ++ t) = Some (VFloat f, t)).

(** Values that JSON can hold: a dict has its keys once. *)
Inductive stable : value -> Prop :=
| stable_null : stable VNull
| stable_bool b : stable (VBool b)
| stable_int z : stable (VInt z)
| stable_float_value f : stable_float f -> stable (VFloat f)
| stable_str s : stable (VStr s)
| stable_list l : Forall stable l -> stable (VList l)
| stable_dict d : NoDup (dkeys d) -> Forall (fun kv => stable (snd kv)) d -> stable (VDict d).

Lemma reads_json_atom s v r :
  match s with c :: _ => c ∉ [dquote; "["%char; "{"%char] | [] => False end ->
  json_atom s = Some (v, r) -> reads json s v r.
Proof.
  destruct s as [|c s]; [done|]. intros Hc E. apply reads_atom; cbn; [|set_solver..|done].
  rewrite bool_decide_eq_false_2; [done|set_solver].
Qed.

Lemma reads_json_number n v r : int_start n -> number (n ++ r) = Some (v, r) -> reads json (n ++ r) v r.
Proof.
  intros Hn E. destruct n as [|c n]; [done|].
  assert (Hi : int_start ((c :: n) ++ r)).
  { destruct Hn as [Hn|[-> Hn]]; [by left|right]. split; [done|]. by destruct n; [destruct Hn|]. }
  apply reads_json_atom.
  - cbn. intros Hc. destruct Hn as [Hn|[-> _]]; set_unfold; naive_solver.
  - unfold json_atom. by rewrite first_word_number.
Qed.

Lemma int_start_fmt_d z : int_start (fmt_d z).
Proof.
  destruct z as [|p|p]; [by left|..]; destruct (to_uint_digits p) as (c & s & E & _ & Hd & _);
    cbn [fmt_d]; rewrite E; [by left|right]. split; [done|]. cbn. by rewrite Hd.
Qed.

Lemma reads_float f r : stable_float f -> stops r -> reads json (json_float f ++ r) (VFloat f) r.
Proof.
  intros [Hf|(Hi & _ & Hf)] Hr.
  - set_unfold. destruct_or!; subst; (apply reads_json_atom; [set_solver|reflexivity]).
  - unfold json_float. rewrite !bool_decide_eq_false_2; [apply reads_json_number; auto|..];
      intros ->; cbn in Hi; destruct_or!; destruct_and?; done.
Qed.

(** A printed value begins with something that is neither white space nor the
    end of a list or dict. *)
Definition opening (s : str) : Prop :=
  match s with c :: _ => json_space c = false /\ c <> "]"%char /\ c <> "}"%char | [] => False end.

Lemma opening_app s t : opening s -> opening (s ++ t).
Proof. by destruct s. Qed.

Lemma opening_skip s : opening s -> skip json s = s.
Proof. destruct s as [|c s]; [done|]. intros [Hc _]. unfold skip. by apply drop_while_stop. Qed.

Lemma opening_number n : int_start n -> opening n.
Proof.
  destruct n as [|c n]; [done|]. intros [Hd|[-> _]]; [|done]. cbn.
  destruct c as [[] [] [] [] [] [] [] []]; vm_compute in Hd; try discriminate Hd; by vm_compute.
Qed.

Lemma opening_string s : opening (json_string s).
Proof. done. Qed.

Lemma opening_json_text ind lvl v : stable v -> opening (json_text ind lvl v).
Proof.
  destruct 1 as [|[]|z|f Hf|s|l|d]; cbn; try done.
  - apply opening_number, int_start_fmt_d.
  - destruct Hf as [Hf|[Hi _]]; [set_unfold; by destruct_or!; subst|].
    unfold json_float. repeat case_bool_decide; subst; try done. by apply opening_number.
  - by destruct (map _ l).
  - by destruct (map _ d).
Qed.

Lemma skip_line n c s : json_space c = false ->
  skip json ((newline :: replicate n space) ++ c :: s) = c :: s.
Proof.
  intros Hs. unfold skip. rewrite drop_while_app_all; [by apply drop_while_stop|].
  constructor; [done|]. by apply Forall_replicate.
Qed.

Lemma skip_line_opening n s : opening s -> skip json ((newline :: replicate n space) ++ s) = s.
Proof. destruct s as [|c s]; [done|]. intros [Hc _]. by apply skip_line. Qed.

Lemma stops_comma s : stops (","%char :: s).
Proof. split; [done|]. set_solver. Qed.

Lemma stops_line s : stops (newline :: s).
Proof. split; [done|]. set_solver. Qed.

(** A value is read back from its text, whatever comes after it. *)
Definition reads_back (ind : nat) (v : value) : Prop :=
  forall lvl r, stops r -> reads json (json_text ind lvl v ++ r) v r.

(** The items of a list on lines of their own. *)
Lemma reads_printed_items ind n lvl l r : l <> [] -> Forall stable l -> Forall (reads_back ind) l ->
  reads_items json (skip json (join "," (map (app (newline :: replicate n space)) (map (json_text ind lvl) l))
    ++ (newline :: replicate (ind * pred lvl) space) ++ "]"%char :: r)) l r.
Proof.
  intros Hn Hs Hl. induction l as [|v l IH]; [done|].
  apply Forall_cons in Hs as [Hv Hs], Hl as [Hrv Hl].
  pose proof (opening_json_text ind lvl v Hv) as Ho. destruct l as [|v' l].
  - cbn [map join]. rewrite <- app_assoc, skip_line_opening by by apply opening_app.
    eapply items_last; [apply Hrv, stops_line|]. by apply skip_line.
  - cbn [map join] in *. rewrite <- !app_assoc, skip_line_opening by by apply opening_app.
    eapply items_cons; [apply Hrv, stops_comma|by apply drop_while_stop|]. rewrite <- !app_assoc in IH. by apply IH.
Qed.

Definition member_text (ind lvl : nat) (kv : str * value) : str :=
  json_string (fst kv) ++ ": " ++ json_text ind lvl (snd kv).

(** The members of a dict on lines of their own. *)
Lemma reads_printed_members ind n lvl d r :
  d <> [] -> Forall (fun kv => stable (snd kv)) d -> Forall (fun kv => reads_back ind (snd kv)) d ->
  reads_members json (skip json (join "," (map (app (newline :: replicate n space)) (map (member_text ind lvl) d))
    ++ (newline :: replicate (ind * pred lvl) space) ++ "}"%char :: r)) d r.
Proof.
  intros Hn Hs Hl. induction d as [|[k v] d IH]; [done|].
  apply Forall_cons in Hs as [Hv Hs], Hl as [Hrv Hl]. cbn [snd] in Hv, Hrv.
  pose proof (opening_json_text ind lvl v Hv) as Ho.
  assert (Hsp : forall t, skip json (space :: json_text ind lvl v ++ t) = json_text ind lvl v ++ t).
  { intros t. transitivity (skip json (json_text ind lvl v ++ t)); [done|]. by apply opening_skip, opening_app. }
  destruct d as [|kv' d]; cbn [map join] in *; unfold member_text at 1; cbn [fst snd];
    rewrite <- !app_assoc, skip_line_opening by apply opening_app, opening_string.
  - eapply (members_last json _ k _ (space :: json_text ind lvl v ++ _)); [apply json_literal_string|by apply drop_while_stop|rewrite Hsp; apply Hrv, stops_line|].
    by apply skip_line.
  - eapply (members_cons json _ k _ (space :: json_text ind lvl v ++ _)); [apply json_literal_string|by apply drop_while_stop|rewrite Hsp; apply Hrv, stops_comma
      |by apply drop_while_stop|]. rewrite <- !app_assoc in IH. by apply IH.
Qed.

Lemma opening_join n texts t : texts <> [] -> Forall opening texts ->
  opening (skip json (join "," (map (app (newline :: replicate n space)) texts) ++ t)).
Proof.
  intros Hn Ht. destruct texts as [|x texts]; [done|]. apply Forall_inv in Ht.
  destruct texts; cbn [map join]; rewrite <- !app_assoc, skip_line_opening by (by apply opening_app);
    by apply opening_app.
Qed.

Lemma reads_list_opening s l r : opening (skip json s) -> reads_items json (skip json s) l r ->
  reads json ("["%char :: s) (VList l) r.
Proof. intros Ho Hl. destruct (skip json s) as [|c s'] eqn:E; [done|]. eapply reads_list; naive_solver. Qed.

Lemma reads_dict_opening s d r : NoDup (dkeys d) -> opening (skip json s) ->
  reads_members json (skip json s) d r -> reads json ("{"%char :: s) (VDict d) r.
Proof.
  intros Hd Ho Hl. destruct (skip json s) as [|c s'] eqn:E; [done|].
  rewrite <- (dict_of_NoDup d Hd). eapply reads_dict; naive_solver.
Qed.

(** What [json.dumps] prints is the value in the grammar of JSON. *)
Lemma reads_json_text ind v : stable v -> reads_back ind v.
Proof.
  induction v as [|b|z|f|s|l IH|d IH] using value_ind'; inversion_clear 1 as [| | | |  |? Hl|? Hn Hd]; intros lvl r Hr.
  - by apply reads_json_atom; [set_solver|].
  - by destruct b; (apply reads_json_atom; [set_solver|]).
  - apply reads_json_number; [apply int_start_fmt_d|by apply number_fmt_d].
  - by apply reads_float.
  - constructor. apply json_literal_string.
  - pose proof (Forall_mp _ _ _ IH Hl) as Hb.
    cbn [json_text]. destruct l as [|v l]; [by apply reads_nil|]. set (vs := v :: l) in *.
    change (reads json (("["%char :: join "," (map (app (newline :: replicate (ind * S lvl) space))
      (map (json_text ind (S lvl)) vs)) ++ (newline :: replicate (ind * pred (S lvl)) space) ++ "]") ++ r) (VList vs) r).
    rewrite <- app_comm_cons, <- !app_assoc. apply reads_list_opening; [|by apply reads_printed_items].
    apply opening_join; [done|]. apply Forall_fmap. eapply Forall_impl; [exact Hl|]. intros x. apply opening_json_text.
  - pose proof (Forall_mp _ _ _ IH Hd) as Hb.
    cbn [json_text]. destruct d as [|kv d]; [by apply reads_empty|]. set (kvs := kv :: d) in *.
    change (reads json (("{"%char :: join "," (map (app (newline :: replicate (ind * S lvl) space))
      (map (member_text ind (S lvl)) kvs)) ++ (newline :: replicate (ind * pred (S lvl)) space) ++ "}") ++ r) (VDict kvs) r).
    rewrite <- app_comm_cons, <- !app_assoc. apply reads_dict_opening; [done| |by apply reads_printed_members].
    by apply opening_join; [|apply Forall_fmap, Forall_true].
Qed.

Lemma json_loads_reads s v : json_loads s = Ok v <-> exists r, reads json (skip json s) v r /\ skip json r = [].
Proof.
  rewrite <- (parse_text_reads json). unfold json_loads. destruct (parse_text json s); split; congruence.
Qed.

Lemma json_loads_dumps ind v : stable v -> json_loads (json_dumps ind v) = Ok v.
Proof.
  intros Hv. apply json_loads_reads. exists []. split; [|done].
  pose proof (opening_json_text ind 0 v Hv) as Ho. unfold json_dumps. rewrite opening_skip by done.
  rewrite <- (app_nil_r (json_text ind 0 v)). by apply reads_json_text.
Qed.

(** ** What is read can be printed *)

(** [repr] of a float read from a text is a text that is read as that float, or
    an infinity. *)
Class FloatLaws : Prop := {
  float_repr_stable : forall s f r, number s = Some (VFloat f, r) -> stable_float f
}.

Lemma Forall_dict_of (P : value -> Prop) (l : list (str * value)) :
  Forall (fun kv => P (snd kv)) l -> Forall (fun kv => P (snd kv)) (dict_of l).
Proof.
  rewrite !Forall_forall. intros Hl [k v] Hkv. apply Hl, dget_dict_of_elem.
  apply dget_elem; [apply NoDup_dict_of|done].
Qed.

Lemma number_value s v r : number s = Some (v, r) -> (exists z, v = VInt z) \/ exists f, v = VFloat f.
Proof.
  unfold number. destruct (number_int s) as [[i r1]|]; [|done]. cbn [mbind option_bind].
  destruct (number_frac r1) as [f1 r2]. destruct (number_exp r2) as [e r3].
  destruct (f1 ++ e); [destruct (py_int i)|]; intros; simplify_eq; eauto.
Qed.

Lemma json_atom_stable `{!FloatLaws} s v r : json_atom s = Some (v, r) -> stable v.
Proof.
  unfold json_atom. destruct (first_word json_words s) as [[v' r']|] eqn:E.
  - intros [= -> ->]. apply first_word_Some in E as (p & Hp & _). unfold json_words in Hp. set_unfold.
    destruct_or!; simplify_eq; constructor; left; set_solver.
  - intros Hn. destruct (number_value _ _ _ Hn) as [[z ->]|[f ->]]; constructor.
    by eapply float_repr_stable.
Qed.

Lemma reads_stable `{!FloatLaws} :
  (forall s v r, reads json s v r -> stable v) /\
  (forall s l r, reads_items json s l r -> Forall stable l) /\
  (forall s d r, reads_members json s d r -> Forall (fun kv => stable (snd kv)) d).
Proof.
  apply reads_combined; intros; try (by repeat constructor).
  - constructor; [apply NoDup_dict_of|by apply Forall_dict_of].
  - by eapply (json_atom_stable (c :: s)).
Qed.

Lemma json_loads_stable `{!FloatLaws} s v : json_loads s = Ok v -> stable v.
Proof. intros (r & Hr & _)%json_loads_reads. by apply (proj1 reads_stable) in Hr. Qed.
End roundtrip.

(** ** Lines *)

(** Printed JSON holds no carriage return, so it is read as it was written. *)
Definition no_return (s : str) : Prop := Forall (fun c => c <> "013"%char) s.

Lemma no_return_newlines s : no_return s -> universal_newlines s = s.
Proof. intros Hs. apply universal_newlines_id. intros Hin. by apply (proj1 (Forall_forall _ _) Hs) in Hin. Qed.

Lemma Forall_join {P : ascii -> Prop} sep l : Forall P sep -> Forall (Forall P) l -> Forall P (join sep l).
Proof.
  intros Hs. induction 1 as [|x l Hx Hl IH]; [constructor|]. destruct l; [done|].
  by repeat apply Forall_app_2.
Qed.

Lemma no_return_line n : no_return (newline :: replicate n space).
Proof. constructor; [done|]. by apply Forall_replicate. Qed.

Lemma no_return_string s : no_return (json_string s).
Proof.
  constructor; [done|]. apply Forall_app. split; [|by repeat constructor].
  induction s as [|c s IH]; [constructor|]. cbn. apply Forall_app_2; [|done].
  destruct c as [[] [] [] [] [] [] [] []]; repeat constructor; discriminate.
Qed.

Lemma no_return_number n : Forall number_char n -> no_return n.
Proof. intros H. eapply Forall_impl; [exact H|]. intros c [Hc|Hc] ->; [done|]. set_unfold. naive_solver. Qed.

(** A list or dict over several lines. *)
Lemma no_return_container open_ close l ind lvl : no_return open_ -> no_return close -> Forall no_return l ->
  no_return (match l with
             | [] => open_ ++ close
             | _ => open_ ++ join "," (map (app (newline :: replicate (ind * S lvl) space)) l)
                    ++ (newline :: replicate (ind * lvl) space) ++ close
             end).
Proof.
  intros Ho Hc Hl. destruct l as [|x l]; [by apply Forall_app_2|].
  repeat apply Forall_app_2; try done; try apply no_return_line.
  apply Forall_join; [by repeat constructor|]. apply Forall_fmap. eapply Forall_impl; [exact Hl|].
  intros y Hy. apply Forall_app_2; [apply no_return_line|done].
Qed.

Lemma no_return_json_text `{Floats} ind v : stable v -> forall lvl, no_return (json_text ind lvl v).
Proof.
  assert (Hq : forall c, c <> "013"%char -> no_return [c]) by by repeat constructor.
  induction v as [|b|z|f|s|l IH|d IH] using value_ind'; inversion_clear 1 as [| | |? Hf| |? Hl|? Hn Hd]; intros lvl.
  - by repeat constructor.
  - by destruct b; repeat constructor.
  - eapply Forall_impl; [apply fmt_d_chars|]. by intros c [Hc| ->] E; subst.
  - destruct Hf as [Hf|(_ & Hf & _)]; [set_unfold; by destruct_or!; subst; repeat constructor|].
    cbn. unfold json_float. repeat case_bool_decide; try by repeat constructor. by apply no_return_number.
  - apply no_return_string.
  - apply no_return_container; [by apply Hq..|]. apply Forall_fmap.
    eapply Forall_impl; [exact (Forall_mp _ _ _ IH Hl)|]. intros v Hv. apply Hv.
  - apply no_return_container; [by apply Hq..|]. apply Forall_fmap.
    eapply Forall_impl; [exact (Forall_mp _ _ _ IH Hd)|]. intros [k v] Hv.
    repeat apply Forall_app_2; [apply no_return_string|by repeat constructor|apply Hv].
Qed.

#[export] Instance identity_float_laws : FloatLaws (H := identity_floats).
Proof. split. intros s f r (n & _ & -> & Hi & Hc & Hn)%number_spec. right. by split_and!. Qed.

(** ** Python literals *)

(** A text that is written between quotes as it is. *)
Definition plain_char (c : ascii) : Prop := c ∉ [dquote; squote; backslash; newline; "013"%char].

Definition plain (s : str) : Prop := Forall plain_char s.

Lemma py_scan_plain s r : plain s -> py_scan dquote (s ++ dquote :: r) = Some (s, r).
Proof.
  induction 1 as [|c s Hc _ IH]; [done|]. unfold plain_char in Hc. cbn [app py_scan].
  rewrite !bool_decide_eq_false_2 by set_solver. by rewrite IH.
Qed.

Lemma py_literal_quoted s r : plain s -> match r with c :: _ => c <> dquote | [] => True end ->
  py_literal (quoted s ++ r) = Some (s, r).
Proof.
  intros Hs Hr. unfold quoted, py_literal. cbn [app].
  assert (startswith [dquote; dquote; dquote] (dquote :: (s ++ [dquote]) ++ r) = false) as ->.
  { destruct Hs as [|c s Hc _]; cbn.
    - destruct r as [|c r]; [done|]. rewrite (bool_decide_eq_false_2 (dquote = c)) by done. by repeat case_bool_decide.
    - unfold plain_char in Hc. rewrite (bool_decide_eq_false_2 (dquote = c)) by set_solver. by case_bool_decide. }
  rewrite bool_decide_eq_true_2 by set_solver. cbn [andb negb]. rewrite <- app_assoc. by apply py_scan_plain.
Qed.

Lemma py_scan_shorter q n : forall s t r, length s <= n -> py_scan q s = Some (t, r) -> length r < length s.
Proof.
  induction n as [|n IH]; intros [|c s] t r Hn H; cbn in Hn; [done|lia|done|]. cbn [py_scan] in H.
  assert (Hs : forall c s' t r, length s' <= length s -> cons_char c <$> py_scan q s' = Some (t, r) ->
            length r < S (length s)).
  { intros d s' t' r' Hl Hd. destruct (py_scan q s') as [[t1 r1]|] eqn:E; [|done].
    apply IH in E; [|lia]. cbn in Hd. injection Hd as <- <-. lia. }
  case_bool_decide; [by injection H as <- <-; cbn; lia|]. case_bool_decide; [done|].
  case_bool_decide; cbn [length].
  - destruct s as [|e s]; [done|]. case_bool_decide; [done|].
    destruct (py_escape e); [|done]. eapply Hs; [|exact H]. cbn. lia.
  - by eapply Hs; [|exact H].
Qed.

#[export] Instance py_consuming : Consuming py_syntax.
Proof.
  split; cbn.
  - intros [|c s] t r; [done|]. unfold py_literal. destruct (_ && _); [|done].
    intros E%(py_scan_shorter c (length s)); [cbn; lia|done].
  - unfold py_atom. intros s v r. destruct (first_word _ s) as [[v' r']|] eqn:E.
    + intros [= -> ->]. apply first_word_Some in E as (p & Hp & ->). rewrite length_app.
      set_unfold. destruct_or!; simplify_eq; cbn; lia.
    + destruct (number_int s) as [[i r']|] eqn:Ei; [|done]. cbn [mbind option_bind].
      apply number_int_spec in Ei as (-> & Hi & _). destruct (py_int i); intros; simplify_eq.
      rewrite length_app. destruct i; [done|]. cbn. lia.
Qed.

(** A list of quoted texts. *)
Lemma reads_quoted_items l r : l <> [] -> Forall plain l ->
  reads_items py_syntax (join "," (map quoted l) ++ "]"%char :: r) (map VStr l) r.
Proof.
  intros Hn Hl. induction l as [|s l IH]; [done|]. apply Forall_cons in Hl as [Hs Hl]. destruct l as [|s' l].
  - cbn [map join]. eapply items_last; [|by apply drop_while_stop]. apply reads_string.
    by apply py_literal_quoted.
  - assert (Hk : skip py_syntax (join "," (map quoted (s' :: l)) ++ "]"%char :: r) =
                 join "," (map quoted (s' :: l)) ++ "]"%char :: r) by by destruct l.
    change (join "," (map quoted (s :: s' :: l))) with (quoted s ++ "," ++ join "," (map quoted (s' :: l))).
    rewrite <- !app_assoc. eapply items_cons; [|by apply drop_while_stop|rewrite Hk; by apply IH].
    apply reads_string. by apply py_literal_quoted.
Qed.

Lemma reads_quoted_list l r : Forall plain l ->
  reads py_syntax ("["%char :: join "," (map quoted l) ++ "]"%char :: r) (VList (map VStr l)) r.
Proof.
  intros Hl. destruct l as [|s l]; [by apply reads_nil|].
  assert (Hi : reads_items py_syntax (join "," (map quoted (s :: l)) ++ "]"%char :: r) (map VStr (s :: l)) r)
    by by apply reads_quoted_items.
  destruct (join "," (map quoted (s :: l))) as [|c t] eqn:E; [by destruct l|].
  assert (c = dquote) as -> by by destruct l; injection E as <- _.
  by eapply reads_list.
Qed.
