(* ===== verification/SurfaceLex.v ===== *)
(** * Lexical layer of host/aidl_surface.py

    String literals, comment stripping, whitespace normalisation and the
    splitting of a declaration body into top-level statements.  A scanning
    index [i] of the source is represented by the text from [i] on. *)

From S2P Require Import Prelude PyStr Regex.

(** ** String literals *)

(** [_string_end(text, i)]: index just past the literal that starts at [i].
    The loop index [j] may overshoot the text after a trailing backslash. *)
Fixpoint string_end_loop (fuel : nat) (text : str) (j : nat) : nat :=
  match fuel with
  | 0 => j
  | S fuel =>
      match text !! j with
      | None => j
      | Some c =>
          if bool_decide (c = dquote) then j
          else string_end_loop fuel text (j + if bool_decide (c = backslash) then 2 else 1)
      end
  end.

Definition _string_end (text : str) (i : nat) : nat :=
  min (string_end_loop (length text) text (i + 1) + 1) (length text).

(** The same scan on the text after the opening quote: what belongs to the
    literal (closing quote included) and what follows it. *)
Fixpoint cut_string (s : str) : str * str :=
  match s with
  | [] => ([], [])
  | c :: s' =>
      if bool_decide (c = dquote) then ([c], s')
      else if bool_decide (c = backslash) then
        match s' with
        | [] => ([c], [])
        | d :: s'' => let (l, r) := cut_string s'' in (c :: d :: l, r)
        end
      else let (l, r) := cut_string s' in (c :: l, r)
  end.

(** ** [strip_comments] *)

Fixpoint strip_loop (fuel : nat) (s : str) : str :=
  match fuel with
  | 0 => []
  | S fuel =>
      match s with
      | [] => []
      | c :: s' =>
          if bool_decide (c = dquote) then
            let (l, r) := cut_string s' in c :: l ++ strip_loop fuel r
          else if startswith "//" s then
            match find [newline] s with
            | None => []
            | Some j => strip_loop fuel (drop j s)
            end
          else if startswith "/*" s then
            match find "*/" (drop 2 s) with
            | None => [space]
            | Some j => space :: strip_loop fuel (drop (2 + j + 2) s)
            end
          else c :: strip_loop fuel s'
      end
  end.

Definition strip_comments (text : str) : str := strip_loop (length text) text.

(** ** [_normalize] *)

Definition re_spaces : re := Plus Space.
Definition re_punct : re :=
  Seq [Star true Space; Grp 1 (OneOf "(),;=[]"); Star true Space].
Definition re_bracket_word : re := Seq [Chr "]"%char; Grp 1 Word].

Definition group_str (cs : caps) (n : nat) : str := default [] (group cs n).

(** The local function [flush] *)
Definition flush (segment : str) : str :=
  let segment := re_sub re_spaces (fun _ => [space]) segment in
  let segment := re_sub re_punct (fun cs => group_str cs 1) segment in
  let segment := replace_char "="%char " = " (replace_char ","%char ", " segment) in
  re_sub re_bracket_word (fun cs => "] " ++ group_str cs 1) segment.

Fixpoint normalize_loop (fuel : nat) (out buf s : str) : str :=
  match fuel with
  | 0 => strip (out ++ flush buf)
  | S fuel =>
      match s with
      | [] => strip (out ++ flush buf)
      | c :: s' =>
          if bool_decide (c = dquote) then
            let (l, r) := cut_string s' in
            normalize_loop fuel (out ++ flush buf ++ c :: l) [] r
          else normalize_loop fuel out (buf ++ [c]) s'
      end
  end.

Definition _normalize (stmt : str) : str := normalize_loop (length stmt) [] [] stmt.

(** ** [_split_statements] *)

(** What the generator yields: [('decl', (header, inner_body))] or
    [('stmt', text)]. *)
Inductive item : Type :=
| Decl (header body : str)
| Stmt (text : str).

(** The inner loop that looks for the matching brace: the text between [i+1]
    and [j], and the text from [j] on.  It stops at depth 0 or at the end. *)
Fixpoint brace_loop (fuel depth : nat) (s : str) : str * str :=
  match fuel, depth with
  | 0, _ | _, 0 => ([], s)
  | S fuel, S _ =>
      match s with
      | [] => ([], [])
      | c :: s' =>
          if bool_decide (c = dquote) then
            let (l, r) := cut_string s' in
            let (b, r') := brace_loop fuel depth r in (c :: l ++ b, r')
          else
            let depth := if bool_decide (c = "{"%char) then S depth
                         else if bool_decide (c = "}"%char) then pred depth else depth in
            let (b, r') := brace_loop fuel depth s' in (c :: b, r')
      end
  end.

(** [body[i + 1:j - 1]]: the last character scanned is dropped. *)
Definition inner_body (scanned : str) : str := take (length scanned - 1) scanned.

Definition flush_stmt (buf : str) : list item :=
  match strip buf with [] => [] | t => [Stmt t] end.

Fixpoint split_loop (fuel : nat) (buf s : str) : list item :=
  match fuel with
  | 0 => flush_stmt buf
  | S fuel =>
      match s with
      | [] => flush_stmt buf
      | c :: s' =>
          if bool_decide (c = dquote) then
            let (l, r) := cut_string s' in split_loop fuel (buf ++ c :: l) r
          else if bool_decide (c = "{"%char) then
            let (b, r) := brace_loop (length s') 1 s' in
            Decl (strip buf) (inner_body b) :: split_loop fuel [] r
          else if bool_decide (c = ";"%char) then
            flush_stmt buf ++ split_loop fuel [] s'
          else split_loop fuel (buf ++ [c]) s'
      end
  end.

Definition _split_statements (body : str) : list item :=
  split_loop (length body) [] body.

Example strip_ex :
  strip_comments "a /* x */ b // c" = "a   b ".
Proof. reflexivity. Qed.

Example normalize_ex :
  _normalize "  int   beta( in String b ,out long[]c ) " = "int beta(in String b, out long[] c)".
Proof. reflexivity. Qed.

Example split_ex :
  _split_statements " int x; parcelable Id { int value; } int y;"
  = [Stmt "int x"; Decl "parcelable Id" " int value; "; Stmt "int y"].
Proof. reflexivity. Qed.
