(* ===== verification/SurfaceParse.v ===== *)
(** * Parsing and dumping AIDL declarations (host/aidl_surface.py)

    Annotations, enum bodies, type declarations, whole files, and the
    canonical text dump of a source tree. *)

From S2P Require Import Prelude PyStr Regex PyDict SurfaceLex.

(** ** Declarations *)

(** [DECL_KINDS] *)
Inductive decl_kind : Type := Interface | Parcelable | Union | Enum.

#[export] Instance decl_kind_eq_dec : EqDecision decl_kind.
Proof. solve_decision. Defined.

Definition kind_name (k : decl_kind) : str :=
  match k with
  | Interface => "interface"
  | Parcelable => "parcelable"
  | Union => "union"
  | Enum => "enum"
  end.

Definition DECL_KINDS : list decl_kind := [Interface; Parcelable; Union; Enum].

(** [s in DECL_KINDS], and which one *)
Definition kind_of (s : str) : option decl_kind :=
  List.find (fun k => bool_decide (kind_name k = s)) DECL_KINDS.

(** The value stored under a qualified name in [types]. *)
Record type_decl : Type := TypeDecl {
  kind : decl_kind;
  oneway : bool;
  annotations : list str;
  members : list str
}.

#[export] Instance type_decl_eq_dec : EqDecision type_decl.
Proof. solve_decision. Defined.

Abbreviation types := (dict str type_decl).

(** ** Patterns *)

Definition g_oneway : nat := 1.
Definition g_kind : nat := 2.
Definition g_name : nat := 3.
Definition g_term : nat := 4.

Definition _DECL_RE : re :=
  Seq [Bol false;
       Opt (Grp g_oneway (Cat (Lit "oneway") (Plus Space)));
       Grp g_kind (Alt (Lit "interface") (Alt (Lit "parcelable")
                  (Alt (Lit "union") (Lit "enum"))));
       Plus Space;
       Grp g_name (Plus Word);
       Star true Space;
       Grp g_term (OneOf "{;")].

Definition _ANNOTATION_RE : re :=
  Seq [Chr "@"%char; Plus Word;
       Opt (Grp 1 (Seq [Star true Space; Chr "("%char;
                        Star true (NoneOf ")"); Chr ")"%char]))].

Definition _INT_RE : re :=
  Seq [Bol false; Opt (OneOf "+-");
       Grp 1 (Alt (Seq [Chr "0"%char; OneOf "xX"; Plus (Cls is_hex)])
                  (Plus (Cls is_decimal)));
       Eol].

Definition re_package : re :=
  Seq [Bol true; Star true Space; Lit "package"; Plus Space;
       Grp 1 (Plus (Cls (fun c => is_word c || bool_decide (c = "."%char))));
       Star true Space; Chr ";"%char].

Definition re_package_or_import : re :=
  Seq [Bol true; Star true Space; Grp 1 (Alt (Lit "package") (Lit "import"));
       Plus Space;
       Plus (Cls (fun c => is_word c || bool_decide (c ∈ ".*"%str)));
       Star true Space; Chr ";"%char].

Definition remove_spaces (s : str) : str := re_sub re_spaces (fun _ => []) s.

(** ** [_take_annotations] *)

Fixpoint take_annotations_loop (fuel : nat) (anns : list str) (rest : str)
    : list str * str :=
  match fuel with
  | 0 => (anns, rest)
  | S fuel =>
      match re_match _ANNOTATION_RE rest with
      | None => (anns, rest)
      | Some (m, after, _) =>
          take_annotations_loop fuel (anns ++ [remove_spaces m]) (strip after)
      end
  end.

Definition _take_annotations (text : str) : list str * str :=
  take_annotations_loop (S (length text)) [] (strip text).

(** ** [_parse_enum_body] *)

(** One iteration: [members] so far and [prev], [None] when the value of the
    previous enumerator is not known. *)
Definition enum_step (st : list str * option Z) (value : str)
    : res (list str * option Z) :=
  let (members, prev) := st in
  let value := strip value in
  match value with
  | [] => Ok (members, prev)
  | _ =>
      if contains "=" value then
        let '(name, _, expr) := partition "=" value in
        let name := strip name in
        let expr := strip expr in
        match re_match _INT_RE expr with
        | Some _ =>
            prev ← py_int0 expr;
            Ok (members ++ [name ++ " = " ++ fmt_d prev], Some prev)
        | None => Ok (members ++ [name ++ " = " ++ _normalize expr], None)
        end
      else
        let prev := match prev with None => None | Some p => Some (p + 1)%Z end in
        Ok (members ++ [match prev with
                        | Some p => value ++ " = " ++ fmt_d p
                        | None => value
                        end], prev)
  end.

Definition _parse_enum_body (body : str) : res (list str) :=
  st ← foldM_res enum_step ([], Some (-1)%Z) (split_char ","%char body);
  Ok (fst st).

(** ** [_parse_type] *)

(** ['.'.join(x for x in l if x)] *)
Definition dotted (l : list str) : str :=
  join "." (filter (fun x => x <> []) l).

(** The recursion is on nested bodies, which are shorter than the body they
    are found in; [fuel] bounds the nesting. *)
Fixpoint parse_type_fuel (fuel : nat) (header body package outer : str)
    (ts : types) : res types :=
  match fuel with
  | 0 => Err RecursionError
  | S fuel =>
      let (anns, rest) := _take_annotations header in
      match re_match _DECL_RE (rest ++ " {") with
      | None => Ok ts
      | Some (_, _, m) =>
          match kind_of (group_str m g_kind) with
          | None => Ok ts
          | Some k =>
              let name := group_str m g_name in
              let oneway := match group m g_oneway with
                            | Some (_ :: _) => true | _ => false end in
              let qname := dotted [package; outer; name] in
              st ←
                match k with
                | Enum =>
                    members ← _parse_enum_body body; Ok (ts, members)
                | _ =>
                    foldM_res (fun st i =>
                      let (ts, members) := (st : types * list str) in
                      match i with
                      | Decl h b =>
                          ts ← parse_type_fuel fuel h b package (dotted [outer; name]) ts;
                          Ok (ts, members)
                      | Stmt t => Ok (ts, members ++ [_normalize t])
                      end) (ts, []) (_split_statements body)
                end;
              Ok (dset (fst st) qname
                    (TypeDecl k oneway (sorted anns) (snd st)))
          end
      end
  end.

Definition _parse_type (header body package outer : str) (ts : types) : res types :=
  parse_type_fuel (S (length body)) header body package outer ts.

(** ** [parse_aidl] *)

(** An unstructured forward declaration, [parcelable X;] *)
Definition parse_forward (package text : str) (ts : types) : types :=
  let (anns, rest) := _take_annotations text in
  match re_match _DECL_RE (rest ++ " ;") with
  | None => ts
  | Some (_, _, m) =>
      match kind_of (group_str m g_kind) with
      | None => ts
      | Some k =>
          dset ts (dotted [package; group_str m g_name])
            (TypeDecl k false (sorted anns) [])
      end
  end.

Definition parse_aidl (text : str) (ts : types) : res types :=
  let text := strip_comments text in
  let package := match re_search re_package text with
                 | Some cs => group_str cs 1 | None => [] end in
  let text := re_sub re_package_or_import (fun _ => []) text in
  foldM_res (fun ts i =>
    match i with
    | Decl h b => _parse_type h b package [] ts
    | Stmt t => Ok (parse_forward package t ts)
    end) ts (_split_statements text).

(** ** [dump_surface] *)

(** A directory: its files with their contents, and its subdirectories. *)
Inductive tree : Type :=
| Dir (files : list (str * str)) (dirs : list (str * tree)).

Definition name_le {A} (x y : str * A) : Prop := str_le (fst x) (fst y).
#[export] Instance name_le_dec {A} (x y : str * A) : Decision (name_le x y).
Proof. unfold name_le. apply _. Defined.

(** The texts of the [.aidl] files in the order in which [os.walk] with sorted
    [dirnames] and [filenames] visits them: the files of a directory, then its
    subdirectories.  Reading a file translates its newlines. *)
Fixpoint aidl_texts (t : tree) : list str :=
  match t with
  | Dir files dirs =>
      ((universal_newlines ∘ snd) <$>
        filter (fun f => endswith ".aidl" (fst f) = true) (merge_sort name_le files)) ++
      concat (snd <$> merge_sort name_le
        (map (fun d => (fst d, aidl_texts (snd d))) dirs))
  end.

Definition type_head (qname : str) (t : type_decl) : str :=
  join " " (annotations t ++ (if oneway t then ["oneway"] else [])
            ++ [kind_name (kind t); qname]).

Definition indent : str := "    ".

Definition type_lines (qt : str * type_decl) : list str :=
  type_head (fst qt) (snd qt) :: map (app indent) (members (snd qt)) ++ [[]].

(** [types] in the order of [sorted(types)] *)
Definition sorted_types (ts : types) : list (str * type_decl) := merge_sort name_le ts.

Definition dump_types (ts : types) : str :=
  join [newline] (concat (map type_lines (sorted_types ts))).

Definition parse_tree (t : tree) : res types :=
  foldM_res (fun ts text => parse_aidl text ts) [] (aidl_texts t).

Definition dump_surface (t : tree) : res str :=
  ts ← parse_tree t; Ok (dump_types ts).

Definition base_enum : str :=
  "package com.rdk.test;
@VintfStability
@Backing(type= int )
enum Mode { OFF = 0, ON = 0x10, AUTO, }
interface IFoo { const int X = 3; oneway void f(in int[] a); parcelable P { int v; } }".

Example dump_ex :
  dump_surface (Dir [("a.aidl", base_enum)] []) = Ok
"interface com.rdk.test.IFoo
    const int X = 3
    oneway void f(in int[] a)

parcelable com.rdk.test.IFoo.P
    int v

@Backing(type=int) @VintfStability enum com.rdk.test.Mode
    OFF = 0
    ON = 16
    AUTO = 17
".
Proof. vm_compute. reflexivity. Qed.
