(* ===== verification/SurfaceDiff.v ===== *)
(** * Structural comparison of two surface dumps (host/aidl_surface.py)

    [parse_dump] reads a dump back; [diff_surface] compares two of them and
    classifies the difference as breaking, major or none. *)

From S2P Require Import Prelude PyStr Regex PyDict SurfaceLex SurfaceParse.

(** ** [parse_dump] *)

(** The loop state: [types] and the name under which the current declaration
    [cur] was stored ([cur] and [types[name]] are the same object). *)
Definition bad_header (line : str) : exn :=
  ValueError "bad dump header line: %r" [py_repr line].

Definition add_member (ts : types) (name member : str) : types :=
  match dget ts name with
  | Some t =>
      dset ts name (TypeDecl (kind t) (oneway t) (annotations t) (members t ++ [member]))
  | None => ts
  end.

Definition parse_header (line : str) : res (str * type_decl) :=
  let (anns, rest) := _take_annotations line in
  let parts := split_ws rest in
  let oneway := match parts with p :: _ => bool_decide (p = "oneway") | [] => false end in
  let parts := if oneway then drop 1 parts else parts in
  match parts with
  | [k; qname] =>
      match kind_of k with
      | Some k => Ok (qname, TypeDecl k oneway (sorted anns) [])
      | None => Err (bad_header line)
      end
  | _ => Err (bad_header line)
  end.

Definition dump_line (st : types * option str) (line : str) : res (types * option str) :=
  let (ts, cur) := st in
  match strip line with
  | [] => Ok (ts, cur)
  | stripped =>
      if startswith indent line then
        match cur with
        | Some name => Ok (add_member ts name stripped, cur)
        | None => Ok (ts, cur)
        end
      else
        h ← parse_header line;
        Ok (dset ts (fst h) (snd h), Some (fst h))
  end.

Definition parse_dump (text : str) : res types :=
  st ← foldM_res dump_line ([], None) (splitlines text);
  Ok (fst st).

(** ** [_member_name] *)

Definition _METHOD_RE : re :=
  Seq [Star false (NoneOf "(="); Grp 1 (Plus Word); Star true Space; Chr "("%char].

(** [member.split('=')[0].split()[-1].strip()] *)
Definition declared_name (member : str) : res str :=
  match split_char "="%char member with
  | [] => Err IndexError
  | w :: _ =>
      match last (split_ws w) with
      | None => Err IndexError
      | Some n => Ok (strip n)
      end
  end.

Definition is_const (member : str) : bool := startswith "const " member.

Definition _member_name (k : decl_kind) (member : str) : res str :=
  if bool_decide (k = Enum) || is_const member then declared_name member
  else match re_match _METHOD_RE member with
       | Some (_, _, cs) => Ok (group_str cs 1)
       | None => declared_name member
       end.

(** ** Changes *)

Inductive class : Type := Breaking | Major | NoChange.

#[export] Instance class_eq_dec : EqDecision class.
Proof. solve_decision. Defined.

Record change : Type := Change {
  c_class : class;
  c_kind : str;
  c_where : str;
  c_symbol : str;
  c_old : option str;
  c_new : option str
}.

#[export] Instance change_eq_dec : EqDecision change.
Proof. solve_decision. Defined.

(** ** [_diff_sequence] *)

Definition renamed (added_kind to : str) : str := replace "added" to added_kind.

(** The removals and changes reported for the old members, in order. *)
Definition sequence_changes (loc added_kind : str) (old_by_name new_by_name : dict str str)
    : list change :=
  concat (map (fun nm : str * str =>
    let (name, member) := nm in
    match dget new_by_name name with
    | None => [Change Breaking (renamed added_kind "removed") loc name (Some member) None]
    | Some member' =>
        if bool_decide (member' = member) then []
        else [Change Breaking (renamed added_kind "changed") loc name
                (Some member) (Some member')]
    end) old_by_name).

(** The members appended after the surviving ones. *)
Definition sequence_added (k : decl_kind) (loc added_kind : str)
    (old_by_name new_by_name : dict str str) (appended : list str) : list change :=
  concat (map (fun name : str =>
    if dmem old_by_name name then []
    else let member : str := default [] (dget new_by_name name) in
         if bool_decide (k = Union)
         then [Change Breaking "union_arm_added" loc member None None]
         else [Change Major added_kind loc member None None]) appended).

Definition _diff_sequence (k : decl_kind) (loc : str) (old new : list str)
    (added_kind : str) : res (list change) :=
  old_names ← mapM_res (_member_name k) old;
  new_names ← mapM_res (_member_name k) new;
  let new_by_name := dict_of (zip new_names new) in
  let old_by_name := dict_of (zip old_names old) in
  let survivors := filter (fun n => dmem new_by_name n = true) old_names in
  let changes := sequence_changes loc added_kind old_by_name new_by_name in
  if bool_decide (take (length survivors) new_names = survivors) then
    Ok (changes ++ sequence_added k loc added_kind old_by_name new_by_name
                     (drop (length survivors) new_names))
  else
    Ok (changes ++ [Change Breaking (renamed added_kind "reordered") loc
                      (join ", " survivors) None None]).

(** ** [_diff_enum] *)

(** The local function [as_map] *)
Definition as_map (ms : list str) : res (dict str str) :=
  names ← mapM_res declared_name ms;
  Ok (dict_of (zip names ms)).

(** [sorted(d.items())] *)
Definition sorted_items (d : dict str str) : list (str * str) := merge_sort name_le d.

Definition _diff_enum (loc : str) (old new : list str) (prefix : str)
    : res (list change) :=
  om ← as_map old;
  nm ← as_map new;
  let removed := concat (map (fun x : str * str =>
    let (name, member) := x in
    match dget nm name with
    | None => [Change Breaking (prefix ++ "_removed") loc name (Some member) None]
    | Some member' =>
        if bool_decide (member' = member) then []
        else [Change Breaking (prefix ++ "_changed") loc name (Some member) (Some member')]
    end) (sorted_items om)) in
  let added := concat (map (fun x : str * str =>
    let (name, member) := x in
    if dmem om name then []
    else [Change Major (prefix ++ "_added") loc member None None]) (sorted_items nm)) in
  Ok (removed ++ added).

(** ** [diff_surface] *)

Definition type_loc (t : type_decl) (qname : str) : str :=
  kind_name (kind t) ++ " " ++ qname.

Definition vintf : str := "@VintfStability".

(** [set(l)] in the order [sorted] gives it *)
Definition sorted_set (l : list str) : list str := sorted (remove_dups l).

Definition diff_head (loc qname : str) (o n : type_decl) : list change :=
  let show t : str := (if oneway t then "oneway " else []) ++ kind_name (kind t) in
  (if bool_decide (kind o = kind n /\ oneway o = oneway n) then []
   else [Change Breaking "type_changed" loc qname (Some (show o)) (Some (show n))])
  ++ map (fun a => Change Breaking "annotation_removed" loc a None None)
       (sorted_set (list_difference (annotations o) (annotations n)))
  ++ map (fun a => Change (if bool_decide (a = vintf) then Major else Breaking)
                     "annotation_added" loc a None None)
       (sorted_set (list_difference (annotations n) (annotations o))).

Definition diff_members (loc : str) (o n : type_decl) : res (list change) :=
  if bool_decide (kind o = Enum) then
    _diff_enum loc (members o) (members n) "enum_value"
  else
    consts ← _diff_enum loc (filter (fun m => is_const m = true) (members o))
                            (filter (fun m => is_const m = true) (members n)) "const";
    seqs ← _diff_sequence (kind o) loc
              (filter (fun m => is_const m = false) (members o))
              (filter (fun m => is_const m = false) (members n))
              (if bool_decide (kind o = Interface) then "method_added" else "field_added");
    Ok (consts ++ seqs).

Definition diff_type (qname : str) (o n : option type_decl) : res (list change) :=
  match o, n with
  | Some o, None =>
      Ok [Change Breaking "type_removed" (type_loc o qname) qname None None]
  | None, Some n =>
      Ok [Change Major "type_added" (type_loc n qname) qname None None]
  | Some o, Some n =>
      let loc := type_loc n qname in
      ms ← diff_members loc o n;
      Ok (diff_head loc qname o n ++ ms)
  | None, None => Ok []
  end.

Definition overall (changes : list change) : class :=
  if existsb (fun c => bool_decide (c_class c = Breaking)) changes then Breaking
  else if existsb (fun c => bool_decide (c_class c = Major)) changes then Major
  else NoChange.

Definition diff_types (old_types new_types : types) : res (class * list change) :=
  changes ← mapM_res (fun qname => diff_type qname (dget old_types qname) (dget new_types qname))
              (sorted_set (dkeys old_types ++ dkeys new_types));
  Ok (overall (concat changes), concat changes).

Definition diff_surface (old_text new_text : str) : res (class * list change) :=
  old_types ← parse_dump old_text;
  new_types ← parse_dump new_text;
  diff_types old_types new_types.
