(* ===== verification/SurfaceSpec.v ===== *)
(** * What a surface comparison promises

    The relations between two surfaces that the classification of
    [diff_surface] decides, independently of how it computes them. *)

From S2P Require Import Prelude PyStr Regex PyDict SurfaceLex SurfaceParse SurfaceDiff.

(** ** Well-formed declarations

    Every member has a name, and no name is declared twice: what any compiled
    AIDL file satisfies, constants and other members being named apart. *)

Definition has_name (m : str) : Prop := exists n, declared_name m = Ok n.

Definition consts (t : type_decl) : list str := filter (fun m => is_const m = true) (members t).
Definition others (t : type_decl) : list str := filter (fun m => is_const m = false) (members t).

Definition distinct_names (f : str -> res str) (l : list str) : Prop :=
  forall m1 m2, m1 ∈ l -> m2 ∈ l -> f m1 = f m2 -> m1 = m2.

Record wf_decl (t : type_decl) : Prop := {
  wf_named : Forall has_name (members t);
  wf_nodup : NoDup (members t);
  wf_enum : kind t = Enum -> distinct_names declared_name (members t);
  wf_consts : kind t <> Enum -> distinct_names declared_name (consts t);
  wf_others : kind t <> Enum -> distinct_names (_member_name (kind t)) (others t)
}.

Definition wf_types (ts : types) : Prop := forall q t, dget ts q = Some t -> wf_decl t.

(** ** The relations

    [evolves strict o n]: [n] keeps everything [o] declares.  A strict
    evolution adds nothing; otherwise [n] may promise [@VintfStability], add
    enumerators and constants, and append members, but no union arm. *)

Definition keeps (strict : bool) (l1 l2 : list str) : Prop :=
  (forall m, m ∈ l1 -> m ∈ l2) /\ (strict = true -> forall m, m ∈ l2 -> m ∈ l1).

Definition extends (strict : bool) (l1 l2 : list str) : Prop :=
  l1 `prefix_of` l2 /\ (strict = true -> l1 = l2).

Record evolves (strict : bool) (o n : type_decl) : Prop := {
  ev_kind : kind o = kind n;
  ev_oneway : oneway o = oneway n;
  ev_annotations : forall a, a ∈ annotations o -> a ∈ annotations n;
  ev_promises : forall a, a ∈ annotations n -> a ∈ annotations o \/ (strict = false /\ a = vintf);
  ev_enum : kind o = Enum -> keeps strict (members o) (members n);
  ev_consts : kind o <> Enum -> keeps strict (consts o) (consts n);
  ev_others : kind o <> Enum ->
    extends (strict || bool_decide (kind o = Union)) (others o) (others n)
}.

(** No client of [old] can break against [new]. *)
Definition Additive (old new : types) : Prop :=
  forall q o, dget old q = Some o -> exists n, dget new q = Some n /\ evolves false o n.

(** The two surfaces declare the same, up to the order in which enumerators,
    constants and annotations are written. *)
Definition SameSurface (old new : types) : Prop :=
  (forall q, dmem old q = dmem new q) /\
  forall q o n, dget old q = Some o -> dget new q = Some n -> evolves true o n.

(** ** Properties of the relations *)

Lemma keeps_refl s l : keeps s l l.
Proof. split; auto. Qed.

Lemma keeps_trans s l1 l2 l3 : keeps s l1 l2 -> keeps s l2 l3 -> keeps s l1 l3.
Proof. intros [A1 B1] [A2 B2]. split; intros; eauto. Qed.

Lemma extends_refl s l : extends s l l.
Proof. split; auto. Qed.

Lemma extends_trans s l1 l2 l3 : extends s l1 l2 -> extends s l2 l3 -> extends s l1 l3.
Proof. intros [A1 B1] [A2 B2]. split; [by etrans|]. intros E. by rewrite B1, B2. Qed.

#[export] Hint Resolve keeps_refl extends_refl keeps_trans extends_trans : surface.

Lemma evolves_refl s o : evolves s o o.
Proof. split; auto with surface. Qed.

Lemma evolves_trans s o m n : evolves s o m -> evolves s m n -> evolves s o n.
Proof.
  intros A B. pose proof (ev_kind _ _ _ A) as K. split.
  - by rewrite K, (ev_kind _ _ _ B).
  - by rewrite (ev_oneway _ _ _ A), (ev_oneway _ _ _ B).
  - intros a Ha. by apply (ev_annotations _ _ _ B), (ev_annotations _ _ _ A).
  - intros a Ha. destruct (ev_promises _ _ _ B a Ha); [|auto].
    by apply (ev_promises _ _ _ A).
  - intros E. eapply keeps_trans; [apply A|apply B]; congruence.
  - intros E. eapply keeps_trans; [apply A|apply B]; congruence.
  - intros E. eapply extends_trans; [apply A; congruence|].
    rewrite K. apply B. congruence.
Qed.

Lemma evolves_antisym o n : evolves false o n -> evolves false n o -> evolves true o n.
Proof.
  intros A B. pose proof (ev_kind _ _ _ A) as K. split; try apply A.
  - intros a Ha. left. by apply (ev_annotations _ _ _ B).
  - intros E. split; [by apply A|]. intros _. apply B. congruence.
  - intros E. split; [by apply A|]. intros _. apply B. congruence.
  - intros E. destruct (ev_others _ _ _ A E) as [P1 _].
    destruct (ev_others _ _ _ B) as [P2 _]; [congruence|].
    split; [done|]. intros _. by apply (anti_symm prefix).
Qed.

Lemma evolves_weaken o n : evolves true o n -> evolves false o n.
Proof.
  intros A. split; try apply A.
  - intros a Ha. destruct (ev_promises _ _ _ A a Ha) as [|[? _]]; [by left|done].
  - intros E. by destruct (ev_enum _ _ _ A E).
  - intros E. by destruct (ev_consts _ _ _ A E).
  - intros E. destruct (ev_others _ _ _ A E) as [P1 P2]. split; [done|]. intros _. by apply P2.
Qed.

#[export] Instance Additive_preorder : PreOrder Additive.
Proof.
  split.
  - intros ts q o H. exists o. auto using evolves_refl.
  - intros a b c A B q o H. destruct (A q o H) as (m & Hm & E1).
    destruct (B q m Hm) as (n & Hn & E2). eauto using evolves_trans.
Qed.

(** Two surfaces that are each an additive change of the other are the same. *)
Lemma Additive_antisym a b : Additive a b -> Additive b a -> SameSurface a b.
Proof.
  intros A B. split.
  - intros q. unfold dmem. destruct (dget a q) as [o|] eqn:Ea.
    + destruct (A q o Ea) as (n & -> & _). done.
    + destruct (dget b q) as [n|] eqn:Eb; [|done].
      destruct (B q n Eb) as (o & E & _). congruence.
  - intros q o n Ho Hn. destruct (A q o Ho) as (n' & Hn' & E1).
    destruct (B q n Hn) as (o' & Ho' & E2). simplify_eq. by apply evolves_antisym.
Qed.

(** ** Deciding well-formedness *)

Definition distinct_namesb (f : str -> res str) (l : list str) : bool :=
  match mapM_res f l with Ok ns => bool_decide (NoDup ns) | Err _ => false end.

Definition namedb (m : str) : bool :=
  match declared_name m with Ok _ => true | Err _ => false end.

Definition wf_declb (t : type_decl) : bool :=
  forallb namedb (members t) && bool_decide (NoDup (members t)) &&
  if bool_decide (kind t = Enum) then distinct_namesb declared_name (members t)
  else distinct_namesb declared_name (consts t)
       && distinct_namesb (_member_name (kind t)) (others t).

Lemma distinct_namesb_sound f l : distinct_namesb f l = true -> distinct_names f l.
Proof.
  unfold distinct_namesb. destruct (mapM_res f l) as [ns|] eqn:E; [|done].
  intros Hd%bool_decide_eq_true. apply mapM_res_Ok in E.
  induction E as [|m n l ns Hm E IH]; [by intros ? ? ?%elem_of_nil|].
  apply NoDup_cons in Hd as [Hn Hd].
  assert (Hin : forall m', m' ∈ l -> f m' = Ok n -> False).
  { intros m' [i Hi]%list_elem_of_lookup Hf. apply Hn.
    destruct (Forall2_lookup_l _ _ _ _ _ E Hi) as (n' & Hn' & Hf').
    assert (n' = n) as -> by congruence. by eapply list_elem_of_lookup_2. }
  intros m1 m2 [->|H1]%elem_of_cons [->|H2]%elem_of_cons Heq; [done| | |by apply IH].
  - destruct (Hin m2); congruence.
  - destruct (Hin m1); congruence.
Qed.

Lemma wf_declb_sound t : wf_declb t = true -> wf_decl t.
Proof.
  unfold wf_declb. intros H. bool_hyps.
  repeat match goal with H : bool_decide _ = true |- _ => apply bool_decide_eq_true in H end.
  split; try done.
  - apply Forall_forall. intros m Hm. rewrite forallb_forall in H.
    specialize (H m). rewrite <- list_elem_of_In in H. specialize (H Hm).
    unfold namedb in H. unfold has_name. destruct (declared_name m); [eauto|done].
  - intros E. rewrite bool_decide_eq_true_2 in H0 by done. by apply distinct_namesb_sound.
  - intros E. rewrite bool_decide_eq_false_2 in H0 by done. bool_hyps.
    by apply distinct_namesb_sound.
  - intros E. rewrite bool_decide_eq_false_2 in H0 by done. bool_hyps.
    by apply distinct_namesb_sound.
Qed.

Lemma wf_typesb_sound (ts : types) : forallb (fun x => wf_declb (snd x)) ts = true -> wf_types ts.
Proof.
  intros H q t Ht%dget_Some_elem. apply wf_declb_sound.
  rewrite forallb_forall in H. apply (H (q, t)). by apply list_elem_of_In.
Qed.
