(* ===== verification/SurfaceClass.v ===== *)
(** * The classification of [diff_surface] is exact

    On surfaces whose members have distinct names, [diff_surface] answers
    [none] exactly for the same surface, [major] exactly for an additive
    change, and [breaking] exactly for the rest. *)

From S2P Require Import Prelude PyStr Regex PyDict SurfaceLex SurfaceParse.
From S2P Require Import SurfaceDiff SurfaceSpec.

(** ** Acceptable changes

    At the strict level no change is acceptable; at the other, no breaking one. *)

Definition acceptable (strict : bool) (l : list change) : Prop :=
  if strict then l = [] else Forall (fun c => c_class c <> Breaking) l.

Lemma acceptable_nil s : acceptable s [].
Proof. destruct s; [done|constructor]. Qed.

Lemma acceptable_app s l1 l2 : acceptable s (l1 ++ l2) <-> acceptable s l1 /\ acceptable s l2.
Proof. destruct s; cbn; [by rewrite app_nil|by rewrite Forall_app]. Qed.

Lemma acceptable_concat s ls : acceptable s (concat ls) <-> forall l, l ∈ ls -> acceptable s l.
Proof.
  induction ls as [|l ls IH]; cbn.
  - split; [intros _ l ?%elem_of_nil; done|intros _; apply acceptable_nil].
  - rewrite acceptable_app, IH. setoid_rewrite elem_of_cons. naive_solver.
Qed.

Lemma acceptable_concat_map {A} s (f : A -> list change) l :
  acceptable s (concat (map f l)) <-> forall x, x ∈ l -> acceptable s (f x).
Proof.
  rewrite acceptable_concat. setoid_rewrite list_elem_of_fmap. naive_solver.
Qed.

Lemma acceptable_map {A} s (f : A -> change) l :
  acceptable s (map f l) <-> forall x, x ∈ l -> acceptable s [f x].
Proof.
  rewrite <- acceptable_concat_map. replace (concat (map (fun x => [f x]) l)) with (map f l);
    [done|]. induction l; cbn; congruence.
Qed.

Lemma acceptable_breaking s c : c_class c = Breaking -> ~ acceptable s [c].
Proof. intros H. destruct s; cbn; [done|]. rewrite Forall_singleton, H. tauto. Qed.

Lemma acceptable_major s c : c_class c = Major -> acceptable s [c] <-> s = false.
Proof. intros H. destruct s; cbn; [done|]. by rewrite Forall_singleton, H. Qed.

Lemma overall_breaking l : overall l <> Breaking <-> acceptable false l.
Proof.
  unfold overall, acceptable. destruct (existsb _ l) eqn:E; cbn.
  - apply existsb_exists in E as (c & Hc%list_elem_of_In & E%bool_decide_eq_true).
    split; [done|]. rewrite Forall_forall. intros H. by destruct (H c Hc).
  - assert (Forall (fun c => c_class c <> Breaking) l).
    { apply Forall_forall. intros c Hc Hb. apply not_true_iff_false in E. apply E.
      apply existsb_exists. exists c. rewrite <- list_elem_of_In.
      split; [done|by apply bool_decide_eq_true]. }
    split; [done|]. intros _. clear E. by split_ifs.
Qed.

Lemma overall_none l :
  Forall (fun c => c_class c <> NoChange) l -> overall l = NoChange <-> acceptable true l.
Proof.
  intros Hl. unfold acceptable. destruct l as [|c l]; [done|].
  split; [|done]. apply Forall_cons in Hl as [Hc _].
  unfold overall. cbn. destruct (c_class c); cbn; by split_ifs.
Qed.

(** ** Members by name *)

Section by_name.
Context (f : str -> res str).

Definition all_named (l : list str) : Prop := Forall (fun m => exists n, f m = Ok n) l.

Lemma names_ok l : all_named l -> exists ns, mapM_res f l = Ok ns.
Proof.
  induction 1 as [|m l [n Hn] _ [ns Hns]]; cbn; [by exists []|].
  exists (n :: ns). rewrite Hn. cbn. by rewrite Hns.
Qed.

Lemma zip_names l ns n m : mapM_res f l = Ok ns ->
  (n, m) ∈ zip ns l <-> m ∈ l /\ f m = Ok n.
Proof.
  intros H%mapM_res_Ok. induction H as [|m0 n0 l ns H0 _ IH]; cbn.
  - split; [by intros ?%elem_of_nil|by intros [?%elem_of_nil _]].
  - rewrite !elem_of_cons, IH. split.
    + intros [H|[? ?]]; [injection H as -> ->|]; auto.
    + intros [[->|?] E]; [left|]; auto. congruence.
Qed.

(** The dict the sources build from names and members. *)
Definition name_map (ns l : list str) : dict str str := dict_of (zip ns l).

Context (l ns : list str) (Hns : mapM_res f l = Ok ns) (Hd : distinct_names f l).

Lemma name_map_lookup n m : dget (name_map ns l) n = Some m <-> m ∈ l /\ f m = Ok n.
Proof using All.
  rewrite <- (zip_names l ns n m Hns). split; [apply dget_dict_of_elem|]. intros Hin.
  destruct (dget (name_map ns l) n) as [m'|] eqn:E.
  - apply dget_dict_of_elem in E.
    apply (zip_names _ _ _ _ Hns) in Hin as [H1 H2].
    apply (zip_names _ _ _ _ Hns) in E as [H3 H4]. f_equal. apply Hd; congruence.
  - apply dget_None in E. destruct E. apply dkeys_dict_of, list_elem_of_fmap. by exists (n, m).
Qed.

Lemma name_map_elem n m : (n, m) ∈ name_map ns l <-> m ∈ l /\ f m = Ok n.
Proof using All.
  rewrite <- name_map_lookup. split; [|apply dget_Some_elem].
  apply dget_elem, NoDup_dict_of.
Qed.

Lemma name_map_mem n : dmem (name_map ns l) n = true <-> exists m, m ∈ l /\ f m = Ok n.
Proof using All.
  unfold dmem. destruct (dget (name_map ns l) n) as [m|] eqn:E.
  - apply name_map_lookup in E. split; [eauto|done].
  - split; [done|]. intros (m & H). apply name_map_lookup in H. congruence.
Qed.
End by_name.

Lemma all_named_declared t : wf_decl t -> Forall has_name (members t).
Proof. apply wf_named. Qed.

Lemma member_name_total k m : has_name m -> exists n, _member_name k m = Ok n.
Proof.
  intros [n H]. unfold _member_name. destruct (_ || _); [eauto|].
  destruct (re_match _METHOD_RE m) as [[[? ?] ?]|]; eauto.
Qed.

(** ** Enumerators and constants *)

Section enum.
Context (loc prefix : str) (old new : list str).
Context (Ho : Forall has_name old) (Hn : Forall has_name new).
Context (Do : distinct_names declared_name old) (Dn : distinct_names declared_name new).

Lemma diff_enum_exact :
  exists l, _diff_enum loc old new prefix = Ok l /\
    forall s, acceptable s l <-> keeps s old new.
Proof using All.
  unfold _diff_enum, as_map.
  destruct (names_ok _ _ Ho) as [os Hos], (names_ok _ _ Hn) as [ns Hns].
  rewrite Hos, Hns. cbn [mbind res_bind].
  pose proof (name_map_elem _ _ _ Hos Do) as Eo.
  pose proof (name_map_elem _ _ _ Hns Dn) as En.
  pose proof (name_map_lookup _ _ _ Hns Dn) as Ln.
  pose proof (name_map_mem _ _ _ Hos Do) as Mo.
  fold (name_map os old). fold (name_map ns new).
  eexists; split; [reflexivity|]. intros s.
  rewrite acceptable_app, !acceptable_concat_map. unfold sorted_items.
  setoid_rewrite (merge_sort_Permutation name_le).
  transitivity ((forall m, m ∈ old -> m ∈ new) /\
    (s = true -> forall n m, (n, m) ∈ name_map ns new -> dmem (name_map os old) n = true)).
  - apply Morphisms_Prop.and_iff_morphism.
    + split.
      * intros H m Hm. destruct (proj1 (Forall_forall _ _) Ho m Hm) as [n E].
        specialize (H (n, m) (proj2 (Eo n m) (conj Hm E))). cbn in H.
        destruct (dget (name_map ns new) n) as [m'|] eqn:G;
          [|by apply acceptable_breaking in H].
        case_bool_decide as Em; [subst; by apply Ln in G as [? _]|by apply acceptable_breaking in H].
      * intros H [n m] [Hm E]%Eo. rewrite (proj2 (Ln n m)) by auto.
        rewrite bool_decide_eq_true_2 by done. apply acceptable_nil.
    + split.
      * intros H -> n m Hm. specialize (H _ Hm). cbn in H. by destruct (dmem _ n).
      * intros H [n m] Hm. destruct s; [by rewrite (H eq_refl _ _ Hm)|].
        destruct (dmem _ n); [apply acceptable_nil|by apply acceptable_major].
  - split; intros [H1 H2]; split; auto; intros E.
    + intros m Hm. destruct (proj1 (Forall_forall _ _) Hn m Hm) as [n En'].
      destruct (proj1 (Mo n)) as (m' & Hm' & E'); [by apply (H2 E n m), En|].
      assert (m = m') as ->; [|done]. apply Dn; auto. congruence.
    + intros n m [Hm E']%En. apply Mo. exists m. split; [|done]. by apply H2.
Qed.
End enum.

(** ** Methods and fields *)

Lemma prefix_lookup {A} (l1 l2 : list A) :
  length l1 <= length l2 -> (forall i x, l1 !! i = Some x -> l2 !! i = Some x) ->
  l1 `prefix_of` l2.
Proof.
  intros Hlen H. exists (drop (length l1) l2).
  rewrite <- (take_drop (length l1) l2) at 1. f_equal.
  apply list_eq_same_length with (n := length l1).
  - done.
  - rewrite length_take. lia.
  - intros i x y Hi H2 H1. apply H in H1. rewrite lookup_take_lt in H2 by done. congruence.
Qed.

Lemma names_lookup (f : str -> res str) l ns i m n :
  mapM_res f l = Ok ns -> l !! i = Some m -> ns !! i = Some n -> f m = Ok n.
Proof. intros H%mapM_res_Ok Hm Hn. eapply Forall2_lookup_lr in H; eauto. Qed.

Lemma names_length (f : str -> res str) l ns : mapM_res f l = Ok ns -> length ns = length l.
Proof. intros H%mapM_res_Ok. symmetry. by eapply Forall2_length. Qed.

Lemma names_NoDup (f : str -> res str) l ns :
  mapM_res f l = Ok ns -> distinct_names f l -> NoDup l -> NoDup ns.
Proof.
  intros H Hd Hl. apply NoDup_alt. intros i j n Hi Hj.
  assert (Hlen := names_length _ _ _ H).
  destruct (lookup_lt_is_Some_2 l i) as [m1 H1]; [rewrite <- Hlen; by eapply lookup_lt_Some|].
  destruct (lookup_lt_is_Some_2 l j) as [m2 H2]; [rewrite <- Hlen; by eapply lookup_lt_Some|].
  eapply NoDup_lookup; [exact Hl|exact H1|]. rewrite H2. f_equal.
  pose proof (names_lookup _ _ _ _ _ _ H H1 Hi). pose proof (names_lookup _ _ _ _ _ _ H H2 Hj).
  apply Hd; eauto using list_elem_of_lookup_2. congruence.
Qed.

(** Members that keep their names and begin with the surviving ones are a
    prefix. *)
Lemma survivors_prefix (f : str -> res str) old new os ns :
  mapM_res f old = Ok os -> mapM_res f new = Ok ns -> NoDup ns ->
  (forall m, m ∈ old -> m ∈ new) -> take (length os) ns = os ->
  old `prefix_of` new.
Proof.
  intros Ho Hn Hd Hsub Htake. pose proof (names_length _ _ _ Ho). pose proof (names_length _ _ _ Hn).
  apply prefix_lookup.
  - assert (length (take (length os) ns) = length os) as E by congruence.
    rewrite length_take in E. lia.
  - intros i m Hi.
    destruct (lookup_lt_is_Some_2 os i) as [n Hos]; [apply lookup_lt_Some in Hi; lia|].
    assert (Hni : ns !! i = Some n).
    { rewrite <- Htake in Hos. by apply lookup_take_Some in Hos as [? _]. }
    destruct (list_elem_of_lookup_1 new m) as [j Hj].
    { eapply Hsub, list_elem_of_lookup_2, Hi. }
    destruct (lookup_lt_is_Some_2 ns j) as [n' Hnj]; [apply lookup_lt_Some in Hj; lia|].
    assert (n' = n) as ->.
    { pose proof (names_lookup _ _ _ _ _ _ Ho Hi Hos).
      pose proof (names_lookup _ _ _ _ _ _ Hn Hj Hnj). congruence. }
    by rewrite (NoDup_lookup _ _ _ _ Hd Hni Hnj).
Qed.

Lemma names_app (f : str -> res str) old x os ns :
  mapM_res f old = Ok os -> mapM_res f (old ++ x) = Ok ns ->
  exists xs, mapM_res f x = Ok xs /\ ns = os ++ xs.
Proof.
  intros Ho Hn. rewrite mapM_res_app, Ho in Hn. cbn in Hn.
  destruct (mapM_res f x) as [xs|]; [|done]. injection Hn as <-. by exists xs.
Qed.

(** Appended members whose names are all old ones are none. *)
Lemma appended_old_nil (f : str -> res str) old x os ns :
  mapM_res f old = Ok os -> mapM_res f (old ++ x) = Ok ns -> NoDup ns ->
  (forall n, n ∈ drop (length os) ns -> exists m, m ∈ old /\ f m = Ok n) -> x = [].
Proof.
  intros Ho Hn Hd H. destruct (names_app _ _ _ _ _ Ho Hn) as (xs & Hx & ->).
  rewrite drop_app_length in H. destruct x as [|m x]; [done|exfalso].
  assert (Hlen := names_length _ _ _ Hx). destruct xs as [|n xs]; [done|].
  destruct (H n) as (m' & Hm' & E'); [left|].
  apply list_elem_of_lookup in Hm' as [i Hi].
  destruct (lookup_lt_is_Some_2 os i) as [n' Hni].
  { rewrite (names_length _ _ _ Ho). by eapply lookup_lt_Some. }
  pose proof (names_lookup _ _ _ _ _ _ Ho Hi Hni). assert (n' = n) as -> by congruence.
  apply NoDup_app in Hd as (_ & Hdis & _).
  apply (Hdis n); [by eapply list_elem_of_lookup_2|left].
Qed.

Section sequence.
Context (k : decl_kind) (loc added_kind : str) (old new : list str).
Context (Ho : all_named (_member_name k) old) (Hn : all_named (_member_name k) new).
Context (Do : distinct_names (_member_name k) old) (Dn : distinct_names (_member_name k) new).
Context (No : NoDup old) (Nn : NoDup new).

Lemma sequence_changes_exact os ns s :
  mapM_res (_member_name k) old = Ok os -> mapM_res (_member_name k) new = Ok ns ->
  acceptable s (sequence_changes loc added_kind (name_map os old) (name_map ns new))
  <-> forall m, m ∈ old -> m ∈ new.
Proof using Ho Do Dn.
  intros Hos Hns. unfold sequence_changes. rewrite acceptable_concat_map.
  pose proof (name_map_elem _ _ _ Hos Do) as Eo.
  pose proof (name_map_lookup _ _ _ Hns Dn) as Ln. split.
  - intros H m Hm. destruct (proj1 (Forall_forall _ _) Ho m Hm) as [n E].
    specialize (H (n, m) (proj2 (Eo n m) (conj Hm E))). cbn in H.
    destruct (dget (name_map ns new) n) as [m'|] eqn:G; [|by apply acceptable_breaking in H].
    case_bool_decide as Em; [subst; by apply Ln in G as [? _]|by apply acceptable_breaking in H].
  - intros H [n m] [Hm E]%Eo. rewrite (proj2 (Ln n m)) by auto.
    rewrite bool_decide_eq_true_2 by done. apply acceptable_nil.
Qed.

Lemma sequence_added_exact om nm l s :
  acceptable s (sequence_added k loc added_kind om nm l)
  <-> (s || bool_decide (k = Union) = true -> forall n, n ∈ l -> dmem om n = true).
Proof.
  unfold sequence_added. rewrite acceptable_concat_map.
  split.
  - intros H E n Hn'. specialize (H n Hn'). cbn in H. destruct (dmem om n); [done|].
    case_bool_decide; [by apply acceptable_breaking in H|].
    apply acceptable_major in H; [|done]. subst. by rewrite orb_false_r in E.
  - intros H n Hn'. destruct (dmem om n) eqn:E; [apply acceptable_nil|].
    destruct (s || bool_decide (k = Union)) eqn:Es; [by rewrite H in E|].
    apply orb_false_iff in Es as [-> Eu]. rewrite Eu. by apply acceptable_major.
Qed.

Lemma diff_sequence_exact :
  exists l, _diff_sequence k loc old new added_kind = Ok l /\
    forall s, acceptable s l <-> extends (s || bool_decide (k = Union)) old new.
Proof using All.
  unfold _diff_sequence.
  destruct (names_ok _ _ Ho) as [os Hos], (names_ok _ _ Hn) as [ns Hns].
  rewrite Hos, Hns. cbn [mbind res_bind]. fold (name_map os old) (name_map ns new).
  pose proof (names_NoDup _ _ _ Hns Dn Nn) as Nns.
  pose proof (name_map_mem _ _ _ Hos Do) as Mo.
  pose proof (name_map_mem _ _ _ Hns Dn) as Mn.
  set (survivors := filter _ os).
  assert (Hsurv : (forall m, m ∈ old -> m ∈ new) -> survivors = os).
  { intros H. apply filter_all. intros n Hin. apply Mn.
    apply list_elem_of_lookup in Hin as [i Hi].
    destruct (lookup_lt_is_Some_2 old i) as [m Hm].
    { rewrite <- (names_length _ _ _ Hos). by eapply lookup_lt_Some. }
    exists m. split; [eapply H, list_elem_of_lookup_2, Hm|]. exact (names_lookup _ _ _ _ _ _ Hos Hm Hi). }
  case_bool_decide as Htake; eexists; (split; [reflexivity|]); intros s;
    rewrite acceptable_app, sequence_changes_exact by done.
  - rewrite sequence_added_exact. split.
    + intros [Hsub Hadd]. rewrite (Hsurv Hsub) in *.
      pose proof (survivors_prefix _ _ _ _ _ Hos Hns Nns Hsub Htake) as Hpre.
      split; [done|]. intros E. specialize (Hadd E).
      destruct Hpre as [x ->].
      rewrite (appended_old_nil _ _ _ _ _ Hos Hns Nns); [by rewrite app_nil_r|].
      intros n Hin. by apply Mo, Hadd.
    + intros [[x ->] Heq]. split; [set_solver|]. intros E n Hin.
      specialize (Heq E). apply (f_equal length) in Heq. rewrite length_app in Heq.
      destruct x as [|? ?]; [|cbn in Heq; lia]. rewrite app_nil_r in *.
      rewrite Hsurv in Hin by set_solver. rewrite Hos in Hns. injection Hns as <-.
      rewrite drop_all in Hin. by apply elem_of_nil in Hin.
  - split.
    + intros [_ H]. by apply acceptable_breaking in H.
    + intros [[x ->] Heq]. destruct Htake. rewrite Hsurv by set_solver.
      destruct (names_app _ _ _ _ _ Hos Hns) as (xs & _ & ->). by rewrite take_app_length.
Qed.
End sequence.

(** ** One declaration *)

Lemma consts_members t m : m ∈ consts t -> m ∈ members t.
Proof. unfold consts. rewrite list_elem_of_filter. by intros [_ ?]. Qed.

Lemma others_members t m : m ∈ others t -> m ∈ members t.
Proof. unfold others. rewrite list_elem_of_filter. by intros [_ ?]. Qed.

#[export] Hint Resolve consts_members others_members : surface.

Lemma named_consts (P : str -> Prop) t : Forall P (members t) -> Forall P (consts t).
Proof. rewrite !Forall_forall. auto with surface. Qed.

Lemma named_others (P : str -> Prop) t : Forall P (members t) -> Forall P (others t).
Proof. rewrite !Forall_forall. auto with surface. Qed.

#[export] Hint Resolve named_consts named_others : surface.

Lemma named_member_name k l : Forall has_name l -> all_named (_member_name k) l.
Proof. intros H. apply (Forall_impl _ _ _ H). apply member_name_total. Qed.

Lemma diff_enum_total loc old new prefix :
  Forall has_name old -> Forall has_name new ->
  exists l, _diff_enum loc old new prefix = Ok l.
Proof.
  intros Ho Hn. unfold _diff_enum, as_map.
  destruct (names_ok _ _ Ho) as [? ->], (names_ok _ _ Hn) as [? ->]. cbn. eauto.
Qed.

Lemma diff_sequence_total k loc old new added_kind :
  Forall has_name old -> Forall has_name new ->
  exists l, _diff_sequence k loc old new added_kind = Ok l.
Proof.
  intros Ho%(named_member_name k) Hn%(named_member_name k). unfold _diff_sequence.
  destruct (names_ok _ _ Ho) as [? ->], (names_ok _ _ Hn) as [? ->].
  cbn. case_bool_decide; eauto.
Qed.

Lemma diff_members_total loc o n :
  Forall has_name (members o) -> Forall has_name (members n) ->
  exists l, diff_members loc o n = Ok l.
Proof.
  intros Ho Hn. unfold diff_members. case_bool_decide; [by apply diff_enum_total|].
  fold (consts o) (consts n) (others o) (others n).
  destruct (diff_enum_total loc (consts o) (consts n) "const") as [l1 ->];
    [auto with surface..|].
  destruct (diff_sequence_total (kind o) loc (others o) (others n)
    (if bool_decide (kind o = Interface) then "method_added" else "field_added")) as [l2 E];
    [auto with surface..|].
  cbn. rewrite E. cbn. eauto.
Qed.

Lemma diff_members_exact loc o n :
  wf_decl o -> wf_decl n -> kind o = kind n ->
  exists l, diff_members loc o n = Ok l /\ forall s, acceptable s l <->
    (kind o = Enum -> keeps s (members o) (members n)) /\
    (kind o <> Enum -> keeps s (consts o) (consts n)) /\
    (kind o <> Enum -> extends (s || bool_decide (kind o = Union)) (others o) (others n)).
Proof.
  intros Wo Wn K. unfold diff_members. case_bool_decide as Ek.
  - destruct (diff_enum_exact loc "enum_value" (members o) (members n)) as (l & -> & H);
      try apply wf_named; try apply wf_enum; try done; [congruence|].
    exists l. split; [done|]. intros s. rewrite H. naive_solver.
  - fold (consts o) (consts n) (others o) (others n).
    destruct (diff_enum_exact loc "const" (consts o) (consts n)) as (l1 & -> & H1);
      [by apply named_consts, wf_named..|by apply wf_consts|apply wf_consts; congruence|].
    destruct (diff_sequence_exact (kind o) loc
      (if bool_decide (kind o = Interface) then "method_added" else "field_added")
      (others o) (others n)) as (l2 & E & H2).
    + by apply named_member_name, named_others, wf_named.
    + by apply named_member_name, named_others, wf_named.
    + by apply wf_others.
    + rewrite K. apply wf_others; congruence.
    + by apply NoDup_filter, wf_nodup.
    + by apply NoDup_filter, wf_nodup.
    + cbn. rewrite E. cbn. eexists. split; [reflexivity|].
      intros s. rewrite acceptable_app, H1, H2. naive_solver.
Qed.

Lemma diff_head_exact loc q o n s :
  acceptable s (diff_head loc q o n) <->
    kind o = kind n /\ oneway o = oneway n /\
    (forall a, a ∈ annotations o -> a ∈ annotations n) /\
    (forall a, a ∈ annotations n -> a ∈ annotations o \/ (s = false /\ a = vintf)).
Proof.
  unfold diff_head. rewrite !acceptable_app, !acceptable_map. unfold sorted_set.
  setoid_rewrite elem_of_sorted. setoid_rewrite elem_of_remove_dups.
  setoid_rewrite list_elem_of_difference. split.
  - intros (H1 & H2 & H3). case_bool_decide as K; [|by apply acceptable_breaking in H1].
    destruct K as [K1 K2]. split_and!; [done|done| |].
    + intros a Ha. destruct (decide (a ∈ annotations n)); [done|].
      assert (F := H2 a (conj Ha n0)). by apply acceptable_breaking in F.
    + intros a Ha. destruct (decide (a ∈ annotations o)) as [|N]; [by left|right].
      specialize (H3 a (conj Ha N)). case_bool_decide; [|by apply acceptable_breaking in H3].
      apply acceptable_major in H3; done.
  - intros (K1 & K2 & H2 & H3). split_and!.
    + rewrite bool_decide_eq_true_2 by done. apply acceptable_nil.
    + intros a [Ha N]. by destruct N; auto.
    + intros a [Ha N]. destruct (H3 a Ha) as [|[-> ->]]; [done|].
      rewrite bool_decide_eq_true_2 by done. by apply acceptable_major.
Qed.

Lemma diff_type_exact q o n :
  wf_decl o -> wf_decl n ->
  exists l, diff_type q (Some o) (Some n) = Ok l /\
    forall s, acceptable s l <-> evolves s o n.
Proof.
  intros Wo Wn. unfold diff_type. set (loc := type_loc n q).
  destruct (decide (kind o = kind n)) as [K|K].
  - destruct (diff_members_exact loc o n Wo Wn K) as (l & -> & H).
    eexists. split; [reflexivity|]. intros s.
    rewrite acceptable_app, diff_head_exact, H. split.
    + intros ((? & ? & ? & ?) & ? & ? & ?). by constructor.
    + intros []. by split_and!.
  - destruct (diff_members_total loc o n) as [l ->]; [by apply wf_named..|].
    eexists. split; [reflexivity|]. intros s. rewrite acceptable_app, diff_head_exact.
    split; [naive_solver|]. by intros [].
Qed.

(** ** Every change has a class *)

Definition classified (l : list change) : Prop := Forall (fun c => c_class c <> NoChange) l.

Lemma classified_concat_map {A} (f : A -> list change) l :
  (forall x, classified (f x)) -> classified (concat (map f l)).
Proof.
  intros H. unfold classified. rewrite Forall_concat, Forall_map. apply Forall_true. apply H.
Qed.

Lemma classified_app l1 l2 : classified l1 -> classified l2 -> classified (l1 ++ l2).
Proof. intros. by apply Forall_app. Qed.

Ltac classify :=
  repeat match goal with
  | |- classified [] => constructor
  | |- classified [_] => apply Forall_singleton; cbn
  | |- classified (_ ++ _) => apply classified_app
  | |- classified (concat (map _ _)) => apply classified_concat_map; intros
  | |- classified (map _ _) => apply Forall_map, Forall_true; intros; cbn
  | x : str * str |- _ => destruct x
  | |- context [dget ?d ?k] => destruct (dget d k)
  | |- context [if ?b then _ else _] => destruct b
  | |- _ <> NoChange => discriminate
  end.

Lemma diff_enum_classified loc old new prefix l :
  _diff_enum loc old new prefix = Ok l -> classified l.
Proof. unfold _diff_enum, as_map. intros H. res_inv. classify. Qed.

Lemma diff_sequence_classified k loc old new added_kind l :
  _diff_sequence k loc old new added_kind = Ok l -> classified l.
Proof.
  unfold _diff_sequence, sequence_changes, sequence_added. intros H. res_inv.
  case_bool_decide; res_inv; classify.
Qed.

Lemma diff_type_classified q o n l : diff_type q o n = Ok l -> classified l.
Proof.
  unfold diff_type, diff_members, diff_head.
  intros H. destruct o, n; res_inv; classify; case_bool_decide; res_inv;
    eauto using diff_enum_classified, classified_app, diff_sequence_classified.
Qed.

(** ** Whole surfaces *)

(** The two surface relations, as one family. *)
Definition surface_evolves (s : bool) (old new : types) : Prop :=
  (forall q o, dget old q = Some o -> exists n, dget new q = Some n /\ evolves s o n) /\
  (s = true -> forall q n, dget new q = Some n -> exists o, dget old q = Some o).

Lemma surface_evolves_additive old new : surface_evolves false old new <-> Additive old new.
Proof. unfold surface_evolves, Additive. naive_solver. Qed.

Lemma surface_evolves_same old new : surface_evolves true old new <-> SameSurface old new.
Proof.
  unfold surface_evolves, SameSurface, dmem. split.
  - intros [H1 H2]. split.
    + intros q. destruct (dget old q) as [o|] eqn:Eo.
      * destruct (H1 q o Eo) as (n & -> & _). done.
      * destruct (dget new q) as [n|] eqn:En; [|done].
        destruct (H2 eq_refl q n En). congruence.
    + intros q o n Ho Hn. destruct (H1 q o Ho) as (n' & Hn' & E). by simplify_eq.
  - intros [H1 H2]. split.
    + intros q o Ho. specialize (H1 q). rewrite Ho in H1.
      destruct (dget new q) as [n|] eqn:En; [|done]. eauto.
    + intros _ q n Hn. specialize (H1 q). rewrite Hn in H1.
      destruct (dget old q); [eauto|done].
Qed.

Lemma diff_one_exact old new q :
  wf_types old -> wf_types new ->
  exists l, diff_type q (dget old q) (dget new q) = Ok l /\
    forall s, acceptable s l <->
      (forall o, dget old q = Some o -> exists n, dget new q = Some n /\ evolves s o n) /\
      (s = true -> forall n, dget new q = Some n -> exists o, dget old q = Some o).
Proof.
  intros Wo Wn. destruct (dget old q) as [o|] eqn:Eo, (dget new q) as [n|] eqn:En.
  - destruct (diff_type_exact q o n) as (l & El & H); [by eapply Wo|by eapply Wn|].
    exists l. split; [done|]. intros s. rewrite H. naive_solver.
  - eexists. split; [reflexivity|]. intros s. split; [by intros ?%acceptable_breaking|].
    intros [H _]. by destruct (H o eq_refl) as (? & ? & _).
  - eexists. split; [reflexivity|]. intros s. rewrite acceptable_major by done.
    split; [intros ->; naive_solver|]. intros [_ H]. destruct s; [|done].
    by destruct (H eq_refl n eq_refl).
  - eexists. split; [reflexivity|]. intros s. split; [naive_solver|].
    intros _. apply acceptable_nil.
Qed.

Lemma diff_types_exact_aux old new :
  wf_types old -> wf_types new ->
  exists l, diff_types old new = Ok (overall l, l) /\ classified l /\
    forall s, acceptable s l <-> surface_evolves s old new.
Proof.
  intros Wo Wn. unfold diff_types. set (keys := sorted_set _). set (f := fun q => diff_type _ _ _).
  assert (Hkeys : forall q t, dget old q = Some t \/ dget new q = Some t -> q ∈ keys).
  { intros q t H. unfold keys, sorted_set. rewrite elem_of_sorted, elem_of_remove_dups, elem_of_app.
    rewrite <- !dmem_dkeys. unfold dmem. destruct H as [->| ->]; auto. }
  destruct (mapM_res_total f keys) as [ls E].
  { intros q _. destruct (diff_one_exact old new q Wo Wn) as (l & El & _). by exists l. }
  rewrite E. cbn. exists (concat ls). split; [done|]. split.
  - apply Forall_concat, Forall_forall. intros l Hl.
    apply (mapM_res_elem _ _ _ _ E) in Hl as (q & _ & Hq). by apply diff_type_classified in Hq.
  - intros s. rewrite acceptable_concat. setoid_rewrite (mapM_res_elem _ _ _ _ E).
    unfold surface_evolves. split.
    + intros H. split.
      * intros q o Ho. destruct (diff_one_exact old new q Wo Wn) as (l & El & Hl).
        apply (Hl s); [|done]. apply H. exists q. eauto.
      * intros -> q n Hn. destruct (diff_one_exact old new q Wo Wn) as (l & El & Hl).
        eapply (Hl true); [|done|done]. apply H. exists q. eauto.
    + intros [H1 H2] l (q & Hq & El). destruct (diff_one_exact old new q Wo Wn) as (l' & El' & Hl).
      assert (l' = l) as -> by (unfold f in El; congruence). apply Hl. eauto.
Qed.

Lemma diff_types_sound old new c l :
  wf_types old -> wf_types new -> diff_types old new = Ok (c, l) ->
  (c <> Breaking <-> Additive old new) /\ (c = NoChange <-> SameSurface old new).
Proof.
  intros Wo Wn H. destruct (diff_types_exact_aux old new Wo Wn) as (l' & E & Hc & Hl).
  rewrite E in H. injection H as <- <-.
  rewrite overall_breaking, overall_none by done.
  rewrite !Hl. by rewrite surface_evolves_additive, surface_evolves_same.
Qed.

(** C14: on surfaces with distinctly named members the comparison never
    raises, answers [breaking] exactly when the new surface is not an additive
    evolution of the old one, and [none] exactly when both declare the same. *)
Theorem diff_types_exact old new :
  wf_types old -> wf_types new ->
  exists c l, diff_types old new = Ok (c, l) /\
    (c <> Breaking <-> Additive old new) /\ (c = NoChange <-> SameSurface old new).
Proof.
  intros Wo Wn. destruct (diff_types_exact_aux old new Wo Wn) as (l & E & _).
  exists (overall l), l. split; [done|]. by eapply diff_types_sound.
Qed.

(** ** Examples used by the witnesses *)

Definition thing_v1 : types :=
  [("com.test.IThing", TypeDecl Interface false [vintf]
      ["const int X = 3"; "void alpha(in int a)"]);
   ("com.test.Mode", TypeDecl Enum false [] ["OFF = 0"; "ON = 1"])].

Definition thing_v2 : types :=
  [("com.test.Mode", TypeDecl Enum false [] ["ON = 1"; "OFF = 0"; "AUTO = 2"]);
   ("com.test.IThing", TypeDecl Interface false [vintf]
      ["void alpha(in int a)"; "const int X = 3"; "int beta()"])].

Definition thing_v3 : types := dset thing_v2 "com.test.V" (TypeDecl Union false [] ["int i"]).

Lemma diff_types_exact_witness :
  exists c l, diff_types thing_v1 thing_v2 = Ok (c, l) /\
    (c <> Breaking <-> Additive thing_v1 thing_v2) /\
    (c = NoChange <-> SameSurface thing_v1 thing_v2).
Proof.
  apply (diff_types_exact thing_v1 thing_v2); apply wf_typesb_sound; vm_compute; reflexivity.
Defined.

(** C33: non-breaking steps compose: a client kept working by each release of a
    chain is kept working by their composition. *)
Theorem diff_types_compose a b c k1 l1 k2 l2 :
  wf_types a -> wf_types b -> wf_types c ->
  diff_types a b = Ok (k1, l1) -> diff_types b c = Ok (k2, l2) ->
  k1 <> Breaking -> k2 <> Breaking ->
  exists k l, diff_types a c = Ok (k, l) /\ k <> Breaking.
Proof.
  intros Wa Wb Wc H1 H2 K1 K2.
  apply (diff_types_sound a b) in H1 as [H1 _]; [|done..].
  apply (diff_types_sound b c) in H2 as [H2 _]; [|done..].
  destruct (diff_types_exact_aux a c Wa Wc) as (l & E & _).
  exists (overall l), l. split; [done|].
  apply (diff_types_sound a c) in E as [E _]; [|done..]. apply E.
  transitivity b; tauto.
Qed.

Lemma diff_types_compose_witness :
  exists k l, diff_types thing_v1 thing_v3 = Ok (k, l) /\ k <> Breaking.
Proof.
  eapply (diff_types_compose thing_v1 thing_v2 thing_v3);
    try (apply wf_typesb_sound; vm_compute; reflexivity);
    [vm_compute; reflexivity | vm_compute; reflexivity | discriminate | discriminate].
Defined.

(** If neither direction is breaking the two surfaces are classified as
    unchanged, in both directions. *)
Theorem diff_types_antisym a b k1 l1 k2 l2 :
  wf_types a -> wf_types b ->
  diff_types a b = Ok (k1, l1) -> diff_types b a = Ok (k2, l2) ->
  k1 <> Breaking -> k2 <> Breaking -> k1 = NoChange /\ k2 = NoChange.
Proof.
  intros Wa Wb H1 H2 K1 K2.
  apply (diff_types_sound a b) in H1 as [B1 N1]; [|done..].
  apply (diff_types_sound b a) in H2 as [B2 N2]; [|done..].
  split; [apply N1|apply N2]; apply Additive_antisym; tauto.
Qed.

Lemma diff_types_antisym_witness : NoChange = NoChange /\ NoChange = NoChange.
Proof.
  eapply (diff_types_antisym thing_v1 (reverse thing_v1));
    try (apply wf_typesb_sound; vm_compute; reflexivity);
    [vm_compute; reflexivity | vm_compute; reflexivity | discriminate | discriminate].
Defined.

(** ** A surface against itself *)

Lemma dict_items_diff (d : dict str str) (mk : str -> str -> option str -> change) nm m :
  NoDup (dkeys d) -> (nm, m) ∈ d ->
  match dget d nm with
  | None => [mk nm m None]
  | Some m' => if bool_decide (m' = m) then [] else [mk nm m (Some m')]
  end = [].
Proof. intros Hd Hin. rewrite (dget_elem _ _ _ Hd Hin). by rewrite bool_decide_eq_true_2. Qed.

Lemma diff_enum_self loc l prefix :
  Forall has_name l -> _diff_enum loc l l prefix = Ok [].
Proof.
  intros Hl. unfold _diff_enum, as_map. destruct (names_ok _ _ Hl) as [ns ->]. cbn.
  set (d := dict_of (zip ns l)). assert (Hd : NoDup (dkeys d)) by apply NoDup_dict_of.
  f_equal. apply (acceptable_app true). rewrite !acceptable_concat_map. unfold sorted_items.
  setoid_rewrite (merge_sort_Permutation name_le). split; intros [n m] Hin.
  - apply (dict_items_diff d (fun n m o => match o with
      | None => Change Breaking (prefix ++ "_removed") loc n (Some m) None
      | Some m' => Change Breaking (prefix ++ "_changed") loc n (Some m) (Some m') end)
      n m Hd Hin).
  - unfold dmem. by rewrite (dget_elem _ _ _ Hd Hin).
Qed.

Lemma diff_sequence_self k loc l added_kind :
  Forall has_name l -> _diff_sequence k loc l l added_kind = Ok [].
Proof.
  intros Hl%(named_member_name k). unfold _diff_sequence.
  destruct (names_ok _ _ Hl) as [ns Hns]. rewrite Hns. cbn.
  set (d := dict_of (zip ns l)). assert (Hd : NoDup (dkeys d)) by apply NoDup_dict_of.
  rewrite (filter_all _ ns).
  - rewrite bool_decide_eq_true_2 by by rewrite firstn_all. rewrite drop_all.
    unfold sequence_added. cbn. rewrite app_nil_r. f_equal.
    apply (acceptable_concat_map true). intros [n m] Hin.
    apply (dict_items_diff d (fun n m o => match o with
      | None => Change Breaking (renamed added_kind "removed") loc n (Some m) None
      | Some m' => Change Breaking (renamed added_kind "changed") loc n (Some m) (Some m') end)
      n m Hd Hin).
  - intros n Hn. apply dmem_dkeys, dkeys_dict_of. rewrite fst_zip; [done|].
    by rewrite (names_length _ _ _ Hns).
Qed.

Lemma list_difference_self (l : list str) : list_difference l l = [].
Proof.
  destruct (list_difference l l) as [|x k] eqn:E; [done|exfalso].
  assert (H : x ∈ list_difference l l) by (rewrite E; left).
  apply list_elem_of_difference in H as [? []]. done.
Qed.

Lemma diff_type_self q t : Forall has_name (members t) -> diff_type q (Some t) (Some t) = Ok [].
Proof.
  intros Ht. unfold diff_type, diff_members, diff_head.
  rewrite !list_difference_self. rewrite bool_decide_eq_true_2 by done. cbn.
  case_bool_decide; [by rewrite diff_enum_self|].
  rewrite diff_enum_self by by apply named_consts. cbn.
  by rewrite diff_sequence_self by by apply named_others.
Qed.

(** A surface compared with itself is unchanged and no change is listed,
    even if member names collide. *)
Theorem diff_types_self ts :
  (forall q t, dget ts q = Some t -> Forall has_name (members t)) ->
  diff_types ts ts = Ok (NoChange, []).
Proof.
  intros H. unfold diff_types.
  set (keys := sorted_set _).
  assert (mapM_res (fun q => diff_type q (dget ts q) (dget ts q)) keys
          = Ok ((fun _ => []) <$> keys)) as ->.
  { rewrite <- mapM_res_fmap. apply mapM_res_ext. intros q _.
    destruct (dget ts q) as [t|] eqn:E; [|done]. by apply diff_type_self, (H q). }
  cbn. replace (concat _) with (@nil change); [done|].
  symmetry. apply (acceptable_concat_map true). done.
Qed.

Lemma diff_types_self_witness : diff_types thing_v2 thing_v2 = Ok (NoChange, []).
Proof.
  apply (diff_types_self thing_v2). intros q t Ht. apply wf_named.
  eapply (wf_typesb_sound thing_v2); [vm_compute; reflexivity|exact Ht].
Defined.

(** ** Name collisions *)

Definition annotated_v1 : str :=
  "package com.test;
   interface IThing {
     @JavaPassthrough(annotation=X) void a(in int x);
     @JavaPassthrough(annotation=X) void b(); }".

Definition annotated_v2 : str :=
  "package com.test;
   interface IThing {
     @JavaPassthrough(annotation=X) void a(in long x);
     @JavaPassthrough(annotation=X) void b(); }".

(** The hypothesis on distinct names is needed.  The name of a method whose
    annotation takes arguments is read off the annotation, so two such methods
    collide, and a changed signature of the first one is classified as no
    change. *)
Lemma annotated_method_change_missed :
  exists d1 d2,
    dump_surface (Dir [("IThing.aidl", annotated_v1)] []) = Ok d1 /\
    dump_surface (Dir [("IThing.aidl", annotated_v2)] []) = Ok d2 /\
    d1 <> d2 /\ diff_surface d1 d2 = Ok (NoChange, []).
Proof.
  eexists _, _. split; [vm_compute; reflexivity|]. split; [vm_compute; reflexivity|].
  split; [discriminate|vm_compute; reflexivity].
Qed.
