(* ===== verification/SurfaceRoundtrip.v ===== *)
(** * A dump is read back as what was dumped

    [parse_dump] after [dump_types] is the identity on printable surfaces:
    names without white space, annotations as the parser leaves them, members
    stripped and on one line. *)

From S2P Require Import Prelude PyStr PyStrFacts Regex PyDict SurfaceLex SurfaceParse SurfaceDiff.
From S2P Require Import SurfaceSpec SurfaceClass.

(** ** Lines *)

Definition one_line (s : str) : Prop := Forall (fun c => is_linebreak c = false) s.

Lemma linebreak_space c : is_space c = false -> is_linebreak c = false.
Proof.
  unfold is_space, is_linebreak, in_range. rewrite !orb_false_iff, !andb_false_iff, !N.leb_gt, !N.eqb_neq.
  intros [[[H1 H2] H3] H4]. repeat split; lia.
Qed.

Lemma no_space_one_line s : no_space s -> one_line s.
Proof. intros H. eapply Forall_impl; [done|]. apply linebreak_space. Qed.

Lemma splitlines_from_line l cur s : one_line l ->
  splitlines_from cur (l ++ newline :: s) = (reverse cur ++ l) :: splitlines_from [] s.
Proof.
  intros H. revert cur. induction H as [|c l Hc _ IH]; intros cur.
  - cbn [app splitlines_from]. rewrite app_nil_r.
    change (is_linebreak newline) with true. cbv iota.
    destruct s as [|d s]; [done|]. by rewrite bool_decide_eq_false_2 by (intros [? _]; done).
  - cbn [app splitlines_from]. rewrite Hc, IH. by rewrite reverse_cons, <- app_assoc.
Qed.

Definition unlines (ls : list str) : str := concat (map (fun l => l ++ [newline]) ls).

Lemma splitlines_unlines ls : Forall one_line ls -> splitlines (unlines ls) = ls.
Proof.
  unfold splitlines. induction 1 as [|l ls Hl _ IH]; [done|]. unfold unlines. cbn [map concat].
  rewrite <- app_assoc. change ([newline] ++ ?x) with (newline :: x).
  cbn [app]. rewrite splitlines_from_line by done. by rewrite <- IH at 2.
Qed.

Lemma join_unlines ls : join [newline] (ls ++ [[]]) = unlines ls.
Proof.
  induction ls as [|l ls IH]; [done|]. unfold unlines in *. cbn [map concat app].
  rewrite <- IH, <- app_assoc. destruct ls; done.
Qed.

(** ** Stripping *)

Definition starts_solid (s : str) : Prop := match s with c :: _ => is_space c = false | [] => False end.
Definition solid (s : str) : Prop := starts_solid s /\ starts_solid (reverse s).

Lemma lstrip_solid s : starts_solid s -> lstrip s = s.
Proof. destruct s as [|c s]; [done|]. apply drop_while_stop. Qed.

Lemma strip_solid s : solid s -> strip s = s.
Proof.
  intros [H1 H2]. unfold strip. rewrite lstrip_solid by done. unfold rstrip.
  change (drop_while is_space (reverse s)) with (lstrip (reverse s)).
  rewrite lstrip_solid by done. apply reverse_involutive.
Qed.

Lemma strip_spaces l s : Forall (fun c => is_space c = true) l -> strip (l ++ s) = strip s.
Proof. intros H. unfold strip, lstrip. by rewrite drop_while_app_all. Qed.

Lemma no_space_solid s : no_space s -> s <> [] -> solid s.
Proof.
  intros H Hn. split.
  - by destruct H.
  - assert (no_space (reverse s)) as Hr by by apply Forall_reverse.
    destruct (reverse s) as [|c r] eqn:E; [|by apply Forall_cons in Hr as [? _]].
    apply (f_equal reverse) in E. rewrite reverse_involutive in E. by subst.
Qed.

Lemma solid_app a b : solid a -> solid b -> solid (a ++ space :: b).
Proof.
  intros [Ha _] [Hb Hr]. split; [by destruct a|].
  rewrite reverse_app, reverse_cons. destruct (reverse b); done.
Qed.

(** ** Words *)

Lemma join_cons2 sep w1 w2 ws : join sep (w1 :: w2 :: ws) = w1 ++ sep ++ join sep (w2 :: ws).
Proof. done. Qed.

Lemma words_solid ws : ws <> [] -> Forall word ws -> solid (join [space] ws).
Proof.
  intros Hn H. induction H as [|w ws [Hw Hne] HF IH]; [done|].
  destruct ws as [|w2 ws]; [by apply no_space_solid|].
  rewrite join_cons2. apply solid_app; [by apply no_space_solid|]. by apply IH.
Qed.

Lemma split_ws_app w s : word w -> split_ws (w ++ space :: s) = w :: split_ws s.
Proof.
  intros [H Hn]. induction H as [|c w Hc Hw IH]; [done|].
  destruct w as [|d w].
  - cbn [app split_ws]. rewrite Hc. done.
  - change ((c :: d :: w) ++ space :: s) with (c :: ((d :: w) ++ space :: s)).
    cbn [split_ws]. rewrite Hc. change ((d :: w) ++ space :: s) with (d :: (w ++ space :: s)) at 1.
    cbv iota. apply Forall_cons in Hw as Hd. destruct Hd as [Hd _]. rewrite Hd.
    rewrite IH by done. done.
Qed.

Lemma split_ws_words ws : Forall word ws -> split_ws (join [space] ws) = ws.
Proof.
  induction 1 as [|w ws Hw HF IH]; [done|]. destruct ws as [|w2 ws]; [by apply split_ws_word|].
  rewrite join_cons2. cbn [app]. rewrite split_ws_app by done. by rewrite IH.
Qed.

(** ** Annotations *)

(** [@Name] or [@Name(...)], without white space: what [_take_annotations]
    yields. *)
Definition printable_ann (a : str) : Prop :=
  exists w args, a = "@"%char :: w ++ args /\ w <> [] /\ Forall (fun c => is_word c = true) w /\
    (args = [] \/ exists b, args = "("%char :: b ++ [")"%char] /\ ")"%char ∉ b /\ no_space b).

Lemma word_not_space c : is_word c = true -> is_space c = false.
Proof.
  unfold is_word, is_alpha, is_numeric, is_digit, is_decimal, is_space, in_range.
  rewrite !orb_true_iff, !andb_true_iff, !N.leb_le, !N.eqb_eq. intros H.
  rewrite !orb_false_iff, !andb_false_iff, !N.leb_gt, !N.eqb_neq. lia.
Qed.

Lemma printable_word a : printable_ann a -> word a.
Proof.
  intros (w & args & -> & _ & Hw & Ha). split; [|done]. constructor; [done|].
  apply Forall_app. split.
  - eapply Forall_impl; [done|]. apply word_not_space.
  - destruct Ha as [->|(b & -> & _ & Hb)]; [constructor|]. constructor; [done|].
    apply Forall_app. split; [done|]. by repeat constructor.
Qed.

(** The optional argument list at a space that no [(] follows. *)
Lemma take_while_spec {A} (p : A -> bool) l s :
  Forall (fun c => p c = true) l -> match s with c :: _ => p c = false | [] => True end ->
  take_while p (l ++ s) = l /\ drop_while p (l ++ s) = s.
Proof.
  intros Hl Hs. rewrite take_while_app_all, drop_while_app_all by done.
  destruct s as [|c s]; cbn; [by rewrite app_nil_r|]. rewrite Hs. by rewrite app_nil_r.
Qed.

Definition re_args : re :=
  Grp 1 (Seq [Star true Space; Chr "("%char; Star true (NoneOf ")"); Chr ")"%char]).

Definition accept (q : pos) (cs : caps) : option (pos * caps) := Some (q, cs).

Lemma match_args_none b s cs :
  match s with c :: _ => is_space c = false /\ c <> "("%char | [] => True end ->
  rmatch (Opt re_args) (Pos b (space :: s)) cs accept = Some (Pos b (space :: s), cs).
Proof.
  intros Hs. rewrite rmatch_opt. unfold re_args. rewrite rmatch_grp. cbn [Seq].
  rewrite rmatch_cat. unfold Space. rewrite star_cls_greedy.
  - rewrite rmatch_cat, rmatch_chr_no; [done|]. unfold skip. cbn [rest].
    destruct (take_while_spec is_space [space] s) as [_ E]; [by repeat constructor|by destruct s; [|destruct Hs]|].
    cbn [app] in E. rewrite E. destruct s; [done|]. by destruct Hs.
  - intros [b' [|c r]]; cbn [rest]; [done|]. intros Hc. rewrite rmatch_cat, rmatch_chr_no; [done|].
    cbn [rest]. by intros ->.
Qed.

Lemma match_args_some b body s cs : ")"%char ∉ body -> exists q' cs',
  rmatch (Opt re_args) (Pos b ("("%char :: body ++ ")"%char :: s)) cs accept = Some (q', cs') /\
  rest q' = s.
Proof.
  intros Hb. rewrite rmatch_opt. unfold re_args. rewrite rmatch_grp. cbn [Seq].
  rewrite rmatch_cat. unfold Space. rewrite star_cls_greedy.
  - rewrite skip_stop by done. rewrite rmatch_cat, rmatch_chr_yes, rmatch_cat.
    unfold NoneOf. rewrite star_cls_greedy.
    + unfold skip. cbn [rest step before].
      destruct (take_while_spec (fun d => bool_decide (d ∉ ")"%str)) body (")"%char :: s)) as [-> ->].
      { apply Forall_forall. intros c Hc. apply bool_decide_eq_true. intros ->%list_elem_of_singleton. done. }
      { apply bool_decide_eq_false. intros H. apply H. left. }
      rewrite rmatch_chr_yes. eexists _, _. split; reflexivity.
    + intros [b' [|c r]]; cbn [rest]; [done|]. intros Hc%bool_decide_eq_true.
      rewrite rmatch_chr_no; [done|]. cbn [rest]. intros ->. apply Hc. left.
  - intros [b' [|c r]]; cbn [rest]; [done|]. intros Hc. rewrite rmatch_cat, rmatch_chr_no; [done|].
    cbn [rest]. by intros ->.
Qed.

(** An annotation followed by a space and something that is no argument list. *)
Lemma match_annotation a s : printable_ann a ->
  match s with c :: _ => is_space c = false /\ c <> "("%char | [] => True end ->
  exists cs, re_match _ANNOTATION_RE (a ++ space :: s) = Some (a, space :: s, cs).
Proof.
  intros (w & args & -> & Hn & Hw & Ha) Hs. set (a := "@"%char :: w ++ args).
  assert (exists q cs, match_at _ANNOTATION_RE (start (a ++ space :: s)) = Some (q, cs) /\
    rest q = space :: s) as (q & cs & Hm & Hq).
  { unfold match_at. fold accept. unfold _ANNOTATION_RE. fold re_args.
    destruct w as [|c w]; [done|]. apply Forall_cons in Hw as [Hc Hw].
    cbn [Seq]. unfold start, a. cbn [app]. rewrite rmatch_cat, rmatch_chr_yes.
    unfold Plus, Word, step. rewrite !rmatch_cat, rmatch_cls. cbn [rest]. rewrite Hc, <- app_assoc.
    assert (Hskip : forall b t, match t with c :: _ => is_word c = false | [] => True end ->
      exists b', skip is_word (Pos b (w ++ t)) = Pos b' t).
    { intros b t Ht. unfold skip. cbn [rest].
      destruct (take_while_spec is_word w t Hw Ht) as [-> ->]. eauto. }
    destruct Ha as [->|(body & -> & Hb & _)].
    - destruct (Hskip (Some c) (space :: s)) as [b' Eb]; [done|].
      eexists _, _. split; [|].
      + apply star_cls_accept. cbn [app]. unfold step. rewrite Eb.
        by apply match_args_none.
      + done.
    - destruct (Hskip (Some c) (("("%char :: body ++ [")"%char]) ++ space :: s)) as [b' Eb]; [done|].
      destruct (match_args_some b' body (space :: s) [] Hb) as (q' & cs' & E & Hr).
      exists q', cs'. split; [|done]. apply star_cls_accept. unfold step. rewrite Eb.
      cbn [app]. rewrite <- app_assoc. exact E. }
  unfold re_match. rewrite Hm, Hq. exists cs. do 3 f_equal.
  apply match_at_reaches, covered_app in Hm. rewrite Hq in Hm. cbn [rest start] in Hm.
  by apply app_inv_tail in Hm.
Qed.

Lemma no_annotation s : match s with c :: _ => c <> "@"%char | [] => True end ->
  re_match _ANNOTATION_RE s = None.
Proof.
  intros H. unfold re_match, match_at, _ANNOTATION_RE. cbn [rmatch Seq Chr rest start].
  destruct s as [|c s]; [done|]. by rewrite bool_decide_eq_false_2.
Qed.

Lemma remove_spaces_id s : no_space s -> remove_spaces s = s.
Proof.
  intros H. unfold remove_spaces, re_sub.
  assert (Hg : forall n b, sub_from re_spaces (fun _ => []) n (Pos b s) = s).
  { induction H as [|c s Hc _ IH]; intros [|n] b; cbn; try done.
    unfold consuming, match_at, re_spaces, Plus. cbn [rmatch Space rest]. rewrite Hc.
    f_equal. apply IH. }
  apply Hg.
Qed.

Lemma words_length ws : Forall word ws -> length ws <= length (join [space] ws).
Proof.
  induction 1 as [|w ws [_ Hn] _ IH]; [done|]. destruct ws as [|w2 ws].
  - destruct w; cbn in *; [done|lia].
  - rewrite join_cons2, !length_app. destruct w; [done|]. cbn in *. lia.
Qed.

(** The annotations of a line, up to its first other word. *)
Lemma take_annotations_words anns ws : ws <> [] ->
  Forall printable_ann anns -> Forall word ws ->
  (match ws with (c :: _) :: _ => c <> "@"%char /\ c <> "("%char | _ => True end) ->
  _take_annotations (join [space] (anns ++ ws)) = (anns, join [space] ws).
Proof.
  intros Hws Ha Hw Hc.
  assert (Hwords : Forall word (anns ++ ws)).
  { apply Forall_app. split; [|done]. eapply Forall_impl; [done|]. apply printable_word. }
  assert (Hg : forall fuel acc, length anns < fuel ->
    take_annotations_loop fuel acc (join [space] (anns ++ ws)) = (acc ++ anns, join [space] ws)).
  { clear -Ha Hw Hws Hc. induction Ha as [|a anns Ha Hanns IH]; intros [|fuel] acc Hf;
      cbn in Hf; try lia; cbn [take_annotations_loop app].
    - rewrite no_annotation; [by rewrite app_nil_r|].
      destruct ws as [|[|c w] ws]; [done| |]; [by destruct ws|]. destruct Hc as [Hc _].
      by destruct ws.
    - assert (Hrest : anns ++ ws <> []) by (destruct anns; done).
      destruct (anns ++ ws) as [|w2 rest] eqn:Er; [done|]. rewrite join_cons2.
      assert (Hwords : Forall word (w2 :: rest)).
      { rewrite <- Er. apply Forall_app. split; [|done].
        eapply Forall_impl; [done|]. apply printable_word. }
      assert (Hsolid : solid (join [space] (w2 :: rest))) by by apply words_solid.
      destruct (match_annotation a (join [space] (w2 :: rest)) Ha) as [cs E].
      { destruct (join [space] (w2 :: rest)) as [|c s] eqn:Ej; [done|]. split; [by destruct Hsolid|].
        assert (exists w2', w2 = c :: w2') as [w2' ->].
        { apply Forall_cons in Hwords as [[_ Hne] _]. destruct w2 as [|c' w2']; [done|].
          destruct rest; cbn in Ej; injection Ej as -> _; eauto. }
        destruct anns as [|a2 anns]; cbn in Er.
        - subst. by destruct Hc.
        - injection Er as -> _. apply Forall_cons in Hanns as [(? & ? & E & _) _].
          injection E as -> _. done. }
      cbn [app]. rewrite E. rewrite remove_spaces_id by (by apply printable_word).
      change (space :: join [space] (w2 :: rest)) with ([space] ++ join [space] (w2 :: rest)).
      rewrite strip_spaces, strip_solid by (done || by repeat constructor).
      rewrite IH by lia. by rewrite <- app_assoc. }
  unfold _take_annotations. rewrite strip_solid.
  - apply (Hg _ []). apply Nat.lt_succ_r.
    transitivity (length (anns ++ ws)); [rewrite length_app; lia|by apply words_length].
  - apply words_solid; [destruct anns; done|done].
Qed.

(** ** Headers and members *)

Definition printable_name (q : str) : Prop := word q.

Definition printable_member (m : str) : Prop := solid m /\ one_line m.

Record printable_decl (t : type_decl) : Prop := {
  pr_sorted : sorted (annotations t) = annotations t;
  pr_anns : Forall printable_ann (annotations t);
  pr_members : Forall printable_member (members t)
}.

Definition printable (ts : types) : Prop :=
  NoDup (dkeys ts) /\ Forall (fun qt => printable_name (fst qt) /\ printable_decl (snd qt)) ts.

Definition head_words (q : str) (t : type_decl) : list str :=
  (if oneway t then ["oneway"%str] else []) ++ [kind_name (kind t); q].

Lemma kind_name_word k : word (kind_name k).
Proof. destruct k; split; (done || by repeat constructor). Qed.

Lemma kind_of_name k : kind_of (kind_name k) = Some k.
Proof. by destruct k. Qed.

Lemma head_words_word q t : printable_name q -> Forall word (head_words q t).
Proof.
  intros Hq. unfold head_words. apply Forall_app. split.
  - destruct (oneway t); [|constructor]. constructor; [|constructor].
    split; [by repeat constructor|done].
  - repeat constructor; try apply kind_name_word; try apply Hq.
Qed.

Definition bare (t : type_decl) : type_decl := TypeDecl (kind t) (oneway t) (annotations t) [].

Lemma type_head_eq q t : type_head q t = join [space] (annotations t ++ head_words q t).
Proof. done. Qed.

Lemma parse_header_head q t : printable_name q -> printable_decl t ->
  parse_header (type_head q t) = Ok (q, bare t).
Proof.
  intros Hq [Hs Ha _]. unfold parse_header. rewrite type_head_eq.
  rewrite take_annotations_words; [|by unfold head_words; destruct (oneway t)|done|by apply head_words_word|].
  - rewrite split_ws_words by by apply head_words_word. unfold head_words, bare.
    destruct (oneway t); cbn [app drop].
    + rewrite bool_decide_eq_true_2 by done. cbn [drop]. by rewrite kind_of_name, Hs.
    + rewrite bool_decide_eq_false_2 by by destruct (kind t). cbn [drop]. by rewrite kind_of_name, Hs.
  - unfold head_words. destruct (oneway t); [done|]. by destruct (kind t).
Qed.

Lemma type_head_solid q t : printable_name q -> printable_decl t ->
  solid (type_head q t) /\ one_line (type_head q t).
Proof.
  intros Hq [_ Ha _]. rewrite type_head_eq.
  assert (Hw : Forall word (annotations t ++ head_words q t)).
  { apply Forall_app. split; [|by apply head_words_word].
    eapply Forall_impl; [done|]. apply printable_word. }
  split.
  - apply words_solid; [|done]. unfold head_words. by destruct (annotations t), (oneway t).
  - clear -Hw. induction Hw as [|w ws [Hw _] _ IH]; [constructor|].
    destruct ws as [|w2 ws]; [by apply no_space_one_line|].
    rewrite join_cons2. apply Forall_app. split; [by apply no_space_one_line|]. by constructor.
Qed.

(** ** Reading the lines back *)

Lemma dump_line_blank st : dump_line st [] = Ok st.
Proof. by destruct st. Qed.

Lemma dump_line_head ts cur q t : printable_name q -> printable_decl t ->
  dump_line (ts, cur) (type_head q t) = Ok (dset ts q (bare t), Some q).
Proof.
  intros Hq Ht. destruct (type_head_solid q t Hq Ht) as [Hs _]. unfold dump_line.
  rewrite strip_solid by done. pose proof (parse_header_head q t Hq Ht) as Hp.
  destruct (type_head q t) as [|c l] eqn:E; [by destruct Hs|].
  assert (startswith indent (c :: l) = false) as ->.
  { destruct Hs as [Hc _]. cbn in Hc. cbn. rewrite bool_decide_eq_false_2; [done|].
    intros <-. done. }
  by rewrite Hp.
Qed.

Lemma dump_line_member ts q m : printable_member m ->
  dump_line (ts, Some q) (indent ++ m) = Ok (add_member ts q m, Some q).
Proof.
  intros [Hs _]. unfold dump_line. rewrite strip_spaces by by repeat constructor.
  rewrite strip_solid by done. destruct m as [|c m]; [by destruct Hs|].
  by rewrite startswith_app.
Qed.

Lemma add_members ts q t ms ms' : q ∉ dkeys ts -> Forall printable_member ms ->
  foldM_res dump_line (ts ++ [(q, TypeDecl (kind t) (oneway t) (annotations t) ms')], Some q)
    (map (app indent) ms) =
  Ok (ts ++ [(q, TypeDecl (kind t) (oneway t) (annotations t) (ms' ++ ms))], Some q).
Proof.
  intros Hq H. revert ms'. induction H as [|m ms Hm _ IH]; intros ms'; cbn [map foldM_res].
  - by rewrite app_nil_r.
  - rewrite dump_line_member by done. cbn [mbind res_bind]. unfold add_member.
    rewrite dget_app, (proj2 (dget_None ts q)) by done. cbn [dget]. rewrite decide_True by done.
    cbn [kind oneway annotations members].
    assert (forall v, dset (ts ++ [(q, v)]) q (TypeDecl (kind t) (oneway t) (annotations t) (ms' ++ [m]))
      = ts ++ [(q, TypeDecl (kind t) (oneway t) (annotations t) (ms' ++ [m]))]) as ->.
    { intros v. clear -Hq. unfold dkeys in Hq. induction ts as [|[k x] ts IH]; cbn in *.
      - by rewrite decide_True.
      - rewrite decide_False by set_solver. f_equal. apply IH. set_solver. }
    rewrite IH. by rewrite <- app_assoc.
Qed.

Lemma dump_type ts cur q t : q ∉ dkeys ts -> printable_name q -> printable_decl t ->
  foldM_res dump_line (ts, cur) (type_lines (q, t)) = Ok (ts ++ [(q, t)], Some q).
Proof.
  intros Hk Hq Ht. unfold type_lines. cbn [fst snd foldM_res].
  rewrite dump_line_head by done. cbn [mbind res_bind]. rewrite dset_fresh by done.
  rewrite foldM_res_app. unfold bare. rewrite add_members by (done || apply Ht).
  cbn [mbind res_bind foldM_res app]. rewrite dump_line_blank. by destruct t.
Qed.

Lemma dump_all l ts cur : NoDup (dkeys (ts ++ l)) ->
  Forall (fun qt => printable_name (fst qt) /\ printable_decl (snd qt)) l ->
  exists cur', foldM_res dump_line (ts, cur) (concat (map type_lines l)) = Ok (ts ++ l, cur').
Proof.
  intros ND H. revert ts cur ND. induction H as [|[q t] l [Hq Ht] _ IH]; intros ts cur ND.
  - exists cur. by rewrite app_nil_r.
  - cbn [map concat]. rewrite foldM_res_app. rewrite dump_type; [|clear -ND|done|done].
    + cbn [mbind res_bind]. destruct (IH (ts ++ [(q, t)]) (Some q)) as [cur' E].
      { by rewrite <- app_assoc. }
      exists cur'. by rewrite E, <- app_assoc.
    + unfold dkeys in *. rewrite fmap_app in ND. apply NoDup_app in ND as (_ & ND & _).
      intros Hin. apply (ND _ Hin). left.
Qed.

Lemma type_lines_one_line q t : printable_name q -> printable_decl t ->
  Forall one_line (type_lines (q, t)).
Proof.
  intros Hq Ht. unfold type_lines. cbn [fst snd]. constructor; [by apply type_head_solid|].
  apply Forall_app. split; [|by repeat constructor].
  destruct Ht as [_ _ Hm]. clear -Hm. induction Hm as [|m ms [_ Hm] _ IH]; constructor; [|done].
  apply Forall_app. split; [by repeat constructor|done].
Qed.

(** The lines of a dump end with an empty one, which [join] does not end. *)
Lemma dump_lines l :
  Forall (fun qt => printable_name (fst qt) /\ printable_decl (snd qt)) l -> exists ls,
  splitlines (join [newline] (concat (map type_lines l))) = ls /\
  (concat (map type_lines l) = ls ++ [[]] \/ concat (map type_lines l) = ls).
Proof.
  intros H. assert (Ho : Forall one_line (concat (map type_lines l))).
  { induction H as [|[q t] l [Hq Ht] _ IH]; [constructor|]. cbn [map concat].
    apply Forall_app. split; [by apply type_lines_one_line|done]. }
  destruct l as [|qt l _] using rev_ind; [exists []; auto|].
  rewrite map_app, concat_app in *. cbn [map concat] in *. rewrite app_nil_r in *.
  change (type_lines qt) with (type_head (fst qt) (snd qt) :: map (app indent) (members (snd qt)) ++ [[]]) in *.
  set (A := concat (map type_lines l)) in *. set (hd := type_head _ _) in *.
  set (ms := map _ (members _)) in *.
  replace (A ++ hd :: ms ++ [[]]) with ((A ++ hd :: ms) ++ [[]]) in * by (by rewrite <- app_assoc).
  exists (A ++ hd :: ms). split; [|by left]. rewrite join_unlines. apply splitlines_unlines.
  by apply Forall_app in Ho as [Ho _].
Qed.

Lemma parse_dump_types l : NoDup (dkeys l) ->
  Forall (fun qt => printable_name (fst qt) /\ printable_decl (snd qt)) l ->
  parse_dump (join [newline] (concat (map type_lines l))) = Ok l.
Proof.
  intros ND H. unfold parse_dump. destruct (dump_lines l H) as (ls & -> & Hls).
  destruct (dump_all l [] None ND H) as [cur E]. cbn [app] in E.
  destruct Hls as [Hl|Hl]; rewrite Hl in E.
  - rewrite foldM_res_app in E. destruct (foldM_res dump_line ([], None) ls) as [st|e]; [|done].
    cbn [mbind res_bind foldM_res] in E. rewrite dump_line_blank in E. by injection E as ->.
  - by rewrite E.
Qed.

Lemma sorted_types_get ts q : printable ts -> dget (sorted_types ts) q = dget ts q.
Proof.
  intros [ND H]. symmetry. apply dget_perm; [done|]. symmetry. apply merge_sort_Permutation.
Qed.

Lemma parse_dump_sorted ts : printable ts -> parse_dump (dump_types ts) = Ok (sorted_types ts).
Proof.
  intros [ND H]. assert (HP : sorted_types ts ≡ₚ ts) by apply merge_sort_Permutation.
  apply parse_dump_types; [unfold dkeys in *; by rewrite HP|by rewrite HP].
Qed.

Lemma Additive_get o o' n n' : (forall q, dget o q = dget o' q) -> (forall q, dget n q = dget n' q) ->
  Additive o n <-> Additive o' n'.
Proof. intros Ho Hn. unfold Additive. by setoid_rewrite Ho; setoid_rewrite Hn. Qed.

Lemma SameSurface_get o o' n n' : (forall q, dget o q = dget o' q) -> (forall q, dget n q = dget n' q) ->
  SameSurface o n <-> SameSurface o' n'.
Proof. intros Ho Hn. unfold SameSurface, dmem. by setoid_rewrite Ho; setoid_rewrite Hn. Qed.

(** ** Deciding printability *)

#[export] Instance solid_dec s : Decision (solid s).
Proof. unfold solid, starts_solid. destruct s, (reverse _); solve_decision. Defined.

Definition printable_annb (a : str) : bool :=
  match a with
  | c :: s =>
      bool_decide (c = "@"%char) && bool_decide (take_while is_word s <> []) &&
      match drop_while is_word s with
      | [] => true
      | c1 :: t =>
          bool_decide (c1 = "("%char) &&
          match reverse t with
          | c2 :: b => bool_decide (c2 = ")"%char) && bool_decide (")"%char ∉ b)
                       && forallb (fun c => negb (is_space c)) b
          | [] => false
          end
      end
  | [] => false
  end.

Definition printable_declb (t : type_decl) : bool :=
  bool_decide (sorted (annotations t) = annotations t) &&
  forallb printable_annb (annotations t) &&
  forallb (fun m => bool_decide (solid m) && forallb (fun c => negb (is_linebreak c)) m) (members t).

Definition printableb (ts : types) : bool :=
  bool_decide (NoDup (dkeys ts)) &&
  forallb (fun qt => forallb (fun c => negb (is_space c)) (fst qt) && bool_decide (fst qt <> [])
                     && printable_declb (snd qt)) ts.

Lemma negb_forallb {A} (p : A -> bool) l :
  forallb (fun c => negb (p c)) l = true -> Forall (fun c => p c = false) l.
Proof.
  rewrite forallb_forall, Forall_forall. intros H c Hc. apply negb_true_iff, H.
  by apply list_elem_of_In.
Qed.

Ltac decided := repeat match goal with
  | H : bool_decide _ = true |- _ => apply bool_decide_eq_true in H
  | H : forallb (fun _ => negb _) _ = true |- _ => apply negb_forallb in H
  end.

Lemma printable_annb_sound a : printable_annb a = true -> printable_ann a.
Proof.
  destruct a as [|c s]; [done|]. cbn [printable_annb]. intros H.
  apply andb_prop in H as [[Hc Hw]%andb_prop H]. decided. subst c.
  exists (take_while is_word s), (drop_while is_word s).
  rewrite take_drop_while. split; [done|]. split; [done|].
  split; [apply take_while_Forall|]. destruct (drop_while is_word s) as [|c1 t]; [by left|right].
  apply andb_prop in H as [Hc H]. destruct (reverse t) as [|c2 b] eqn:E; [done|].
  apply andb_prop in H as [[H1 H2]%andb_prop H3]. decided. subst c1 c2.
  exists (reverse b). rewrite <- (reverse_involutive t), E, reverse_cons. split; [done|].
  split; [by rewrite elem_of_reverse|]. unfold no_space. by rewrite Forall_reverse.
Qed.

Lemma printable_declb_sound t : printable_declb t = true -> printable_decl t.
Proof.
  unfold printable_declb. intros [[Hs Ha]%andb_prop Hm]%andb_prop. decided. split; [done| |].
  - apply Forall_forall. intros a Hin%list_elem_of_In. apply printable_annb_sound.
    by apply (proj1 (forallb_forall _ _) Ha).
  - apply Forall_forall. intros m Hin%list_elem_of_In.
    apply (proj1 (forallb_forall _ _) Hm) in Hin. apply andb_prop in Hin as [H1 H2].
    decided. by split.
Qed.

Lemma printableb_sound ts : printableb ts = true -> printable ts.
Proof.
  unfold printableb. intros [ND H]%andb_prop. decided. split; [done|].
  apply Forall_forall. intros qt Hin%list_elem_of_In.
  apply (proj1 (forallb_forall _ _) H) in Hin.
  apply andb_prop in Hin as [[H1 H2]%andb_prop H3]. decided.
  split; [by split|by apply printable_declb_sound].
Qed.

Definition thing_texts : list (str * str) :=
  [("IThing.aidl", "package com.test;
     @VintfStability @Backing(type=int) oneway interface IThing {
       void alpha(in int a); const int X = 3; }");
   ("Mode.aidl", "package com.test; enum Mode { OFF, ON, AUTO = 7 }")].

Definition thing_types : types := match parse_tree (Dir thing_texts []) with Ok ts => ts | Err _ => [] end.

(** C24: the dump of a printable surface is read back as that surface, in the
    order of its names; nothing is lost, added or merged. *)
Theorem parse_dump_roundtrip ts :
  printable ts ->
  parse_dump (dump_types ts) = Ok (sorted_types ts) /\ sorted_types ts ≡ₚ ts /\
  forall q, dget (sorted_types ts) q = dget ts q.
Proof.
  intros H. split; [by apply parse_dump_sorted|]. split; [apply merge_sort_Permutation|].
  intros q. by apply sorted_types_get.
Qed.

Lemma parse_dump_roundtrip_witness :
  parse_dump (dump_types thing_types) = Ok (sorted_types thing_types) /\
  sorted_types thing_types ≡ₚ thing_types /\
  forall q, dget (sorted_types thing_types) q = dget thing_types q.
Proof. apply (parse_dump_roundtrip thing_types), printableb_sound. vm_compute; reflexivity. Defined.

Lemma dump_diff_exact_aux old new :
  printable old -> printable new -> wf_types old -> wf_types new ->
  exists c l, diff_surface (dump_types old) (dump_types new) = Ok (c, l) /\
    (c <> Breaking <-> Additive old new) /\ (c = NoChange <-> SameSurface old new).
Proof.
  intros Po Pn Wo Wn. unfold diff_surface.
  rewrite (parse_dump_sorted old), (parse_dump_sorted new) by done. cbn [mbind res_bind].
  pose proof (fun q => sorted_types_get old q Po) as Go.
  pose proof (fun q => sorted_types_get new q Pn) as Gn.
  assert (wf_types (sorted_types old)) as Wo' by (intros q t; rewrite Go; apply Wo).
  assert (wf_types (sorted_types new)) as Wn' by (intros q t; rewrite Gn; apply Wn).
  destruct (diff_types_exact_aux _ _ Wo' Wn') as (l & E & _).
  exists (overall l), l. split; [done|].
  rewrite <- (Additive_get _ _ _ _ Go Gn), <- (SameSurface_get _ _ _ _ Go Gn).
  by eapply diff_types_sound.
Qed.

(** C2: what is frozen is the text of a dump, and comparing two texts decides
    the relations on the surfaces that were dumped: [diff_surface] on the dumps
    of two printable surfaces with distinctly named members never raises,
    answers [breaking] exactly when the new surface is not an additive evolution
    of the old one and [none] exactly when both declare the same. *)
Theorem dump_diff_exact old new :
  printable old -> printable new -> wf_types old -> wf_types new ->
  exists c l, diff_surface (dump_types old) (dump_types new) = Ok (c, l) /\
    (c <> Breaking <-> Additive old new) /\ (c = NoChange <-> SameSurface old new).
Proof. exact (dump_diff_exact_aux old new). Qed.

Lemma dump_diff_exact_witness :
  exists c l, diff_surface (dump_types thing_v1) (dump_types thing_v2) = Ok (c, l) /\
    (c <> Breaking <-> Additive thing_v1 thing_v2) /\
    (c = NoChange <-> SameSurface thing_v1 thing_v2).
Proof.
  apply (dump_diff_exact thing_v1 thing_v2);
    first [apply printableb_sound; vm_compute; reflexivity
          | apply wf_typesb_sound; vm_compute; reflexivity].
Defined.
