(* ===== verification/SurfaceLexFacts.v ===== *)
(** * Correctness of the lexical layer of host/aidl_surface.py

    The index arithmetic of [_string_end] against the structural scan used by
    the other functions, and that comments never matter: texts that differ in
    comments only are stripped to the same text. *)

From S2P Require Import Prelude PyStr PyStrFacts Regex PyDict SurfaceLex SurfaceParse.

(** ** [_string_end] *)

Lemma string_end_loop_cut fuel pre s : length s <= fuel ->
  min (string_end_loop fuel (pre ++ s) (length pre) + 1) (length (pre ++ s)) =
    length pre + length (fst (cut_string s)).
Proof.
  revert pre s. induction fuel as [fuel IH] using lt_wf_ind. intros pre s Hf.
  destruct s as [|c s]; [rewrite app_nil_r; destruct fuel; cbn [string_end_loop];
    rewrite ?lookup_ge_None_2 by lia; cbn; lia|].
  destruct fuel as [|fuel]; [cbn in Hf; lia|]. cbn [string_end_loop cut_string].
  rewrite list_lookup_middle by done.
  assert (Hone : forall k, length k <= fuel -> k = s -> min
      (string_end_loop fuel (pre ++ c :: k) (length pre + 1) + 1) (length (pre ++ c :: k)) =
      length pre + S (length (fst (cut_string k)))).
  { intros k Hk _. replace (pre ++ c :: k) with ((pre ++ [c]) ++ k) by by rewrite <- app_assoc.
    replace (length pre + 1) with (length (pre ++ [c])) by (rewrite length_app; done).
    rewrite IH by lia. rewrite length_app. cbn. lia. }
  rewrite length_app in *. cbn [length] in *.
  case_bool_decide; [cbn; lia|]. case_bool_decide.
  - destruct s as [|d s].
    + replace (string_end_loop fuel _ _) with (length pre + 2); [cbn; lia|].
      destruct fuel; cbn; [done|]. rewrite lookup_ge_None_2; [done|].
      rewrite length_app. cbn. lia.
    + replace (pre ++ c :: d :: s) with ((pre ++ [c; d]) ++ s) by by rewrite <- app_assoc.
      replace (length pre + 2) with (length (pre ++ [c; d])) by (rewrite length_app; done).
      cbn in Hf. pose proof (IH fuel ltac:(lia) (pre ++ [c; d]) s ltac:(lia)) as E.
      rewrite length_app in E. destruct (cut_string s) as [l r]. cbn [fst length] in *.
      rewrite !length_app in *. cbn in *. lia.
  - specialize (Hone s ltac:(lia) eq_refl). destruct (cut_string s) as [l r].
    cbn [fst length] in *. rewrite length_app in Hone. exact Hone.
Qed.

Lemma cut_string_app s : fst (cut_string s) ++ snd (cut_string s) = s.
Proof.
  induction s as [s IH] using (induction_ltof1 _ length). unfold ltof in IH.
  destruct s as [|c s]; [done|]. cbn [cut_string].
  case_bool_decide; [done|]. case_bool_decide.
  - destruct s as [|d s]; [done|]. specialize (IH s ltac:(cbn; lia)).
    destruct (cut_string s). cbn in *. by rewrite IH.
  - specialize (IH s ltac:(cbn; lia)). destruct (cut_string s). cbn in *. by rewrite IH.
Qed.

(** C19: the end of a string literal lies after its opening quote and within
    the text, whatever the text (a trailing backslash and a missing quote
    included), and the scan of the text after the quote, which the model uses in
    place of the index arithmetic, cuts at exactly that place. *)
Theorem string_end_exact text i :
  i < length text ->
  let j := _string_end text i in
  i < j <= length text /\
  cut_string (drop (S i) text) = (take (j - S i) (drop (S i) text), drop j text).
Proof.
  intros Hi j. assert (Hj : j = S i + length (fst (cut_string (drop (S i) text)))).
  { unfold j, _string_end. replace (i + 1) with (S i) by lia.
    pose proof (string_end_loop_cut (length text) (take (S i) text) (drop (S i) text)) as E.
    rewrite take_drop, length_take, length_drop in E.
    replace (min (S i) (length text)) with (S i) in E by lia. apply E. lia. }
  pose proof (cut_string_app (drop (S i) text)) as Ha.
  assert (Hl : length (fst (cut_string (drop (S i) text))) <= length text - S i).
  { apply (f_equal length) in Ha. rewrite length_app, length_drop in Ha. lia. }
  split; [lia|]. replace (j - S i) with (length (fst (cut_string (drop (S i) text)))) by lia.
  replace (drop j text) with (drop (j - S i) (drop (S i) text))
    by (rewrite drop_drop; f_equal; lia).
  replace (j - S i) with (length (fst (cut_string (drop (S i) text)))) by lia.
  clearbody j. clear Hj Hl. revert Ha. generalize (drop (S i) text). intros s Ha.
  destruct (cut_string s) as [l r]. cbn [fst snd] in *. subst s.
  by rewrite take_app_length, drop_app_length.
Qed.

(** ** [strip_comments] *)

Lemma cut_string_length s : length (snd (cut_string s)) <= length s.
Proof. rewrite <- (cut_string_app s) at 2. rewrite length_app. lia. Qed.

(** A line comment does not start with its newline. *)
Lemma line_comment_pos c s j :
  startswith "//" (c :: s) = true -> find [newline] (c :: s) = Some j -> 0 < j.
Proof.
  intros E1 E. destruct j; [|lia]. cbn in E1, E.
  apply andb_prop in E1 as [<-%bool_decide_eq_true _].
  rewrite bool_decide_eq_false_2 in E by done. cbn in E. by destruct (find _ _).
Qed.

Lemma strip_loop_fuel n : forall m s, length s <= n -> length s <= m ->
  strip_loop n s = strip_loop m s.
Proof.
  induction n as [|n IH]; intros [|m] [|c s] Hn Hm; cbn in Hn, Hm; try done; [lia|lia|].
  cbn [strip_loop]. case_bool_decide.
  - pose proof (cut_string_length s). destruct (cut_string s) as [l r]. cbn in *.
    by rewrite (IH m) by lia.
  - destruct (startswith "//" (c :: s)) eqn:E1.
    + destruct (find [newline] (c :: s)) as [j|] eqn:E; [|done].
      pose proof (line_comment_pos _ _ _ E1 E). apply IH; rewrite length_drop; cbn; lia.
    + destruct (startswith "/*" (c :: s)); [|by rewrite (IH m) by lia].
      destruct (find _ _) as [j|]; [|done]. f_equal. apply IH; rewrite length_drop; cbn; lia.
Qed.

(** [strip_comments] without its fuel. *)
Lemma strip_comments_cons c s :
  strip_comments (c :: s) =
    if bool_decide (c = dquote)
    then c :: fst (cut_string s) ++ strip_comments (snd (cut_string s))
    else if startswith "//" (c :: s) then
      match find [newline] (c :: s) with
      | None => [] | Some j => strip_comments (drop j (c :: s))
      end
    else if startswith "/*" (c :: s) then
      match find "*/" (drop 2 (c :: s)) with
      | None => [space] | Some j => space :: strip_comments (drop (2 + j + 2) (c :: s))
      end
    else c :: strip_comments s.
Proof.
  unfold strip_comments at 1. cbn [length]. cbn [strip_loop]. case_bool_decide.
  - pose proof (cut_string_length s). destruct (cut_string s) as [l r]. cbn in *.
    by rewrite (strip_loop_fuel _ (length r)).
  - destruct (startswith "//" (c :: s)) eqn:E1.
    + destruct (find [newline] (c :: s)) as [j|] eqn:E; [|done].
      pose proof (line_comment_pos _ _ _ E1 E).
      apply strip_loop_fuel; rewrite ?length_drop; cbn; lia.
    + destruct (startswith "/*" (c :: s)); [|done]. destruct (find _ _) as [j|]; [|done].
      f_equal. apply strip_loop_fuel; rewrite ?length_drop; cbn; lia.
Qed.

(** ** Tokens

    A character that starts no literal and no comment, a literal with its
    closing quote, a whole comment. *)

Lemma strip_char c s : c <> dquote -> startswith "//" (c :: s) = false ->
  startswith "/*" (c :: s) = false -> strip_comments (c :: s) = c :: strip_comments s.
Proof. intros H1 H2 H3. by rewrite strip_comments_cons, bool_decide_eq_false_2, H2, H3. Qed.

Lemma strip_string l s : cut_string (l ++ s) = (l, s) ->
  strip_comments (dquote :: l ++ s) = dquote :: l ++ strip_comments s.
Proof. intros H. by rewrite strip_comments_cons, bool_decide_eq_true_2, H. Qed.

Lemma starts_line s : startswith "//" ("//" ++ s) = true.
Proof. apply startswith_app. Qed.

Lemma starts_block s : startswith "//" ("/*" ++ s) = false /\ startswith "/*" ("/*" ++ s) = true.
Proof. split; [done|apply startswith_app]. Qed.

Lemma line_comment_body c : newline ∉ c -> newline ∉ ("//" ++ c)%str.
Proof. intros H [?|[?|?]%elem_of_cons]%elem_of_cons; done. Qed.

Lemma strip_line c s : newline ∉ c ->
  strip_comments ("//" ++ c ++ newline :: s) = newline :: strip_comments s.
Proof.
  intros H%line_comment_body. pose proof (find_char_app newline ("//" ++ c) s H) as E.
  pose proof (starts_line (c ++ newline :: s)) as E1.
  cbn [app] in *. rewrite strip_comments_cons, bool_decide_eq_false_2 by done.
  rewrite E, E1.
  change (drop _ _) with (drop (length ("//" ++ c)%str) (("//" ++ c) ++ newline :: s)%str).
  rewrite drop_app_length. by rewrite strip_char.
Qed.

Lemma strip_last c : newline ∉ c -> strip_comments ("//" ++ c) = [].
Proof.
  intros H%line_comment_body%find_char. pose proof (starts_line c) as E1. cbn [app] in *.
  by rewrite strip_comments_cons, bool_decide_eq_false_2, H, E1.
Qed.

Lemma strip_block c s : contains "*/" c = false ->
  strip_comments ("/*" ++ c ++ "*/" ++ s) = space :: strip_comments s.
Proof.
  intros H. pose proof (find_2_app "*"%char "/"%char c s ltac:(done) H) as E.
  cbn [app] in *. rewrite strip_comments_cons, bool_decide_eq_false_2 by done.
  destruct (starts_block (c ++ "*/" ++ s)) as [H1 H2]. cbn [app] in H1, H2. rewrite H1, H2.
  cbn [drop]. rewrite drop_0, E. f_equal.
  replace (2 + length c + 2) with (S (S (length (c ++ "*/")%str))) by (rewrite length_app; cbn; lia).
  cbn [drop]. change (c ++ "*"%char :: "/"%char :: s) with (c ++ "*/" ++ s)%str.
  by rewrite app_assoc, drop_app_length.
Qed.

(** Texts that differ in what their comments say.  From the left: a common
    ending, a common token, a line or a block comment in place of another. *)
Inductive same_code : str -> str -> Prop :=
| same_rest s : same_code s s
| same_char c s s' :
    c <> dquote -> startswith "//" (c :: s) = false -> startswith "/*" (c :: s) = false ->
    startswith "//" (c :: s') = false -> startswith "/*" (c :: s') = false ->
    same_code s s' -> same_code (c :: s) (c :: s')
| same_string l s s' :
    cut_string (l ++ s) = (l, s) -> cut_string (l ++ s') = (l, s') ->
    same_code s s' -> same_code (dquote :: l ++ s) (dquote :: l ++ s')
| same_line c c' s s' :
    newline ∉ c -> newline ∉ c' -> same_code s s' ->
    same_code ("//" ++ c ++ newline :: s) ("//" ++ c' ++ newline :: s')
| same_block c c' s s' :
    contains "*/" c = false -> contains "*/" c' = false -> same_code s s' ->
    same_code ("/*" ++ c ++ "*/" ++ s) ("/*" ++ c' ++ "*/" ++ s')
| same_last c c' : newline ∉ c -> newline ∉ c' -> same_code ("//" ++ c) ("//" ++ c').

Lemma same_code_strip s s' : same_code s s' -> strip_comments s = strip_comments s'.
Proof.
  induction 1 as [s|c s s' H1 H2 H3 H4 H5 _ IH|l s s' H1 H2 _ IH|c c' s s' H1 H2 _ IH
                 |c c' s s' H1 H2 _ IH|c c' H1 H2]; [done|..].
  - by rewrite !strip_char, IH.
  - by rewrite !strip_string, IH.
  - by rewrite !strip_line, IH.
  - by rewrite !strip_block, IH.
  - by rewrite !strip_last.
Qed.

Definition literal_text : str := "x = " ++ quoted ("a" ++ [backslash; dquote] ++ "b") ++ "; // c".

Lemma string_end_exact_witness :
  4 < length literal_text /\ _string_end literal_text 4 = 10 /\
  4 < _string_end literal_text 4 <= length literal_text /\
  cut_string (drop 5 literal_text) =
    (take (_string_end literal_text 4 - 5) (drop 5 literal_text),
     drop (_string_end literal_text 4) literal_text).
Proof.
  split; [vm_compute; lia|]. split; [vm_compute; reflexivity|].
  apply (string_end_exact literal_text 4). vm_compute; lia.
Defined.
