(* ===== verification/SurfaceTree.v ===== *)
(** * A dump shows code only

    [dump_surface] of two source trees is the same if they hold the same files,
    in whatever order directories list them, and each file's text is the same
    up to what its comments say. *)

From S2P Require Import Prelude PyStr PyStrFacts PyDict SurfaceLex SurfaceParse SurfaceLexFacts.

(** ** Sorting by name *)

#[export] Instance name_le_trans A : Transitive (@name_le A).
Proof. intros x y z. unfold name_le. apply str_le_trans. Qed.

#[export] Instance name_le_total A : Total (@name_le A).
Proof. intros x y. apply str_le_total. Qed.

(** Entries of the same name, with related contents. *)
Definition entry_rel {A B} (R : A -> B -> Prop) (x : str * A) (y : str * B) : Prop :=
  fst x = fst y /\ R (snd x) (snd y).

Lemma entries_sorted {A B} (R : A -> B -> Prop) l k :
  Forall2 (entry_rel R) l k -> StronglySorted name_le l -> StronglySorted name_le k.
Proof.
  intros H. induction H as [|x y l k [Hn _] H IH]; intros Hs; constructor.
  - apply IH. by inversion Hs.
  - inversion Hs as [|? ? _ Hx]; subst. clear IH Hs.
    induction H as [|x' y' l k [Hn' _] _ IH]; constructor; inversion Hx as [|? ? Hxx Hxl]; subst.
    + unfold name_le in *. congruence.
    + by apply IH.
Qed.

Lemma entries_names {A B} (R : A -> B -> Prop) l k :
  Forall2 (entry_rel R) l k -> fst <$> l = fst <$> k.
Proof. induction 1 as [|x y l k [Hn _] _ IH]; [done|]. cbn. congruence. Qed.

(** Sorting related entries by distinct names relates them again, whatever the
    order of the second list. *)
Lemma entries_merge_sort {A B} (R : A -> B -> Prop) l k k' :
  Forall2 (entry_rel R) l k -> k ≡ₚ k' -> NoDup (fst <$> k') ->
  Forall2 (entry_rel R) (merge_sort name_le l) (merge_sort name_le k').
Proof.
  intros H Hp ND.
  destruct (Permutation_Forall2 (symmetry (merge_sort_Permutation name_le l)) H)
    as (k2 & Hp2 & H2).
  replace (merge_sort name_le k') with k2; [done|].
  apply (StronglySorted_unique_strong name_le).
  - intros [n1 x1] [n2 x2] H1 Hx Hle1 Hle2.
    assert (n1 = n2) as -> by by apply (anti_symm str_le).
    f_equal. enough (Some x1 = Some x2) by congruence. rewrite <- !(dget_elem k' n2); [done..| |done|].
    + by rewrite <- (merge_sort_Permutation name_le).
    + by rewrite <- Hp, Hp2.
  - eapply entries_sorted; [done|]. apply (StronglySorted_merge_sort name_le).
  - apply (StronglySorted_merge_sort name_le).
  - by rewrite merge_sort_Permutation, <- Hp2, Hp.
Qed.

(** ** Source trees *)

(** Files of the same names with texts that differ in comments only, read with
    their newlines translated; directories of the same names, recursively; listed
    in any order. *)
Inductive same_source : tree -> tree -> Prop :=
| same_dir fs fs1 fs' ds ds1 ds' :
    Forall2 (entry_rel (fun a b => same_code (universal_newlines a) (universal_newlines b))) fs fs1 ->
    fs1 ≡ₚ fs' -> NoDup (fst <$> fs') ->
    Forall2 (entry_rel same_source) ds ds1 ->
    ds1 ≡ₚ ds' -> NoDup (fst <$> ds') ->
    same_source (Dir fs ds) (Dir fs' ds').

Definition same_stripped (a b : str) : Prop := strip_comments a = strip_comments b.

Lemma entries_filter {A B} (R : A -> B -> Prop) (p : str -> bool) l k :
  Forall2 (entry_rel R) l k ->
  Forall2 (entry_rel R) (filter (fun x => p (fst x) = true) l) (filter (fun x => p (fst x) = true) k).
Proof.
  induction 1 as [|x y l k [Hn HR] _ IH]; [constructor|]. rewrite !filter_cons, Hn.
  case_decide; [|done]. by constructor.
Qed.

Lemma entries_map {A B C D} (R : A -> B -> Prop) (S : C -> D -> Prop) f g l k :
  (forall x y, R x y -> S (f x) (g y)) -> Forall2 (entry_rel R) l k ->
  Forall2 (entry_rel S) (map (fun e => (fst e, f (snd e))) l) (map (fun e => (fst e, g (snd e))) k).
Proof.
  intros HS. induction 1 as [|x y l k [Hn HR] _ IH]; constructor; [|done]. split; cbn; auto.
Qed.

Lemma entries_contents {A B} (R : A -> B -> Prop) l k :
  Forall2 (entry_rel R) l k -> Forall2 R (snd <$> l) (snd <$> k).
Proof. induction 1 as [|x y l k [_ HR] _ IH]; constructor; auto. Qed.

Lemma Forall2_concat' {A B} (R : A -> B -> Prop) l k :
  Forall2 (Forall2 R) l k -> Forall2 R (concat l) (concat k).
Proof. induction 1; cbn; [constructor|]. by apply Forall2_app. Qed.

Lemma same_source_texts : forall t t', same_source t t' ->
  Forall2 same_stripped (aidl_texts t) (aidl_texts t').
Proof.
  fix IH 3. intros t t' H. destruct H as [fs fs1 fs' ds ds1 ds' Hf Pf Nf Hd Pd Nd].
  cbn [aidl_texts]. apply Forall2_app.
  - apply (entries_merge_sort _ _ _ _ Hf Pf) in Nf.
    apply (entries_filter _ (endswith ".aidl")), entries_contents in Nf.
    clear -Nf. rewrite !(list_fmap_compose snd universal_newlines).
    induction Nf as [|a b l k Hab _ IHl]; constructor; [by apply same_code_strip|done].
  - assert (Ht : Forall2 (entry_rel (fun t t' => Forall2 same_stripped (aidl_texts t) (aidl_texts t'))) ds ds1).
    { clear -Hd IH. induction Hd as [|x y l k [Hn Hs] _ IHl]; constructor; [split; auto|done]. }
    apply Forall2_concat', entries_contents.
    apply (entries_merge_sort _ _ (map (fun d => (fst d, aidl_texts (snd d))) ds1)).
    + by apply (entries_map (fun t t' => Forall2 same_stripped (aidl_texts t) (aidl_texts t'))).
    + by rewrite Pd.
    + rewrite <- list_fmap_compose. exact Nd.
Qed.

Lemma parse_stripped a b ts : same_stripped a b -> parse_aidl a ts = parse_aidl b ts.
Proof. unfold same_stripped, parse_aidl. by intros ->. Qed.

(** C8: comments and the order in which the file system lists a directory
    never show in a dump: two source trees with the same files, whose texts
    differ only in what line and block comments say, have the same dump (or fail
    in the same way). *)
Theorem dump_ignores_comments t t' : same_source t t' -> dump_surface t = dump_surface t'.
Proof.
  intros H%same_source_texts. unfold dump_surface, parse_tree. f_equal.
  generalize (@nil (str * type_decl)). induction H as [|a b l k Hab _ IH]; intros ts; [done|].
  cbn [foldM_res]. rewrite (parse_stripped a b ts Hab).
  destruct (parse_aidl b ts) as [ts'|]; [|done]. by apply IH.
Qed.

(** ** An edit of comments *)

Definition plain (c : ascii) : Prop := c <> dquote /\ c <> "/"%char.

#[export] Instance plain_dec c : Decision (plain c).
Proof. unfold plain. apply _. Defined.

Lemma same_prefix p s s' : Forall plain p -> same_code s s' -> same_code (p ++ s) (p ++ s').
Proof.
  intros H Hs. induction H as [|c p [H1 H2] _ IH]; [done|]. cbn [app].
  assert (E : forall x y, startswith ("/"%char :: x) (c :: y) = false).
  { intros x y. cbn. by rewrite bool_decide_eq_false_2 by congruence. }
  by apply same_char.
Qed.

Definition commented (license doc : str) : str :=
  "/*" ++ license ++ "*/" ++ "
package com.test;
parcelable Size {
    int w; " ++ "//" ++ doc ++ newline :: "    int h;
}
".

Definition tree_v1 : tree :=
  Dir [("b.aidl", commented " 2024 " " width"); ("a.aidl", "package com.test; enum E { A }")]
      [("sub", Dir [] []); ("aux", Dir [("c.aidl", "")] [])].
Definition tree_v2 : tree :=
  Dir [("a.aidl", "package com.test; enum E { A }"); ("b.aidl", commented (" (c) 2025 " ++ quoted "x") "")]
      [("aux", Dir [("c.aidl", "")] []); ("sub", Dir [] [])].

Ltac compute_decide := apply (bool_decide_unpack _); vm_compute; exact I.

Lemma commented_edit l l' d d' :
  "013"%char ∉ commented l d -> "013"%char ∉ commented l' d' ->
  contains "*/" l = false -> contains "*/" l' = false -> newline ∉ d -> newline ∉ d' ->
  same_code (universal_newlines (commented l d)) (universal_newlines (commented l' d')).
Proof.
  intros H1 H2 Hl Hl' Hd Hd'. rewrite !universal_newlines_id by done. unfold commented.
  apply same_block; [done..|]. apply same_prefix; [compute_decide|].
  apply same_line; [done..|]. apply same_rest.
Qed.

Lemma dump_ignores_comments_witness : dump_surface tree_v1 = dump_surface tree_v2.
Proof.
  apply (dump_ignores_comments tree_v1 tree_v2).
  apply (same_dir _ [("b.aidl", commented (" (c) 2025 " ++ quoted "x") "");
                     ("a.aidl", "package com.test; enum E { A }")] _
                  _ [("sub", Dir [] []); ("aux", Dir [("c.aidl", "")] [])] _).
  - repeat apply Forall2_cons_2; [split; [done|]..|constructor]; cbn [fst snd]; [|apply same_rest].
    apply commented_edit; first [compute_decide | vm_compute; reflexivity].
  - apply perm_swap.
  - compute_decide.
  - repeat apply Forall2_cons_2; [split; [done|]..|constructor]; cbn [fst snd];
      (eapply same_dir; [| |compute_decide| | |compute_decide]);
      repeat constructor.
  - apply perm_swap.
  - compute_decide.
Defined.
