(* ===== verification/RegexFacts.v ===== *)
(** * Soundness of the regular expression matcher

    What a match consumes is in the language of the pattern, and every captured
    text in the language of its group; a group that no match can avoid is
    captured. *)

From S2P Require Import Prelude PyStr Regex.

(** ** Languages *)

Inductive kleene (L : str -> Prop) : str -> Prop :=
| kleene_nil : kleene L []
| kleene_app s t : L s -> kleene L t -> kleene L (s ++ t).

(** Anchors, which consume nothing, are taken to hold anywhere. *)
Fixpoint lang (r : re) (s : str) : Prop :=
  match r with
  | Eps | Bol _ | Eol => s = []
  | Cls p => exists c, s = [c] /\ p c = true
  | Cat r1 r2 => exists s1 s2, s = s1 ++ s2 /\ lang r1 s1 /\ lang r2 s2
  | Alt r1 r2 => lang r1 s \/ lang r2 s
  | Star _ r => kleene (lang r) s
  | Grp _ r => lang r s
  end.

(** [s] is a text that group [n] of [r] can capture. *)
Fixpoint captures (r : re) (n : nat) (s : str) : Prop :=
  match r with
  | Cat r1 r2 | Alt r1 r2 => captures r1 n s \/ captures r2 n s
  | Star _ r => captures r n s
  | Grp m r => (m = n /\ lang r s) \/ captures r n s
  | _ => False
  end.

(** Every match of [r] passes through group [n]. *)
Fixpoint must (r : re) (n : nat) : bool :=
  match r with
  | Cat r1 r2 => must r1 n || must r2 n
  | Alt r1 r2 => must r1 n && must r2 n
  | Grp m r => (m =? n)%nat || must r n
  | _ => false
  end.

(** ** Soundness *)

(** The continuation of a successful match is called after a text of [L], with
    captures of [C], among them those of [N]. *)
Definition sound {A} (L : str -> Prop) (C : nat -> str -> Prop) (N : nat -> bool)
    (m : pos -> caps -> (pos -> caps -> option A) -> option A) : Prop :=
  forall q cs k x, m q cs k = Some x -> exists s new q',
    rest q = s ++ rest q' /\ L s /\
    (forall n t, (n, t) ∈ new -> C n t) /\ (forall n, N n = true -> n ∈ new.*1) /\
    k q' (new ++ cs) = Some x.

Lemma rstar_sound {A} g L C N (m : pos -> caps -> (pos -> caps -> option A) -> option A) :
  sound L C N m -> forall n, sound (kleene L) C (fun _ => false) (rstar g m n).
Proof.
  intros Hm n. induction n as [|n IH]; intros q cs k x H; cbn in H.
  { exists [], [], q. split_and!; try done; [constructor|by intros ? ? ?%elem_of_nil]. }
  set (more := m q cs _) in H.
  assert (Hmore : more = Some x -> exists s new q',
    rest q = s ++ rest q' /\ kleene L s /\ (forall n t, (n, t) ∈ new -> C n t) /\
    (forall n, false = true -> n ∈ new.*1) /\ k q' (new ++ cs) = Some x).
  { intros E. apply Hm in E as (s1 & new1 & q1 & R1 & L1 & C1 & _ & E).
    destruct (_ <? _)%nat; [|done]. apply IH in E as (s2 & new2 & q2 & R2 & L2 & C2 & _ & E).
    exists (s1 ++ s2), (new2 ++ new1), q2. rewrite <- !app_assoc. split_and!; try done.
    - by rewrite R1, R2.
    - by constructor.
    - intros n' t [Hin|Hin]%elem_of_app; auto. }
  assert (Hk : k q cs = Some x -> exists s new q',
    rest q = s ++ rest q' /\ kleene L s /\ (forall n t, (n, t) ∈ new -> C n t) /\
    (forall n, false = true -> n ∈ new.*1) /\ k q' (new ++ cs) = Some x).
  { intros E. exists [], [], q. split_and!; try done; [constructor|by intros ? ? ?%elem_of_nil]. }
  destruct g; [destruct more eqn:E|destruct (k q cs) eqn:E]; auto; injection H as <-; auto.
Qed.

Lemma rmatch_sound {A} r : @sound A (lang r) (captures r) (must r) (rmatch r).
Proof.
  induction r as [|p|r1 IH1 r2 IH2|r1 IH1 r2 IH2|g r IH|m r IH|ml|];
    intros q cs k x H; cbn [rmatch] in H.
  1,2,7,8: try (destruct (at_bol _ _ || at_eol _)).
  - exists [], [], q. split_and!; try done. by intros ? ? ?%elem_of_nil.
  - destruct (rest q) as [|c s] eqn:E; [done|]. destruct (p c) eqn:Hc; [|done].
    exists [c], [], (step c s). split_and!; try done; [by exists c|by intros ? ? ?%elem_of_nil].
  - destruct (at_bol ml q); [|done]. exists [], [], q. split_and!; try done. by intros ? ? ?%elem_of_nil.
  - destruct (at_eol q); [|done]. exists [], [], q. split_and!; try done. by intros ? ? ?%elem_of_nil.
  - apply IH1 in H as (s1 & new1 & q1 & R1 & L1 & C1 & N1 & H).
    apply IH2 in H as (s2 & new2 & q2 & R2 & L2 & C2 & N2 & H).
    exists (s1 ++ s2), (new2 ++ new1), q2. rewrite <- !app_assoc. split_and!; try done.
    + by rewrite R1, R2.
    + by exists s1, s2.
    + intros n t [Hin|Hin]%elem_of_app; cbn; auto.
    + intros n Hn. rewrite fmap_app, elem_of_app. cbn in Hn. apply orb_true_iff in Hn as [Hn|Hn]; auto.
  - destruct (rmatch r1 q cs k) eqn:E; [injection H as ->; rename E into H; apply IH1 in H|apply IH2 in H];
      destruct H as (s & new & q' & R & Ls & Cs & Ns & H); exists s, new, q';
      split_and!; try done; cbn; auto; intros n [Hn1 Hn2]%andb_true_iff; auto.
  - by apply (rstar_sound _ _ _ _ _ IH) in H.
  - apply IH in H as (s & new & q' & R & Ls & Cs & Ns & H).
    exists s, ((m, s) :: new), q'. rewrite R, length_app in H.
    replace (length s + length (rest q') - length (rest q')) with (length s) in H by lia.
    rewrite take_app_length in H. split_and!; try done.
    + intros n t [[= -> ->]|Hin]%elem_of_cons; cbn; auto.
    + intros n Hn. cbn in Hn. cbn. apply orb_true_iff in Hn as [->%Nat.eqb_eq|Hn]; [left|right; auto].
Qed.

(** ** The entry points *)

Lemma group_captured r cs n s :
  (forall n t, (n, t) ∈ cs -> captures r n t) -> group cs n = Some s -> captures r n s.
Proof.
  intros H. induction cs as [|[m t] cs IH]; cbn; [done|]. destruct (m =? n)%nat eqn:E.
  - apply Nat.eqb_eq in E as ->. intros [= ->]. apply H. left.
  - apply IH. intros n' t' Hin. apply H. by right.
Qed.

Lemma group_set cs n : n ∈ cs.*1 -> exists s, group cs n = Some s.
Proof.
  induction cs as [|[m t] cs IH]; cbn; [by intros ?%elem_of_nil|].
  intros [->|Hn]%elem_of_cons; [rewrite Nat.eqb_refl; eauto|]. destruct (m =? n)%nat; eauto.
Qed.

(** What is known of the groups after a match of [r]. *)
Definition groups_of (r : re) (cs : caps) : Prop :=
  (forall n s, group cs n = Some s -> captures r n s) /\
  (forall n, must r n = true -> exists s, group cs n = Some s /\ captures r n s).

Lemma match_at_sound r q q' cs : match_at r q = Some (q', cs) -> exists s,
  rest q = s ++ rest q' /\ lang r s /\ groups_of r cs.
Proof.
  unfold match_at. intros (s & new & q1 & R & Ls & C & N & H)%rmatch_sound.
  rewrite app_nil_r in H. injection H as -> ->. exists s. split_and!; [done..|].
  split; [intros n t; by apply group_captured|].
  intros n (t & Ht)%N%group_set. exists t. split; [done|]. by apply group_captured with cs.
Qed.

Lemma re_match_sound r s m t cs : re_match r s = Some (m, t, cs) ->
  s = m ++ t /\ lang r m /\ groups_of r cs.
Proof.
  unfold re_match. destruct (match_at r (start s)) as [[q cs']|] eqn:E; [|done].
  intros [= <- <- <-]. apply match_at_sound in E as (u & R & Ls & G). cbn in R. subst s.
  unfold covered. cbn. rewrite length_app.
  replace (length u + length (rest q) - length (rest q)) with (length u) by lia.
  by rewrite take_app_length.
Qed.

Lemma re_search_sound r s cs : re_search r s = Some cs -> groups_of r cs.
Proof.
  unfold re_search. generalize (@None ascii). induction s as [|c s IH]; intros b; cbn [search_from];
    destruct (match_at r (Pos b _)) as [[q cs']|] eqn:E.
  1,3: intros [= ->]; by apply match_at_sound in E as (? & ? & ? & ?).
  - done.
  - apply IH.
Qed.

(** ** Languages of classes *)

Lemma lang_plus_cls p s : lang (Plus (Cls p)) s -> s <> [] /\ Forall (fun c => p c = true) s.
Proof.
  intros (s1 & s2 & -> & (c & -> & Hc) & Hs). split; [done|]. constructor; [done|].
  cbn in Hs. induction Hs as [|? t (d & -> & Hd) _ IH]; [constructor|]. by constructor.
Qed.

Lemma lang_star_cls g p s : lang (Star g (Cls p)) s -> Forall (fun c => p c = true) s.
Proof.
  cbn. induction 1 as [|? t (d & -> & Hd) _ IH]; [constructor|]. by constructor.
Qed.
