(* ===== verification/SurfacePrintable.v ===== *)
(** * What is parsed from sources can be printed and read back

    Names and annotations taken from AIDL texts are free of white space, and
    members are stripped and on one line unless a string literal or an enumerator
    says otherwise; so the round trip of dumps and the exactness of a comparison
    hold for what is dumped from source trees. *)

From S2P Require Import Prelude PyStr PyStrFacts Regex RegexFacts PyDict SurfaceLex SurfaceParse.
From S2P Require Import SurfaceDiff SurfaceSpec SurfaceClass SurfaceRoundtrip.
From S2P Require Import SurfaceLexFacts.

(** ** Runs of white space *)

Lemma match_spaces b c s :
  consuming re_spaces (Pos b (c :: s)) =
    if is_space c then Some (skip is_space (step c s), []) else None.
Proof.
  unfold consuming, match_at, re_spaces, Plus, Space. rewrite rmatch_cat, rmatch_cls. cbn [rest]. cbv beta.
  destruct (is_space c); [|done].
  pose proof (star_cls_accept (A := pos * caps) is_space (step c s) []
    (fun q cs => Some (q, cs)) _ eq_refl) as E. rewrite E. cbn. pose proof (drop_while_length is_space s). by rewrite (proj2 (Nat.ltb_lt _ _)) by lia.
Qed.

Lemma remove_spaces_filter s : remove_spaces s = filter (fun c => is_space c = false) s.
Proof.
  unfold remove_spaces, re_sub, start.
  assert (Hg : forall n b s, length s < n ->
    sub_from re_spaces (fun _ => []) n (Pos b s) = filter (fun c => is_space c = false) s).
  { clear. induction n as [|n IH]; intros b [|c s] Hn; cbn in Hn; try lia; [done|].
    cbn [sub_from rest]. rewrite match_spaces, filter_cons.
    destruct (is_space c); cbn [app].
    - rewrite decide_False by done. unfold skip. cbn [rest step].
      rewrite IH by (pose proof (drop_while_length is_space s); lia).
      clear. induction s as [|d s IH]; [done|]. cbn [drop_while].
      destruct (is_space d) eqn:E; [|done]. rewrite filter_cons_False by congruence. exact IH.
    - rewrite decide_True by done. f_equal. apply IH. lia. }
  apply Hg. lia.
Qed.

Lemma no_space_filter s : no_space (filter (fun c => is_space c = false) s).
Proof. apply Forall_forall. intros c Hc. by apply list_elem_of_filter in Hc as [? _]. Qed.

(** ** Annotations *)

Lemma lang_seq_cons r r2 l s : lang (Seq (r :: r2 :: l)) s <->
  exists s1 s2, s = s1 ++ s2 /\ lang r s1 /\ lang (Seq (r2 :: l)) s2.
Proof. done. Qed.

Lemma lang_chr c s : lang (Chr c) s -> s = [c].
Proof. intros (d & -> & H%bool_decide_eq_true). by subst. Qed.

Lemma filter_word w : Forall (fun c => is_word c = true) w -> filter (fun c => is_space c = false) w = w.
Proof.
  induction 1 as [|c w Hc _ IH]; [done|]. rewrite filter_cons_True by by apply word_not_space.
  by rewrite IH.
Qed.

Lemma filter_spaces w : Forall (fun c => is_space c = true) w -> filter (fun c => is_space c = false) w = [].
Proof. induction 1 as [|c w Hc _ IH]; [done|]. by rewrite filter_cons_False by congruence. Qed.

Lemma annotation_printable m : lang _ANNOTATION_RE m -> printable_ann (remove_spaces m).
Proof.
  unfold _ANNOTATION_RE. rewrite !lang_seq_cons.
  intros (s1 & s2 & -> & ->%lang_chr & w & s3 & -> & [Hw1 Hw2]%lang_plus_cls & H).
  rewrite remove_spaces_filter. cbn [app].
  rewrite filter_cons_True by done. rewrite filter_app, filter_word by done.
  exists w, (filter (fun c => is_space c = false) s3). split; [done|]. split; [done|]. split; [done|].
  destruct H as [H| ->]; [right|by left]. cbn [lang] in H. rewrite !lang_seq_cons in H.
  destruct H as (t1 & t2 & -> & Ht1%lang_star_cls & t3 & t4 & -> & ->%lang_chr &
                 b & t5 & -> & Hb%lang_star_cls & ->%lang_chr).
  exists (filter (fun c => is_space c = false) b). rewrite filter_app, filter_spaces by done. cbn [app].
  rewrite filter_cons_True by done. rewrite filter_app. split; [done|]. split; [|apply no_space_filter].
  intros [_ Hin]%list_elem_of_filter. rewrite Forall_forall in Hb. specialize (Hb _ Hin).
  by vm_compute in Hb.
Qed.

Lemma take_annotations_printable text :
  Forall printable_ann (fst (_take_annotations text)).
Proof.
  unfold _take_annotations. generalize (strip text), (S (length text)). intros s n.
  assert (Hg : forall anns s, Forall printable_ann anns ->
    Forall printable_ann (fst (take_annotations_loop n anns s))); [|by apply Hg].
  induction n as [|n IH]; intros anns s' Ha; cbn [take_annotations_loop]; [done|].
  destruct (re_match _ANNOTATION_RE s') as [[[m after] cs]|] eqn:E; [|done].
  apply re_match_sound in E as (_ & Hm & _). apply IH, Forall_app. split; [done|].
  repeat constructor. by apply annotation_printable.
Qed.

(** ** Names *)

Lemma dotted_no_space l : Forall no_space l -> no_space (dotted l).
Proof.
  intros H. unfold dotted. assert (Hf : Forall no_space (filter (fun x => x <> []) l)).
  { apply Forall_forall. intros x [_ Hx]%list_elem_of_filter. by apply (proj1 (Forall_forall _ _) H). }
  induction Hf as [|x k Hx _ IH]; [constructor|]. destruct k as [|y k]; [done|].
  rewrite join_cons2. apply Forall_app. split; [done|]. by constructor.
Qed.

Lemma dotted_word l x : Forall no_space l -> x ∈ l -> x <> [] -> word (dotted l).
Proof.
  intros H Hx Hn. split; [by apply dotted_no_space|]. unfold dotted.
  assert (Hin : x ∈ filter (fun x => x <> []) l) by by apply list_elem_of_filter.
  destruct (filter _ l) as [|y k] eqn:E; [by apply elem_of_nil in Hin|].
  assert (Hy : y <> []).
  { assert (y ∈ filter (fun x : str => x <> []) l) as [? _]%list_elem_of_filter; [|done]. rewrite E. left. }
  destruct y; [done|]. by destruct k.
Qed.

Lemma word_chars_no_space w : Forall (fun c => is_word c = true) w -> no_space w.
Proof. intros H. eapply Forall_impl; [exact H|]. apply word_not_space. Qed.

Lemma decl_name s m t cs : re_match _DECL_RE s = Some (m, t, cs) -> word (group_str cs g_name).
Proof.
  intros (_ & _ & _ & H)%re_match_sound. destruct (H g_name eq_refl) as (n & Hn & Hc).
  unfold group_str. rewrite Hn. cbn in Hc.
  assert (Hl : lang (Plus Word) n) by (clear -Hc; unfold Plus, Word; cbn; naive_solver).
  apply lang_plus_cls in Hl as [Hne Hw]. split; [|done]. by apply word_chars_no_space.
Qed.

Lemma package_no_space text cs : re_search re_package text = Some cs -> no_space (group_str cs 1).
Proof.
  intros [_ H]%re_search_sound. destruct (H 1 eq_refl) as (n & Hn & Hc).
  unfold group_str. rewrite Hn. cbn [default].
  assert (Hl : lang (Plus (Cls (fun c => is_word c || bool_decide (c = "."%char)))) n)
    by (clear -Hc; cbn in *; naive_solver).
  apply lang_plus_cls in Hl as [_ Hw]. eapply Forall_impl; [exact Hw|]. cbn.
  intros c [Hc1|Hc1]%orb_true_iff; [by apply word_not_space|].
  apply bool_decide_eq_true in Hc1. by subst.
Qed.

(** ** Normalised statements *)

Lemma sub_chars r f (P : ascii -> Prop) :
  (forall cs, groups_of r cs -> Forall P (f cs)) ->
  forall n q, Forall P (rest q) -> Forall P (sub_from r f n q).
Proof.
  intros Hf. induction n as [|n IH]; intros q Hq; cbn [sub_from]; [done|].
  destruct (rest q) as [|c s] eqn:E; [constructor|].
  destruct (consuming r q) as [[q' cs]|] eqn:Ec.
  - unfold consuming in Ec. destruct (match_at r q) as [[q1 cs1]|] eqn:Em; [|done].
    destruct (_ <? _)%nat; [|done]. injection Ec as -> ->.
    apply match_at_sound in Em as (u & R & _ & G). apply Forall_app. split; [by apply Hf|].
    apply IH. rewrite <- E, R in Hq. by apply Forall_app in Hq as [_ Hq].
  - apply Forall_cons in Hq as [Hc Hs]. constructor; [done|]. by apply IH.
Qed.

Lemma sub_spaces_one_line n : forall b s, length s < n ->
  one_line (sub_from re_spaces (fun _ => [space]) n (Pos b s)).
Proof.
  induction n as [|n IH]; intros b [|c s] Hn; cbn in Hn; try lia; [constructor|].
  cbn [sub_from rest]. rewrite match_spaces. destruct (is_space c) eqn:Hc.
  - constructor; [done|]. apply IH. cbn. pose proof (drop_while_length is_space s). lia.
  - constructor; [by apply linebreak_space|]. apply IH. lia.
Qed.

Lemma replace_char_chars c r (P : ascii -> Prop) s :
  Forall P r -> Forall P s -> Forall P (replace_char c r s).
Proof.
  intros Hr. induction 1 as [|d s Hd _ IH]; [constructor|]. cbn. apply Forall_app.
  split; [|done]. case_bool_decide; [done|by constructor].
Qed.

Lemma captured_char r n p cs :
  must r n = true -> (forall s, captures r n s -> lang (Cls p) s) -> groups_of r cs ->
  exists c, group_str cs n = [c] /\ p c = true.
Proof.
  intros Hm Hc [_ H]. destruct (H n Hm) as (s & Hs & (c & -> & Hp)%Hc).
  exists c. unfold group_str. by rewrite Hs.
Qed.

Lemma flush_one_line s : one_line (flush s).
Proof.
  unfold flush. apply sub_chars.
  - intros cs (c & -> & Hc)%(captured_char _ 1 is_word); [|done|cbn; naive_solver].
    repeat constructor. by apply linebreak_space, word_not_space.
  - cbn [rest start]. apply replace_char_chars; [by repeat constructor|].
    apply replace_char_chars; [by repeat constructor|]. apply sub_chars.
    + intros cs (c & -> & Hc%bool_decide_eq_true)%(captured_char _ 1 (fun d => bool_decide (d ∈ "(),;=[]"%str)));
        [|done|cbn; naive_solver].
      repeat constructor. rewrite !elem_of_cons in Hc.
      destruct_or! Hc; subst; try done. by apply elem_of_nil in Hc.
    + apply sub_spaces_one_line. lia.
Qed.

Lemma strip_infix s : exists a b, s = a ++ strip s ++ b /\
  Forall (fun c => is_space c = true) a /\ Forall (fun c => is_space c = true) b.
Proof.
  unfold strip, lstrip, rstrip. exists (take_while is_space s),
    (reverse (take_while is_space (reverse (drop_while is_space s)))).
  rewrite <- reverse_app, take_drop_while, reverse_involutive, take_drop_while.
  split; [done|]. split; [|apply Forall_reverse]; apply take_while_Forall.
Qed.

Lemma strip_nil_or_solid s : strip s = [] \/ solid (strip s).
Proof.
  destruct (strip s) as [|c r] eqn:E; [by left|right]. split.
  - unfold strip, rstrip in E. pose proof (drop_while_head is_space s) as H.
    change (drop_while is_space s) with (lstrip s) in H. destruct (lstrip s) as [|d l]; [done|].
    assert (d = c) as <-; [|done].
    pose proof (take_drop_while is_space (reverse (d :: l))) as Hr. apply (f_equal reverse) in Hr.
    rewrite reverse_app, reverse_involutive, E in Hr. by injection Hr.
  - rewrite <- E. unfold strip, rstrip. rewrite reverse_involutive.
    pose proof (drop_while_head is_space (reverse (lstrip s))) as H.
    destruct (drop_while is_space (reverse (lstrip s))) as [|d l] eqn:E2; [|done].
    unfold strip, rstrip in E. by rewrite E2 in E.
Qed.

Lemma elem_of_strip c s : is_space c = false -> c ∈ s -> c ∈ strip s.
Proof.
  intros Hc Hin. destruct (strip_infix s) as (a & b & E & Ha & Hb). rewrite E in Hin.
  rewrite Forall_forall in Ha, Hb.
  apply elem_of_app in Hin as [Hin|[Hin|Hin]%elem_of_app]; [|done|];
    [apply Ha in Hin|apply Hb in Hin]; congruence.
Qed.

(** The loop's result holds [out] up to white space at its ends. *)
Lemma normalize_loop_one_line fuel : forall out buf s, length s <= fuel -> dquote ∉ s ->
  one_line out -> one_line (normalize_loop fuel out buf s).
Proof.
  assert (Hend : forall out buf, one_line out -> one_line (strip (out ++ flush buf))).
  { intros out buf Ho. assert (H : one_line (out ++ flush buf)).
    { apply Forall_app. split; [done|apply flush_one_line]. }
    destruct (strip_infix (out ++ flush buf)) as (a & b & E & _). rewrite E in H.
    apply Forall_app in H as [_ H]. by apply Forall_app in H as [H _]. }
  induction fuel as [|fuel IH]; intros out buf [|c s] Hf Hq Ho; cbn in Hf; try lia;
    cbn [normalize_loop]; try by apply Hend.
  rewrite not_elem_of_cons in Hq. rewrite bool_decide_eq_false_2 by by intros ->; destruct Hq.
  apply IH; [lia|by destruct Hq|done].
Qed.

Lemma normalize_one_line stmt : dquote ∉ stmt -> one_line (_normalize stmt).
Proof. intros H. apply normalize_loop_one_line; [lia|done|constructor]. Qed.

Lemma normalize_loop_quote fuel : forall out buf s, length s <= fuel ->
  exists x, normalize_loop fuel out buf s = strip (out ++ x) /\ (dquote ∈ s -> dquote ∈ x).
Proof.
  induction fuel as [fuel IH] using lt_wf_ind. intros out buf s Hf.
  destruct fuel as [|fuel], s as [|c s]; cbn in Hf; try lia;
    try (exists (flush buf); split; [done|by intros ?%elem_of_nil]).
  cbn [normalize_loop]. case_bool_decide as Hc.
  - pose proof (cut_string_length s) as Hl. destruct (cut_string s) as [l r]. cbn in Hl.
    destruct (IH fuel ltac:(lia) (out ++ flush buf ++ c :: l) [] r ltac:(lia)) as (x & -> & _).
    exists (flush buf ++ (c :: l) ++ x). split; [by rewrite <- !app_assoc|].
    intros _. subst c. rewrite !elem_of_app. right. left. left.
  - destruct (IH fuel ltac:(lia) out (buf ++ [c]) s ltac:(lia)) as (x & -> & Hx).
    exists x. split; [done|]. intros [E|Hin]%elem_of_cons; [congruence|auto].
Qed.

Lemma normalize_quote stmt : dquote ∈ stmt -> dquote ∈ _normalize stmt.
Proof.
  unfold _normalize. destruct (normalize_loop_quote (length stmt) [] [] stmt ltac:(lia)) as (x & -> & H).
  intros Hq. apply elem_of_strip; auto.
Qed.

Lemma normalize_solid stmt : _normalize stmt = [] \/ solid (_normalize stmt).
Proof.
  unfold _normalize. destruct (normalize_loop_quote (length stmt) [] [] stmt ltac:(lia)) as (x & -> & _).
  apply strip_nil_or_solid.
Qed.

(** A member that is neither empty nor holds a string literal is printable. *)
Lemma normalize_printable stmt :
  _normalize stmt <> [] -> dquote ∉ _normalize stmt -> printable_member (_normalize stmt).
Proof.
  intros Hn Hq. split.
  - by destruct (normalize_solid stmt).
  - apply normalize_one_line. intros Hin. by apply Hq, normalize_quote.
Qed.

(** ** Declarations *)

(** What the parser guarantees of an entry: its name, its annotations, and that
    a member other than an enumerator is a normalised statement. *)
Record parsed_entry (qt : str * type_decl) : Prop := {
  pe_name : printable_name (fst qt);
  pe_sorted : sorted (annotations (snd qt)) = annotations (snd qt);
  pe_anns : Forall printable_ann (annotations (snd qt));
  pe_members : kind (snd qt) <> Enum ->
    Forall (fun m => m <> [] -> dquote ∉ m -> printable_member m) (members (snd qt))
}.

Definition parsed (ts : types) : Prop := NoDup (dkeys ts) /\ Forall parsed_entry ts.

Lemma Forall_dset {V} (P : str * V -> Prop) (d : dict str V) k v :
  Forall P d -> P (k, v) -> Forall P (dset d k v).
Proof.
  intros H Hv. induction H as [|[k' v'] d Hd Hrest IH]; cbn; [by constructor|].
  case_decide; subst; by constructor.
Qed.

Lemma parsed_dset ts q t : parsed ts -> parsed_entry (q, t) -> parsed (dset ts q t).
Proof. intros [ND H] Ht. split; [by apply NoDup_dset|by apply Forall_dset]. Qed.

Lemma sorted_anns_printable l : Forall printable_ann l -> Forall printable_ann (sorted l).
Proof. unfold sorted. by rewrite (merge_sort_Permutation str_le l). Qed.

(** An entry made by the parser. *)
Lemma parsed_entry_intro q k ow text ms :
  printable_name q ->
  (k <> Enum -> Forall (fun m => m <> [] -> dquote ∉ m -> printable_member m) ms) ->
  parsed_entry (q, TypeDecl k ow (sorted (fst (_take_annotations text))) ms).
Proof.
  intros Hq Hm. split; [exact Hq|apply sorted_sorted| |exact Hm].
  apply sorted_anns_printable, take_annotations_printable.
Qed.

Lemma parse_type_parsed fuel : forall header body package outer ts ts',
  no_space package -> no_space outer -> parsed ts ->
  parse_type_fuel fuel header body package outer ts = Ok ts' -> parsed ts'.
Proof.
  induction fuel as [|fuel IH]; intros header body package outer ts ts' Hp Ho Hts H; [done|].
  cbn [parse_type_fuel] in H. pose proof (parsed_entry_intro) as Hentry.
  specialize (Hentry) with (text := header). destruct (_take_annotations header) as [anns rest].
  destruct (re_match _DECL_RE (rest ++ " {")) as [[[? ?] m]|] eqn:E; [|by injection H as <-].
  apply decl_name in E as [Hn Hne]. destruct (kind_of (group_str m g_kind)) as [k|]; [|by injection H as <-].
  set (name := group_str m g_name) in *.
  assert (Hq : printable_name (dotted [package; outer; name])).
  { apply dotted_word with name; [by repeat constructor|set_solver|done]. }
  assert (Hon : no_space (dotted [outer; name])) by (apply dotted_no_space; by repeat constructor).
  res_inv.
  assert (HI : parsed (fst a) /\ (k <> Enum ->
    Forall (fun m => m <> [] -> dquote ∉ m -> printable_member m) (snd a))).
  { assert (Hfold : foldM_res (fun (st : types * list str) i =>
        let (ts, members) := st in
        match i with
        | Decl h b => ts0 ← parse_type_fuel fuel h b package (dotted [outer; name]) ts;
                      Ok (ts0, members)
        | Stmt t => Ok (ts, members ++ [_normalize t])
        end) (ts, []) (_split_statements body) = Ok a ->
      parsed (fst a) /\ Forall (fun m => m <> [] -> dquote ∉ m -> printable_member m) (snd a)).
    { apply (foldM_res_inv _ (fun st : types * list str => parsed (fst st) /\
        Forall (fun m => m <> [] -> dquote ∉ m -> printable_member m) (snd st))); [|by split]. clear a E.
      intros [ts1 ms] [h b|t] [ts2 ms2] _ [H1 H2] E; res_inv; cbn [fst snd] in *.
      - split; [|done]. exact (IH _ _ _ _ _ _ Hp Hon H1 E0).
      - split; [done|]. apply Forall_app. split; [done|]. constructor; [|done].
        apply normalize_printable. }
    destruct k; [by destruct (Hfold E)..|]. res_inv. by split. }
  destruct HI. apply parsed_dset; [done|]. by apply Hentry.
Qed.

Lemma parse_forward_parsed package text ts : no_space package -> parsed ts ->
  parsed (parse_forward package text ts).
Proof.
  intros Hp Hts. unfold parse_forward. pose proof (parsed_entry_intro) as Hentry.
  specialize (Hentry) with (text := text). destruct (_take_annotations text) as [anns rest].
  destruct (re_match _DECL_RE (rest ++ " ;")) as [[[? ?] m]|] eqn:E; [|done].
  apply decl_name in E as [Hn Hne]. destruct (kind_of (group_str m g_kind)) as [k|]; [|done].
  apply parsed_dset; [done|]. apply Hentry; [|constructor].
  apply dotted_word with (group_str m g_name); [by repeat constructor|set_solver|done].
Qed.

Lemma parse_aidl_parsed text ts ts' : parsed ts -> parse_aidl text ts = Ok ts' -> parsed ts'.
Proof.
  intros Hts H. unfold parse_aidl in H. set (package := match re_search _ _ with Some _ => _ | None => _ end) in H.
  assert (Hp : no_space package).
  { unfold package. destruct (re_search re_package (strip_comments text)) as [cs|] eqn:E; [|constructor].
    by eapply package_no_space. }
  revert H. apply (foldM_res_inv _ parsed); [|done]. intros ts1 [h b|t] ts2 _ H1 E.
  - eapply parse_type_parsed; [exact Hp|constructor|exact H1|exact E].
  - res_inv. by apply parse_forward_parsed.
Qed.

Lemma parse_tree_parsed t ts : parse_tree t = Ok ts -> parsed ts.
Proof.
  unfold parse_tree. apply (foldM_res_inv _ parsed); [|by split; constructor].
  intros ts1 text ts2 _ H E. by eapply parse_aidl_parsed.
Qed.

(** ** From sources to a classification *)

(** Enumerators, and members with a string literal, are printable as well. *)
Definition tidy (ts : types) : Prop := forall q t m,
  dget ts q = Some t -> m ∈ members t -> kind t = Enum \/ dquote ∈ m -> printable_member m.

Lemma parsed_printable ts : parsed ts -> wf_types ts -> tidy ts -> printable ts.
Proof.
  intros [ND H] Hwf Ht. split; [done|]. apply Forall_forall. intros [q t] Hin.
  pose proof (dget_elem _ _ _ ND Hin) as Hget. rewrite Forall_forall in H.
  destruct (H _ Hin) as [Hn Hs Ha Hm]. split; [done|]. split; [done|done|].
  apply Forall_forall. intros m Hmem. cbn [fst snd] in *.
  destruct (decide (kind t = Enum \/ dquote ∈ m)) as [Hc|Hc]; [by eapply Ht|].
  assert (kind t <> Enum /\ dquote ∉ m) as [Hk Hq] by (split; intros ?; apply Hc; auto).
  specialize (Hm Hk). rewrite Forall_forall in Hm. apply Hm; [done| |done].
  intros ->. pose proof (wf_named _ (Hwf q t Hget)) as Hnamed. rewrite Forall_forall in Hnamed.
  destruct (Hnamed _ Hmem) as [x Hx]. by vm_compute in Hx.
Qed.

(** The decision procedures for the hypotheses. *)
Definition tidyb (ts : types) : bool :=
  forallb (fun qt => forallb (fun m =>
    (negb (bool_decide (kind (snd qt) = Enum)) && bool_decide (dquote ∉ m)) ||
    bool_decide (solid m) && forallb (fun c => negb (is_linebreak c)) m) (members (snd qt))) ts.

Lemma tidyb_sound ts : tidyb ts = true -> tidy ts.
Proof.
  intros H q t m Hget%dget_Some_elem Hm Hc. unfold tidyb in H.
  rewrite forallb_forall in H. specialize (H (q, t) (proj1 (list_elem_of_In _ _) Hget)).
  rewrite forallb_forall in H. specialize (H m (proj1 (list_elem_of_In _ _) Hm)).
  apply orb_true_iff in H as [[H1 H2]%andb_true_iff|[H1 H2]%andb_true_iff].
  - apply negb_true_iff, bool_decide_eq_false in H1. apply bool_decide_eq_true in H2. by destruct Hc.
  - decided. by split.
Qed.

(** C1: from AIDL sources to the classification.  Dumping two source trees
    that parse, and comparing the two texts, decides the relations on what the
    trees declare: [breaking] exactly when the new one is not an additive
    evolution of the old one, and [none] exactly when both declare the same.
    Members must be distinctly named, and enumerators and members with string
    literals must be on one line. *)
Theorem source_diff_exact t1 t2 old new :
  parse_tree t1 = Ok old -> parse_tree t2 = Ok new ->
  wf_types old -> wf_types new -> tidy old -> tidy new ->
  exists d1 d2 c l, dump_surface t1 = Ok d1 /\ dump_surface t2 = Ok d2 /\
    diff_surface d1 d2 = Ok (c, l) /\
    (c <> Breaking <-> Additive old new) /\ (c = NoChange <-> SameSurface old new).
Proof.
  intros H1 H2 W1 W2 T1 T2. unfold dump_surface. rewrite H1, H2. cbn [mbind res_bind].
  apply parse_tree_parsed in H1, H2.
  destruct (dump_diff_exact_aux old new) as (c & l & H); try done; [by apply parsed_printable..|].
  by exists (dump_types old), (dump_types new), c, l.
Qed.

Definition thing_tree_v2 : tree :=
  Dir [("Mode.aidl", "package com.test; enum Mode { AUTO = 7, ON = 1, OFF = 0, MANUAL }")]
      [("sub", Dir [("IThing.aidl", "package com.test;
         // appended
         @Backing(type=int) @VintfStability oneway interface IThing {
           void alpha(in int a); const int X = 3; void beta(); }")] [])].

Lemma source_diff_exact_witness :
  exists old new, parse_tree (Dir thing_texts []) = Ok old /\ parse_tree thing_tree_v2 = Ok new /\
  exists d1 d2 c l, dump_surface (Dir thing_texts []) = Ok d1 /\ dump_surface thing_tree_v2 = Ok d2 /\
    diff_surface d1 d2 = Ok (c, l) /\
    (c <> Breaking <-> Additive old new) /\ (c = NoChange <-> SameSurface old new).
Proof.
  eexists _, _. split; [vm_compute; reflexivity|]. split; [vm_compute; reflexivity|].
  eapply (source_diff_exact (Dir thing_texts []) thing_tree_v2);
    first [vm_compute; reflexivity
          | apply wf_typesb_sound; vm_compute; reflexivity
          | apply tidyb_sound; vm_compute; reflexivity].
Defined.

(** C22: what the parser makes of any source tree is well formed: every type is
    there once, under a non-empty dotted name without white space; its
    annotations are sorted, and each is an [@] with a name and possibly an
    argument list, without white space; and a member of a type that is no
    enumeration, unless it is empty or has a string literal, is one line that
    neither starts nor ends with white space. *)
Theorem parse_tree_well_formed t ts : parse_tree t = Ok ts ->
  NoDup (dkeys ts) /\
  forall q d, dget ts q = Some d ->
    printable_name q /\ sorted (annotations d) = annotations d /\ Forall printable_ann (annotations d) /\
    (kind d <> Enum -> forall m, m ∈ members d -> m <> [] -> dquote ∉ m -> printable_member m).
Proof.
  intros [ND H]%parse_tree_parsed. split; [done|]. intros q d Hq%dget_Some_elem.
  rewrite Forall_forall in H. destruct (H _ Hq) as [H1 H2 H3 H4]. split_and!; [done..|].
  intros Hk m Hm. specialize (H4 Hk). rewrite Forall_forall in H4. by apply H4.
Qed.

Lemma parse_tree_well_formed_witness :
  exists ts, parse_tree thing_tree_v2 = Ok ts /\ NoDup (dkeys ts).
Proof.
  eexists. split; [vm_compute; reflexivity|].
  eapply (parse_tree_well_formed thing_tree_v2). vm_compute. reflexivity.
Defined.

(** An enumerator whose annotation stands on a line of its own is dumped over
    two lines, which are read back as two members. *)
Definition annotated_enum : str :=
  "package com.test; enum Mode { OFF," ++ newline :: "    @Deprecated" ++ newline :: "    ON }".

Example annotated_enumerator :
  exists ts ts', parse_tree (Dir [("Mode.aidl", annotated_enum)] []) = Ok ts /\
    parse_dump (dump_types ts) = Ok ts' /\
    (members <$> dget ts "com.test.Mode"%str) = Some ["OFF = 0"; "@Deprecated" ++ newline :: "    ON = 1"]%str /\
    (members <$> dget ts' "com.test.Mode"%str) = Some ["OFF = 0"; "@Deprecated"; "ON = 1"]%str.
Proof. eexists _, _. split; [vm_compute; reflexivity|]. by vm_compute. Qed.
