(* ===== verification/EnumFacts.v ===== *)
(** * Values of enumerators

    [_parse_enum_body] against a description that looks at one enumerator at a
    time: its number is the nearest one given at or before it, plus the
    distance. *)

From S2P Require Import Prelude PyStr PyStrFacts PyDict Regex SurfaceLex SurfaceParse SurfaceDiff SurfaceSpec.
From S2P Require Import SurfaceRoundtrip RegexFacts SurfacePrintable.

(** The enumerators of a body: what stands between commas, blanks left out. *)
Definition enumerators (body : str) : list str :=
  filter (fun v => v <> []) (map strip (split_char ","%char body)).

(** What an enumerator says about its number. *)
Inductive given : Type :=
| Implied
| Number (z : Z)
| Expression
| BadNumber.

#[export] Instance given_eq_dec : EqDecision given.
Proof. solve_decision. Defined.

(** Name and right-hand side. *)
Definition enum_name (v : str) : str := strip (fst (fst (partition "=" v))).
Definition enum_expr (v : str) : str := strip (snd (partition "=" v)).

Definition given_of (v : str) : given :=
  if contains "=" v then
    match re_match _INT_RE (enum_expr v) with
    | Some _ => match py_int0 (enum_expr v) with Ok z => Number z | Err _ => BadNumber end
    | None => Expression
    end
  else Implied.

(** The number of the last of the enumerators [l]: the last one that is given, if
    it is a number, plus the distance; counting starts at 0. *)
Definition last_number (l : list str) : option Z :=
  match list_find (fun v => given_of v <> Implied) (reverse l) with
  | Some (d, v) => match given_of v with Number z => Some (z + Z.of_nat d)%Z | _ => None end
  | None => Some (Z.of_nat (length l) - 1)%Z
  end.

(** Enumerator [k] as it is dumped. *)
Definition enum_member (vs : list str) (k : nat) (v : str) : str :=
  match given_of v, last_number (take (S k) vs) with
  | Implied, Some z => v ++ " = " ++ fmt_d z
  | Implied, None => v
  | _, Some z => enum_name v ++ " = " ++ fmt_d z
  | _, None => enum_name v ++ " = " ++ _normalize (enum_expr v)
  end.

Lemma last_number_snoc l v : last_number (l ++ [v]) =
  match given_of v with
  | Implied => (fun z => z + 1)%Z <$> last_number l
  | Number z => Some z
  | _ => None
  end.
Proof.
  unfold last_number. rewrite reverse_snoc. cbn [list_find].
  destruct (decide (given_of v <> Implied)) as [Hv|Hv].
  - destruct (given_of v); try done. f_equal. lia.
  - destruct (given_of v); try by destruct Hv.
    destruct (list_find _ (reverse l)) as [[d u]|]; cbn.
    + destruct (given_of u); cbn; try done. f_equal. lia.
    + f_equal. rewrite length_app. cbn. lia.
Qed.

(** One step on an enumerator. *)
Lemma enum_step_good ms l v : strip v = v -> v <> [] -> given_of v <> BadNumber ->
  enum_step (ms, last_number l) v =
    Ok (ms ++ [enum_member (l ++ [v]) (length l) v], last_number (l ++ [v])).
Proof.
  intros Hs Hn Hb. unfold enum_member. rewrite take_ge by (rewrite length_app; cbn; lia).
  rewrite last_number_snoc. unfold enum_step. rewrite Hs. destruct v as [|c v]; [done|].
  set (w := c :: v) in *. unfold given_of, enum_name, enum_expr in *.
  destruct (contains "=" w).
  - destruct (partition "=" w) as [[name eq] expr]. cbn [fst snd] in *.
    destruct (re_match _INT_RE (strip expr)); [|done].
    by destruct (py_int0 (strip expr)).
  - by destruct (last_number l).
Qed.

Lemma enum_step_bad st v : strip v = v -> given_of v = BadNumber -> exists e, enum_step st v = Err e.
Proof.
  intros Hs Hb. destruct st as [ms prev]. unfold enum_step. rewrite Hs. destruct v as [|c v]; [done|].
  set (w := c :: v) in *. unfold given_of, enum_expr in Hb. destruct (contains "=" w); [|done].
  destruct (partition "=" w) as [[name eq] expr]. cbn [fst snd] in *.
  destruct (re_match _INT_RE (strip expr)); [|done].
  destruct (py_int0 (strip expr)) as [z|e]; [done|]. by exists e.
Qed.

(** Blank values are skipped. *)
Lemma enum_step_strip st v : enum_step st v = if decide (strip v <> []) then enum_step st (strip v) else Ok st.
Proof.
  assert (Hs : strip (strip v) = strip v).
  { destruct (strip_nil_or_solid v) as [->|Hv]; [done|by apply strip_solid]. }
  destruct st as [ms prev]. unfold enum_step. rewrite Hs. case_decide as E; [done|].
  by rewrite E.
Qed.

Lemma enum_fold_strip l st : foldM_res enum_step st l =
  foldM_res enum_step st (filter (fun v => v <> []) (map strip l)).
Proof.
  revert st. induction l as [|v l IH]; intros st; [done|]. cbn [foldM_res map].
  rewrite enum_step_strip, filter_cons. case_decide; cbn [foldM_res].
  - by destruct (enum_step st (strip v)); cbn; rewrite ?IH.
  - cbn. apply IH.
Qed.

Lemma enumerators_stripped body : Forall (fun v => strip v = v /\ v <> []) (enumerators body).
Proof.
  apply Forall_forall. intros v [Hv (x & -> & _)%elem_of_map]%list_elem_of_filter. split; [|done].
  destruct (strip_nil_or_solid x) as [->|Hx]; [done|by apply strip_solid].
Qed.

Lemma enum_fold vs : Forall (fun v => strip v = v /\ v <> []) vs ->
  if decide (BadNumber ∈ map given_of vs)
  then exists e, foldM_res enum_step ([], Some (-1)%Z) vs = Err e
  else foldM_res enum_step ([], Some (-1)%Z) vs = Ok (imap (enum_member vs) vs, last_number vs).
Proof.
  induction vs as [|v l IH] using rev_ind; intros Hvs; [done|].
  apply Forall_app in Hvs as [Hl [Hs Hn]%Forall_singleton]. specialize (IH Hl).
  rewrite foldM_res_app. rewrite map_app. cbn [map].
  destruct (decide (BadNumber ∈ map given_of l)) as [Hb|Hb].
  - rewrite decide_True by (apply elem_of_app; by left). destruct IH as [e ->]. by exists e.
  - rewrite IH. cbn [mbind res_bind foldM_res]. destruct (decide (given_of v = BadNumber)) as [Hv|Hv].
    + rewrite decide_True by (apply elem_of_app; right; rewrite Hv; left).
      destruct (enum_step_bad (imap (enum_member l) l, last_number l) v Hs Hv) as [e ->]. by exists e.
    + rewrite decide_False.
      2: { intros [?|?%list_elem_of_singleton]%elem_of_app; [done|congruence]. }
      rewrite enum_step_good by done. cbn. f_equal. f_equal. rewrite imap_app. cbn.
      rewrite Nat.add_0_r. f_equal. apply imap_ext. intros k u Hk. unfold enum_member.
      apply lookup_lt_Some in Hk. by rewrite take_app_le by lia.
Qed.

(** C20: an enumerator is dumped with its number: the nearest one given at or
    before it plus the distance (counting from 0 if none is given), and without a
    number, or with its expression, if the nearest one given is not an integer.
    One member comes out for each enumerator, in order; parsing fails exactly if
    some right-hand side looks like an integer but is not one to [int]. *)
Theorem enum_body_exact body :
  let vs := enumerators body in
  if decide (BadNumber ∈ map given_of vs)
  then exists e, _parse_enum_body body = Err e
  else _parse_enum_body body = Ok (imap (enum_member vs) vs).
Proof.
  intros vs. unfold _parse_enum_body. rewrite enum_fold_strip. fold (enumerators body). fold vs.
  pose proof (enum_fold vs (enumerators_stripped body)) as H. case_decide.
  - destruct H as [e ->]. by exists e.
  - by rewrite H.
Qed.

(** Numbers in any notation, gaps and expressions. *)
Example enum_numbers :
  _parse_enum_body " A, B = 0x10, C , D = 1 << 3, E, F = -2, G, " =
  Ok ["A = 0"; "B = 16"; "C = 17"; "D = 1 << 3"; "E"; "F = -2"; "G = -1"]%str.
Proof. vm_compute. reflexivity. Qed.

Example enum_leading_zero : given_of "A = 010" = BadNumber.
Proof. vm_compute. reflexivity. Qed.
