(* ===== verification/Graph.v ===== *)
(** * Dependency graphs

    A dict from names to the names they depend on: orders that put
    dependencies first, cycles, and the depth-first traversal that lists a name
    after everything it depends on. *)

From S2P Require Import Prelude PyStr PyDict.

(** ** Descending chains *)

Section chains.
Context {T : Type} `{EqDecision T} (R : relation T).

(** Below [x] there is a chain of [k] steps. *)
Definition deep (k : nat) (x : T) : Prop :=
  exists l, length l = k /\ (forall y, y ∈ l -> tc R x y) /\
    (forall l1 y l2, l = l1 ++ y :: l2 -> forall z, z ∈ l2 -> tc R y z).

Lemma deep_0 x : deep 0 x.
Proof. exists []. split; [done|]. split; [by intros y ?%elem_of_nil|by intros [|? ?]]. Qed.

Lemma deep_S k x y : R x y -> deep k y -> deep (S k) x.
Proof.
  intros Hxy (l & Hl & Hin & Htc). exists (y :: l). split; [cbn; lia|]. split.
  - intros z [->|Hz]%elem_of_cons; [by apply tc_once|]. apply tc_l with y; auto.
  - intros [|? l1] z l2 E u Hu; injection E as <- E; subst; [auto|by eapply Htc].
Qed.

Lemma not_NoDup_split (l : list T) :
  ~ NoDup l -> exists x l1 l2 l3, l = l1 ++ x :: l2 ++ x :: l3.
Proof.
  intros Hdup. induction l as [|x l IH]; [destruct Hdup; constructor|].
  destruct (decide (x ∈ l)) as [Hx|Hx].
  - apply list_elem_of_split in Hx as (l2 & l3 & ->). by exists x, [], l2, l3.
  - destruct IH as (y & l1 & l2 & l3 & ->).
    + intros Hn. apply Hdup. by constructor.
    + by exists y, (x :: l1), l2, l3.
Qed.

(** A chain with more steps than there is room for comes back to where it
    was. *)
Lemma deep_cycle k x nodes :
  deep k x -> (forall y, tc R x y -> y ∈ nodes) -> length nodes < k -> exists y, tc R x y /\ tc R y y.
Proof.
  intros (l & Hl & Hin & Htc) Hroom Hk. assert (Hdup : ~ NoDup l).
  { intros Hnd. assert (Hsub : forall y, y ∈ l -> y ∈ nodes) by auto.
    apply (NoDup_submseteq _ _ Hnd), submseteq_length in Hsub. lia. }
  apply not_NoDup_split in Hdup as (y & l1 & l2 & l3 & ->).
  exists y. split; [apply Hin; set_solver|]. apply (Htc l1 y (l2 ++ y :: l3)); [done|]. set_solver.
Qed.

(** A recursion with fuel that fails only because a call one step below fails
    has gone down as many steps as it had fuel. *)
Lemma descent_deep {A B} (F : nat -> A -> T -> res B) (P : T -> Prop) :
  (forall fuel s n e, P n -> F (S fuel) s n = Err e ->
     exists m s' e', R n m /\ P m /\ F fuel s' m = Err e') ->
  forall fuel s n e, P n -> F fuel s n = Err e -> deep fuel n.
Proof.
  intros HF. induction fuel as [|fuel IH]; intros s n e Hn H; [apply deep_0|].
  destruct (HF _ _ _ _ Hn H) as (m & s' & e' & Hm & Pm & Hv).
  apply deep_S with m; [done|]. by eapply IH.
Qed.
End chains.

(** Chains in one relation are the images of chains in another, if single steps
    are. *)
Lemma tc_image {A B} (R : relation A) (S : relation B) (f : A -> B) (Q : A -> Prop) :
  (forall x b, Q x -> S (f x) b <-> exists y, R x y /\ b = f y) ->
  (forall x y, Q x -> R x y -> Q y) ->
  forall x b, Q x -> tc S (f x) b <-> exists y, tc R x y /\ b = f y.
Proof.
  intros Hstep HQ x b Hx. split.
  - intros Hb. remember (f x) as a eqn:Ea. revert x Hx Ea.
    induction Hb as [a b Hb|a b c Hb _ IH]; intros x Hx ->; apply Hstep in Hb as (y & Hy & ->); try done.
    + exists y. split; [by apply tc_once|done].
    + destruct (IH y (HQ _ _ Hx Hy) eq_refl) as (z & Hz & ->). exists z. split; [by apply tc_l with y|done].
  - intros (y & Hy & ->). induction Hy as [x y Hy|x y z Hy _ IH].
    + apply tc_once, Hstep; [done|]. by exists y.
    + apply tc_l with (f y); [|apply IH; by eapply HQ]. apply Hstep; [done|]. by exists y.
Qed.

(** ** Dependencies *)

Definition deps_of (dependencies : dict str (list str)) (lib : str) : list str :=
  default [] (dget dependencies lib).

Section graph.
Context (D : dict str (list str)).

(** [lib] depends directly on [dep]. *)
Definition depends (lib dep : str) : Prop := dep ∈ deps_of D lib.

(** Every dependency is itself a key of the dict. *)
Definition closed : Prop := forall lib dep, depends lib dep -> dep ∈ dkeys D.

Definition cyclic : Prop := exists lib, tc depends lib lib.

(** In [l], every library comes after all its dependencies. *)
Definition dependencies_first (l : list str) : Prop :=
  forall l1 lib l2, l = l1 ++ lib :: l2 -> forall dep, depends lib dep -> dep ∈ l1.

(** The depth-first traversal: [seen] is extended with [n], after everything
    [n] depends on. *)
Fixpoint visit (fuel : nat) (seen : list str) (n : str) : res (list str) :=
  match fuel with
  | 0 => Err RecursionError
  | S fuel =>
      seen ← foldM_res (visit fuel) seen (deps_of D n);
      Ok (if decide (n ∈ seen) then seen else seen ++ [n])
  end.

(** ** Orders *)

Lemma dependencies_first_nil : dependencies_first [].
Proof. by intros [|? ?]. Qed.

Lemma dependencies_first_snoc l n :
  dependencies_first l -> (forall dep, depends n dep -> dep ∈ l) -> dependencies_first (l ++ [n]).
Proof.
  intros Hl Hn l1 lib l2 E dep Hd. destruct l2 as [|z l2 _] using rev_ind.
  - apply app_inj_tail in E as [-> ->]. by apply Hn.
  - rewrite app_comm_cons, app_assoc in E. apply app_inj_tail in E as [-> _]. by eapply Hl.
Qed.

Lemma dependencies_first_tc l x y :
  dependencies_first l -> x ∈ l -> tc depends x y -> y ∈ l.
Proof.
  intros Hl Hx H. induction H as [x y H|x y z Hxy _ IH].
  - apply list_elem_of_split in Hx as (l1 & l2 & ->). assert (y ∈ l1) by by eapply Hl. set_solver.
  - apply IH. apply list_elem_of_split in Hx as (l1 & l2 & ->).
    assert (y ∈ l1) by by eapply Hl. set_solver.
Qed.

(** What a library depends on, directly or not, comes before it. *)
Lemma dependencies_first_before l1 x l2 y :
  dependencies_first (l1 ++ x :: l2) -> tc depends x y -> y ∈ l1.
Proof.
  intros Hl H. revert l1 l2 Hl. induction H as [x y H|x y z Hxy _ IH]; intros l1 l2 Hl.
  - by eapply Hl.
  - assert (Hy : y ∈ l1) by by eapply Hl. apply list_elem_of_split in Hy as (k1 & k2 & ->).
    apply elem_of_app. left. apply (IH k1 (k2 ++ x :: l2)). by rewrite <- app_assoc in Hl.
Qed.

(** So nothing in such an order is on a cycle. *)
Lemma dependencies_first_no_cycle l x : dependencies_first l -> x ∈ l -> ~ tc depends x x.
Proof.
  intros Hl Hx Hc. apply list_elem_of_split_l in Hx as (l1 & l2 & -> & Hx).
  apply Hx. by eapply dependencies_first_before.
Qed.

(** ** The traversal *)

(** [seen'] extends [seen] with [n] and things below [n]. *)
Definition visited (n : str) (seen seen' : list str) : Prop :=
  n ∈ seen' /\ exists k, seen' = seen ++ k /\ forall x, x ∈ k -> x = n \/ tc depends n x.

Definition ordered (seen : list str) : Prop := NoDup seen /\ dependencies_first seen.

Lemma visits_loop fuel :
  (forall n seen seen', ordered seen -> visit fuel seen n = Ok seen' ->
     ordered seen' /\ visited n seen seen') ->
  forall ms seen seen', ordered seen -> foldM_res (visit fuel) seen ms = Ok seen' ->
    ordered seen' /\ (forall m, m ∈ ms -> m ∈ seen') /\
    exists k, seen' = seen ++ k /\ forall x, x ∈ k -> exists m, m ∈ ms /\ (x = m \/ tc depends m x).
Proof.
  intros IH. induction ms as [|m ms IHm]; intros seen seen' Ho H; cbn in H; res_inv.
  - split; [done|]. split; [by intros m ?%elem_of_nil|]. exists []. rewrite app_nil_r.
    split; [done|]. by intros x ?%elem_of_nil.
  - destruct (IH _ _ _ Ho E) as [Ho1 [Hm (k1 & -> & Hk1)]].
    destruct (IHm _ _ Ho1 H) as (Ho2 & Hms & k2 & -> & Hk2).
    split; [done|]. split.
    + intros x [->|Hx]%elem_of_cons; [set_solver|auto].
    + exists (k1 ++ k2). split; [by rewrite app_assoc|].
      intros x [Hx|Hx]%elem_of_app; [exists m|destruct (Hk2 x Hx) as (m' & ? & ?); exists m'];
        split; auto; set_solver.
Qed.

Lemma visit_ordered fuel : forall n seen seen',
  ordered seen -> visit fuel seen n = Ok seen' -> ordered seen' /\ visited n seen seen'.
Proof.
  induction fuel as [|fuel IH]; intros n seen seen' Ho H; [done|]. cbn in H. res_inv.
  destruct (visits_loop fuel IH _ _ _ Ho E) as ([Hnd Hdf] & Hms & k & -> & Hk).
  assert (Hbelow : forall x, x ∈ k -> tc depends n x).
  { intros x Hx. destruct (Hk x Hx) as (m & Hm & [->|Ht]); [by apply tc_once|by apply tc_l with m]. }
  case_decide as Hn.
  - split; [done|]. split; [done|]. exists k. split; [done|]. auto.
  - split; [split|split].
    + apply NoDup_app; split_and!; [done|set_solver|apply NoDup_singleton].
    + by apply dependencies_first_snoc.
    + set_solver.
    + exists (k ++ [n]). split; [by rewrite app_assoc|].
      intros x [Hx| ->%list_elem_of_singleton]%elem_of_app; auto.
Qed.

(** What the traversal of the dependencies of [n] lists. *)
Lemma visits_below fuel n order : foldM_res (visit fuel) [] (deps_of D n) = Ok order ->
  NoDup order /\ dependencies_first order /\ forall x, x ∈ order <-> tc depends n x.
Proof.
  intros H. apply (visits_loop fuel (visit_ordered fuel)) in H as ([Hnd Hdf] & Hms & k & -> & Hk);
    [|split; [constructor|apply dependencies_first_nil]]. cbn in *.
  split_and!; [done..|]. intros x. split.
  - intros Hx. destruct (Hk x Hx) as (m & Hm & [->|Ht]); [by apply tc_once|by apply tc_l with m].
  - intros Ht. destruct Ht as [n x Hd|n y x Hny Hyx]; [by apply Hms|].
    apply (dependencies_first_tc k y x); [done| |done]. by apply Hms.
Qed.

Lemma visit_err fuel n seen e : visit fuel seen n = Err e -> deep depends fuel n.
Proof.
  apply (descent_deep depends visit (fun _ => True)); [|done]. clear. intros fuel s n e _ H. cbn in H.
  destruct (foldM_res (visit fuel) s (deps_of D n)) as [s'|e'] eqn:E; [done|].
  apply foldM_res_err in E as (s' & m & Hm & E). by exists m, s', e'.
Qed.

(** On a closed graph without cycles, [length D] levels are enough below any
    name. *)
Lemma visits_total fuel n seen :
  length D <= fuel -> closed -> ~ cyclic -> n ∈ dkeys D ->
  exists seen', foldM_res (visit fuel) seen (deps_of D n) = Ok seen'.
Proof.
  intros Hf Hc Ha Hn. destruct (visit (S fuel) seen n) as [s|e] eqn:E; [cbn in E; res_inv; eauto|].
  destruct Ha. apply visit_err, (deep_cycle _ _ _ (dkeys D)) in E as (y & _ & Hy); [by exists y| |].
  - intros y Hy. clear -Hc Hy. induction Hy; eauto.
  - unfold dkeys. rewrite length_fmap. lia.
Qed.

End graph.
