(* ===== verification/TopoSort.v ===== *)
(** * [topological_sort] (host/aidl_interface.py)

    Kahn's algorithm over the dict of libraries and their dependencies, and
    its correctness: dependencies first, [ValueError] exactly on a cycle,
    [KeyError] exactly on a dependency that is not a key. *)

From S2P Require Import Prelude PyStr PyDict Graph.

(** ** The algorithm *)

(** [d[k] += z] on a dict without default *)
Definition dict_add (d : dict str Z) (k : str) (z : Z) : res (dict str Z) :=
  match dget d k with
  | Some v => Ok (dset d k (v + z)%Z)
  | None => Err (KeyError k)
  end.

Definition count_indegrees (dependencies : dict str (list str)) : res (dict str Z) :=
  foldM_res (fun indegree deps => foldM_res (fun d dep => dict_add d dep 1) indegree deps)
    (map (fun lib => (lib, 0%Z)) (dkeys dependencies))
    (snd <$> dependencies).

(** [for dep in dependencies[lib]: indegree[dep] -= 1; ...] *)
Definition relax (st : dict str Z * list str) (dep : str) : res (dict str Z * list str) :=
  let (indegree, queue) := st in
  indegree ← dict_add indegree dep (-1);
  Ok (indegree, if bool_decide (dget indegree dep = Some 0%Z) then queue ++ [dep] else queue).

(** The [while queue] loop; an iteration takes one library off the queue. *)
Fixpoint topo_loop (fuel : nat) (dependencies : dict str (list str))
    (indegree : dict str Z) (queue sorted_order : list str) : res (list str) :=
  match queue with
  | [] => Ok sorted_order
  | lib :: queue =>
      match fuel with
      | 0 => Err RecursionError
      | S fuel =>
          st ← foldM_res relax (indegree, queue) (deps_of dependencies lib);
          topo_loop fuel dependencies (fst st) (snd st) (sorted_order ++ [lib])
      end
  end.

Definition topological_sort (dependencies : dict str (list str)) : res (list str) :=
  indegree ← count_indegrees dependencies;
  let queue := filter (fun lib => dget indegree lib = Some 0%Z) (dkeys dependencies) in
  sorted_order ← topo_loop (length dependencies) dependencies indegree queue [];
  if bool_decide (length sorted_order = length dependencies)
  then Ok (reverse sorted_order)
  else Err (ValueError "Cycle detected in dependencies" []).

(** ** Occurrences *)

Fixpoint occ (k : str) (l : list str) : nat :=
  match l with
  | [] => 0
  | x :: l => (if decide (x = k) then 1 else 0) + occ k l
  end.

Lemma occ_app k l1 l2 : occ k (l1 ++ l2) = occ k l1 + occ k l2.
Proof. induction l1; cbn; lia. Qed.

Lemma occ_pos k l : k ∈ l <-> 0 < occ k l.
Proof.
  induction l as [|x l IH]; cbn.
  - split; [by intros ?%elem_of_nil|lia].
  - rewrite elem_of_cons. case_decide; [subst; split; [lia|auto]|].
    rewrite IH. split; [intros [?|?]; [congruence|lia]|intros; right; lia].
Qed.

(** How many times [k] is a dependency of the libraries of [L]. *)
Definition total_in (D : dict str (list str)) (k : str) (L : list str) : nat :=
  occ k (concat (map (deps_of D) L)).

Lemma total_in_cons D k lib L : total_in D k (lib :: L) = occ k (deps_of D lib) + total_in D k L.
Proof. apply occ_app. Qed.

Lemma total_in_perm D k L1 L2 : L1 ≡ₚ L2 -> total_in D k L1 = total_in D k L2.
Proof. induction 1; rewrite ?total_in_cons; try done; lia. Qed.

Lemma total_in_pos D k L : 0 < total_in D k L <-> exists lib, lib ∈ L /\ depends D lib k.
Proof.
  unfold total_in, depends. rewrite <- occ_pos, elem_of_concat. setoid_rewrite elem_of_map.
  naive_solver.
Qed.

(** ** Counting *)

Lemma dict_add_Ok d k z d' : dict_add d k z = Ok d' ->
  exists v, dget d k = Some v /\ d' = dset d k (v + z)%Z.
Proof. unfold dict_add. destruct (dget d k); [|done]. intros [= <-]. eauto. Qed.

Lemma dict_add_keys d k z d' x : dict_add d k z = Ok d' -> x ∈ dkeys d' <-> x ∈ dkeys d.
Proof.
  intros (v & Hv & ->)%dict_add_Ok. rewrite elem_of_dkeys_dset.
  assert (k ∈ dkeys d) by (apply dmem_dkeys; unfold dmem; by rewrite Hv). naive_solver.
Qed.

Lemma add_list_spec l d :
  (forall x, x ∈ l -> x ∈ dkeys d) ->
  exists d', foldM_res (fun d dep => dict_add d dep 1) d l = Ok d' /\
    forall k v, dget d k = Some v -> dget d' k = Some (v + Z.of_nat (occ k l))%Z.
Proof.
  revert d; induction l as [|x l IH]; intros d H; cbn.
  - exists d. split; [done|]. intros k v ->. f_equal. lia.
  - destruct (dget d x) as [v|] eqn:E; [|apply dget_None in E; destruct E; apply H; left].
    assert (dict_add d x 1 = Ok (dset d x (v + 1)%Z)) as -> by (unfold dict_add; by rewrite E). cbn.
    destruct (IH (dset d x (v + 1)%Z)) as (d' & -> & Hd').
    { intros y Hy. apply elem_of_dkeys_dset. right. apply H. by right. }
    exists d'. split; [done|]. intros k w Hw.
    case_decide as Ek; subst.
    + rewrite (Hd' _ (v + 1)%Z); [f_equal; simplify_eq; lia|]. apply dget_dset_eq.
    + rewrite (Hd' _ w); [f_equal; lia|]. by rewrite dget_dset_ne.
Qed.

Lemma foldM_concat {A B} (f : A -> B -> res A) a ls :
  foldM_res (fun a l => foldM_res f a l) a ls = foldM_res f a (concat ls).
Proof.
  revert a; induction ls as [|l ls IH]; intros a; cbn; [done|].
  rewrite foldM_res_app. destruct (foldM_res f a l); cbn; [apply IH|done].
Qed.

Section kahn.
Context (D : dict str (list str)) (ND : NoDup (dkeys D)).

Lemma deps_of_elem lib deps : (lib, deps) ∈ D -> deps_of D lib = deps.
Proof using ND. intros H. unfold deps_of. by rewrite (dget_elem _ _ _ ND H). Qed.

Lemma values_deps : snd <$> D = map (deps_of D) (dkeys D).
Proof using ND.
  unfold dkeys. change (map (deps_of D)) with (fmap (M := list) (deps_of D)).
  rewrite <- list_fmap_compose. apply list_fmap_ext.
  intros i [lib deps] H%list_elem_of_lookup_2. cbn. by rewrite (deps_of_elem lib deps).
Qed.

Lemma zero_get k : k ∈ dkeys D -> dget (map (fun lib => (lib, 0%Z)) (dkeys D)) k = Some 0%Z.
Proof.
  generalize (dkeys D). intros l. induction l as [|x l IH]; [by intros ?%elem_of_nil|].
  intros [->|H]%elem_of_cons; cbn; by case_decide; auto.
Qed.

Lemma zero_keys k : k ∈ dkeys (map (fun lib => (lib, 0%Z)) (dkeys D)) <-> k ∈ dkeys D.
Proof. unfold dkeys at 1. rewrite <- list_fmap_compose. cbn. by rewrite list_fmap_id. Qed.

Lemma count_indegrees_spec : closed D ->
  exists d, count_indegrees D = Ok d /\
    forall k, k ∈ dkeys D -> dget d k = Some (Z.of_nat (total_in D k (dkeys D))).
Proof using ND.
  intros Hc. unfold count_indegrees. rewrite foldM_concat, values_deps.
  edestruct add_list_spec as (d & E & H); [|exists d; split; [exact E|]].
  - intros x Hx. apply zero_keys. apply elem_of_concat in Hx as (l & Hl & Hx).
    apply elem_of_map in Hl as (lib & -> & _). by apply (Hc lib).
  - intros k Hk. rewrite (H k 0%Z); [done|]. by apply zero_get.
Qed.
End kahn.

(** ** The loop invariant

    [S] is sorted, [Q] queued, [R] the rest.  The in-degree of a library
    counts its occurrences as a dependency among the libraries of [todo]: the
    unsorted ones, and while a library is being processed its remaining
    dependencies [ds]. *)

Section invariant.
Context (D : dict str (list str)) (ND : NoDup (dkeys D)) (HC : closed D).

Record inv (ds : list str) (indegree : dict str Z) (S Q R : list str) : Prop := {
  inv_perm : dkeys D ≡ₚ S ++ Q ++ R;
  inv_count : forall k, k ∈ dkeys D ->
    dget indegree k = Some (Z.of_nat (total_in D k (Q ++ R) + occ k ds));
  inv_done : forall k, k ∈ S ++ Q -> total_in D k (Q ++ R) + occ k ds = 0;
  inv_rest : forall k, k ∈ R -> 0 < total_in D k (Q ++ R) + occ k ds;
  inv_order : forall l1 lib l2, S = l1 ++ lib :: l2 ->
    forall lib', depends D lib' lib -> lib' ∈ l1
}.

Lemma occ_cons k x l : occ k (x :: l) = (if decide (x = k) then 1 else 0) + occ k l.
Proof. done. Qed.

(** Decrementing one in-degree keeps the invariant, and moves the library to
    the queue exactly when it reaches 0. *)
Lemma relax_inv ds d indegree S Q R :
  d ∈ dkeys D -> inv (d :: ds) indegree S Q R ->
  exists indegree' Q' R', relax (indegree, Q) d = Ok (indegree', Q') /\
    inv ds indegree' S Q' R' /\ Q' ++ R' ≡ₚ Q ++ R.
Proof using ND HC.
  intros Hd I. destruct I as [P C Z0 RS O].
  pose proof (C d Hd) as Cd. rewrite occ_cons in Cd. rewrite decide_True in Cd by done.
  assert (HR : d ∈ R).
  { assert (Hin : d ∈ S ++ Q ++ R) by by rewrite <- P.
    rewrite app_assoc, elem_of_app in Hin. destruct Hin as [Hin|Hin]; [|done].
    specialize (Z0 d Hin). rewrite occ_cons, decide_True in Z0 by done. lia. }
  unfold relax, dict_add. rewrite Cd. cbn [mbind res_bind]. rewrite dget_dset_eq.
  set (n := total_in D d (Q ++ R) + occ d ds).
  set (indegree' := dset indegree d _).
  assert (C' : forall k, k ∈ dkeys D ->
            dget indegree' k = Some (Z.of_nat (total_in D k (Q ++ R) + occ k ds))).
  { intros k Hk. unfold indegree'. rewrite dget_dset. case_decide; subst; [f_equal; lia|].
    rewrite C by done. rewrite occ_cons, decide_False by done. done. }
  case_bool_decide as Hz.
  - assert (n = 0) as En by (injection Hz; unfold n; lia).
    apply list_elem_of_split in HR as (R1 & R2 & ->).
    exists indegree', (Q ++ [d]), (R1 ++ R2).
    assert (PQ : (Q ++ [d]) ++ R1 ++ R2 ≡ₚ Q ++ R1 ++ d :: R2).
    { rewrite <- app_assoc. cbn. apply Permutation_app_head. by rewrite Permutation_middle. }
    split; [done|]. split; [|done]. split.
    + rewrite PQ. done.
    + intros k Hk. rewrite (total_in_perm _ _ _ _ PQ). by apply C'.
    + intros k Hk. rewrite (total_in_perm _ _ _ _ PQ).
      rewrite app_assoc, elem_of_app, list_elem_of_singleton in Hk.
      destruct Hk as [Hk| ->]; [|done]. specialize (Z0 k Hk). rewrite occ_cons in Z0. lia.
    + intros k Hk. rewrite (total_in_perm _ _ _ _ PQ).
      assert (Hne : d <> k).
      { intros ->. assert (N : NoDup (S ++ Q ++ R1 ++ k :: R2)) by by rewrite <- P.
        rewrite !app_assoc, <- Permutation_middle in N. apply NoDup_cons in N as [N _].
        apply N. rewrite <- app_assoc. set_solver. }
      specialize (RS k). rewrite occ_cons, decide_False in RS by done. apply RS. set_solver.
    + done.
  - assert (0 < n) by (destruct (decide (n = 0)); [destruct Hz; f_equal; unfold n in *; lia|lia]).
    exists indegree', Q, R. split; [done|]. split; [|done]. split; [done|done| |..].
    + intros k Hk. specialize (Z0 k Hk). rewrite occ_cons in Z0. lia.
    + intros k Hk. destruct (decide (d = k)) as [<-|Hne]; [done|].
      specialize (RS k Hk). by rewrite occ_cons, decide_False in RS.
    + done.
Qed.

Lemma relax_all_inv ds indegree S Q R :
  (forall d, d ∈ ds -> d ∈ dkeys D) -> inv ds indegree S Q R ->
  exists indegree' Q' R', foldM_res relax (indegree, Q) ds = Ok (indegree', Q') /\
    inv [] indegree' S Q' R' /\ Q' ++ R' ≡ₚ Q ++ R.
Proof using ND HC.
  revert indegree Q R; induction ds as [|d ds IH]; intros indegree Q R Hds I.
  - exists indegree, Q, R. done.
  - destruct (relax_inv ds d indegree S Q R) as (i1 & Q1 & R1 & E1 & I1 & P1);
      [apply Hds; left|done|].
    destruct (IH i1 Q1 R1) as (i2 & Q2 & R2 & E2 & I2 & P2);
      [intros x Hx; apply Hds; by right|done|].
    exists i2, Q2, R2. cbn [foldM_res]. rewrite E1. cbn [mbind res_bind].
    split; [done|]. split; [done|]. by rewrite P2.
Qed.

(** Taking a library off the queue. *)
Lemma pop_inv lib indegree S Q R :
  inv [] indegree S (lib :: Q) R -> inv (deps_of D lib) indegree (S ++ [lib]) Q R.
Proof using ND HC.
  intros [P C Z0 RS O].
  assert (PE : forall k, total_in D k ((lib :: Q) ++ R) + occ k []
                         = total_in D k (Q ++ R) + occ k (deps_of D lib)).
  { intros k. rewrite <- app_comm_cons, total_in_cons. cbn [occ]. lia. }
  split.
  - rewrite P. by rewrite <- app_assoc.
  - intros k Hk. rewrite <- PE. by apply C.
  - intros k Hk. rewrite <- PE. apply Z0. set_solver.
  - intros k Hk. rewrite <- PE. by apply RS.
  - intros l1 x l2 E lib' Hdep.
    destruct l2 as [|y l2 _] using rev_ind.
    + apply app_inj_tail in E as [<- <-].
      assert (Hlib' : lib' ∈ S ++ (lib :: Q) ++ R).
      { rewrite <- P. apply dmem_dkeys. unfold depends, deps_of in Hdep. unfold dmem.
        destruct (dget D lib'); [done|]. by apply elem_of_nil in Hdep. }
      apply elem_of_app in Hlib' as [|Hlib']; [done|exfalso].
      specialize (Z0 lib ltac:(set_solver)).
      assert (0 < total_in D lib ((lib :: Q) ++ R)) by (apply total_in_pos; eauto). lia.
    + rewrite app_comm_cons, app_assoc in E. apply app_inj_tail in E as [-> _]. by eapply O.
Qed.

Lemma topo_loop_inv fuel indegree S Q R :
  length (Q ++ R) <= fuel -> inv [] indegree S Q R ->
  exists S' indegree' R', topo_loop fuel D indegree Q S = Ok S' /\ inv [] indegree' S' [] R'.
Proof using ND HC.
  revert indegree S Q R; induction fuel as [|fuel IH]; intros indegree S Q R Hf I;
    (destruct Q as [|lib Q]; [by eauto|]); [cbn in Hf; lia|].
  apply pop_inv in I.
  destruct (relax_all_inv (deps_of D lib) indegree (S ++ [lib]) Q R) as (i1 & Q1 & R1 & E1 & I1 & P1);
    [intros d Hd; by apply (HC lib)|done|].
  cbn [topo_loop]. rewrite E1. cbn [mbind res_bind fst snd]. apply IH with R1; [|done].
  rewrite P1. cbn in Hf. lia.
Qed.
End invariant.

(** ** Correctness *)

Section correctness.
Context (D : dict str (list str)) (ND : NoDup (dkeys D)).

Lemma inv_start indegree : closed D ->
  (forall k, k ∈ dkeys D -> dget indegree k = Some (Z.of_nat (total_in D k (dkeys D)))) ->
  exists R, inv D [] indegree []
    (filter (fun lib => dget indegree lib = Some 0%Z) (dkeys D)) R.
Proof using ND.
  intros HC Hi. set (P := fun lib => dget indegree lib = Some 0%Z).
  exists (filter (fun lib => ~ P lib) (dkeys D)).
  assert (PP : filter P (dkeys D) ++ filter (fun lib => ~ P lib) (dkeys D) ≡ₚ dkeys D)
    by apply filter_partition.
  split.
  - by rewrite PP.
  - intros k Hk. rewrite (total_in_perm _ _ _ _ PP). cbn. rewrite Nat.add_0_r. by apply Hi.
  - intros k Hk. rewrite (total_in_perm _ _ _ _ PP). cbn in Hk.
    apply list_elem_of_filter in Hk as [Hk Hin]. unfold P in Hk. rewrite Hi in Hk by done.
    injection Hk. cbn. lia.
  - intros k Hk. rewrite (total_in_perm _ _ _ _ PP).
    apply list_elem_of_filter in Hk as [Hk Hin]. unfold P in Hk. rewrite Hi in Hk by done.
    cbn. destruct (total_in D k (dkeys D)); [by destruct Hk|lia].
  - by intros [|? ?].
Qed.

(** If every library of [R] has a dependent in [R], there is a cycle. *)
Lemma dependents_cycle R :
  R <> [] -> (forall k, k ∈ R -> exists lib, lib ∈ R /\ depends D lib k) -> cyclic D.
Proof.
  intros Hne Hpred. set (up := fun x y : str => y ∈ R /\ depends D y x).
  assert (Hdeep : forall n k, k ∈ R -> deep up n k).
  { induction n as [|n IH]; intros k Hk; [apply deep_0|].
    destruct (Hpred k Hk) as (lib & Hlib & Hd). apply deep_S with lib; [done|auto]. }
  assert (Hup : forall x y, tc up x y -> y ∈ R /\ tc (depends D) y x).
  { intros x y H. induction H as [x y [Hy Hd]|x y z [_ Hd] _ [Hz Ht]].
    - split; [done|by apply tc_once].
    - split; [done|by apply tc_r with y]. }
  destruct R as [|k R']; [done|].
  destruct (deep_cycle up (S (length (k :: R'))) k (k :: R')) as (y & _ & Hy).
  - apply Hdeep. left.
  - intros y Hy. by apply Hup in Hy as [? _].
  - cbn. lia.
  - exists y. by apply Hup in Hy as [_ ?].
Qed.

(** An order with dependencies first rules cycles out. *)
Lemma dependencies_first_acyclic l :
  l ≡ₚ dkeys D -> dependencies_first D l -> ~ cyclic D.
Proof.
  intros HP HO [lib Hc].
  assert (Hkey : forall x y, depends D x y -> x ∈ l).
  { intros x y H. rewrite HP. apply dmem_dkeys. unfold dmem. unfold depends, deps_of in H.
    destruct (dget D x); [done|]. by apply elem_of_nil in H. }
  apply (dependencies_first_no_cycle D l lib HO); [|done].
  inversion Hc; subst; by eapply Hkey.
Qed.
End correctness.

Lemma reverse_dependencies_first D S :
  NoDup S -> (forall lib dep, depends D lib dep -> dep ∈ S) ->
  (forall l1 lib l2, S = l1 ++ lib :: l2 -> forall lib', depends D lib' lib -> lib' ∈ l1) ->
  dependencies_first D (reverse S).
Proof.
  intros NS Hall HO l1 lib l2 E dep Hdep.
  apply (f_equal reverse) in E. rewrite reverse_involutive, reverse_app, reverse_cons in E.
  rewrite <- app_assoc in E. cbn in E. apply elem_of_reverse.
  specialize (Hall _ _ Hdep). rewrite E in Hall.
  apply elem_of_app in Hall as [H|[->|H]%elem_of_cons]; [exfalso..|done].
  - apply list_elem_of_split in H as (a & b & Eab). rewrite Eab in E.
    rewrite <- app_assoc in E. cbn in E. specialize (HO _ _ _ E _ Hdep).
    rewrite E in NS. apply NoDup_app in NS as (_ & NS & _). apply (NS _ HO). set_solver.
  - specialize (HO _ _ _ E _ Hdep). rewrite E in NS.
    apply NoDup_app in NS as (_ & NS & _). apply (NS _ HO). left.
Qed.

Lemma add_list_missing l d :
  (exists x, x ∈ l /\ x ∉ dkeys d) ->
  exists k, foldM_res (fun d dep => dict_add d dep 1) d l = Err (KeyError k) /\
    k ∈ l /\ k ∉ dkeys d.
Proof.
  revert d; induction l as [|y l IH]; intros d (x & Hx & Hd); [by apply elem_of_nil in Hx|].
  cbn [foldM_res]. destruct (dict_add d y 1) as [d'|e] eqn:E.
  - cbn. assert (Hk : forall z, z ∈ dkeys d' <-> z ∈ dkeys d)
      by (intros z; by eapply dict_add_keys).
    destruct (IH d') as (k & -> & Hin & Hk').
    + exists x. rewrite Hk. split; [|done]. apply elem_of_cons in Hx as [->|]; [|done].
      destruct Hd. apply dict_add_Ok in E as (v & Hv & _).
      apply dmem_dkeys. unfold dmem. by rewrite Hv.
    + exists k. rewrite Hk in Hk'. split; [done|]. split; [by right|done].
  - unfold dict_add in E. destruct (dget d y) eqn:Ey; [done|]. injection E as <-.
    exists y. split; [done|]. split; [left|by apply dget_None].
Qed.

Lemma topological_sort_cases D :
  NoDup (dkeys D) -> closed D ->
  (exists order, topological_sort D = Ok order /\ order ≡ₚ dkeys D /\
     dependencies_first D order /\ ~ cyclic D) \/
  (topological_sort D = Err (ValueError "Cycle detected in dependencies" []) /\ cyclic D).
Proof.
  intros ND HC. unfold topological_sort.
  destruct (count_indegrees_spec D ND HC) as (i0 & -> & Hi0). cbn [mbind res_bind].
  destruct (inv_start D ND i0 HC Hi0) as [R0 I0].
  pose proof (inv_perm _ _ _ _ _ _ I0) as P0. apply Permutation_length in P0.
  unfold dkeys in P0 at 1. rewrite length_fmap in P0. rewrite app_nil_l in P0.
  destruct (topo_loop_inv D ND HC _ _ _ _ _ (Nat.eq_le_incl _ _ (eq_sym P0)) I0)
    as (S & i & R & -> & I).
  cbn [mbind res_bind]. pose proof (inv_perm _ _ _ _ _ _ I) as P. cbn in P.
  assert (EL : length D = length S + length R).
  { apply Permutation_length in P. unfold dkeys in P. rewrite length_fmap, length_app in P. done. }
  case_bool_decide as Hlen; [left|right].
  - destruct R as [|? ?]; [|cbn in EL; lia]. rewrite app_nil_r in P.
    assert (HO : dependencies_first D (reverse S)).
    { apply reverse_dependencies_first.
      - by rewrite <- P.
      - intros lib dep Hd. rewrite <- P. by apply (HC lib).
      - apply (inv_order _ _ _ _ _ _ I). }
    assert (HP : reverse S ≡ₚ dkeys D) by by rewrite reverse_Permutation, P.
    exists (reverse S). split; [done|]. split; [done|]. split; [done|].
    by eapply dependencies_first_acyclic.
  - split; [done|]. apply (dependents_cycle D R).
    + intros ->. cbn in EL. lia.
    + intros k Hk. pose proof (inv_rest _ _ _ _ _ _ I k Hk) as H. cbn [occ app] in H.
      apply total_in_pos. lia.
Qed.

(** Success of the sort certifies that there is no cycle. *)
Lemma topological_sort_acyclic D order :
  NoDup (dkeys D) -> closed D -> topological_sort D = Ok order -> ~ cyclic D.
Proof.
  intros ND HC E. destruct (topological_sort_cases D ND HC) as [(o & _ & _ & _ & H)|[E' _]]; congruence.
Qed.

(** C11: with every dependency registered, [topological_sort] terminates and
    either returns all libraries, each after everything it depends on, or
    raises [ValueError]; it raises exactly when the dependencies are cyclic. *)
Theorem topological_sort_correct D :
  NoDup (dkeys D) -> closed D ->
  (exists order, topological_sort D = Ok order /\ order ≡ₚ dkeys D /\
     dependencies_first D order /\ ~ cyclic D) \/
  (topological_sort D = Err (ValueError "Cycle detected in dependencies" []) /\ cyclic D).
Proof. exact (topological_sort_cases D). Qed.

Definition libs_ok : dict str (list str) :=
  [("a-vcurrent-cpp", ["b-v1-cpp"; "c-vcurrent-cpp"]); ("b-v1-cpp", ["c-vcurrent-cpp"]);
   ("c-vcurrent-cpp", [])].

(** Deciding [closed] *)
Definition closedb (D : dict str (list str)) : bool :=
  forallb (fun x => forallb (dmem D) (snd x)) D.

Lemma closedb_sound D : closedb D = true -> closed D.
Proof.
  intros H lib dep Hd. unfold depends, deps_of in Hd.
  destruct (dget D lib) as [deps|] eqn:E; [|by apply elem_of_nil in Hd].
  apply dget_Some_elem in E. unfold closedb in H. rewrite forallb_forall in H.
  specialize (H (lib, deps)). rewrite <- list_elem_of_In in H. specialize (H E). cbn in H.
  rewrite forallb_forall in H. apply dmem_dkeys, H. by apply list_elem_of_In.
Qed.

Lemma topological_sort_correct_witness :
  topological_sort libs_ok = Ok ["c-vcurrent-cpp"; "b-v1-cpp"; "a-vcurrent-cpp"] /\
  ((exists order, topological_sort libs_ok = Ok order /\ order ≡ₚ dkeys libs_ok /\
     dependencies_first libs_ok order /\ ~ cyclic libs_ok) \/
   (topological_sort libs_ok = Err (ValueError "Cycle detected in dependencies" []) /\
    cyclic libs_ok)).
Proof.
  split; [vm_compute; reflexivity|]. apply (topological_sort_correct libs_ok).
  - apply (bool_decide_unpack _). vm_compute. exact I.
  - apply closedb_sound. vm_compute. reflexivity.
Defined.

(** C38: a dependency that is not a library of the dict makes
    [topological_sort] raise [KeyError] naming such a dependency. *)
Theorem topological_sort_unknown D :
  NoDup (dkeys D) -> ~ closed D ->
  exists k, topological_sort D = Err (KeyError k) /\ k ∉ dkeys D /\ exists lib, depends D lib k.
Proof.
  intros ND HC. unfold topological_sort, count_indegrees.
  rewrite foldM_concat, (values_deps D ND).
  set (all := concat _).
  assert (Hall : forall k, k ∈ all <-> exists lib, lib ∈ dkeys D /\ depends D lib k).
  { intros k. unfold all, depends. rewrite elem_of_concat. split.
    - intros (l & (lib & -> & Hl)%elem_of_map & Hk). eauto.
    - intros (lib & Hl & Hk). exists (deps_of D lib). split; [|done]. apply elem_of_map. eauto. }
  destruct (decide (Forall (fun k => k ∈ dkeys D) all)) as [HA|HA].
  - destruct HC. intros lib dep Hd. rewrite Forall_forall in HA. apply HA, Hall.
    exists lib. split; [|done]. apply dmem_dkeys. unfold dmem.
    unfold depends, deps_of in Hd. destruct (dget D lib); [done|]. by apply elem_of_nil in Hd.
  - apply not_Forall_Exists, Exists_exists in HA as (x & Hx & Hn); [|apply _].
    destruct (add_list_missing all (map (fun lib => (lib, 0%Z)) (dkeys D))) as (k & -> & Hk & Hm).
    + exists x. split; [done|]. by rewrite zero_keys.
    + exists k. cbn. split; [done|]. rewrite zero_keys in Hm. split; [done|].
      apply Hall in Hk as (lib & _ & Hd). eauto.
Qed.

Definition libs_dangling : dict str (list str) := [("a-vcurrent-cpp", ["b-v1-cpp"])].

Lemma topological_sort_unknown_witness :
  exists k, topological_sort libs_dangling = Err (KeyError k) /\ k ∉ dkeys libs_dangling /\
    exists lib, depends libs_dangling lib k.
Proof.
  apply (topological_sort_unknown libs_dangling).
  - apply (bool_decide_unpack _). vm_compute. exact I.
  - intros H. specialize (H "a-vcurrent-cpp" "b-v1-cpp" ltac:(left)).
    apply list_elem_of_singleton in H. discriminate H.
Defined.
