(* ===== verification/Logger.v ===== *)
(** * host/logger.py

    Levels, filtering and the shape of a printed record.  Time stamps and the
    caller's name and line are supplied by the interpreter and not modelled. *)

From S2P Require Import Prelude PyStr PyStrFacts.

Inductive level : Type := FATAL | ERROR | WARNING | INFO | DEBUG | VERBOSE.

#[export] Instance level_eq_dec : EqDecision level.
Proof. solve_decision. Defined.

(** The class attributes *)
Definition level_number (l : level) : Z :=
  match l with
  | FATAL => 0 | ERROR => 1 | WARNING => 2 | INFO => 3 | DEBUG => 4 | VERBOSE => 5
  end.

Definition escape : ascii := "027"%char.
Definition _RED : str := escape :: "[31m".
Definition _YELLOW : str := escape :: "[33m".
Definition _RESET : str := escape :: "[0m".

(** [_LEVELS]: stdlib level, printed name, colour *)
Definition _LEVELS (l : level) : Z * str * option str :=
  match l with
  | FATAL => (50%Z, "FATAL", Some _RED)
  | ERROR => (40%Z, "ERROR", Some _RED)
  | WARNING => (30%Z, "WARNING", Some _YELLOW)
  | INFO => (20%Z, "INFO", None)
  | DEBUG => (10%Z, "DEBUG", None)
  | VERBOSE => (5%Z, "VERBOSE", None)
  end.

(** A record handed to the stdlib logger. *)
Record log_record : Type := LogRecord {
  r_level : Z;
  r_name : str;
  r_colour : option str;
  r_msg : str;
  r_args : list str
}.

#[export] Instance log_record_eq_dec : EqDecision log_record.
Proof. solve_decision. Defined.

(** [_LEVELS.get(level, _LEVELS[VERBOSE])]: a number that is no level counts as
    the most verbose one. *)
Definition level_of (n : Z) : level :=
  match n with
  | 0 => FATAL | 1 => ERROR | 2 => WARNING | 3 => INFO | 4 => DEBUG | _ => VERBOSE
  end%Z.

(** [_log]: the records appended by one call with level [n] on a logger of level
    [log_level], both any integers.  A message is kept as its template and
    arguments. *)
Definition log_number (log_level n : Z) (msg : str) (args : list str) : list log_record :=
  if (log_level <? n)%Z then []
  else let '(stdlib_level, name, colour) := _LEVELS (level_of n) in
       [LogRecord stdlib_level name colour msg args].

(** The methods [error], [warning], [info], [debug] and [verbose]. *)
Definition _log (log_level l : level) (msg : str) (args : list str) : list log_record :=
  log_number (level_number log_level) (level_number l) msg args.

(** The stdlib logger of the instance is created with level 1 and never
    filters: [isEnabledFor]. *)
Definition stdlib_enabled (r : log_record) : bool := (1 <=? r_level r)%Z.

(** [fatal]: the record, then [sys.exit(1)]. *)
Definition fatal (log_level : level) (msg : str) (args : list str) : list log_record * res unit :=
  (_log log_level FATAL msg args, Err (SystemExit 1)).

(** [_Formatter.format], given the line the stdlib formatter produced; the
    handler's [colour] is [isatty() and "NO_COLOR" not in os.environ]. *)
Definition use_colour (isatty no_color : bool) : bool := isatty && negb no_color.

Definition format (colour : bool) (r : log_record) (line : str) : str :=
  match colour, r_colour r with
  | true, Some c => c ++ line ++ _RESET
  | _, _ => line
  end.

(** ** Loggers and the lines they print *)

(** [Logger.__init__]: level, name of the stdlib logger, colour of the handler. *)
Record Logger : Type := MkLogger {
  _log_level : Z;
  tag : str;
  _colour : bool
}.

Definition Logger_init (isatty no_color : bool) (log_tag : option str) (log_level : option Z) : Logger :=
  MkLogger (default (level_number INFO) log_level) (default "default"%str log_tag)
    (use_colour isatty no_color).

(** Where a message was logged: two frames up, and the time. *)
Record origin : Type := Origin {
  asctime : str;
  caller_func : str;
  caller_line : Z
}.

(** [%(levelname)-8s] *)
Definition pad (n : nat) (s : str) : str := s ++ replicate (n - length s) space.

Definition tab : ascii := "009"%char.

(** [_FORMAT] *)
Definition format_line (name : str) (o : origin) (r : log_record) (message : str) : str :=
  asctime o ++ tab :: "[" ++ pad 8 (r_name r) ++ "] " ++ name ++ "  " ++ caller_func o ++ "():"
  ++ fmt_d (caller_line o) ++ " " ++ message.

(** What a call with level [n] and an already formatted message writes to
    stderr: records that pass the stdlib filter, one line each. *)
Definition printed (self : Logger) (o : origin) (n : Z) (message : str) : str :=
  concat (map (fun r => format (_colour self) r (format_line (tag self) o r message) ++ [newline])
    (filter (fun r => stdlib_enabled r = true) (log_number (_log_level self) n message []))).

(** A call prints exactly one record if its level is within the logger's
    level and nothing otherwise, whatever the two integers; what is printed
    passes the stdlib filter, and raising the logger's level never loses a
    record. *)
Theorem log_filter log_level n msg args :
  (length (log_number log_level n msg args) = if (n <=? log_level)%Z then 1 else 0) /\
  Forall (fun r => stdlib_enabled r = true) (log_number log_level n msg args) /\
  (forall log_level', (log_level <= log_level')%Z ->
     log_number log_level n msg args `sublist_of` log_number log_level' n msg args).
Proof.
  unfold log_number. rewrite Z.leb_antisym. destruct (Z.ltb_spec log_level n) as [Hlt|Hge]; cbn [negb].
  - split; [done|]. split; [constructor|]. intros. apply sublist_nil_l.
  - destruct (_LEVELS (level_of n)) as [[lv name] c] eqn:E. split; [done|]. split.
    + constructor; [|constructor]. destruct (level_of n); injection E as <- _ _; done.
    + intros l' Hl'. destruct (Z.ltb_spec l' n); [lia|reflexivity].
Qed.

(** ** No escape sequences *)

Lemma pad_plain c n s : c <> space -> c ∉ s -> c ∉ pad n s.
Proof.
  unfold pad. intros Hc Hs [H|H]%elem_of_app; [done|]. by apply elem_of_replicate_inv in H.
Qed.

Lemma number_plain n : escape ∉ fmt_d n.
Proof.
  pose proof (fmt_d_chars n) as H. rewrite Forall_forall in H. intros Hc.
  by destruct (H _ Hc) as [Hd|Hd].
Qed.

Definition plain_text (s : str) : Prop := escape ∉ s.

Lemma format_line_plain name o r message :
  plain_text (asctime o) -> plain_text (r_name r) -> plain_text name -> plain_text (caller_func o) ->
  plain_text message -> plain_text (format_line name o r message).
Proof.
  unfold plain_text, format_line. intros Ha Hl Hn Hf Hm.
  repeat first [assumption | apply number_plain | by apply pad_plain
               | apply (bool_decide_unpack _); vm_compute; exact I
               | apply not_elem_of_app; split | apply not_elem_of_cons; split; [done|]].
Qed.

(** What a record at a level without a colour, or a logger without colours,
    prints. *)
Lemma level_plain n : (level_number WARNING < n)%Z -> snd (_LEVELS (level_of n)) = None.
Proof.
  cbn [level_number]. intros H. destruct n as [|p|p]; [lia| |lia].
  do 3 (destruct p as [p|p|]; try done; try lia).
Qed.

Lemma level_name_plain l : plain_text (snd (fst (_LEVELS l))).
Proof. destruct l; apply (bool_decide_unpack _); vm_compute; exact I. Qed.

(** C39: without a terminal, or with [NO_COLOR] set, what a logger prints
    carries no escape sequence unless the message, the tag, the time or the
    caller's name does; on a terminal only levels up to [WARNING] are
    coloured. *)
Theorem printed_plain isatty no_color log_tag log_level o n message :
  isatty = false \/ no_color = true \/ (level_number WARNING < n)%Z ->
  plain_text message -> plain_text (default [] log_tag) -> plain_text (asctime o) ->
  plain_text (caller_func o) ->
  plain_text (printed (Logger_init isatty no_color log_tag log_level) o n message).
Proof.
  intros H Hm Ht Ha Hf. unfold plain_text, printed, log_number. cbn [_log_level Logger_init _colour tag].
  destruct (_ <? n)%Z; [by vm_compute; intros ?%elem_of_nil|].
  pose proof (level_name_plain (level_of n)) as Hn. pose proof (level_plain n) as Hc.
  destruct (_LEVELS (level_of n)) as [[lv name] c]. cbn [fst snd] in *.
  rewrite filter_cons. case_decide; [|by intros ?%elem_of_nil]. cbn [filter list_filter map concat app].
  rewrite app_nil_r. apply not_elem_of_app. split; [|by intros ?%list_elem_of_singleton].
  assert (E : forall line, format (use_colour isatty no_color) (LogRecord lv name c message []) line = line).
  { intros line. unfold use_colour, format. cbn [r_colour].
    destruct H as [->|[->|Hlv]]; [done|by rewrite andb_false_r|]. rewrite (Hc Hlv). by destruct (_ && _). }
  rewrite E. apply format_line_plain; try done. destruct log_tag; [done|]. by vm_compute; set_solver.
Qed.

Lemma printed_plain_witness :
  plain_text (printed (Logger_init true true (Some "aidl_ops"%str) None)
    (Origin "2024-05-01 10:00:00" "main" 280) 1 "boom").
Proof.
  apply (printed_plain true true (Some "aidl_ops"%str) None (Origin "2024-05-01 10:00:00" "main" 280) 1 "boom");
    [by right; left|apply (bool_decide_unpack _); vm_compute; exact I..].
Defined.

(** The line itself, on a terminal and in a file. *)
Example boom_lines :
  let o := Origin "2024-05-01 10:00:00" "main" 280 in
  printed (Logger_init true false (Some "aidl_ops"%str) None) o 1 "boom" =
    (_RED ++ "2024-05-01 10:00:00" ++ tab :: "[ERROR   ] aidl_ops  main():280 boom" ++ _RESET ++ [newline])%str /\
  printed (Logger_init false false None None) o 3 "boom" =
    ("2024-05-01 10:00:00" ++ tab :: "[INFO    ] default  main():280 boom" ++ [newline])%str /\
  printed (Logger_init false false None None) o 4 "boom" = []%str.
Proof. vm_compute. done. Qed.
