(* ===== verification/PyOs.v ===== *)
(** * Paths, files and effects

    [posixpath] on strings, a file system as a dict from absolute paths to
    nodes, the state the host tools thread through their calls, and the monad
    of their effects: a call reads and updates the state, and returns or
    raises (what it did before raising is kept). *)

From S2P Require Import Prelude PyStr PyDict Logger.

(** ** [os.path] *)

Definition slash : ascii := "/"%char.

Definition not_slash (c : ascii) : bool := negb (bool_decide (c = slash)).

(** [path.join(a, b)] *)
Definition path_join (a b : str) : str :=
  if startswith "/" b then b
  else match reverse a with
       | [] => b
       | c :: _ => if bool_decide (c = slash) then a ++ b else a ++ "/" ++ b
       end.

(** [path.join(a, *l)] *)
Definition path_joins (a : str) (l : list str) : str := foldl path_join a l.

(** [path.basename] *)
Definition basename (p : str) : str := reverse (take_while not_slash (reverse p)).

(** [path.dirname]: trailing slashes go unless the head is all slashes. *)
Definition dirname (p : str) : str :=
  let head := drop_while not_slash (reverse p) in
  match drop_while (fun c => negb (not_slash c)) head with
  | [] => reverse head
  | h => reverse h
  end.

(** The non-empty components of a path. *)
Definition components (p : str) : list str :=
  filter (fun x => x <> []) (split_char slash p).

Fixpoint common_prefix (a b : list str) : list str :=
  match a, b with
  | x :: a, y :: b => if decide (x = y) then x :: common_prefix a b else []
  | _, _ => []
  end.

(** [path.relpath(p, start)] for absolute normalised arguments. *)
Definition relpath (p start : str) : str :=
  let sl := components start in
  let pl := components p in
  let i := length (common_prefix sl pl) in
  match replicate (length sl - i) ".." ++ drop i pl with
  | [] => "."
  | x :: l => path_joins x l
  end.

(** ** The file system *)

Inductive node : Type :=
| File (content : str)
| Directory.

Abbreviation fsys := (dict str node).

Definition fs_exists (fs : fsys) (p : str) : bool := dmem fs p.

Definition fs_isdir (fs : fsys) (p : str) : bool :=
  match dget fs p with Some Directory => true | _ => false end.

Definition fs_isfile (fs : fsys) (p : str) : bool :=
  match dget fs p with Some (File _) => true | _ => false end.

(** Paths directly in [d], in the order in which the directory lists them. *)
Definition fs_entries (fs : fsys) (d : str) : list str :=
  filter (fun p => dirname p = d /\ p <> d) (dkeys fs).

(** [os.listdir(d)] *)
Definition fs_listdir (fs : fsys) (d : str) : list str := basename <$> fs_entries fs d.

(** [os.walk(root)], top down: directory, subdirectories, files.  [prune d
    subdirs] is what the loop body assigns to [dirs[:]]. *)
Fixpoint fs_walk (fuel : nat) (prune : str -> list str -> list str) (fs : fsys) (root : str)
    : list (str * list str * list str) :=
  match fuel with
  | 0 => []
  | S fuel =>
      let names := fs_listdir fs root in
      let dirs := filter (fun n => fs_isdir fs (path_join root n) = true) names in
      let files := filter (fun n => fs_isdir fs (path_join root n) = false) names in
      let dirs := prune root dirs in
      (root, dirs, files) ::
        concat (map (fun d => fs_walk fuel prune fs (path_join root d)) dirs)
  end.

Definition os_walk (prune : str -> list str -> list str) (fs : fsys) (root : str)
    : list (str * list str * list str) :=
  if fs_isdir fs root then fs_walk (S (length fs)) prune fs root else [].

(** ** [fnmatch] and [glob] *)

(** One position of a pattern: [*], or one character of a class. *)
Inductive glob_item : Type :=
| GStar
| GOne (p : ascii -> bool).

(** The characters between [\[] and the closing bracket. *)
Fixpoint in_set (l : str) (c : ascii) : bool :=
  match l with
  | [] => false
  | lo :: l1 =>
      let single := bool_decide (c = lo) || in_set l1 c in
      match l1 with
      | d :: hi :: l' =>
          if bool_decide (d = "-"%char) then in_range (code lo) (code hi) c || in_set l' c
          else single
      | _ => single
      end
  end.

(** Where the class that starts after [\[] ends: a first [!] and a first
    closing bracket belong to it. *)
Definition class_end (s : str) : option nat :=
  let n1 := match s with c :: _ => if bool_decide (c = "!"%char) then 1 else 0 | [] => 0 end in
  let n2 := match drop n1 s with
            | c :: _ => if bool_decide (c = "]"%char) then S n1 else n1 | [] => n1 end in
  (Nat.add n2) <$> find "]" (drop n2 s).

Fixpoint compile_glob (fuel : nat) (s : str) : list glob_item :=
  match fuel, s with
  | S fuel, c :: s =>
      if bool_decide (c = "*"%char) then GStar :: compile_glob fuel s
      else if bool_decide (c = "?"%char) then GOne (fun _ => true) :: compile_glob fuel s
      else if bool_decide (c = "["%char) then
        match class_end s with
        | None => GOne (fun d => bool_decide (d = c)) :: compile_glob fuel s
        | Some n =>
            let set := take n s in
            let p := match set with
                     | e :: set' => if bool_decide (e = "!"%char)
                                    then fun d => negb (in_set set' d) else in_set set
                     | [] => in_set set
                     end in
            GOne p :: compile_glob fuel (drop (S n) s)
        end
      else GOne (fun d => bool_decide (d = c)) :: compile_glob fuel s
  | _, _ => []
  end.

Fixpoint glob_match (l : list glob_item) (s : str) : bool :=
  match l with
  | [] => match s with [] => true | _ => false end
  | GOne p :: l => match s with c :: s => p c && glob_match l s | [] => false end
  | GStar :: l =>
      (fix star (s : str) : bool :=
         glob_match l s || match s with [] => false | _ :: s => star s end) s
  end.

(** [fnmatch.fnmatch(name, pattern)] *)
Definition fnmatch (name pattern : str) : bool :=
  glob_match (compile_glob (length pattern) pattern) name.

Definition has_magic (s : str) : bool := existsb (fun c => bool_decide (c ∈ "*?["%str)) s.

Definition hidden (s : str) : bool := startswith "." s.

Definition glob_step (fs : fsys) (dirs : list str) (comp : str) : list str :=
  concat (map (fun d =>
    if has_magic comp then
      map (path_join d)
        (filter (fun n => fnmatch n comp && (hidden comp || negb (hidden n)) = true)
           (fs_listdir fs d))
    else [path_join d comp]) dirs).

(** [glob.glob(pattern)] for an absolute pattern *)
Definition glob (fs : fsys) (pattern : str) : list str :=
  filter (fun p => fs_exists fs p = true)
    (foldl (glob_step fs) ["/"%str] (components pattern)).

(** What [os.makedirs(p, exist_ok=True)] does: every missing ancestor is
    created. *)
Fixpoint ancestors (fuel : nat) (p : str) : list str :=
  match fuel with
  | 0 => [p]
  | S fuel => if bool_decide (dirname p = p) then [p] else ancestors fuel (dirname p) ++ [p]
  end.

Definition fs_makedirs (fs : fsys) (p : str) : fsys :=
  foldl (fun fs d => if fs_exists fs d then fs else dset fs d Directory) fs
    (filter (fun d => d <> []) (ancestors (length p) p)).

Definition fs_remove (fs : fsys) (p : str) : fsys := ddel fs p.

(** ** State and effects *)

(** [w_cmds] is the trace of the commands started, [w_exits] that of the
    commands that ran to their end, with their exit status; [w_rec_counter],
    [w_bare_import_warned] and [w_has_development] are the module globals of the
    same names. *)
Record world : Type := World {
  w_fs : fsys;
  w_log : list log_record;
  w_cmds : list (list str);
  w_rec_counter : Z;
  w_bare_import_warned : list (str * str);
  w_has_development : option str;
  w_exits : list (list str * Z)
}.

Definition set_fs (fs : fsys) (w : world) : world :=
  World fs (w_log w) (w_cmds w) (w_rec_counter w) (w_bare_import_warned w) (w_has_development w) (w_exits w).
Definition set_log (l : list log_record) (w : world) : world :=
  World (w_fs w) l (w_cmds w) (w_rec_counter w) (w_bare_import_warned w) (w_has_development w) (w_exits w).
Definition set_cmds (l : list (list str)) (w : world) : world :=
  World (w_fs w) (w_log w) l (w_rec_counter w) (w_bare_import_warned w) (w_has_development w) (w_exits w).
Definition set_rec_counter (n : Z) (w : world) : world :=
  World (w_fs w) (w_log w) (w_cmds w) n (w_bare_import_warned w) (w_has_development w) (w_exits w).
Definition set_warned (l : list (str * str)) (w : world) : world :=
  World (w_fs w) (w_log w) (w_cmds w) (w_rec_counter w) l (w_has_development w) (w_exits w).
Definition set_has_development (p : option str) (w : world) : world :=
  World (w_fs w) (w_log w) (w_cmds w) (w_rec_counter w) (w_bare_import_warned w) p (w_exits w).
Definition set_exits (l : list (list str * Z)) (w : world) : world :=
  World (w_fs w) (w_log w) (w_cmds w) (w_rec_counter w) (w_bare_import_warned w) (w_has_development w) l.

Definition M (A : Type) : Type := world -> res A * world.

#[export] Instance M_ret : MRet M := fun A a w => (Ok a, w).
#[export] Instance M_bind : MBind M := fun A B f m w =>
  match m w with
  | (Ok a, w) => f a w
  | (Err e, w) => (Err e, w)
  end.

Definition raise {A} (e : exn) : M A := fun w => (Err e, w).
Definition of_res {A} (r : res A) : M A := fun w => (r, w).
Definition gets {A} (f : world -> A) : M A := fun w => (Ok (f w), w).
Definition modify (f : world -> world) : M unit := fun w => (Ok tt, f w).

(** [for x in l: body] *)
Fixpoint for_each {A} (l : list A) (body : A -> M unit) : M unit :=
  match l with
  | [] => mret tt
  | x :: l => body x ≫= fun _ => for_each l body
  end.

(** [for x in l: acc = body(acc, x)] *)
Fixpoint fold_each {A B} (l : list B) (acc : A) (body : A -> B -> M A) : M A :=
  match l with
  | [] => mret acc
  | x :: l => body acc x ≫= fun acc => fold_each l acc body
  end.

(** The module loggers run at [INFO]: [verbose] and [debug] calls print
    nothing, so the model leaves them out. *)
Definition log (l : level) (msg : str) (args : list str) : M unit :=
  modify (fun w => set_log (w_log w ++ _log INFO l msg args) w).

Definition log_fatal (msg : str) (args : list str) : M unit :=
  log FATAL msg args ≫= fun _ => raise (SystemExit 1).

(** [assert False, msg] *)
Definition assert_false {A} (msg : str) (args : list str) : M A :=
  raise (AssertionError msg args).

Definition exists_path (p : str) : M bool := gets (fun w => fs_exists (w_fs w) p).

(** [open(p).read()] in text mode *)
Definition read_file (p : str) : M str := fun w =>
  match dget (w_fs w) p with
  | Some (File c) => (Ok (universal_newlines c), w)
  | _ => (Err OSError, w)
  end.

(** ** Programs run by the tools *)

(** The outcome of a command: exit status, standard output and error. *)
Record completed : Type := Completed {
  returncode : Z;
  stdout : str;
  stderr : str
}.

(** What the operating system supplies: the working directory, the directory
    the tools are installed in ([get_host_dir()]), environment variables, and what a command
    does to the files.  Running a command whose program cannot be started
    raises. *)
Class Os : Type := {
  cwd : str;
  host_dir : str;
  getenv : str -> option str;
  run_process : list str -> fsys -> res completed * fsys
}.

(** [subprocess.run(cmd)] and [subprocess.call(cmd)] *)
Definition run `{Os} (cmd : list str) : M completed := fun w =>
  let (r, fs) := run_process cmd (w_fs w) in
  let exits := match r with Ok c => [(cmd, returncode c)] | Err _ => [] end in
  (r, set_fs fs (set_exits (w_exits w ++ exits) (set_cmds (w_cmds w ++ [cmd]) w))).

(** [subprocess.call(cmd, shell=True)] *)
Definition shell `{Os} (cmd : str) : M Z :=
  r ← run ["/bin/sh"; "-c"; cmd]; mret (returncode r).

(** [os.makedirs(p, exist_ok=True)] fails on the empty path and where a file is
    in the way. *)
Definition makedirs (p : str) : M unit := fun w =>
  if bool_decide (p = []) || existsb (fs_isfile (w_fs w)) (ancestors (length p) p)
  then (Err OSError, w)
  else (Ok tt, set_fs (fs_makedirs (w_fs w) p) w).

(** [if path.exists(p): os.remove(p)] *)
Definition remove_if_exists (p : str) : M unit := fun w =>
  match dget (w_fs w) p with
  | None => (Ok tt, w)
  | Some Directory => (Err OSError, w)
  | Some (File _) => (Ok tt, set_fs (fs_remove (w_fs w) p) w)
  end.

(** [open(p, 'a').write(text)]; the code does it only below a directory it has
    just made. *)
Definition append_file (p text : str) : M unit := fun w =>
  match dget (w_fs w) p with
  | Some Directory => (Err OSError, w)
  | Some (File c) => (Ok tt, set_fs (dset (w_fs w) p (File (c ++ text))) w)
  | None => (Ok tt, set_fs (dset (w_fs w) p (File text)) w)
  end.

(** [open(p, 'w').write(text)] *)
Definition write_file (p text : str) : M unit := fun w =>
  let written := (Ok tt, set_fs (dset (w_fs w) p (File text)) w) in
  match dget (w_fs w) p with
  | Some Directory => (Err OSError, w)
  | Some (File _) => written
  | None => if bool_decide (dirname p = [] \/ dirname p = "/"%str) || fs_isdir (w_fs w) (dirname p)
            then written else (Err OSError, w)
  end.

(** [path.realpath]: the file system has no symbolic links. *)
Definition resolve_step (acc : list str) (c : str) : list str :=
  if bool_decide (c = [] \/ c = ".") then acc
  else if bool_decide (c = "..") then removelast acc
  else acc ++ [c].

Definition realpath `{Os} (p : str) : str :=
  "/" ++ join "/" (foldl resolve_step [] (split_char slash (path_join cwd p))).

(** ** Monad laws, up to the state *)

Definition Meq {A} (m1 m2 : M A) : Prop := forall w, m1 w = m2 w.
Infix "≡M" := Meq (at level 70).

#[export] Instance Meq_equivalence {A} : Equivalence (@Meq A).
Proof.
  split; unfold Meq.
  - done.
  - congruence.
  - intros m1 m2 m3 H1 H2 w. by rewrite H1, H2.
Qed.

#[export] Instance M_bind_proper {A B} :
  Proper (pointwise_relation A Meq ==> Meq ==> Meq) (mbind (M := M) (A := A) (B := B)).
Proof.
  intros f g Hf m n Hm w. unfold mbind, M_bind. rewrite Hm.
  destruct (n w) as [[a|e] w']; [apply Hf|done].
Qed.

Lemma M_bind_ret_l {A B} (a : A) (f : A -> M B) : mret a ≫= f ≡M f a.
Proof. done. Qed.

Lemma M_bind_assoc {A B C} (m : M A) (f : A -> M B) (g : B -> M C) :
  (m ≫= f) ≫= g ≡M m ≫= (fun a => f a ≫= g).
Proof. intros w. unfold mbind, M_bind. by destruct (m w) as [[a|e] w']. Qed.

Lemma fold_each_app {A B} (l1 l2 : list B) (acc : A) body :
  fold_each (l1 ++ l2) acc body ≡M fold_each l1 acc body ≫= fun acc => fold_each l2 acc body.
Proof.
  revert acc; induction l1 as [|x l1 IH]; intros acc; cbn [app fold_each]; [intros w; done|].
  rewrite M_bind_assoc. f_equiv. intros a. apply IH.
Qed.

(** ** Paths *)

Lemma basename_no_slash p : Forall (fun c => c <> slash) (basename p).
Proof.
  unfold basename. apply Forall_reverse.
  eapply Forall_impl; [apply take_while_Forall|]. intros c H. cbn in H.
  unfold not_slash in H. bool_hyps. by apply bool_decide_eq_false in H.
Qed.

Lemma not_slash_iff c : not_slash c = true <-> c <> slash.
Proof. unfold not_slash. rewrite negb_true_iff. apply bool_decide_eq_false. Qed.

(** A plain name joined to a directory is recovered by [basename]. *)
Lemma basename_join d n :
  Forall (fun c => c <> slash) n -> d <> [] -> basename (path_join d n) = n.
Proof.
  intros Hn Hd. assert (Hn' : Forall (fun c => not_slash c = true) (reverse n)).
  { apply Forall_reverse. eapply Forall_impl; [done|]. intros c. apply not_slash_iff. }
  unfold path_join, basename.
  destruct (startswith "/" n) eqn:E.
  { destruct n as [|c n]; [done|]. cbn in E. bool_hyps.
    apply bool_decide_eq_true in H. apply Forall_cons in Hn as [Hn _]. by subst. }
  destruct (reverse d) as [|c r] eqn:Er.
  { apply (f_equal reverse) in Er. rewrite reverse_involutive in Er. by subst. }
  case_bool_decide.
  - rewrite reverse_app, Er, take_while_app_all by done. subst c.
    cbn [take_while]. by rewrite app_nil_r, reverse_involutive.
  - rewrite !reverse_app, <- app_assoc, take_while_app_all by done. cbn. by rewrite app_nil_r, reverse_involutive.
Qed.

(** ** Running the basic effects *)

Lemma set_log_log l1 l2 w : set_log l1 (set_log l2 w) = set_log l1 w.
Proof. done. Qed.

Lemma for_each_log {A} (lv : level) (f : A -> str) (g : A -> list str) (l : list A) w :
  for_each l (fun x => log lv (f x) (g x)) w =
    (Ok tt, set_log (w_log w ++ concat (map (fun x => _log INFO lv (f x) (g x)) l)) w).
Proof.
  revert w; induction l as [|x l IH]; intros w; cbn.
  - rewrite app_nil_r. by destruct w.
  - unfold mbind, M_bind. unfold log at 1, modify. rewrite IH, set_log_log. cbn.
    by rewrite <- app_assoc.
Qed.

(** ** Parts of the state a computation leaves alone *)

Definition preserves {T A} (f : world -> T) (m : M A) : Prop := forall w, f (snd (m w)) = f w.

(** Parts that printing does not touch. *)
Class LogFree {T} (f : world -> T) : Prop := log_free : forall l w, f (set_log l w) = f w.
#[export] Instance log_free_fs : LogFree w_fs.
Proof. done. Qed.
#[export] Instance log_free_counter : LogFree w_rec_counter.
Proof. done. Qed.
#[export] Instance log_free_cmds : LogFree w_cmds.
Proof. done. Qed.

#[export] Instance log_free_exits : LogFree w_exits.
Proof. done. Qed.
#[export] Instance log_free_has_development : LogFree w_has_development.
Proof. done. Qed.

Create HintDb effects.

Section preserves.
Context {T : Type} (f : world -> T).

Lemma preserves_ret {A} (a : A) : preserves f (mret a).
Proof. done. Qed.
Lemma preserves_raise {A} e : preserves f (A := A) (raise e).
Proof. done. Qed.
Lemma preserves_of_res {A} (r : res A) : preserves f (of_res r).
Proof. done. Qed.
Lemma preserves_gets {A} (g : world -> A) : preserves f (gets g).
Proof. done. Qed.
Lemma preserves_log `{!LogFree f} l msg args : preserves f (log l msg args).
Proof. intros w. apply log_free. Qed.
Lemma preserves_bind {A B} (m : M A) (g : A -> M B) :
  preserves f m -> (forall a, preserves f (g a)) -> preserves f (m ≫= g).
Proof.
  intros Hm Hg w. specialize (Hm w). unfold mbind, M_bind.
  destruct (m w) as [[a|e] w']; cbn in Hm; [|done]. by rewrite <- Hm, <- (Hg a w').
Qed.
Lemma preserves_for_each {A} (l : list A) body :
  (forall x, preserves f (body x)) -> preserves f (for_each l body).
Proof.
  intros Hb. induction l as [|x l IH]; [done|]. cbn. by apply preserves_bind.
Qed.
Lemma preserves_fold_each {A B} (l : list B) (acc : A) body :
  (forall a x, preserves f (body a x)) -> preserves f (fold_each l acc body).
Proof.
  intros Hb. revert acc. induction l as [|x l IH]; intros acc; [done|]. cbn. by apply preserves_bind.
Qed.
End preserves.

#[export] Hint Resolve preserves_ret preserves_raise preserves_of_res preserves_gets
  preserves_log preserves_bind preserves_for_each preserves_fold_each : effects.

(** Follows the structure of a computation. *)
Ltac preserves :=
  repeat match goal with
  | |- preserves _ (if ?b then _ else _) => destruct b
  | |- preserves _ (match ?x with _ => _ end) => destruct x
  | |- preserves _ (_ ≫= _) => apply preserves_bind; [|intros ?]
  | |- preserves _ (for_each _ _) => apply preserves_for_each; intros ?
  | |- preserves _ (fold_each _ _ _) => apply preserves_fold_each; intros ? ?
  | _ => solve [eauto 2 with effects typeclass_instances]
  end.

(** ** Directories made on the way *)

Lemma dirname_length p : length (dirname p) <= length p.
Proof.
  unfold dirname. pose proof (drop_while_length not_slash (reverse p)) as H1.
  rewrite length_reverse in H1.
  pose proof (drop_while_length (fun c => negb (not_slash c)) (drop_while not_slash (reverse p))) as H2.
  destruct (drop_while _ (drop_while _ _)); rewrite length_reverse; cbn in *; lia.
Qed.

Lemma ancestors_length n p q : q ∈ ancestors n p -> length q <= length p.
Proof.
  revert p; induction n as [|n IH]; intros p; cbn; [by intros ->%list_elem_of_singleton|].
  case_bool_decide; [by intros ->%list_elem_of_singleton|].
  intros [Hq| ->%list_elem_of_singleton]%elem_of_app; [|done].
  apply IH in Hq. pose proof (dirname_length p). lia.
Qed.

Lemma ancestors_self n p : p ∈ ancestors n p.
Proof. destruct n; cbn; [left|]. case_bool_decide; [left|]. apply elem_of_app. right. left. Qed.

(** The entries after making a directory: the missing ones among its ancestors
    are directories, everything else is as before. *)
Lemma dget_fs_makedirs fs p q : dget (fs_makedirs fs p) q =
  match dget fs q with
  | Some x => Some x
  | None => if decide (q ∈ ancestors (length p) p /\ q <> []) then Some Directory else None
  end.
Proof.
  unfold fs_makedirs.
  assert (Hl : forall l fs, dget (foldl (fun fs d => if fs_exists fs d then fs else dset fs d Directory) fs l) q =
    match dget fs q with
    | Some x => Some x
    | None => if decide (q ∈ l) then Some Directory else None
    end).
  { clear. induction l as [|x l IH]; intros fs; cbn [foldl].
    - destruct (dget fs q); [done|]. by rewrite decide_False by apply not_elem_of_nil.
    - rewrite IH. unfold fs_exists, dmem. destruct (dget fs x) as [n|] eqn:Ex.
      + destruct (dget fs q) eqn:Eq; [done|]. assert (q <> x) by congruence.
        by destruct (decide (q ∈ l)); case_decide; set_solver.
      + rewrite dget_dset. destruct (decide (x = q)) as [->|Hne].
        { rewrite Ex. by rewrite decide_True by left. }
        destruct (dget fs q); [done|]. by destruct (decide (q ∈ l)); case_decide; set_solver. }
  rewrite Hl. destruct (dget fs q); [done|]. by repeat case_decide; rewrite list_elem_of_filter in *; naive_solver.
Qed.

(** Making a directory leaves longer paths alone. *)
Lemma dget_makedirs fs p q : length p < length q -> dget (fs_makedirs fs p) q = dget fs q.
Proof.
  intros Hq. rewrite dget_fs_makedirs. destruct (dget fs q); [done|].
  rewrite decide_False; [done|]. intros [Hx%ancestors_length _]. lia.
Qed.

Lemma makedirs_get p q w : length p < length q ->
  dget (w_fs (snd (makedirs p w))) q = dget (w_fs w) q.
Proof.
  intros Hq. unfold makedirs. destruct (_ || _); [done|]. cbn. by apply dget_makedirs.
Qed.

(** [path.dirname] undoes [path.join] with a name. *)
Lemma dirname_join a x : a <> [] -> last a <> Some slash -> slash ∉ x -> startswith "/" x = false ->
  dirname (path_join a x) = a.
Proof.
  intros Ha Hl Hx Hs. unfold path_join. rewrite Hs.
  destruct (reverse a) as [|c r] eqn:E; [by apply (f_equal reverse) in E; rewrite reverse_involutive in E|].
  assert (Ea : a = reverse r ++ [c]).
  { apply (f_equal reverse) in E. rewrite reverse_involutive in E. by rewrite reverse_cons in E. }
  assert (Hc : c <> slash) by (intros ->; apply Hl; rewrite Ea; apply last_snoc).
  rewrite bool_decide_eq_false_2 by done.
  unfold dirname. change ("/"%str ++ x) with (slash :: x). rewrite reverse_app, reverse_cons, <- app_assoc.
  rewrite drop_while_app_all.
  2: { apply Forall_reverse, Forall_forall. intros d Hd. apply not_slash_iff. by intros ->. }
  change ([slash] ++ reverse a) with (slash :: reverse a). rewrite E.
  rewrite drop_while_stop by done.
  rewrite (drop_while_app_all _ [slash] (c :: r)) by by constructor.
  rewrite drop_while_stop by (apply negb_false_iff; by apply not_slash_iff).
  by rewrite <- E, reverse_involutive.
Qed.

Lemma path_join_longer a b : startswith "/" b = false -> b <> [] -> length a < length (path_join a b).
Proof.
  intros Hb Hn. unfold path_join. rewrite Hb. destruct b as [|c b]; [done|].
  destruct (reverse a) as [|d r] eqn:E.
  - apply (f_equal reverse) in E. rewrite reverse_involutive in E. subst. cbn. lia.
  - case_bool_decide; rewrite ?length_app; cbn; lia.
Qed.
