(* ===== verification/PathFacts.v ===== *)
(** * Paths

    [realpath] gives a path without [.] and [..], and [relpath] the way from one
    such path to another. *)

From S2P Require Import Prelude PyStr PyStrFacts PyDict Logger PyOs.

(** ** Components *)

(** A component of a path is a text without slashes. *)
Definition slashless (c : str) : Prop := Forall (fun x => x <> slash) c.

Lemma split_slashless s : Forall slashless (split_char slash s).
Proof.
  induction s as [|c s IH]; cbn; [by repeat constructor|].
  case_bool_decide; [by constructor; [constructor|]|].
  destruct (split_char slash s); inversion IH; subst; repeat constructor; done.
Qed.

Lemma split_app_slash a s : slashless a -> split_char slash (a ++ slash :: s) = a :: split_char slash s.
Proof.
  induction 1 as [|c a Hc _ IH]; cbn; [done|].
  rewrite bool_decide_eq_false_2 by done. by rewrite IH.
Qed.

Lemma split_slashless_id a : slashless a -> split_char slash a = [a].
Proof.
  induction 1 as [|c a Hc _ IH]; cbn; [done|]. rewrite bool_decide_eq_false_2 by done. by rewrite IH.
Qed.

(** Components are read back from a path. *)
Lemma split_join l : l <> [] -> Forall slashless l -> split_char slash (join "/" l) = l.
Proof.
  intros Hl H. induction H as [|a l Ha Hall IH]; [done|]. destruct l as [|b l].
  - by apply split_slashless_id.
  - change (join "/" (a :: b :: l)) with (a ++ slash :: join "/" (b :: l)).
    rewrite split_app_slash by done. f_equal. by apply IH.
Qed.

Lemma components_join l : Forall slashless l -> Forall (fun c => c <> []) l ->
  components ("/" ++ join "/" l) = l.
Proof.
  intros Hs Hn. unfold components. cbn [app]. change (split_char slash ("/"%char :: join "/" l))
    with ([] :: split_char slash (join "/" l)). rewrite filter_cons_False by by intros [].
  destruct l as [|c l]; [done|]. rewrite split_join by done. apply filter_all. by apply Forall_forall.
Qed.

Lemma join_cons a l : join "/" (a :: l) = a ++ concat (map (fun c => slash :: c) l).
Proof.
  revert a. induction l as [|b l IH]; intros a; [by rewrite app_nil_r|].
  change (join "/" (a :: b :: l)) with (a ++ slash :: join "/" (b :: l)). by rewrite IH.
Qed.

Lemma last_slashless c : slashless c -> last c <> Some slash.
Proof.
  intros Hc Hl. apply last_Some in Hl as [c' ->]. apply Forall_app in Hc as [_ Hc]. by inversion Hc.
Qed.

Lemma path_join_component a c : a <> [] -> last a <> Some slash -> slashless c ->
  path_join a c = a ++ slash :: c.
Proof.
  intros Ha Hl Hc. unfold path_join. assert (startswith "/" c = false) as ->.
  { apply not_true_is_false. intros [t ->]%startswith_spec. by inversion Hc. }
  destruct a as [|x a _] using rev_ind; [done|]. rewrite reverse_snoc. rewrite last_snoc in Hl.
  by rewrite bool_decide_eq_false_2 by congruence.
Qed.

(** [path.join] of plain names separates them by slashes. *)
Lemma path_joins_join l : forall a, a <> [] -> last a <> Some slash ->
  Forall (fun c => slashless c /\ c <> []) l -> path_joins a l = join "/" (a :: l).
Proof.
  induction l as [|c l IH]; intros a Ha Hl Hn; [done|]. apply Forall_cons in Hn as [[Hs Hc] Hn].
  unfold path_joins. cbn [foldl]. rewrite path_join_component by done. fold (path_joins (a ++ slash :: c) l).
  rewrite IH; [|by destruct a| |done].
  - rewrite !join_cons. cbn [map concat]. by rewrite <- app_assoc.
  - change (a ++ slash :: c) with (a ++ [slash] ++ c). destruct c as [|x c _] using rev_ind; [done|].
    rewrite !app_assoc, last_snoc. intros [= ->]. apply Forall_app in Hs as [_ Hs]. by inversion Hs.
Qed.

(** ** Normal paths *)

(** A name in a path that is neither empty nor [.] nor [..]. *)
Definition plain_name (c : str) : Prop := slashless c /\ c <> [] /\ c <> "."%str /\ c <> ".."%str.

Definition normal (p : str) : Prop := Forall plain_name (components p).

Lemma components_plain p : Forall (fun c => c <> "."%str /\ c <> ".."%str) (components p) -> normal p.
Proof.
  unfold normal, components. pose proof (split_slashless p) as Hs. rewrite !Forall_forall in *.
  intros H c Hc. pose proof (H c Hc) as [H1 H2]. apply list_elem_of_filter in Hc as [Hn Hc].
  split; [by apply Hs|done].
Qed.

Lemma resolve_step_plain acc c : plain_name c -> resolve_step acc c = acc ++ [c].
Proof. intros (_ & H1 & H2 & H3). unfold resolve_step. rewrite !bool_decide_eq_false_2; naive_solver. Qed.

Lemma resolve_plain l : forall acc, Forall plain_name l -> foldl resolve_step acc l = acc ++ l.
Proof.
  induction l as [|c l IH]; intros acc Hl; cbn [foldl]; [by rewrite app_nil_r|].
  apply Forall_cons in Hl as [Hc Hl]. rewrite resolve_step_plain, IH by done. by rewrite <- app_assoc.
Qed.

(** Resolving a path leaves plain names only. *)
Lemma resolve_normal l : forall acc, Forall slashless l -> Forall plain_name acc ->
  Forall plain_name (foldl resolve_step acc l).
Proof.
  induction l as [|c l IH]; intros acc Hl Ha; cbn [foldl]; [done|]. apply Forall_cons in Hl as [Hc Hl].
  apply IH; [done|]. unfold resolve_step. case_bool_decide as E1; [done|]. case_bool_decide as E2.
  - destruct acc as [|x acc _] using rev_ind; [done|]. rewrite removelast_last. by apply Forall_app in Ha as [Ha _].
  - apply Forall_app_2; [done|]. constructor; [|constructor]. split; [done|]. naive_solver.
Qed.

Lemma realpath_normal `{Os} p : normal (realpath p).
Proof.
  unfold normal, realpath. pose proof (resolve_normal (split_char slash (path_join cwd p)) []
    (split_slashless _) (Forall_nil_2 _)) as Hn.
  set (l := foldl _ _ _) in *. rewrite components_join; [done|..];
    (eapply Forall_impl; [exact Hn|]; intros c Hc; apply Hc).
Qed.

(** ** [relpath] *)

(** Following [r] from the directory [start] leads to [p]. *)
Definition leads_from (start r p : str) : Prop :=
  foldl resolve_step (components start) (split_char slash r) = components p.

Lemma resolve_up k : forall c s, length s = k -> foldl resolve_step (c ++ s) (replicate k ".."%str) = c.
Proof.
  induction k as [|k IH]; intros c s Hs; cbn [replicate foldl]; [destruct s; [by rewrite app_nil_r|done]|].
  destruct s as [|x s _] using rev_ind; [done|]. rewrite length_app in Hs. cbn in Hs.
  unfold resolve_step at 2. rewrite bool_decide_eq_false_2 by by intros []. rewrite bool_decide_eq_true_2 by done.
  rewrite app_assoc, removelast_last. apply IH. lia.
Qed.

Lemma common_prefix_split a b : exists a' b',
  a = common_prefix a b ++ a' /\ b = common_prefix a b ++ b'.
Proof.
  revert b. induction a as [|x a IH]; intros [|y b]; cbn; try by eexists _, _.
  destruct (decide (x = y)) as [->|]; [|by eexists _, _].
  destruct (IH b) as (a' & b' & Ha & Hb). exists a', b'. cbn. by rewrite <- Ha, <- Hb.
Qed.

Lemma relpath_leads p start : normal p -> normal start -> leads_from start (relpath p start) p.
Proof.
  unfold normal, leads_from, relpath. intros Hp _. set (sl := components start). set (pl := components p) in *.
  destruct (common_prefix_split sl pl) as (s' & p' & Es & Ep). set (c := common_prefix sl pl) in *.
  assert (length sl - length c = length s') as -> by (rewrite Es, length_app; lia).
  assert (drop (length c) pl = p') as -> by (rewrite Ep; apply drop_app_length).
  set (ups := replicate (length s') ".."%str).
  assert (Hgoal : foldl resolve_step sl (ups ++ p') = pl).
  { rewrite foldl_app, Es. unfold ups. rewrite resolve_up by done. rewrite Ep in Hp.
    apply Forall_app in Hp as [_ Hp]. by rewrite resolve_plain. }
  assert (Hall : Forall (fun x => slashless x /\ x <> []) (ups ++ p')).
  { apply Forall_app_2; [apply Forall_replicate; split; [by repeat constructor|done]|].
    rewrite Ep in Hp. apply Forall_app in Hp as [_ Hp]. eapply Forall_impl; [exact Hp|].
    intros x Hx. split; apply Hx. }
  destruct (ups ++ p') as [|x l]; [exact Hgoal|].
  assert (Hsl : Forall slashless (x :: l)) by (eapply Forall_impl; [exact Hall|]; intros y Hy; apply Hy).
  apply Forall_cons in Hall as [[Hx Hn] Hl].
  rewrite path_joins_join by first [done|by apply last_slashless]. by rewrite split_join.
Qed.

(** The way down: what is left of the path. *)
Lemma relpath_below p start rest : rest <> [] -> components p = components start ++ rest ->
  Forall (fun c => slashless c /\ c <> []) rest -> relpath p start = join "/" rest.
Proof.
  intros Hr E Hall. unfold relpath. rewrite E.
  assert (common_prefix (components start) (components start ++ rest) = components start) as ->.
  { generalize (components start). intros l. induction l as [|x l IH]; cbn; [done|]. by rewrite decide_True, IH. }
  rewrite Nat.sub_diag, drop_app_length. cbn [replicate app]. destruct rest as [|c rest]; [done|].
  apply Forall_cons in Hall as [[Hc Hn] Hall]. by apply path_joins_join; [|apply last_slashless|].
Qed.

Example relpath_examples :
  relpath "/ws/a/b" "/ws" = "a/b"%str /\ relpath "/ws/if2" "/ws/if" = "../if2"%str /\ relpath "/ws" "/ws" = "."%str.
Proof. split_and!; vm_compute; reflexivity. Qed.
