(* ===== verification/AidlInterface.v ===== *)
(** * host/aidl_interface.py: one interface

    The entries of an interface definition, the [AidlInterface] object that is
    loaded from it, and the version arithmetic the other tools rely on. *)

From S2P Require Import Prelude PyStr PyDict Logger PyOs.

Definition AIDL_API_SUFFIX : str := "-api".
Definition AIDL_PREPROCESSED_SUFFIX : str := "_interface".
Definition CURRENT_VERSION : str := "current".
Definition IMPORT_VERSION_UNPINNED : str := "unknown".
Definition INTERFACE_DEF_JSON : str := "interface.json".
Definition INTERFACE_DEF_YAML : str := "interface.yaml".

(** ** Definition files *)

(** A scalar of a YAML or JSON document, as far as the code looks at it; a
    float is its [str()], any other object its [str()] and its [repr()]. *)
Inductive scalar : Type :=
| SNone
| SBool (b : bool)
| SInt (z : Z)
| SFloat (repr : str)
| SStr (s : str)
| SOther (printed repr : str).

#[export] Instance scalar_eq_dec : EqDecision scalar.
Proof. solve_decision. Defined.

(** [str(v)] *)
Definition str_scalar (v : scalar) : str :=
  match v with
  | SNone => "None"
  | SBool true => "True"
  | SBool false => "False"
  | SInt z => fmt_d z
  | SFloat s | SStr s | SOther s _ => s
  end.

(** [repr(v)] *)
Definition repr_scalar (v : scalar) : str :=
  match v with
  | SStr s => py_repr s
  | SOther _ r => r
  | _ => str_scalar v
  end.

(** One entry of [versions_with_info]. *)
Record ver_entry : Type := VerEntry {
  v_version : str;
  v_imports : option (list str)
}.

#[export] Instance ver_entry_eq_dec : EqDecision ver_entry.
Proof. solve_decision. Defined.

(** The mapping under [aidl_interface]; [None] is an absent field. *)
Record iface_doc : Type := IfaceDoc {
  doc_name : str;
  doc_stable_aidl_subdir : option str;
  doc_frozen_location : option str;
  doc_layout : option str;
  doc_srcs : list str;
  doc_imports : option (list scalar);
  doc_stability : option str;
  doc_version : scalar;
  doc_versions_with_info : option (list ver_entry)
}.

(** The parsers of definition files, from text to document. *)
Class Loader : Type := {
  json_load : str -> res iface_doc;
  yaml_load : str -> res iface_doc
}.

(** ** [parse_import_spec] *)

Definition parse_import_spec (spec : scalar) : res (str * option str) :=
  match spec with
  | SStr spec =>
      if negb (contains "@" spec) then Ok (spec, None)
      else let '(name, _, version) := partition "@" spec in
           match name, version with
           | _ :: _, _ :: _ => Ok (name, Some version)
           | _, _ =>
               Err (ValueError "imports entry %r must be 'name@version' with both parts non-empty"
                      [py_repr spec])
           end
  | _ => Err (ValueError "imports entry must be a string, got %r" [repr_scalar spec])
  end.

(** ** The object *)

Record AidlInterface : Type := MkInterface {
  base_name : str;
  srcs : list str;
  interface_root : str;
  interface_root_stable : str;
  interface_gen_dir : str;
  imports : list str;
  import_versions : dict str (option str);
  versions : list str;
  versions_with_info : dict str (option (list str));
  stability : option str;
  frozen_location : str;
  stable_aidl_subdir : str;
  layout : str;
  workspace_root : str;
  module_version : scalar;
  interface_root_out : str;
  interface_api_dir_out : str
}.

(** An object whose directory has no definition keeps the class attributes. *)
Definition class_attributes (root : str) : AidlInterface :=
  MkInterface [] [] root [] [] [] [] [] [] (Some []) "stable" "aidl" "central" [] SNone [] [].

(** ** Versions *)

Definition next_version (self : AidlInterface) : res str :=
  if bool_decide (stability self = Some "unstable"%str) then Ok []
  else match last (versions self) with
       | None => Ok "1"%str
       | Some ver => i ← py_int ver; Ok (fmt_d (i + 1))
       end.

Definition latest_version (self : AidlInterface) : str :=
  if bool_decide (stability self = Some "unstable"%str) then []
  else match last (versions self) with
       | None => "0"
       | Some ver => ver
       end.

Definition versioned_name (self : AidlInterface) (version : str) : str :=
  base_name self ++ "-v" ++ version.

Definition version_for_hashgen (ver : str) : res str :=
  ver_int ← py_int ver;
  Ok (if (1 <? ver_int)%Z then fmt_d (ver_int - 1) else "latest-version"%str).

(** [has_version_suffix] uses [re], which the module does not import. *)
Definition has_version_suffix (moduleName : str) : res bool := Err (NameError "re").

(** ** Directories *)

Definition get_versioned_dir (interface : AidlInterface) (version : str) : str :=
  path_join (interface_root_stable interface) version.

Definition get_preprocessed_dir (interface : AidlInterface) (version : str) : str :=
  let preprocessed_root :=
    path_joins (workspace_root interface) ["out"; ".preprocessed"; base_name interface]%str in
  path_joins preprocessed_root
    [base_name interface ++ AIDL_PREPROCESSED_SUFFIX; version].

(** [get_path_for_files(src, pattern, rec=True)] *)
Definition get_path_for_files_rec (fs : fsys) (src pattern : str) : list str :=
  concat (map (fun '(root, _, files) =>
    map (path_join root) (filter (fun f => fnmatch f pattern = true) files))
    (os_walk (fun _ dirs => dirs) fs src)).

(** [get_path_for_files(src, patterns)] *)
Definition get_path_for_files (fs : fsys) (src : str) (patterns : list str) : list str :=
  concat (map (fun p => glob fs (path_join src p)) patterns).

Definition has_frozen_versions (fs : fsys) (interface : AidlInterface) : bool :=
  let stable_aidl_dir := interface_root_stable interface in
  if negb (fs_exists fs stable_aidl_dir) then false
  else existsb (fun entry => fs_isdir fs (path_join stable_aidl_dir entry) && isdigit entry)
         (fs_listdir fs stable_aidl_dir).

(** ** [show_dep_error] and [get_imports] *)

Definition show_dep_error (interface_name : str) : M unit :=
  for_each
    [("The dependency resolution failed for %s"%str, [interface_name]);
     ("If this is not the interface you are processing, It must be directly or indirectly imported in your interface"%str, []);
     ("Firstly, make sure that the interface definition includes all direct dependant interfaces in it's imports"%str, []);
     ("	If you are updating an interface, make sure that imported interfaces are updated with the recent API changes you made"%str, []);
     ("	If you are freezing an interface, make sure that imported interfaces are frozen with the recent API changes which you updated"%str, []);
     ("	If you are generating sources, Please check your interface definition and make sure that the version with info is not modified manually."%str, [])]
    (fun m => log ERROR (fst m) (snd m)).

(** What the unfrozen imports resolve to. *)
Definition unfrozen_pin (self : AidlInterface) (imp : str) : str :=
  match dget (import_versions self) imp with
  | Some (Some pin) =>
      if bool_decide (pin = CURRENT_VERSION) then IMPORT_VERSION_UNPINNED else pin
  | _ => IMPORT_VERSION_UNPINNED
  end.

Definition get_imports (self : AidlInterface) (version : str) : M (dict str str) :=
  match dget (versions_with_info self) version with
  | None =>
      nv ← of_res (next_version self);
      (if bool_decide (version = nv) then mret tt
       else
         log ERROR ("Given Version, %s is neiher frozen nor the " ++ [dquote] ++ "next_version"
                    ++ [dquote] ++ " of %s")%str
           [version; base_name self] ≫= fun _ =>
         show_dep_error (base_name self) ≫= fun _ =>
         assert_false "Unknown version provided" []) ≫= fun _ =>
      mret (foldl (fun d imp => dset d imp (unfrozen_pin self imp)) [] (imports self))
  | Some None => raise TypeError
  | Some (Some versioned_imports) =>
      mret (foldl (fun d ver_imp =>
              let '(name, _, ver) := partition "-v" ver_imp in dset d name ver)
              [] versioned_imports)
  end.

(** ** [_load_interface] *)

(** The deprecation warning for a bare import, once per consumer and name. *)
Definition warn_bare_import (base_name name : str) : M unit := fun w =>
  if bool_decide ((base_name, name) ∈ w_bare_import_warned w) then (Ok tt, w)
  else log WARNING "interface.yaml: '%s' imports '%s' without a version pin. Bare-name imports are deprecated and will be removed in a future major release. Use '%s@current' for the in-development version or '%s@<X.Y.Z.W>' to pin to a released snapshot."
         [base_name; name; name; name]
         (set_warned (w_bare_import_warned w ++ [(base_name, name)]) w).

(** One iteration of the loop over [raw_imports]: [imports], [import_versions]. *)
Definition import_step (base_name : str) (is_current : bool)
    (acc : list str * dict str (option str)) (raw : scalar)
    : M (list str * dict str (option str)) :=
  nv ← of_res (parse_import_spec raw);
  let (name, version) := (nv : str * option str) in
  (match version with
   | None => if is_current then warn_bare_import base_name name else mret tt
   | Some _ => mret tt
   end) ≫= fun _ =>
  mret (fst acc ++ [name], dset (snd acc) name version).

Definition versions_of (ver_info : list ver_entry) : list str :=
  map (fun i => fmt_d (Z.of_nat i + 1)) (seq 0 (length ver_info)).

Definition versions_with_info_of (ver_info : list ver_entry) : dict str (option (list str)) :=
  dict_of (map (fun e => (v_version e, v_imports e)) ver_info).

(** The path below the first root that is a prefix of the interface's path. *)
Definition relative_path `{Os} (interfaces_roots : list str) (interface_root : str) : str :=
  match List.find (fun root => startswith (realpath root) interface_root) interfaces_roots with
  | Some root => relpath interface_root (realpath root)
  | None => relpath interface_root "/"
  end.

Definition load_document `{Loader} (interface_root : str) : M (option iface_doc) :=
  let json := path_join interface_root INTERFACE_DEF_JSON in
  let yaml := path_join interface_root INTERFACE_DEF_YAML in
  has_json ← exists_path json;
  if (has_json : bool) then
    text ← read_file json; d ← of_res (json_load text); mret (Some d)
  else
    has_yaml ← exists_path yaml;
    if (has_yaml : bool) then
      text ← read_file yaml; d ← of_res (yaml_load text); mret (Some d)
    else
      log ERROR "No interface is defined at %s" [interface_root] ≫= fun _ => mret None.

Definition interface_of_doc `{Os} (interfaces_roots : list str) (out_dir interface_root : str)
    (d : iface_doc) : M AidlInterface :=
  let base_name := doc_name d in
  let stable_aidl_subdir := default "aidl"%str (doc_stable_aidl_subdir d) in
  match interfaces_roots with
  | [] => raise IndexError
  | root0 :: _ =>
      let frozen_location := default "stable"%str (doc_frozen_location d) in
      let layout := default (if bool_decide (frozen_location = "interface") then "module-local"
                             else "central")%str (doc_layout d) in
      let (stable, gen) :=
        if bool_decide (layout = "module-local") then
          (dirname interface_root, dirname interface_root)
        else
          (path_joins root0 ["stable/" ++ stable_aidl_subdir; base_name],
           path_joins root0 ["stable/generated"; base_name])%str in
      let is_current := bool_decide (basename interface_root = CURRENT_VERSION) in
      acc ← fold_each (default [] (doc_imports d)) ([], []) (import_step base_name is_current);
      let ver_info := default [] (doc_versions_with_info d) in
      let interface_root_out := path_join out_dir (relative_path interfaces_roots interface_root) in
      mret (MkInterface base_name (doc_srcs d) interface_root stable gen
              (fst acc) (snd acc) (versions_of ver_info) (versions_with_info_of ver_info)
              (doc_stability d) frozen_location stable_aidl_subdir layout (realpath root0)
              (doc_version d) interface_root_out
              (path_join interface_root_out (base_name ++ AIDL_API_SUFFIX)))
  end.

(** [AidlInterface(interfaces_roots, interface_root, out_dir, gen_dir)] *)
Definition _load_interface `{Os} `{Loader} (interfaces_roots : list str)
    (interface_root out_dir : str) : M AidlInterface :=
  let interface_root := realpath interface_root in
  d ← load_document interface_root;
  match d : option iface_doc with
  | None => mret (class_attributes interface_root)
  | Some d => interface_of_doc interfaces_roots out_dir interface_root d
  end.
