(* ===== verification/Document.v ===== *)
(** * Definition files as JSON or YAML values

    The fields that [_load_interface] takes out of the value a definition file
    holds, and the loader that reads a file this way. *)

From S2P Require Import Prelude PyStr PyDict Json Logger PyOs AidlInterface.

(** A field of a type that the model of an interface does not have is [None]:
    such definitions, which the code refuses sooner or later, are not covered. *)
Section fields.
Context (fields : dict str value).

(** [get(k)] of an optional text: [null] and an absent field are the same. *)
Definition text_field (k : str) : option (option str) :=
  match dget fields k with
  | None | Some VNull => Some None
  | Some (VStr s) => Some (Some s)
  | Some _ => None
  end.

(** [get(k, default)] of a text: [null] would replace the default. *)
Definition default_field (k : str) : option (option str) :=
  match dget fields k with
  | None => Some None
  | Some (VStr s) => Some (Some s)
  | Some _ => None
  end.

Definition as_text (v : value) : option str := match v with VStr s => Some s | _ => None end.

Definition as_texts (v : value) : option (list str) :=
  match v with VList l => mapM as_text l | _ => None end.

Definition as_scalar (v : value) : option scalar :=
  match v with
  | VNull => Some SNone
  | VBool b => Some (SBool b)
  | VInt z => Some (SInt z)
  | VFloat f => Some (SFloat f)
  | VStr s => Some (SStr s)
  | VList _ | VDict _ => None
  end.

(** One entry of [versions_with_info]. *)
Definition as_entry (v : value) : option ver_entry :=
  match v with
  | VDict d =>
      version ← dget d "version"%str ≫= as_text;
      imports ← match dget d "imports"%str with
                | None | Some VNull => Some None
                | Some l => Some <$> as_texts l
                end;
      Some (VerEntry version imports)
  | _ => None
  end.

(** A list, or nothing if the field is absent or [null]. *)
Definition list_field {A} (f : value -> option A) (k : str) : option (option (list A)) :=
  match dget fields k with
  | None | Some VNull => Some None
  | Some (VList l) => Some <$> mapM f l
  | Some _ => None
  end.

Definition doc_of_fields : option iface_doc :=
  name ← dget fields "name"%str ≫= as_text;
  subdir ← default_field "stable_aidl_subdir";
  frozen ← default_field "frozen_location";
  layout ← text_field "layout";
  srcs ← dget fields "srcs"%str ≫= as_texts;
  imports ← list_field as_scalar "imports";
  stability ← text_field "stability";
  version ← as_scalar (default VNull (dget fields "version"%str));
  info ← list_field as_entry "versions_with_info";
  Some (IfaceDoc name subdir frozen layout srcs imports stability version info).
End fields.

(** [data.get("aidl_interface")] *)
Definition doc_of_value (v : value) : option iface_doc :=
  match v with
  | VDict data =>
      match dget data "aidl_interface"%str with
      | Some (VDict fields) => doc_of_fields fields
      | _ => None
      end
  | _ => None
  end.

(** What a parser makes of a definition file. *)
Definition document_of (r : res value) : res iface_doc :=
  v ← r;
  match doc_of_value v with Some d => Ok d | None => Err TypeError end.

(** PyYAML, which reads definitions: a text to the value it holds. *)
Class SafeLoader : Type := { yaml_safe_load : str -> res value }.

#[export] Instance document_loader `{Floats} `{SafeLoader} : Loader := {|
  json_load := fun text => document_of (json_loads text);
  yaml_load := fun text => document_of (yaml_safe_load text)
|}.

Example load_example :
  json_load (Loader := document_loader (H := identity_floats)
                         (H0 := {| yaml_safe_load := fun _ => Ok VNull |}))
    (json_dumps 4 (VDict [("aidl_interface", VDict
       [("name", VStr "hal"); ("srcs", VList [VStr "*.aidl"]); ("stability", VStr "vintf");
        ("imports", VList [VStr "common@current"]); ("owner", VStr "rdk");
        ("versions_with_info", VList [VDict [("version", VStr "1"); ("imports", VList [])]])])]%str)) =
  Ok (IfaceDoc "hal" None None None ["*.aidl"] (Some [SStr "common@current"]) (Some "vintf") SNone
        (Some [VerEntry "1" (Some [])]))%str.
Proof. vm_compute. reflexivity. Qed.
