(* ===== verification/Examples.v ===== *)
(** * A small workspace

    Three interfaces, a file system and an operating system on which every
    command succeeds: the inputs of the witnesses. *)

From S2P Require Import Prelude PyStr PyDict Logger PyOs AidlInterface.

(** An operating system whose commands succeed and change nothing. *)
Definition quiet_os : Os := {|
  cwd := "/ws";
  host_dir := "/ws/host";
  getenv := fun _ => None;
  run_process := fun _ fs => (Ok (Completed 0 [] []), fs)
|}.

(** A stable central-layout interface without recorded versions. *)
Definition example_interface (name : str) (specs : list (str * option str)) : AidlInterface :=
  MkInterface name ["*.aidl"%str]
    ("/ws/" ++ name ++ "/current") ("/ws/stable/aidl/" ++ name) ("/ws/stable/generated/" ++ name)
    (fst <$> specs) (dict_of specs) [] [] (Some "vintf"%str) "stable" "aidl" "central" "/ws" SNone
    ("/out/" ++ name) ("/out/" ++ name ++ "/" ++ name ++ "-api").

Definition i_common : AidlInterface := example_interface "common" [].
Definition i_hal : AidlInterface := example_interface "hal" [("common", None)]%str.
Definition i_app : AidlInterface :=
  example_interface "app" [("common", None); ("hal", Some "current")]%str.

Definition example_interfaces : dict str AidlInterface :=
  [("common", i_common); ("hal", i_hal); ("app", i_app)]%str.

Definition example_fs : fsys :=
  [("/ws", Directory); ("/ws/stable", Directory); ("/ws/stable/aidl", Directory);
   ("/ws/stable/aidl/common", Directory); ("/ws/stable/aidl/common/current", Directory);
   ("/ws/stable/aidl/hal", Directory); ("/ws/stable/aidl/hal/current", Directory);
   ("/ws/stable/aidl/app", Directory); ("/ws/stable/aidl/app/current", Directory);
   ("/ws/stable/aidl/common/current/C.aidl", File "parcelable C {}")]%str.

Definition example_world : world := World example_fs [] [] 0 [] None [].

(** An interface with [n] recorded versions without imports. *)
Definition with_versions (i : AidlInterface) (n : nat) : AidlInterface :=
  let vs := map (fun k => fmt_d (Z.of_nat k + 1)) (seq 0 n) in
  MkInterface (base_name i) (srcs i) (interface_root i) (interface_root_stable i)
    (interface_gen_dir i) (imports i) (import_versions i) vs
    (map (fun v => (v, Some [])) vs) (stability i) (frozen_location i) (stable_aidl_subdir i)
    (layout i) (workspace_root i) (module_version i) (interface_root_out i) (interface_api_dir_out i).

(** Definition files that hold just the name of the interface. *)
Definition name_loader : Loader :=
  let load text := Ok (IfaceDoc (strip text) None None (Some "module-local"%str) [] None
                         (Some "vintf"%str) SNone None) in
  {| json_load := load; yaml_load := load |}.

(** A module with a frozen snapshot next to its [current] directory. *)
Definition snapshot_fs : fsys :=
  [("/ws", Directory); ("/ws/common", Directory); ("/ws/common/current", Directory);
   ("/ws/common/current/interface.yaml", File "common");
   ("/ws/common/0.1.0.0", Directory);
   ("/ws/common/0.1.0.0/interface.yaml", File "common");
   ("/ws/docs", Directory); ("/ws/docs/interface.yaml", File "common")]%str.

Definition snapshot_world : world := World snapshot_fs [] [] 0 [] None [].

Definition is_ok {A} (r : res A) : bool := match r with Ok _ => true | Err _ => false end.
