(* ===== verification/SurfaceCli.v ===== *)
(** * The dump-surface and diff-surface commands (host/aidl_surface.py: main)

    A command yields its exit status and what it prints to standard output;
    usage messages, which go to standard error, are not modelled. *)

From S2P Require Import Prelude PyStr PyDict Json Logger PyOs SurfaceParse SurfaceDiff.

(** ** The source tree below a directory *)

Fixpoint fs_tree (fuel : nat) (fs : fsys) (d : str) : tree :=
  let names := fs_listdir fs d in
  Dir (omap (fun n => match dget fs (path_join d n) with
                      | Some (File c) => Some (n, c)
                      | _ => None
                      end) names)
      (match fuel with
       | 0 => []
       | S fuel =>
           map (fun n => (n, fs_tree fuel fs (path_join d n)))
             (filter (fun n => fs_isdir fs (path_join d n) = true) names)
       end).

Definition dump_root (fs : fsys) (root : str) : res str :=
  if fs_isdir fs root then dump_surface (fs_tree (length fs) fs root) else dump_surface (Dir [] []).

(** ** The report *)

Definition class_name (c : class) : str :=
  match c with Breaking => "breaking" | Major => "major" | NoChange => "none" end.

(** A change as the dict that the code makes of it, keys in the order in which
    they are inserted. *)
Definition change_value (c : change) : value :=
  VDict ([("kind", VStr (c_kind c)); ("where", VStr (c_where c)); ("symbol", VStr (c_symbol c))]%str
    ++ match c_old c with Some o => [("old"%str, VStr o)] | None => [] end
    ++ match c_new c with Some n => [("new"%str, VStr n)] | None => [] end).

Definition report_value (report : class * list change) : value :=
  VDict [("class", VStr (class_name (fst report))); ("changes", VList (map change_value (snd report)))]%str.

(** [json.dumps(report, indent=2)] *)
Definition json_report (report : class * list change) : str := json_dumps 2 (report_value report).

Definition text_change (c : change) : str :=
  "  " ++ c_kind c ++ "  " ++ c_where c ++ "  " ++ c_symbol c
  ++ (match c_old c with Some o => "  [old: " ++ o ++ "]" | None => [] end)
  ++ (match c_new c with Some n => "  [new: " ++ n ++ "]" | None => [] end).

Definition text_report (report : class * list change) : str :=
  concat (map (fun l => l ++ [newline])
            (("class: " ++ class_name (fst report)) :: map text_change (snd report))).

(** ** [main] *)

(** [args.index(x)] *)
Fixpoint index_of (x : str) (l : list str) : option nat :=
  match l with
  | [] => None
  | y :: l => if decide (y = x) then Some 0 else S <$> index_of x l
  end.

(** The arguments of dump-surface: the output file and the rest, or [None]
    when [--out] has no file. *)
Definition take_out (args : list str) : option (option str * list str) :=
  match index_of "--out" args with
  | None => Some (None, args)
  | Some i =>
      match args !! (i + 1) with
      | None => None
      | Some out => Some (Some out, take i args ++ drop (i + 2) args)
      end
  end.

Definition main_dump (args : list str) : M (Z * str) :=
  match take_out args with
  | None => mret (2%Z, [])
  | Some (out, args) =>
      fs ← gets w_fs;
      match args with
      | [root] =>
          if fs_isdir fs root then
            text ← of_res (dump_root fs root);
            match out with
            | Some ((_ :: _) as f) => write_file f text ≫= fun _ => mret (0%Z, [])
            | _ => mret (0%Z, text)
            end
          else mret (2%Z, [])
      | _ => mret (2%Z, [])
      end
  end.

(** [except (OSError, ValueError)] *)
Definition caught_by_diff (e : exn) : bool :=
  match e with OSError | ValueError _ _ => true | _ => false end.

Definition main_diff (args : list str) : M (Z * str) :=
  let as_json := bool_decide ("--json"%str ∈ args) in
  match filter (fun a => a <> "--json"%str) args with
  | [old; new] => fun w =>
      match (old_text ← read_file old; new_text ← read_file new;
             of_res (diff_surface old_text new_text)) w with
      | (Ok report, w) =>
          (Ok (0%Z, if as_json then json_report report ++ [newline] else text_report report), w)
      | (Err e, w) => if caught_by_diff e then (Ok (2%Z, []), w) else (Err e, w)
      end
  | _ => mret (2%Z, [])
  end.

(** [usage] is the text of the module's documentation. *)
Definition surface_main (usage : str) (argv : list str) : M (Z * str) :=
  match argv with
  | [] => mret (0%Z, usage)
  | op :: args =>
      if bool_decide (op ∈ ["-h"; "--help"; "help"]%str) then mret (0%Z, usage)
      else if bool_decide (op = "dump-surface"%str) then main_dump args
      else if bool_decide (op = "diff-surface"%str) then main_diff args
      else mret (2%Z, [])
  end.

Definition cli_world : world :=
  World [("/a", Directory); ("/a/m.aidl", File base_enum)]%str [] [] 0 [] None [].

(** Dumping to a file and comparing the dump with itself. *)
Example cli_dump_diff :
  fst ((surface_main [] ["dump-surface"; "/a"; "--out"; "/d"] ≫= fun _ =>
        surface_main [] ["diff-surface"; "/d"; "/d"])%str cli_world) =
    Ok (0%Z, "class: none
"%str).
Proof. vm_compute. reflexivity. Qed.
