(* ===== verification/SurfaceCliFacts.v ===== *)
(** * How dump-surface and diff-surface end

    Which errors a comparison can raise, and the exit status of the commands. *)

From S2P Require Import Prelude PyStr PyDict Json JsonFacts Regex Logger PyOs SurfaceParse SurfaceDiff SurfaceCli.

(** ** Errors *)

(** [r] returns, or raises an exception in [P]. *)
Definition raises_only {A} (P : exn -> Prop) (r : res A) : Prop :=
  match r with Ok _ => True | Err e => P e end.

Lemma raises_only_bind {A B} P (r : res A) (f : A -> res B) :
  raises_only P r -> (forall a, r = Ok a -> raises_only P (f a)) -> raises_only P (r ≫= f).
Proof. destruct r; cbn; auto. Qed.

Lemma raises_only_mapM {A B} P (f : A -> res B) l :
  (forall x, x ∈ l -> raises_only P (f x)) -> raises_only P (mapM_res f l).
Proof.
  induction l as [|x l IH]; intros Hf; [done|]. cbn.
  apply raises_only_bind; [apply Hf; left|]. intros y _. apply raises_only_bind; [|done].
  apply IH. intros z Hz. apply Hf. by right.
Qed.

Lemma raises_only_foldM {A B} P (f : A -> B -> res A) l a :
  (forall a x, x ∈ l -> raises_only P (f a x)) -> raises_only P (foldM_res f a l).
Proof.
  intros Hf. destruct (foldM_res f a l) as [|e] eqn:E; [done|].
  apply foldM_res_err in E as (a' & x & Hx & E). specialize (Hf a' x Hx). by rewrite E in Hf.
Qed.

Lemma raises_only_mono {A} (P Q : exn -> Prop) (r : res A) :
  (forall e, P e -> Q e) -> raises_only P r -> raises_only Q r.
Proof. destruct r; cbn; auto. Qed.

(** A member without a name, such as ["= 3;"]. *)
Definition unnamed (m : str) : Prop := declared_name m = Err IndexError.

Section members.
Context (ms : list str).

(** The exception of a member without a name among [ms]. *)
Definition no_name (e : exn) : Prop := e = IndexError /\ exists m, m ∈ ms /\ unnamed m.

Lemma declared_name_raises m : m ∈ ms -> raises_only no_name (declared_name m).
Proof.
  intros Hm. destruct (declared_name m) as [|e] eqn:E; [done|]. cbn.
  assert (e = IndexError) as ->.
  { unfold declared_name in E. destruct (split_char "="%char m) as [|w l]; [congruence|].
    destruct (last (split_ws w)); congruence. }
  split; [done|]. by exists m.
Qed.

Lemma member_name_raises k m : m ∈ ms -> raises_only no_name (_member_name k m).
Proof.
  intros Hm. unfold _member_name. destruct (_ || _); [by apply declared_name_raises|].
  destruct (re_match _ _) as [[[? ?] ?]|]; [done|by apply declared_name_raises].
Qed.
End members.

Lemma no_name_mono ms ms' e : (forall m, m ∈ ms -> m ∈ ms') -> no_name ms e -> no_name ms' e.
Proof. intros Hs (-> & m & Hm & Hu). split; [done|]. exists m. auto. Qed.

Lemma diff_enum_raises loc old new prefix : raises_only (no_name (old ++ new)) (_diff_enum loc old new prefix).
Proof.
  assert (Hm : forall l, (forall m, m ∈ l -> m ∈ old ++ new) -> raises_only (no_name (old ++ new)) (as_map l)).
  { intros l Hl. unfold as_map. apply raises_only_bind; [|done]. apply raises_only_mapM. intros m Hx.
    apply declared_name_raises. auto. }
  unfold _diff_enum. apply raises_only_bind; [apply Hm; set_solver|]. intros om _.
  apply raises_only_bind; [apply Hm; set_solver|done].
Qed.

Lemma diff_sequence_raises k loc old new added : raises_only (no_name (old ++ new)) (_diff_sequence k loc old new added).
Proof.
  unfold _diff_sequence.
  apply raises_only_bind; [apply raises_only_mapM; intros; apply member_name_raises; set_solver|]. intros om _.
  apply raises_only_bind; [apply raises_only_mapM; intros; apply member_name_raises; set_solver|]. intros nm _.
  by case_bool_decide.
Qed.

Lemma diff_members_raises loc o n : raises_only (no_name (members o ++ members n)) (diff_members loc o n).
Proof.
  unfold diff_members. case_bool_decide; [apply diff_enum_raises|].
  apply raises_only_bind.
  { eapply raises_only_mono; [|apply diff_enum_raises]. intros e. apply no_name_mono.
    intros m. rewrite !elem_of_app, !list_elem_of_filter. tauto. }
  intros cs _. apply raises_only_bind; [|done].
  eapply raises_only_mono; [|apply diff_sequence_raises]. intros e. apply no_name_mono.
  intros m. rewrite !elem_of_app, !list_elem_of_filter. tauto.
Qed.

(** The members of all types. *)
Definition all_members (ts : types) : list str := concat (map (fun qt => members (snd qt)) ts).

Lemma members_in ts q t : dget ts q = Some t -> forall m, m ∈ members t -> m ∈ all_members ts.
Proof.
  intros Hq%dget_Some_elem m Hm. unfold all_members. apply elem_of_concat. exists (members t).
  split; [|done]. apply elem_of_map. by exists (q, t).
Qed.

Lemma diff_types_raises old new : raises_only (no_name (all_members old ++ all_members new)) (diff_types old new).
Proof.
  unfold diff_types. apply raises_only_bind; [|done]. apply raises_only_mapM. intros q _. unfold diff_type.
  destruct (dget old q) as [o|] eqn:Eo, (dget new q) as [n|] eqn:En; try done.
  apply raises_only_bind; [|done]. eapply raises_only_mono; [|apply diff_members_raises].
  intros e. apply no_name_mono. intros m [Hm|Hm]%elem_of_app; apply elem_of_app; [left|right]; by eapply members_in.
Qed.

(** A dump that does not parse has a line that is no header. *)
Definition some_bad_header (e : exn) : Prop := exists line, e = bad_header line.

Lemma parse_dump_raises text : raises_only some_bad_header (parse_dump text).
Proof.
  unfold parse_dump. apply raises_only_bind; [|done]. apply raises_only_foldM. intros [ts cur] line _.
  unfold dump_line. destruct (strip line) as [|c s]; [done|]. destruct (startswith indent line); [by destruct cur|].
  apply raises_only_bind; [|done]. unfold parse_header. destruct (_take_annotations line) as [anns rest].
  cbn zeta. match goal with |- context [if ?b then ?x else ?y] => destruct (if b then x else y) as [|k [|q [|]]] end;
    try (by exists line). destruct (kind_of k); [done|by exists line].
Qed.

(** ** Exit status *)

(** The text of a file, read in text mode. *)
Definition file_text (fs : fsys) (p : str) : option str :=
  match dget fs p with Some (File c) => Some (universal_newlines c) | _ => None end.

Lemma read_file_run p w :
  read_file p w = (match file_text (w_fs w) p with Some s => Ok s | None => Err OSError end, w).
Proof. unfold read_file, file_text. by destruct (dget (w_fs w) p) as [[]|]. Qed.

(** C21: how diff-surface ends.  It changes no file, and with two readable dumps
    that parse it prints the report of their comparison and exits with 0.  With
    another number of arguments, a file that cannot be read or a line that is no
    header it prints nothing and exits with 2.  The only exception that escapes
    is an [IndexError], and then one of the dumps has a member without a name. *)
Theorem diff_surface_exit usage args w :
  let result := surface_main usage ("diff-surface"%str :: args) w in
  let report := if bool_decide ("--json"%str ∈ args) then fun r => json_report r ++ [newline] else text_report in
  snd result = w /\
  match filter (fun a => a <> "--json"%str) args with
  | [old; new] =>
      match file_text (w_fs w) old, file_text (w_fs w) new with
      | Some old_text, Some new_text =>
          match parse_dump old_text, parse_dump new_text with
          | Ok old_types, Ok new_types =>
              (exists r, diff_types old_types new_types = Ok r /\ fst result = Ok (0%Z, report r)) \/
              (fst result = Err IndexError /\
               exists m, m ∈ all_members old_types ++ all_members new_types /\ unnamed m)
          | _, _ => fst result = Ok (2%Z, [])
          end
      | _, _ => fst result = Ok (2%Z, [])
      end
  | _ => fst result = Ok (2%Z, [])
  end.
Proof.
  intros result report. unfold result, surface_main. cbn -[main_diff report].
  rewrite bool_decide_eq_false_2 by (vm_compute; set_solver). rewrite bool_decide_eq_false_2 by done.
  rewrite bool_decide_eq_true_2 by done. unfold main_diff.
  destruct (filter _ args) as [|old [|new [|]]]; try done.
  unfold mbind, M_bind. rewrite read_file_run. destruct (file_text (w_fs w) old) as [a|]; [|done].
  rewrite read_file_run. destruct (file_text (w_fs w) new) as [b|]; [|done].
  unfold of_res, diff_surface. pose proof (parse_dump_raises a) as Ha. pose proof (parse_dump_raises b) as Hb.
  destruct (parse_dump a) as [ta|e]; [|destruct Ha as [line ->]; by cbn].
  cbn [mbind res_bind]. destruct (parse_dump b) as [tb|e]; [|destruct Hb as [line ->]; by cbn].
  cbn [mbind res_bind]. pose proof (diff_types_raises ta tb) as Hd.
  destruct (diff_types ta tb) as [r|e]; [|destruct Hd as [-> Hm]; cbn; split; [done|by right]].
  split; [done|]. left. exists r. split; [done|]. unfold report. by case_bool_decide.
Qed.

(** ** The report *)

Lemma stable_texts `{Floats} (l : list (str * str)) :
  NoDup l.*1 -> stable (VDict (map (fun kv => (fst kv, VStr (snd kv))) l)).
Proof.
  intros Hl. constructor.
  - unfold dkeys. by rewrite <- list_fmap_compose.
  - apply Forall_fmap, Forall_true. intros kv. constructor.
Qed.

Lemma stable_change `{Floats} c : stable (change_value c).
Proof.
  unfold change_value. destruct c as [cl k w s [o|] [n|]]; cbn;
    (constructor; [|repeat constructor]); apply (bool_decide_unpack _); vm_compute; exact I.
Qed.

Lemma stable_report `{Floats} report : stable (report_value report).
Proof.
  constructor; [apply (bool_decide_unpack _); vm_compute; exact I|].
  repeat constructor. apply Forall_fmap, Forall_true. apply stable_change.
Qed.

(** What a change is reported as. *)
Definition reported (c : change) : str * str * str * option str * option str :=
  (c_kind c, c_where c, c_symbol c, c_old c, c_new c).

Lemma change_value_inj c1 c2 : change_value c1 = change_value c2 -> reported c1 = reported c2.
Proof. destruct c1 as [? ? ? ? [] []], c2 as [? ? ? ? [] []]; cbn; intros E; by simplify_eq. Qed.

(** The report that diff-surface prints with --json is read by [json.loads]
    as the dict of the class and the changes, in order, each with its kind, place,
    symbol and, where they exist, old and new form; so two reports that print
    alike say the same. *)
Lemma json_report_readable `{Floats} report :
  json_loads (json_report report) = Ok (report_value report) /\
  forall report', json_report report' = json_report report ->
    fst report' = fst report /\ map reported (snd report') = map reported (snd report).
Proof.
  assert (E : forall r, json_loads (json_report r) = Ok (report_value r)).
  { intros r. apply json_loads_dumps, stable_report. }
  split; [done|]. intros report' Hr. pose proof (E report') as E'. rewrite Hr, E in E'. injection E' as Hc Hl.
  split; [by destruct (fst report), (fst report')|].
  symmetry. exact (map_eq_mono _ _ _ _ change_value_inj Hl).
Qed.

(** A member without a name, and a line that is no header. *)
Example unnamed_member :
  let w := World [("/d", File "interface a.B
    = 3
"); ("/e", File "interface")]%str [] [] 0 [] None [] in
  fst (surface_main [] ["diff-surface"; "/d"; "/d"]%str w) = Err IndexError /\
  fst (surface_main [] ["diff-surface"; "/d"; "/e"]%str w) = Ok (2%Z, []).
Proof. split; vm_compute; reflexivity. Qed.
