(* ===== verification/InterfaceFacts.v ===== *)
(** * Correctness of loading an interface and of its versions

    What [parse_import_spec] accepts, what [_load_interface] stores, which
    deprecation warnings it prints, and what [next_version], [latest_version]
    and [get_imports] answer on a loaded interface. *)

From S2P Require Import Prelude PyStr PyStrFacts PyDict Logger PyOs PathFacts AidlInterface Examples.

Definition at_sign : ascii := "@"%char.

(** ** [parse_import_spec] *)

Lemma parse_import_spec_pinned name version :
  at_sign ∉ name -> name <> [] -> version <> [] ->
  parse_import_spec (SStr (name ++ at_sign :: version)) = Ok (name, Some version).
Proof.
  intros Hn H1 H2. unfold parse_import_spec.
  assert (contains "@" (name ++ at_sign :: version) = true) as -> by (apply contains_char; set_solver).
  cbn [negb]. rewrite (partition_char at_sign) by done. by destruct name, version.
Qed.

Lemma parse_import_spec_bare name :
  at_sign ∉ name -> parse_import_spec (SStr name) = Ok (name, None).
Proof.
  intros H. unfold parse_import_spec. assert (contains "@" name = false) as ->; [|done].
  apply not_true_is_false. by rewrite (contains_char at_sign).
Qed.

(** C32: [parse_import_spec] accepts exactly a bare name without [@] and
    [name@version] split at the first [@] with both parts non-empty, and
    returns those parts; every other entry is a [ValueError]. *)
Theorem parse_import_spec_exact spec :
  (forall name ver, parse_import_spec spec = Ok (name, ver) <->
     at_sign ∉ name /\
     match ver with
     | None => spec = SStr name
     | Some version => spec = SStr (name ++ at_sign :: version) /\ name <> [] /\ version <> []
     end) /\
  ((forall name ver, parse_import_spec spec <> Ok (name, ver)) ->
     exists msg arg, parse_import_spec spec = Err (ValueError msg [arg])).
Proof.
  split.
  - intros name ver. split.
    + unfold parse_import_spec. destruct spec as [| | | |s|]; try done.
      destruct (contains "@" s) eqn:E; cbn [negb].
      * apply (contains_char at_sign), list_elem_of_split_l in E as (a & b & -> & Ha).
        rewrite (partition_char at_sign) by done. destruct a, b; try done.
        by intros [= <- <-].
      * intros [= <- <-]. split; [|done]. rewrite <- contains_char. unfold at_sign. by rewrite E.
    + intros [Hn H]. destruct ver as [version|]; [|subst; by apply parse_import_spec_bare].
      destruct H as (-> & H1 & H2). by apply parse_import_spec_pinned.
  - intros H. unfold parse_import_spec in *. destruct spec as [| | | |s|]; eauto.
    destruct (contains "@" s); cbn [negb] in *; [|by destruct (H s None)].
    destruct (partition "@" s) as [[a c] b]. destruct a, b; eauto. by edestruct H.
Qed.

(** ** The loop over the imports *)

(** The record printed for a consumer and the name it imports bare. *)
Definition bare_warning (p : str * str) : log_record :=
  LogRecord 30 "WARNING" (Some _YELLOW)
    "interface.yaml: '%s' imports '%s' without a version pin. Bare-name imports are deprecated and will be removed in a future major release. Use '%s@current' for the in-development version or '%s@<X.Y.Z.W>' to pin to a released snapshot."
    [fst p; snd p; snd p; snd p].

(** [w'] is [w] after warning about [new]. *)
Definition warned_world (new : list (str * str)) (w : world) : world :=
  set_warned (w_bare_import_warned w ++ new) (set_log (w_log w ++ map bare_warning new) w).

Lemma warned_world_nil w : warned_world [] w = w.
Proof. unfold warned_world, set_warned, set_log. destruct w; cbn. by rewrite !app_nil_r. Qed.

Lemma warned_world_app n1 n2 w : warned_world n2 (warned_world n1 w) = warned_world (n1 ++ n2) w.
Proof. unfold warned_world, set_warned, set_log. cbn. by rewrite map_app, !app_assoc. Qed.

(** The warnings due for bare names, in order and without repetition. *)
Fixpoint due_warnings (warned : list (str * str)) (consumer : str) (bare : list str)
    : list (str * str) :=
  match bare with
  | [] => []
  | n :: bare =>
      if decide ((consumer, n) ∈ warned) then due_warnings warned consumer bare
      else (consumer, n) :: due_warnings (warned ++ [(consumer, n)]) consumer bare
  end.

Definition bare_names (specs : list (str * option str)) : list str :=
  concat (map (fun s => match snd s with None => [fst s] | Some _ => [] end) specs).

Lemma elem_of_bare_names specs n : n ∈ bare_names specs <-> (n, None) ∈ specs.
Proof.
  unfold bare_names. rewrite elem_of_concat. setoid_rewrite elem_of_map. split.
  - intros (l & ([m [v|]] & -> & Hs) & Hn); cbn in Hn; [by apply elem_of_nil in Hn|].
    by apply list_elem_of_singleton in Hn as ->.
  - intros H. exists [n]. split; [by exists (n, None)|left].
Qed.

Lemma due_warnings_spec warned consumer bare :
  NoDup (due_warnings warned consumer bare) /\
  forall p, p ∈ due_warnings warned consumer bare <->
    p ∉ warned /\ fst p = consumer /\ snd p ∈ bare.
Proof.
  revert warned; induction bare as [|n bare IH]; intros warned; cbn.
  - split; [constructor|]. intros p. split; [by intros ?%elem_of_nil|by intros (_ & _ & ?%elem_of_nil)].
  - case_decide as Hw.
    + destruct (IH warned) as [HN HS]. split; [done|]. intros p. rewrite HS.
      destruct p as [c m]; cbn. set_solver.
    + destruct (IH (warned ++ [(consumer, n)])) as [HN HS]. split.
      * constructor; [|done]. rewrite HS. set_solver.
      * intros [c m]. rewrite elem_of_cons, HS. cbn.
        destruct (decide ((c, m) = (consumer, n))); set_solver.
Qed.

Lemma import_step_run consumer cur acc raw name ver w :
  parse_import_spec raw = Ok (name, ver) ->
  import_step consumer cur acc raw w =
    (Ok (fst acc ++ [name], dset (snd acc) name ver),
     warned_world (if cur then due_warnings (w_bare_import_warned w) consumer
                                 (bare_names [(name, ver)]) else []) w).
Proof.
  intros H. unfold import_step, of_res, mbind, M_bind. rewrite H.
  destruct ver as [v|]; cbn; [destruct cur; by rewrite warned_world_nil|].
  destruct cur; cbn; [|by rewrite warned_world_nil].
  change (bare_names [(name, None)]) with [name]. cbn [due_warnings].
  unfold warn_bare_import. destruct (decide ((consumer, name) ∈ w_bare_import_warned w)).
  - rewrite bool_decide_eq_true_2 by done. by rewrite warned_world_nil.
  - by rewrite bool_decide_eq_false_2 by done.
Qed.

Lemma due_warnings_app warned consumer l1 l2 :
  due_warnings warned consumer (l1 ++ l2) =
    due_warnings warned consumer l1 ++
    due_warnings (warned ++ due_warnings warned consumer l1) consumer l2.
Proof.
  revert warned; induction l1 as [|n l1 IH]; intros warned; cbn; [by rewrite app_nil_r|].
  case_decide; [apply IH|]. cbn. by rewrite IH, <- app_assoc.
Qed.

(** The loop over [raw_imports]. *)
Lemma import_loop consumer cur raws specs acc w :
  mapM_res parse_import_spec raws = Ok specs ->
  fold_each raws acc (import_step consumer cur) w =
    (Ok (fst acc ++ specs.*1, foldl (fun d kv => dset d (fst kv) (snd kv)) (snd acc) specs),
     warned_world (if cur then due_warnings (w_bare_import_warned w) consumer (bare_names specs)
                   else []) w).
Proof.
  revert specs acc w; induction raws as [|raw raws IH]; intros specs acc w H; cbn in H; res_inv.
  - cbn. destruct acc, cur; by rewrite app_nil_r, warned_world_nil.
  - destruct a as [name ver]. cbn [fold_each]. unfold mbind, M_bind.
    rewrite (import_step_run _ _ _ _ _ _ _ E), (IH _ _ _ eq_refl). cbn [fst snd].
    rewrite warned_world_app. f_equal; [cbn; by rewrite <- app_assoc|].
    destruct cur; [|done]. f_equal. cbn [w_bare_import_warned warned_world set_warned].
    rewrite <- due_warnings_app. f_equal. unfold bare_names. by rewrite <- concat_app, <- map_app.
Qed.

Lemma import_loop_err consumer cur raws e acc w :
  mapM_res parse_import_spec raws = Err e ->
  fst (fold_each raws acc (import_step consumer cur) w) = Err e.
Proof.
  revert acc w; induction raws as [|raw raws IH]; intros acc w H; [done|]. cbn in H.
  cbn [fold_each]. unfold mbind, M_bind. destruct (parse_import_spec raw) as [[name ver]|e'] eqn:E.
  - rewrite (import_step_run _ _ _ _ _ _ _ E). cbn in H. apply IH.
    by destruct (mapM_res parse_import_spec raws).
  - cbn in H. unfold import_step, of_res, mbind, M_bind. rewrite E. cbn. congruence.
Qed.

(** ** A loaded interface *)

(** ["1"; ...; "n"] *)
Definition versions_upto (n : nat) : list str :=
  map (fun i => fmt_d (Z.of_nat i + 1)) (seq 0 n).

(** What an interface loaded from the document [d], whose imports parse to
    [specs], consists of. *)
Record loads (root0 root : str) (d : iface_doc) (specs : list (str * option str))
    (i : AidlInterface) : Prop := {
  loads_name : base_name i = doc_name d;
  loads_root : interface_root i = root;
  loads_srcs : srcs i = doc_srcs d;
  loads_stability : stability i = doc_stability d;
  loads_imports : imports i = specs.*1;
  loads_pins : forall name, dget (import_versions i) name = last_value specs name;
  loads_versions : versions i = versions_upto (length (default [] (doc_versions_with_info d)));
  loads_info : forall v, dget (versions_with_info i) v =
    last_value (map (fun e => (v_version e, v_imports e)) (default [] (doc_versions_with_info d))) v;
  loads_layout :
    match doc_layout d with
    | Some l => layout i = l
    | None => (layout i = "module-local"%str /\ doc_frozen_location d = Some "interface"%str) \/
              (layout i = "central"%str /\ doc_frozen_location d <> Some "interface"%str)
    end;
  loads_dirs :
    if decide (layout i = "module-local"%str)
    then interface_root_stable i = dirname root /\ interface_gen_dir i = dirname root
    else interface_root_stable i =
           path_joins root0 ["stable/" ++ default "aidl" (doc_stable_aidl_subdir d); doc_name d]%str /\
         interface_gen_dir i = path_joins root0 ["stable/generated"; doc_name d]%str
}.

Section loading.
Context `{Os}.
Implicit Types (d : iface_doc) (w : world).

Lemma interface_of_doc_run root0 roots out root d w specs :
  mapM_res parse_import_spec (default [] (doc_imports d)) = Ok specs ->
  exists i, loads root0 root d specs i /\
    interface_of_doc (root0 :: roots) out root d w =
      (Ok i, warned_world (if bool_decide (basename root = CURRENT_VERSION)
                           then due_warnings (w_bare_import_warned w) (doc_name d) (bare_names specs)
                           else []) w).
Proof.
  intros Hs. unfold interface_of_doc.
  set (lay := default _ (doc_layout d)). set (subdir := default "aidl"%str _).
  destruct (if bool_decide (lay = _) then _ else _) as [st gen] eqn:Edirs.
  unfold mbind at 1, M_bind at 1. rewrite (import_loop _ _ _ _ _ _ Hs). cbn [fst snd app].
  eexists; split; [|unfold mret, M_ret; reflexivity].
  constructor; cbn; try done.
  - intros name. rewrite dget_foldl_dset. by destruct (last_value specs name).
  - intros v. apply dget_dict_of.
  - subst lay. clear Edirs. destruct (doc_layout d); cbn; [done|].
    destruct (decide (default "stable" (doc_frozen_location d) = "interface")%str) as [Ef|Ef].
    + rewrite bool_decide_eq_true_2 by done. left. split; [done|].
      destruct (doc_frozen_location d); cbn in Ef; congruence.
    + rewrite bool_decide_eq_false_2 by done. right. split; [done|].
      destruct (doc_frozen_location d); cbn in Ef; congruence.
  - case_decide as El; [rewrite bool_decide_eq_true_2 in Edirs by done
      |rewrite bool_decide_eq_false_2 in Edirs by done]; by injection Edirs as <- <-.
Qed.

(** [start] is the directory that the place of the interface is taken relative
    to: the first root, resolved, that its path starts with as a text, or else
    the root of the file system. *)
Inductive start_of (roots : list str) (root : str) : str -> Prop :=
| start_root pre r post s : roots = pre ++ r :: post -> root = realpath r ++ s ->
    (forall q t, q ∈ pre -> root <> realpath q ++ t) -> start_of roots root (realpath r)
| start_none : (forall q t, q ∈ roots -> root <> realpath q ++ t) -> start_of roots root "/".

(** The other attributes, and where the interface's build files go. *)
Record located (roots : list str) (root0 out root : str) (d : iface_doc) (i : AidlInterface) : Prop := {
  located_version : module_version i = doc_version d;
  located_frozen : frozen_location i = default "stable"%str (doc_frozen_location d);
  located_subdir : stable_aidl_subdir i = default "aidl"%str (doc_stable_aidl_subdir d);
  located_workspace : workspace_root i = realpath root0;
  located_out : exists start r, start_of roots root start /\ interface_root_out i = path_join out r /\
    (normal root -> leads_from start r root) /\
    (forall rest, rest <> [] -> Forall plain_name rest -> components root = components start ++ rest ->
       r = join "/" rest);
  located_api : interface_api_dir_out i = path_join (interface_root_out i) (doc_name d ++ "-api")
}.

Lemma relative_path_start roots root :
  exists start, start_of roots root start /\ relative_path roots root = relpath root start.
Proof.
  unfold relative_path. destruct (List.find _ roots) as [r|] eqn:E.
  - exists (realpath r). split; [|done]. apply (find_first (fun q => startswith (realpath q) root)) in E as (pre & post & -> & Hr & Hpre).
    apply startswith_spec in Hr as [s Hs]. eapply start_root; [done|exact Hs|].
    intros q t Hq Ht. specialize (Hpre q Hq). cbv beta in Hpre. by rewrite Ht, startswith_app in Hpre.
  - exists "/"%str. split; [|done]. apply start_none. intros q t Hq Ht.
    apply list_elem_of_In in Hq. pose proof (List.find_none _ _ E q Hq) as Hn. cbv beta in Hn.
    by rewrite Ht, startswith_app in Hn.
Qed.

Lemma start_normal roots root start : start_of roots root start -> normal start.
Proof. destruct 1; [apply realpath_normal|constructor]. Qed.

Lemma interface_of_doc_located root0 roots out root d w i w' :
  interface_of_doc (root0 :: roots) out root d w = (Ok i, w') -> located (root0 :: roots) root0 out root d i.
Proof.
  unfold interface_of_doc. destruct (if bool_decide _ then _ else _) as [st gen].
  unfold mbind, M_bind. destruct (fold_each _ _ _ w) as [[acc|e] w1]; [|done]. intros [= <- _].
  destruct (relative_path_start (root0 :: roots) root) as (start & Hstart & Hr).
  split; try done. exists start, (relpath root start). split_and!; [done|by rewrite <- Hr|..].
  - intros Hn. apply relpath_leads; [done|by eapply start_normal].
  - intros rest Hne Hp Hc. apply relpath_below; [done..|]. eapply Forall_impl; [exact Hp|].
    intros c Hc'. split; apply Hc'.
Qed.

(** C15: loading a definition either fails as its first malformed import entry
    does (or with [IndexError] without interface roots), or stores exactly the
    definition: layout and directories, imports and the last pin of each,
    versions 1 to n for n recorded versions, the version field, and as directory
    for build files the place of the interface below the first root it is under;
    it prints one deprecation warning per bare import not yet warned about if the
    interface is a [current] directory and nothing otherwise, and touches nothing
    else. *)
Theorem interface_of_doc_exact roots out root d w :
  match roots, mapM_res parse_import_spec (default [] (doc_imports d)) with
  | [], _ => interface_of_doc roots out root d w = (Err IndexError, w)
  | _ :: _, Err e => fst (interface_of_doc roots out root d w) = Err e
  | root0 :: _, Ok specs =>
      exists i, loads root0 root d specs i /\ located roots root0 out root d i /\
        interface_of_doc roots out root d w =
          (Ok i, warned_world (if bool_decide (basename root = CURRENT_VERSION)
                               then due_warnings (w_bare_import_warned w) (doc_name d) (bare_names specs)
                               else []) w)
  end.
Proof.
  destruct roots as [|root0 roots]; [done|].
  destruct (mapM_res parse_import_spec (default [] (doc_imports d))) as [specs|e] eqn:Es.
  - destruct (interface_of_doc_run root0 roots out root d w specs Es) as (i & L & E).
    exists i. split; [done|]. split; [|done]. by eapply interface_of_doc_located.
  - unfold interface_of_doc. destruct (if bool_decide _ then (dirname root, dirname root) else _).
    unfold mbind, M_bind. pose proof (import_loop_err (doc_name d)
      (bool_decide (basename root = CURRENT_VERSION)) _ _ ([], []) w Es) as He.
    destruct (fold_each _ _ _ w) as [r w']. cbn in He. by subst r.
Qed.
End loading.

(** ** Versions of a loaded interface *)

Lemma last_versions_upto n : last (versions_upto (S n)) = Some (fmt_d (Z.of_nat (S n))).
Proof.
  unfold versions_upto. rewrite seq_S, map_app. cbn. rewrite last_snoc. do 2 f_equal. lia.
Qed.

(** An interface whose versions are numbered as [_load_interface] numbers them. *)
Definition numbered (i : AidlInterface) (n : nat) : Prop :=
  stability i <> Some "unstable"%str /\ versions i = versions_upto n.

Section versions.
Context (i : AidlInterface) (n : nat) (Hi : numbered i n).

Lemma next_version_numbered : next_version i = Ok (fmt_d (Z.of_nat n + 1)).
Proof using Hi.
  destruct Hi as [Hs Hv]. unfold next_version. rewrite bool_decide_eq_false_2, Hv by done.
  destruct n as [|m]; [done|]. rewrite last_versions_upto, py_int_fmt_d. done.
Qed.

Lemma latest_version_numbered : latest_version i = fmt_d (Z.of_nat n).
Proof using Hi.
  destruct Hi as [Hs Hv]. unfold latest_version. rewrite bool_decide_eq_false_2, Hv by done.
  destruct n as [|m]; [done|]. by rewrite last_versions_upto.
Qed.

Lemma version_for_hashgen_fmt z : version_for_hashgen (fmt_d z) =
  Ok (if (1 <? z)%Z then fmt_d (z - 1) else "latest-version"%str).
Proof using. unfold version_for_hashgen. by rewrite py_int_fmt_d. Qed.

Lemma elem_of_versions_upto v : v ∈ versions_upto n <-> exists z, v = fmt_d z /\ (1 <= z <= Z.of_nat n)%Z.
Proof using.
  unfold versions_upto. rewrite elem_of_map. setoid_rewrite list_elem_of_In.
  setoid_rewrite in_seq. split.
  - intros (k & -> & Hk). exists (Z.of_nat k + 1)%Z. split; [done|lia].
  - intros (z & -> & Hz). exists (Z.to_nat (z - 1)). split; [f_equal|]; lia.
Qed.
End versions.

(** C26: on a stable interface with versions 1 to n, [next_version] is n + 1,
    one above [latest_version], which is n (["0"] before the first freeze);
    every recorded version lies between 1 and n and so differs from the next;
    and the hash of the next version is salted with the latest one, or
    ["latest-version"] before the first freeze. *)
Theorem next_version_exact i n :
  numbered i n ->
  next_version i = Ok (fmt_d (Z.of_nat n + 1)) /\
  latest_version i = fmt_d (Z.of_nat n) /\
  py_int (latest_version i) = Ok (Z.of_nat n) /\
  py_int (fmt_d (Z.of_nat n + 1)) = Ok (Z.of_nat n + 1)%Z /\
  (forall v, v ∈ versions i -> exists z, py_int v = Ok z /\ (1 <= z <= Z.of_nat n)%Z) /\
  fmt_d (Z.of_nat n + 1) ∉ versions i /\
  version_for_hashgen (fmt_d (Z.of_nat n + 1)) =
    Ok (if decide (n = 0) then "latest-version"%str else latest_version i).
Proof.
  intros Hi. rewrite (next_version_numbered i n Hi), (latest_version_numbered i n Hi), !py_int_fmt_d.
  destruct (Hi) as [_ ->]. split_and!; try done.
  - intros v (z & -> & Hz)%elem_of_versions_upto. exists z. by rewrite py_int_fmt_d.
  - intros (z & Ez%fmt_d_inj & Hz)%elem_of_versions_upto. lia.
  - rewrite version_for_hashgen_fmt. f_equal. case_decide.
    + by subst.
    + assert ((1 <? Z.of_nat n + 1)%Z = true) as -> by (apply Z.ltb_lt; lia). f_equal. lia.
Qed.

Lemma next_version_exact_witness :
  next_version (with_versions i_hal 9) = Ok "10"%str /\
  version_for_hashgen "10" = Ok "9"%str /\ ("10"%str ∉ versions (with_versions i_hal 9)).
Proof.
  destruct (next_version_exact (with_versions i_hal 9) 9) as (H1 & _ & _ & _ & _ & H2 & H3).
  - split; [discriminate|vm_compute; reflexivity].
  - split; [exact H1|]. split; [exact H3|]. exact H2.
Defined.

(** ** [get_imports] *)

(** What [show_dep_error] prints. *)
Lemma show_dep_error_run name w : exists records,
  show_dep_error name w = (Ok tt, set_log (w_log w ++ records) w) /\
  length records = 6 /\ Forall (fun r => r_level r = 40%Z) records.
Proof.
  unfold show_dep_error. rewrite for_each_log. eexists. split; [reflexivity|].
  cbn. split; [done|]. repeat constructor.
Qed.

(** The name and version of an entry [name-vversion]. *)
Definition split_versioned (ver_imp : str) : str * str :=
  let '(name, _, ver) := partition "-v" ver_imp in (name, ver).

(** A name without the separator. *)
Definition dashless (name : str) : Prop := contains "-v" name = false.

(** The separator comes first after such a name. *)
Lemma split_versioned_at name v : dashless name -> split_versioned (name ++ "-v" ++ v) = (name, v).
Proof. intros Hd. unfold split_versioned. by rewrite (partition_2 "-"%char "v"%char). Qed.

Lemma split_versioned_name i v : dashless (base_name i) ->
  split_versioned (versioned_name i v) = (base_name i, v).
Proof. apply split_versioned_at. Qed.

(** An entry that has the separator is put together again. *)
Lemma split_versioned_join lib : contains "-v" lib = true ->
  lib = fst (split_versioned lib) ++ "-v" ++ snd (split_versioned lib).
Proof.
  unfold contains, split_versioned, partition. destruct (find "-v" lib) as [k|] eqn:E; [|done]. intros _.
  cbn [fst snd]. by apply find_split.
Qed.

Lemma foldl_map_dset {A K V} `{EqDecision K} (f : A -> K) (g : A -> V) (d : dict K V) l :
  foldl (fun d x => dset d (f x) (g x)) d l =
    foldl (fun d kv => dset d (fst kv) (snd kv)) d (map (fun x => (f x, g x)) l).
Proof. revert d; induction l; intros d; cbn; auto. Qed.

Lemma get_imports_frozen self version l w :
  dget (versions_with_info self) version = Some (Some l) ->
  get_imports self version w = (Ok (dict_of (map split_versioned l)), w).
Proof.
  intros H. unfold get_imports. rewrite H. unfold mret, M_ret. do 2 f_equal. unfold dict_of.
  clear H. generalize (@nil (str * str)). induction l as [|x l IH]; intros d; cbn; [done|].
  rewrite IH. f_equal. unfold split_versioned. by destruct (partition "-v" x) as [[name c] ver].
Qed.

Definition unfrozen_imports (self : AidlInterface) : dict str str :=
  dict_of (map (fun imp => (imp, unfrozen_pin self imp)) (imports self)).

Lemma get_imports_next self version w :
  dget (versions_with_info self) version = None -> next_version self = Ok version ->
  get_imports self version w = (Ok (unfrozen_imports self), w).
Proof.
  intros H Hn. unfold get_imports, of_res, mbind, M_bind. rewrite H, Hn.
  rewrite bool_decide_eq_true_2 by done. unfold mret, M_ret. do 2 f_equal.
  apply foldl_map_dset.
Qed.

Lemma dget_unfrozen_imports self imp :
  dget (unfrozen_imports self) imp =
    if decide (imp ∈ imports self) then Some (unfrozen_pin self imp) else None.
Proof.
  unfold unfrozen_imports. induction (imports self) as [|x l IH] using rev_ind; [done|].
  rewrite map_app. cbn [map]. rewrite dict_of_snoc, dget_dset, IH.
  repeat case_decide; subst; set_solver.
Qed.

(** C16: which imports a version of an interface has.  A recorded version
    answers with its own entries, split at the first [-v]; the next version
    answers with the imports of the definition, each at its pin, where no pin
    and [@current] both mean unpinned; neither changes anything.  Any other
    version prints errors and raises [AssertionError], and a recorded version
    without imports raises [TypeError]. *)
Theorem get_imports_exact self version w :
  match dget (versions_with_info self) version, next_version self with
  | Some (Some l), _ =>
      exists imports, get_imports self version w = (Ok imports, w) /\
        forall name, dget imports name = last_value (map split_versioned l) name
  | Some None, _ => get_imports self version w = (Err TypeError, w)
  | None, Err e => get_imports self version w = (Err e, w)
  | None, Ok next =>
      if decide (version = next) then
        exists d, get_imports self version w = (Ok d, w) /\
          forall name, dget d name =
            if decide (name ∈ imports self) then
              Some (match dget (import_versions self) name with
                    | Some (Some pin) => if decide (pin = CURRENT_VERSION)
                                         then IMPORT_VERSION_UNPINNED else pin
                    | _ => IMPORT_VERSION_UNPINNED
                    end)
            else None
      else exists records,
        get_imports self version w =
          (Err (AssertionError "Unknown version provided" []), set_log (w_log w ++ records) w) /\
        length records = 7 /\ Forall (fun r => r_level r = 40%Z) records
  end.
Proof.
  destruct (dget (versions_with_info self) version) as [[l|]|] eqn:Hv.
  - eexists. split; [by apply get_imports_frozen|]. apply dget_dict_of.
  - unfold get_imports. by rewrite Hv.
  - destruct (next_version self) as [next|e] eqn:Hn.
    + case_decide as E.
      * subst. exists (unfrozen_imports self). split; [by apply get_imports_next|].
        intros name. rewrite dget_unfrozen_imports. unfold unfrozen_pin.
        destruct (decide (name ∈ imports self)); [|done]. f_equal.
        destruct (dget (import_versions self) name) as [[pin|]|]; try done.
        destruct (decide (pin = CURRENT_VERSION)) as [Ep|Ep];
          [by rewrite bool_decide_eq_true_2|by rewrite bool_decide_eq_false_2].
      * unfold get_imports, of_res, mbind, M_bind. rewrite Hv, Hn, bool_decide_eq_false_2 by done.
        unfold log, modify. edestruct show_dep_error_run as (records & -> & Hl & Hr).
        unfold assert_false, raise. rewrite set_log_log. cbn [w_log set_log].
        rewrite <- app_assoc. eexists. split; [reflexivity|]. cbn. split; [by rewrite Hl|].
        by constructor.
    + unfold get_imports, of_res, mbind, M_bind. by rewrite Hv, Hn.
Qed.
