(* ===== verification/LibDeps.v ===== *)
(** * host/aidl_interface.py: loading all interfaces, library dependencies

    [load_interfaces] finds and loads every definition below the roots;
    [generate_libraries_dependencies] writes the libraries of all their
    versions, each after the libraries it links against. *)

From S2P Require Import Prelude PyStr PyDict Graph Logger PyOs AidlInterface TopoSort.

Definition LIBRARIES_DEPENDENCIES_FILE : str := "dependencies.txt".

(** ** Targets *)

(** [<name>-v<version>-cpp] *)
Definition target (name version : str) : str := name ++ "-v" ++ version ++ "-cpp".

Definition _resolve_lib_deps_for_current (interface : AidlInterface) : M (list str) :=
  nv ← of_res (next_version interface);
  imports ← get_imports interface nv;
  mret (map (fun imp : str * str =>
          if bool_decide (snd imp = IMPORT_VERSION_UNPINNED) then target (fst imp) "current"
          else target (fst imp) (snd imp)) imports).

(** The frozen versions of one interface. *)
Definition frozen_targets (interface_name : str) (interface : AidlInterface)
    (lib_deps : dict str (list str)) : res (dict str (list str)) :=
  foldM_res (fun lib_deps e =>
    match snd e with
    | Some libs => Ok (dset lib_deps (target interface_name (fst e)) (map (fun lib => lib ++ "-cpp") libs))
    | None => Err TypeError
    end) lib_deps (versions_with_info interface).

Definition current_targets (interfaces : dict str AidlInterface) : M (dict str (list str)) :=
  fold_each interfaces [] (fun lib_deps e =>
    let (interface_name, interface) := (e : str * AidlInterface) in
    lib_deps ← of_res (frozen_targets interface_name interface lib_deps);
    current ← _resolve_lib_deps_for_current interface;
    mret (dset lib_deps (target interface_name CURRENT_VERSION) current)).

Definition unpinned (pin : option str) : bool :=
  match pin with None => true | Some v => bool_decide (v = CURRENT_VERSION) end.

(** One loaded definition: a snapshot that is not a target yet becomes one. *)
Definition snapshot_target (lib_deps : dict str (list str)) (snap : AidlInterface)
    : M (dict str (list str)) :=
  let version_label := basename (interface_root snap) in
  let target_name := target (base_name snap) version_label in
  if bool_decide (version_label = CURRENT_VERSION) then mret lib_deps
  else if dmem lib_deps target_name then mret lib_deps
  else
    snap_deps ← fold_each (import_versions snap) [] (fun deps e =>
      let (imprt, pin) := (e : str * option str) in
      (if unpinned pin then
         log WARNING "snapshot %s v%s imports '%s' without a concrete version pin. Frozen snapshots should pin to a concrete producer version (e.g. '%s@%s') to avoid silent drift when the producer's current sibling changes."
           [base_name snap; version_label; imprt; imprt; version_label]
       else mret tt) ≫= fun _ =>
      mret (deps ++ [target imprt (if unpinned pin then CURRENT_VERSION
                                   else default [] pin)]));
    mret (dset lib_deps target_name snap_deps).

(** The first dependency that is not a target, with its consumer. *)
Definition unresolved (lib_deps : dict str (list str)) : option (str * str) :=
  List.find (fun cd : str * str => negb (dmem lib_deps (snd cd)))
    (concat (map (fun e : str * list str => map (pair (fst e)) (snd e)) lib_deps)).

Definition dep_line (lib_deps : dict str (list str)) (lib : str) : str :=
  lib ++ ": " ++ join " " (deps_of lib_deps lib) ++ [newline].

Definition collect_targets (interfaces : dict str AidlInterface) (all_loaded : list AidlInterface)
    : M (dict str (list str)) :=
  lib_deps ← current_targets interfaces;
  fold_each all_loaded lib_deps snapshot_target.

(** The checks and the file written once the targets are known. *)
Definition write_targets (dep_file : str) (lib_deps : dict str (list str)) : M unit :=
  (match unresolved lib_deps with
   | Some (consumer, dep) =>
       log ERROR "Dependency target '%s' required by '%s' is not registered. The producer module's interface.yaml must list this version under `versions_with_info` for the toolchain to build it. Either correct the pin in the consumer's interface.yaml, register the version on the producer side, or remove the pin to fall back to the current sibling."
         [dep; consumer] ≫= fun _ =>
       raise (RuntimeError "Unresolved versioned-import target '%s' (consumer: %s)" [dep; consumer])
   | None => mret tt
   end) ≫= fun _ =>
  libs_sorted ← of_res (topological_sort lib_deps);
  for_each libs_sorted (fun lib => append_file dep_file (dep_line lib_deps lib)).

Definition generate_libraries_dependencies (interfaces : dict str AidlInterface) (out_dir : str)
    (all_loaded : list AidlInterface) : M unit :=
  let dep_file := path_join out_dir LIBRARIES_DEPENDENCIES_FILE in
  remove_if_exists dep_file ≫= fun _ =>
  makedirs out_dir ≫= fun _ =>
  lib_deps ← collect_targets interfaces all_loaded;
  write_targets dep_file lib_deps.

(** ** [load_interfaces] *)

Definition default_skip_dirs : str := "examples,docs,.git,site".

Definition skip_dirs `{Os} : list str :=
  let raw := default [] (getenv "AIDL_VERSIONING_SKIP_DIR") in
  split_char ","%char
    (if bool_decide (raw = []) then default_skip_dirs else raw ++ "," ++ default_skip_dirs).

Definition locations_of `{Os} (fs : fsys) (interfaces_root : str) : list str :=
  let skip_paths := map (path_join interfaces_root) skip_dirs in
  let prune root dirs := filter (fun d => path_join root d ∉ skip_paths) dirs in
  concat (map (fun '(root, _, files) =>
    if bool_decide (INTERFACE_DEF_JSON ∈ files) then [path_join root INTERFACE_DEF_JSON]
    else if bool_decide (INTERFACE_DEF_YAML ∈ files) then [path_join root INTERFACE_DEF_YAML]
    else []) (os_walk prune fs interfaces_root)).

(** [_interface_sort_key] and the order of its triples *)
Definition _interface_sort_key (loc : str) : Z * str * str :=
  let parent := basename (dirname loc) in
  (if bool_decide (parent = "current"%str) then 1%Z else 0%Z, parent, loc).

Definition key_leb (a b : Z * str * str) : bool :=
  let '(a1, a2, a3) := a in
  let '(b1, b2, b3) := b in
  (a1 <? b1)%Z || ((a1 =? b1)%Z &&
    ((str_leb a2 b2 && negb (bool_decide (a2 = b2))) || (bool_decide (a2 = b2) && str_leb a3 b3))).

Definition loc_le (a b : str) : Prop :=
  key_leb (_interface_sort_key a) (_interface_sort_key b) = true.

#[export] Instance loc_le_dec a b : Decision (loc_le a b).
Proof. unfold loc_le. apply _. Defined.

Definition interface_locations `{Os} (fs : fsys) (interfaces_roots : list str) : list str :=
  merge_sort loc_le (concat (map (locations_of fs) interfaces_roots)).

(** The dict of interfaces and [all_loaded]. *)
Definition load_locations `{Os} `{Loader} (interfaces_roots : list str) (out_dir : str)
    (locs : list str) : M (dict str AidlInterface * list AidlInterface) :=
  fold_each locs ([], []) (fun acc loc =>
    i ← _load_interface interfaces_roots (dirname loc) out_dir;
    mret (dset (fst acc) (base_name i) i, snd acc ++ [i])).

Definition load_interfaces `{Os} `{Loader} (interfaces_roots : list str) (out_dir : str)
    (gen_lib_deps : bool) : M (dict str AidlInterface) :=
  fs ← gets w_fs;
  loaded ← load_locations interfaces_roots out_dir (interface_locations fs interfaces_roots);
  (if gen_lib_deps then generate_libraries_dependencies (fst loaded) out_dir (snd loaded)
   else mret tt) ≫= fun _ =>
  mret (fst loaded).
