(* ===== verification/LibDepsFacts.v ===== *)
(** * Correctness of loading and of the library order

    Which interface wins under a name, that the listing order of directories
    does not matter, what becomes of recorded targets, and the file
    [dependencies.txt]. *)

From S2P Require Import Prelude PyStr PyStrFacts PyDict Graph Logger PyOs AidlInterface Examples.
From S2P Require Import TopoSort LibDeps.

(** ** The order of locations *)

Lemma key_leb_spec a1 a2 a3 b1 b2 b3 :
  key_leb (a1, a2, a3) (b1, b2, b3) = true <->
  (a1 < b1)%Z \/ (a1 = b1 /\ ((str_le a2 b2 /\ a2 <> b2) \/ (a2 = b2 /\ str_le a3 b3))).
Proof.
  unfold key_leb, str_le. rewrite orb_true_iff, Z.ltb_lt, andb_true_iff, Z.eqb_eq,
    orb_true_iff, !andb_true_iff, negb_true_iff, bool_decide_eq_true, bool_decide_eq_false. done.
Qed.

#[export] Instance loc_le_total : Total loc_le.
Proof.
  intros a b. unfold loc_le. destruct (_interface_sort_key a) as [[a1 a2] a3],
    (_interface_sort_key b) as [[b1 b2] b3]. rewrite !key_leb_spec.
  destruct (Z.lt_trichotomy a1 b1) as [H|[->|H]]; [auto| |auto].
  destruct (decide (a2 = b2)) as [->|Hn].
  - destruct (total str_le a3 b3); auto 6.
  - destruct (total str_le a2 b2); auto 8.
Qed.

#[export] Instance loc_le_trans : Transitive loc_le.
Proof.
  intros a b c. unfold loc_le. destruct (_interface_sort_key a) as [[a1 a2] a3],
    (_interface_sort_key b) as [[b1 b2] b3], (_interface_sort_key c) as [[c1 c2] c3].
  rewrite !key_leb_spec.
  intros [H1|[-> [[H1 N1]|[-> H1]]]] [H2|[-> [[H2 N2]|[-> H2]]]]; try (left; lia);
    (right; split; [done|]); [left|auto|auto|right; split; [done|by etransitivity]].
  split; [by etransitivity|]. intros ->. apply N1. by apply (anti_symm str_le).
Qed.

#[export] Instance loc_le_antisym : AntiSymm (=) loc_le.
Proof.
  intros a b. unfold loc_le, _interface_sort_key. rewrite !key_leb_spec.
  intros [H1|[E1 [[H1 N1]|[E1' H1]]]] [H2|[E2 [[H2 N2]|[E2' H2]]]]; try lia; try congruence.
  - destruct N1. by apply (anti_symm str_le).
  - by apply (anti_symm str_le).
Qed.

Definition parent (loc : str) : str := basename (dirname loc).

(** [current] sorts last. *)
Lemma loc_le_current a b : loc_le a b -> parent a = "current"%str -> parent b = "current"%str.
Proof.
  unfold loc_le, _interface_sort_key. fold (parent a) (parent b). rewrite key_leb_spec.
  intros H Ha. rewrite Ha in H. rewrite bool_decide_eq_true_2 in H by done.
  destruct (decide (parent b = "current"%str)) as [|Hb]; [done|].
  rewrite bool_decide_eq_false_2 in H by done. destruct H as [?|[? _]]; lia.
Qed.

(** ** Listing order *)

Lemma filter_Permutation {A} (P Q : A -> Prop) `{!forall x, Decision (P x)} `{!forall x, Decision (Q x)} l k :
  (forall x, P x <-> Q x) -> l ≡ₚ k -> filter P l ≡ₚ filter Q k.
Proof. intros HPQ ->. by rewrite (list_filter_iff P Q). Qed.

Lemma concat_map_perm {A B} (f g : A -> list B) l k :
  l ≡ₚ k -> (forall x, x ∈ l -> f x ≡ₚ g x) -> concat (map f l) ≡ₚ concat (map g k).
Proof.
  intros HP Hfg. transitivity (concat (map g l)).
  - clear HP. induction l as [|x l IH]; cbn; [done|]. rewrite Hfg by left. f_equiv.
    apply IH. intros y Hy. apply Hfg. by right.
  - by rewrite HP.
Qed.

Lemma concat_map_concat {A B} (f : A -> list B) ls :
  concat (map f (concat ls)) = concat (map (fun l => concat (map f l)) ls).
Proof. induction ls as [|l ls IH]; cbn; [done|]. by rewrite map_app, concat_app, IH. Qed.

Section listing.
Context `{Os} (fs fs' : fsys) (ND : NoDup (dkeys fs)) (HP : fs ≡ₚ fs').

Lemma isdir_perm p : fs_isdir fs p = fs_isdir fs' p.
Proof using ND HP. unfold fs_isdir. by rewrite (dget_perm fs fs'). Qed.

Lemma listdir_perm d : fs_listdir fs d ≡ₚ fs_listdir fs' d.
Proof using HP.
  unfold fs_listdir, fs_entries. apply fmap_Permutation, filter_Permutation; [done|].
  unfold dkeys. by rewrite HP.
Qed.

(** What is gathered from a walk, when what is done with a listing depends
    only on the set of names. *)
Lemma walk_perm {B} (prune : str -> list str -> list str) (f : str * list str * list str -> list B) :
  (forall root dirs dirs' files files', files ≡ₚ files' ->
     f (root, dirs, files) ≡ₚ f (root, dirs', files')) ->
  (forall root dirs dirs', dirs ≡ₚ dirs' -> prune root dirs ≡ₚ prune root dirs') ->
  forall fuel root, concat (map f (fs_walk fuel prune fs root)) ≡ₚ
                    concat (map f (fs_walk fuel prune fs' root)).
Proof using ND HP.
  intros Hf Hprune. induction fuel as [|fuel IH]; intros root; [done|]. cbn.
  f_equiv.
  - apply Hf. apply filter_Permutation; [|apply listdir_perm]. intros x. by rewrite isdir_perm.
  - rewrite !concat_map_concat, !map_map. apply concat_map_perm; [|auto].
    apply Hprune, filter_Permutation; [|apply listdir_perm]. intros x. by rewrite isdir_perm.
Qed.

Lemma locations_of_perm root : locations_of fs root ≡ₚ locations_of fs' root.
Proof using ND HP.
  unfold locations_of, os_walk. rewrite isdir_perm, (Permutation_length HP).
  destruct (fs_isdir fs' root); [|done]. apply walk_perm.
  - intros r dirs dirs' files files' Hfs.
    rewrite (bool_decide_ext (INTERFACE_DEF_JSON ∈ files) (INTERFACE_DEF_JSON ∈ files')) by by rewrite Hfs.
    rewrite (bool_decide_ext (INTERFACE_DEF_YAML ∈ files) (INTERFACE_DEF_YAML ∈ files')) by by rewrite Hfs.
    done.
  - intros r dirs dirs' Hd. by apply filter_Permutation.
Qed.
End listing.

(** C35: the order in which interfaces are loaded does not depend on the order
    in which the file system lists its directories. *)
Theorem interface_locations_order `{Os} fs fs' roots :
  NoDup (dkeys fs) -> fs ≡ₚ fs' ->
  interface_locations fs roots = interface_locations fs' roots.
Proof.
  intros ND HP. unfold interface_locations.
  apply (Sorted_unique loc_le); try apply Sorted_merge_sort, _.
  rewrite !merge_sort_Permutation. apply concat_map_perm; [done|].
  intros root _. by apply locations_of_perm.
Qed.

(** ** Which interface wins *)

Section loads.
Context `{Os} `{Loader}.

(** The loaded objects, location by location, and the dict filled with them
    in that order. *)
Lemma load_locations_run roots out locs w d all w' :
  load_locations roots out locs w = (Ok (d, all), w') ->
  Forall2 (fun loc i => exists w w', _load_interface roots (dirname loc) out w = (Ok i, w')) locs all /\
  d = dict_of (map (fun i => (base_name i, i)) all).
Proof.
  assert (Hgen : forall locs acc w d all w',
    fold_each locs acc (fun acc loc =>
      i ← _load_interface roots (dirname loc) out;
      mret (dset (fst acc) (base_name i) i, snd acc ++ [i])) w = (Ok (d, all), w') ->
    exists new, all = snd acc ++ new /\
      Forall2 (fun loc i => exists w w', _load_interface roots (dirname loc) out w = (Ok i, w')) locs new /\
      d = foldl (fun d kv => dset d (fst kv) (snd kv)) (fst acc) (map (fun i => (base_name i, i)) new)).
  { clear. induction locs as [|loc locs IH]; intros acc w d all w' E; cbn in E.
    - injection E as -> _. exists []. rewrite app_nil_r. by split_and!.
    - unfold mbind, M_bind in E.
      destruct (_load_interface roots (dirname loc) out w) as [[i|e] w1] eqn:Ei; [|done].
      apply IH in E as (new & -> & HF & ->). exists (i :: new). cbn. rewrite <- app_assoc.
      split_and!; [done| |done]. constructor; [eauto|done]. }
  intros E. apply Hgen in E as (new & -> & HF & ->). by split.
Qed.

Lemma last_value_lookup {A} (l : list A) (f : A -> str) n x :
  last_value (map (fun i => (f i, i)) l) n = Some x ->
  exists k, l !! k = Some x /\ f x = n /\ forall m y, l !! m = Some y -> f y = n -> m <= k.
Proof.
  induction l as [|y l IH] using rev_ind; [done|].
  rewrite map_app. cbn [map]. rewrite last_value_snoc. case_decide as E.
  - intros [= ->]. exists (length l). rewrite lookup_app_r, Nat.sub_diag by lia.
    split_and!; [done..|]. intros m z Hz _. apply lookup_lt_Some in Hz.
    rewrite length_app in Hz. cbn in Hz. lia.
  - intros Hx. destruct (IH Hx) as (k & Hk & Hn & Hmax). exists k.
    split_and!; [by apply lookup_app_l_Some|done|]. intros m z Hz Hzn.
    apply lookup_app_Some in Hz as [Hz|[_ Hz]]; [by eapply Hmax|].
    apply list_lookup_singleton_Some in Hz as [_ <-]. congruence.
Qed.

(** C23: when all interfaces load, the one kept under a name is the one whose
    definition has the greatest location of that name; so a definition in a
    [current] directory is never replaced by a frozen snapshot.  Every loaded
    name is kept, and nothing else. *)
Theorem load_current_wins roots out fs w d all w' :
  load_locations roots out (interface_locations fs roots) w = (Ok (d, all), w') ->
  let locs := interface_locations fs roots in
  Forall2 (fun loc i => exists w w', _load_interface roots (dirname loc) out w = (Ok i, w')) locs all /\
  (forall n, n ∈ dkeys d <-> exists i, i ∈ all /\ base_name i = n) /\
  forall n i, dget d n = Some i -> exists k loc,
    locs !! k = Some loc /\ all !! k = Some i /\ base_name i = n /\
    forall m loc' j, locs !! m = Some loc' -> all !! m = Some j -> base_name j = n ->
      loc_le loc' loc /\ (parent loc' = "current"%str -> parent loc = "current"%str).
Proof.
  intros E locs. apply load_locations_run in E as [HF ->]. split; [done|]. split.
  - intros n. rewrite dkeys_dict_of, <- list_fmap_compose, list_elem_of_fmap. naive_solver.
  - intros n i Hi. rewrite dget_dict_of in Hi.
    apply last_value_lookup in Hi as (k & Hk & Hn & Hmax).
    destruct (Forall2_lookup_r _ _ _ _ _ HF Hk) as (loc & Hloc & _). change (locs !! k = Some loc) in Hloc.
    exists k, loc. split_and!; [done..|]. intros m loc' j Hm Hj Hjn.
    assert (Hle : loc_le loc' loc); [|split; [done|by apply loc_le_current]].
    assert (m <= k) as Hmk by by eapply Hmax.
    assert (HS : StronglySorted loc_le locs).
    { apply Sorted_StronglySorted, Sorted_merge_sort, _. apply _. }
    destruct (decide (m = k)) as [->|]; [replace loc' with loc by congruence; destruct (total loc_le loc loc); assumption|].
    rewrite <- (take_drop k locs) in HS. eapply StronglySorted_app_1_elem_of; [done| |].
    + apply list_elem_of_lookup. exists m. rewrite lookup_take_lt by lia. done.
    + apply list_elem_of_lookup. exists 0. by rewrite lookup_drop, Nat.add_0_r.
Qed.
End loads.

(** ** Snapshot targets *)

(** The target a loaded definition stands for, if it is a snapshot. *)
Definition snapshot_name (snap : AidlInterface) : str :=
  target (base_name snap) (basename (interface_root snap)).

Definition is_snapshot (snap : AidlInterface) : bool :=
  negb (bool_decide (basename (interface_root snap) = CURRENT_VERSION)).

(** What it links against: the pinned versions, and the current sibling where
    there is no pin. *)
Definition snapshot_deps (snap : AidlInterface) : list str :=
  map (fun e : str * option str =>
    target (fst e) (match snd e with Some v => v | None => CURRENT_VERSION end)) (import_versions snap).

Lemma snapshot_target_run lib_deps snap w : exists w',
  snapshot_target lib_deps snap w =
    (Ok (if is_snapshot snap && negb (dmem lib_deps (snapshot_name snap))
         then dset lib_deps (snapshot_name snap) (snapshot_deps snap) else lib_deps), w') /\
  w_fs w' = w_fs w.
Proof.
  unfold snapshot_target, is_snapshot, snapshot_name.
  set (name := target _ _). destruct (bool_decide (basename _ = _)); [by exists w|].
  cbn [negb andb]. destruct (dmem lib_deps name); [by exists w|]. cbn [negb].
  set (body := fun deps e => _). unfold mbind at 1, M_bind at 1.
  assert (Hl : forall l acc w, exists w', fold_each l acc body w =
    (Ok (acc ++ map (fun e : str * option str =>
       target (fst e) (match snd e with Some v => v | None => CURRENT_VERSION end)) l), w') /\
    w_fs w' = w_fs w).
  { clear. induction l as [|[imprt pin] l IH]; intros acc w; cbn [fold_each].
    - exists w. cbn. by rewrite app_nil_r.
    - unfold mbind at 1, M_bind at 1.
      assert (exists w1, body acc (imprt, pin) w = (Ok (acc ++ [target imprt
        (match pin with Some v => v | None => CURRENT_VERSION end)]), w1) /\ w_fs w1 = w_fs w)
        as (w1 & -> & Hw1).
      { unfold body, unpinned. destruct pin as [v|]; [case_bool_decide as Ev|];
          (eexists; split; [unfold mbind, M_bind; cbn; rewrite ?Ev; reflexivity|reflexivity]). }
      edestruct IH as (w2 & -> & Hw2). exists w2. split; [by rewrite <- app_assoc|congruence]. }
  destruct (Hl (import_versions snap) [] w) as (w' & -> & Hw). by exists w'.
Qed.

Lemma snapshot_targets_run all_loaded lib_deps w : exists lib_deps' w',
  fold_each all_loaded lib_deps snapshot_target w = (Ok lib_deps', w') /\
  w_fs w' = w_fs w /\
  forall k, dget lib_deps' k =
    match dget lib_deps k with
    | Some deps => Some deps
    | None => snapshot_deps <$>
        List.find (fun s => is_snapshot s && bool_decide (snapshot_name s = k)) all_loaded
    end.
Proof.
  revert lib_deps w; induction all_loaded as [|snap l IH]; intros lib_deps w.
  - exists lib_deps, w. split_and!; [done..|]. intros k. cbn. by destruct (dget lib_deps k).
  - cbn [fold_each]. unfold mbind, M_bind.
    destruct (snapshot_target_run lib_deps snap w) as (w1 & -> & Hw1).
    edestruct IH as (D' & w' & -> & Hw' & HD'). exists D', w'. split_and!; [done|congruence|].
    intros k. rewrite HD'. unfold dmem. cbn [List.find].
    destruct (is_snapshot snap); cbn [andb]; [|done].
    destruct (dget lib_deps (snapshot_name snap)) eqn:E; cbn [negb].
    + case_bool_decide as Ek; [|done]. subst. by rewrite E.
    + rewrite dget_dset. case_decide as Ek; [rewrite bool_decide_eq_true_2 by done; by subst; rewrite E|].
      by rewrite bool_decide_eq_false_2 by done.
Qed.

(** C27: registering the snapshots found on disk never fails and never changes
    a target that is already registered; of several snapshots with one target
    the first wins, and it links against its own pins (its unpinned imports
    against the current siblings). *)
Theorem snapshot_targets_exact all_loaded lib_deps w : exists lib_deps' w',
  fold_each all_loaded lib_deps snapshot_target w = (Ok lib_deps', w') /\
  w_fs w' = w_fs w /\
  forall k, dget lib_deps' k =
    match dget lib_deps k with
    | Some deps => Some deps
    | None => snapshot_deps <$>
        List.find (fun s => is_snapshot s && bool_decide (snapshot_name s = k)) all_loaded
    end.
Proof. apply snapshot_targets_run. Qed.

(** ** [dependencies.txt] *)

Lemma unresolved_None D : unresolved D = None -> closed D.
Proof.
  intros H lib dep Hd. unfold depends, deps_of in Hd.
  destruct (dget D lib) as [deps|] eqn:E; [|by apply elem_of_nil in Hd]. cbn in Hd.
  apply dget_Some_elem in E. unfold unresolved in H.
  assert (Hin : In (lib, dep) (concat (map (fun e => map (pair (fst e)) (snd e)) D))).
  { apply list_elem_of_In, elem_of_concat. exists (map (pair lib) deps).
    split; apply elem_of_map; [by exists (lib, deps)|by exists dep]. }
  pose proof (List.find_none _ _ H _ Hin) as Hn. cbn in Hn.
  apply negb_false_iff in Hn. by apply dmem_dkeys.
Qed.

Lemma unresolved_Some D consumer dep : NoDup (dkeys D) ->
  unresolved D = Some (consumer, dep) -> depends D consumer dep /\ dep ∉ dkeys D.
Proof.
  intros ND H. unfold unresolved in H. apply List.find_some in H as [Hin Hn].
  apply list_elem_of_In, elem_of_concat in Hin as (l & Hl & Hin).
  apply elem_of_map in Hl as ([lib deps] & -> & He).
  apply elem_of_map in Hin as (d & [= -> ->] & Hd). cbn in *.
  split.
  - unfold depends, deps_of. by rewrite (dget_elem _ _ _ ND He).
  - intros Hk%dmem_dkeys. by rewrite Hk in Hn.
Qed.

(** Lines appended to a file that is there. *)
Lemma append_lines (line : str -> str) p libs : forall w c,
  dget (w_fs w) p = Some (File c) -> exists w',
  for_each libs (fun lib => append_file p (line lib)) w = (Ok tt, w') /\
  dget (w_fs w') p = Some (File (c ++ concat (map line libs))).
Proof.
  induction libs as [|lib libs IH]; intros w c Hc; cbn.
  - exists w. by rewrite app_nil_r.
  - unfold mbind, M_bind. unfold append_file at 1. rewrite Hc.
    edestruct (IH (set_fs (dset (w_fs w) p (File (c ++ line lib))) w)) as (w' & -> & Hw').
    { cbn. apply dget_dset_eq. }
    exists w'. by rewrite Hw', app_assoc.
Qed.

Lemma write_lines (line : str -> str) p libs w :
  dget (w_fs w) p = None -> exists w',
  for_each libs (fun lib => append_file p (line lib)) w = (Ok tt, w') /\
  dget (w_fs w') p = match libs with [] => None | _ => Some (File (concat (map line libs))) end.
Proof.
  intros Hn. destruct libs as [|lib libs]; cbn [for_each]; [by exists w|].
  unfold mbind, M_bind. unfold append_file at 1. rewrite Hn.
  edestruct (append_lines line p libs (set_fs (dset (w_fs w) p (File (line lib))) w))
    as (w' & -> & Hw'); [cbn; apply dget_dset_eq|].
  exists w'. by rewrite Hw'.
Qed.

Lemma frozen_targets_NoDup name i D D' :
  NoDup (dkeys D) -> frozen_targets name i D = Ok D' -> NoDup (dkeys D').
Proof.
  intros ND. unfold frozen_targets. apply (foldM_res_inv _ (fun D => NoDup (dkeys D))); [|done].
  intros x e y _ Hx Hy. destruct (snd e); [|done]. injection Hy as <-. auto with pylib.
Qed.

(** Every dict the loops build has distinct keys. *)
Lemma fold_each_P {A B} (P : A -> Prop) (l : list B) body :
  (forall acc x w acc' w', P acc -> body acc x w = (Ok acc', w') -> P acc') ->
  forall acc w acc' w', P acc -> fold_each l acc body w = (Ok acc', w') -> P acc'.
Proof.
  intros Hb. induction l as [|x l IH]; intros acc w acc' w' HP; cbn; [by intros [= <- _]|].
  unfold mbind, M_bind. destruct (body acc x w) as [[a|e] w1] eqn:E; [|done].
  apply IH. by eapply Hb.
Qed.

Lemma collect_targets_NoDup interfaces all_loaded w D w' :
  collect_targets interfaces all_loaded w = (Ok D, w') -> NoDup (dkeys D).
Proof.
  unfold collect_targets, mbind at 1, M_bind at 1.
  destruct (current_targets interfaces w) as [[D0|e] w0] eqn:E0; [|done].
  assert (ND0 : NoDup (dkeys D0)).
  { unfold current_targets in E0. revert E0. apply (fold_each_P (fun D => NoDup (dkeys D))); [|constructor].
    intros acc [name i] w1 acc' w1' HP. unfold of_res, mbind, M_bind.
    destruct (frozen_targets name i acc) eqn:Ef; [|done].
    destruct (_resolve_lib_deps_for_current i w1) as [[cur|] ?]; [|done].
    intros [= <- _]. apply NoDup_dset. by eapply frozen_targets_NoDup. }
  revert ND0. clear. intros ND0. revert ND0. intros ND0 E. revert E.
  apply (fold_each_P (fun D => NoDup (dkeys D))); [|done].
  intros acc snap w1 acc' w1' HP Hs.
  destruct (snapshot_target_run acc snap w1) as (w2 & Hr & _). rewrite Hs in Hr.
  injection Hr as -> _. destruct (_ && _); auto with pylib.
Qed.

Lemma get_imports_fs self v : preserves w_fs (get_imports self v).
Proof. unfold get_imports, show_dep_error, assert_false. preserves. Qed.

Lemma collect_targets_fs interfaces all_loaded : preserves w_fs (collect_targets interfaces all_loaded).
Proof.
  unfold collect_targets. apply preserves_bind.
  - unfold current_targets, _resolve_lib_deps_for_current. pose proof get_imports_fs. preserves.
  - intros D. apply preserves_fold_each. intros acc snap w.
    by destruct (snapshot_target_run acc snap w) as (w' & -> & Hw).
Qed.

(** The dict of targets, once the old file is gone and [out_dir] is made. *)
Definition targets_after (interfaces : dict str AidlInterface) (out_dir : str)
    (all_loaded : list AidlInterface) (w : world) : res (dict str (list str)) * world :=
  let dep_file := path_join out_dir LIBRARIES_DEPENDENCIES_FILE in
  (makedirs out_dir ≫= fun _ => collect_targets interfaces all_loaded)
    (set_fs (if fs_exists (w_fs w) dep_file then fs_remove (w_fs w) dep_file else w_fs w) w).

(** The three ways [write_targets] ends on a fresh file. *)
Lemma write_targets_exact dep_file D w :
  NoDup (dkeys D) -> dget (w_fs w) dep_file = None ->
  (exists consumer dep w', depends D consumer dep /\ dep ∉ dkeys D /\
     write_targets dep_file D w =
       (Err (RuntimeError "Unresolved versioned-import target '%s' (consumer: %s)" [dep; consumer]), w') /\
     dget (w_fs w') dep_file = None) \/
  (closed D /\ cyclic D /\
     write_targets dep_file D w = (Err (ValueError "Cycle detected in dependencies" []), w)) \/
  (closed D /\ ~ cyclic D /\ exists order w',
     write_targets dep_file D w = (Ok tt, w') /\ order ≡ₚ dkeys D /\ dependencies_first D order /\
     dget (w_fs w') dep_file =
       match order with [] => None | _ => Some (File (concat (map (dep_line D) order))) end).
Proof.
  intros ND Hn. unfold write_targets. destruct (unresolved D) as [[consumer dep]|] eqn:E.
  - left. apply unresolved_Some in E as [Hd Hk]; [|done]. exists consumer, dep.
    eexists. split_and!; [done..| |]; [reflexivity|done].
  - right. apply unresolved_None in E. unfold of_res, mbind, M_bind, mret, M_ret.
    destruct (topological_sort_cases D ND E) as [(order & -> & HP & HO & HA)|[-> HC]].
    + right. split_and!; [done..|]. destruct (write_lines (dep_line D) dep_file order w Hn) as (w' & Hw' & Hf).
      by exists order, w'.
    + left. by split_and!.
Qed.

(** C5: generating the library dependencies either fails while the
    directory is made or the targets are collected; or finds a dependency that is no target and says which, for
    which consumer ([RuntimeError]); or finds a cycle ([ValueError]); or writes
    exactly one line per target, every line after those of the targets it names.
    No stale file survives: on a failure none is there. *)
Theorem generate_libraries_dependencies_exact interfaces out_dir all_loaded w :
  let dep_file := path_join out_dir LIBRARIES_DEPENDENCIES_FILE in
  let run := generate_libraries_dependencies interfaces out_dir all_loaded w in
  NoDup (dkeys (w_fs w)) -> dget (w_fs w) dep_file <> Some Directory ->
  match targets_after interfaces out_dir all_loaded w with
  | (Err e, w') => run = (Err e, w') /\ dget (w_fs w') dep_file = None
  | (Ok D, w1) =>
      (exists consumer dep w', depends D consumer dep /\ dep ∉ dkeys D /\
         run = (Err (RuntimeError "Unresolved versioned-import target '%s' (consumer: %s)"
                       [dep; consumer]), w') /\ dget (w_fs w') dep_file = None) \/
      (closed D /\ cyclic D /\ exists w',
         run = (Err (ValueError "Cycle detected in dependencies" []), w') /\
         dget (w_fs w') dep_file = None) \/
      (closed D /\ ~ cyclic D /\ exists order w',
         run = (Ok tt, w') /\ order ≡ₚ dkeys D /\ dependencies_first D order /\
         dget (w_fs w') dep_file =
           match order with [] => None | _ => Some (File (concat (map (dep_line D) order))) end)
  end.
Proof.
  intros dep_file run Hnd Hdir. unfold targets_after. fold dep_file.
  set (w0 := set_fs _ w).
  assert (Hrun : run = (makedirs out_dir ≫= fun _ =>
                          collect_targets interfaces all_loaded ≫= write_targets dep_file) w0).
  { unfold run, generate_libraries_dependencies. fold dep_file. unfold mbind at 1, M_bind at 1.
    unfold remove_if_exists. unfold w0, fs_exists, dmem.
    destruct (dget (w_fs w) dep_file) as [[c|]|] eqn:E; [reflexivity|by destruct Hdir|].
    replace (set_fs (w_fs w) w) with w by by destruct w. reflexivity. }
  assert (H0 : dget (w_fs w0) dep_file = None).
  { unfold w0. cbn. unfold fs_exists, dmem, fs_remove.
    destruct (dget (w_fs w) dep_file) eqn:E; [|done]. apply dget_None. by apply ddel_gone. }
  rewrite Hrun. clear Hrun run. unfold mbind, M_bind.
  rewrite <- (makedirs_get out_dir dep_file w0) in H0 by (by apply path_join_longer).
  clearbody w0. destruct (makedirs out_dir w0) as [[[]|e] w0']; cbn in H0; [|done].
  clear w0. rename w0' into w0.
  pose proof (collect_targets_fs interfaces all_loaded w0) as Hfs.
  destruct (collect_targets interfaces all_loaded w0) as [[D|e] w1] eqn:EC; cbn in Hfs.
  - apply collect_targets_NoDup in EC as ND.
    destruct (write_targets_exact dep_file D w1 ND) as [Hc|[(H1 & H2 & H3)|Hc]];
      [by rewrite Hfs|by left| |by right; right].
    right; left. split_and!; [done..|]. exists w1. split; [done|]. by rewrite Hfs.
  - split; [done|]. by rewrite Hfs.
Qed.

(** ** Witnesses *)

Lemma interface_locations_order_witness :
  interface_locations (H := quiet_os) snapshot_fs ["/ws"%str] =
    ["/ws/common/0.1.0.0/interface.yaml"; "/ws/common/current/interface.yaml"]%str /\
  interface_locations (H := quiet_os) snapshot_fs ["/ws"%str] =
    interface_locations (H := quiet_os) (reverse snapshot_fs) ["/ws"%str].
Proof.
  split; [vm_compute; reflexivity|].
  apply (interface_locations_order (H := quiet_os)).
  - apply (bool_decide_unpack _). vm_compute. exact I.
  - symmetry. apply reverse_Permutation.
Defined.

Lemma load_current_wins_witness :
  let locs := interface_locations (H := quiet_os) snapshot_fs ["/ws"%str] in
  let run := load_locations (H := quiet_os) (H0 := name_loader) ["/ws"%str] "/out" locs snapshot_world in
  is_ok (fst run) = true /\
  forall d all w', run = (Ok (d, all), w') ->
    forall n i, dget d n = Some i -> exists k loc,
      locs !! k = Some loc /\ all !! k = Some i /\ base_name i = n /\
      forall m loc' j, locs !! m = Some loc' -> all !! m = Some j -> base_name j = n ->
        loc_le loc' loc /\ (parent loc' = "current"%str -> parent loc = "current"%str).
Proof.
  split; [vm_compute; reflexivity|]. intros d all w' E.
  apply (load_current_wins (H := quiet_os) (H0 := name_loader) _ _ _ _ _ _ _ E).
Defined.

Lemma generate_libraries_dependencies_exact_witness :
  match targets_after example_interfaces "/out" [] example_world with
  | (Err _, _) => False
  | (Ok D, _) =>
      (exists consumer dep w', depends D consumer dep /\ dep ∉ dkeys D /\
         generate_libraries_dependencies example_interfaces "/out" [] example_world =
         (Err (RuntimeError "Unresolved versioned-import target '%s' (consumer: %s)"
                 [dep; consumer]), w') /\ dget (w_fs w') "/out/dependencies.txt"%str = None) \/
      (closed D /\ cyclic D /\ exists w',
         generate_libraries_dependencies example_interfaces "/out" [] example_world =
         (Err (ValueError "Cycle detected in dependencies" []), w') /\
         dget (w_fs w') "/out/dependencies.txt"%str = None) \/
      (closed D /\ ~ cyclic D /\ exists order w',
         generate_libraries_dependencies example_interfaces "/out" [] example_world = (Ok tt, w') /\
         order ≡ₚ dkeys D /\ dependencies_first D order /\
         dget (w_fs w') "/out/dependencies.txt"%str =
           match order with [] => None | _ => Some (File (concat (map (dep_line D) order))) end)
  end.
Proof.
  apply (generate_libraries_dependencies_exact example_interfaces "/out" [] example_world).
  - apply (bool_decide_unpack _). vm_compute. exact I.
  - vm_compute. discriminate.
Defined.

Example dependencies_txt :
  (fun w' => dget (w_fs w') "/out/dependencies.txt"%str)
    (snd (generate_libraries_dependencies example_interfaces "/out" [] example_world)) =
  Some (File "common-vcurrent-cpp: 
hal-vcurrent-cpp: common-vcurrent-cpp
app-vcurrent-cpp: common-vcurrent-cpp hal-vcurrent-cpp
").
Proof. vm_compute. reflexivity. Qed.
