(* ===== verification/Imports.v ===== *)
(** * host/aidl_interface.py: resolution of imports

    [process_imports] walks the imports of one version of an interface depth
    first and records every interface it meets in an [ApiDependencies], after
    that interface's own imports; recording one preprocesses its AIDL files. *)

From S2P Require Import Prelude PyStr PyDict Logger PyOs AidlInterface.

(** ** Data *)

(** The values of [import_ver_type]. *)
Inductive import_type : Type := Next | Latest | Frozen.

#[export] Instance import_type_eq_dec : EqDecision import_type.
Proof. solve_decision. Defined.

(** The value stored under an interface name in [api_dependecies]. *)
Record dep_info : Type := DepInfo {
  dep_version : str;
  dep_preprocessed : str;
  dep_import : str
}.

#[export] Instance dep_info_eq_dec : EqDecision dep_info.
Proof. solve_decision. Defined.

Record ApiDependencies : Type := MkDeps {
  interface_name : str;
  version : str;
  import_ver_type : import_type;
  api_dependecies : dict str dep_info
}.

Definition new_ApiDependencies (name : str) (t : import_type) (v : str) : res ApiDependencies :=
  if bool_decide (t = Frozen /\ v = []) then Err (AssertionError "version needs to be provided" [])
  else Ok (MkDeps name v t []).

Definition set_version (v : str) (d : ApiDependencies) : ApiDependencies :=
  MkDeps (interface_name d) v (import_ver_type d) (api_dependecies d).
Definition set_name (n : str) (d : ApiDependencies) : ApiDependencies :=
  MkDeps n (version d) (import_ver_type d) (api_dependecies d).
Definition set_deps (l : dict str dep_info) (d : ApiDependencies) : ApiDependencies :=
  MkDeps (interface_name d) (version d) (import_ver_type d) l.

Definition preprocessed_file (dir : str) : str := path_join dir "preprocessed.aidl".

(** [list_dependencies] *)
Definition list_dependencies (deps : dict str dep_info) : list str * list str * list str :=
  ((fun d => preprocessed_file (dep_preprocessed (snd d))) <$> deps,
   (fun d => dep_import (snd d)) <$> deps,
   (fun d => fst d ++ "-v" ++ dep_version (snd d)) <$> deps).

(** ** Running a command *)

Section os.
Context `{Os}.

Definition CMD_AIDL : str := realpath (path_joins host_dir ["../out/host/bin"; "aidl"]%str).

(** [exec_cmd]: whatever the command raises is caught. *)
Definition exec_cmd (cmd : list str) : M bool := fun w =>
  match run cmd w with
  | (Ok r, w) =>
      if bool_decide (returncode r = 0%Z) then (Ok true, w)
      else (log ERROR "Command failed: %s" [join " " cmd] ≫= fun _ =>
            log ERROR (stderr r) [] ≫= fun _ => mret false) w
  | (Err _, w) => (log ERROR "Execution error: %s" [] ≫= fun _ => mret false) w
  end.

(** ** [aidl_gen_preprocessed] *)

(** The directory of a version: the next version is in [current]. *)
Definition version_dir (interface : AidlInterface) (v : str) : res str :=
  nv ← next_version interface;
  Ok (get_versioned_dir interface (if bool_decide (v = nv) then CURRENT_VERSION else v)).

Definition stability_flag (interface : AidlInterface) : list str :=
  if bool_decide (stability interface = Some "unstable"%str) then []
  else ["--stability=" ++ default "None" (stability interface)]%str.

(** The command line of [aidl_gen_preprocessed]. *)
Definition preprocess_cmd (fs : fsys) (interface : AidlInterface) (v dir : str)
    (deps : dict str dep_info) : list str :=
  [CMD_AIDL; "--preprocess"; preprocessed_file (get_preprocessed_dir interface v)]%str
  ++ stability_flag interface
  ++ map (fun dep => "-p" ++ dep)%str (fst (fst (list_dependencies deps)))
  ++ ["--structured"; "-I" ++ dir]%str
  ++ get_path_for_files fs dir (srcs interface).

Definition aidl_gen_preprocessed (interface : AidlInterface) (v : str)
    (deps : dict str dep_info) : M unit :=
  imprt ← of_res (version_dir interface v);
  found ← exists_path imprt;
  if negb found then
    log ERROR "The import directory %s, does not exist." [imprt] ≫= fun _ =>
    show_dep_error (base_name interface) ≫= fun _ =>
    assert_false "Failed with the above error." []
  else
    fs ← gets w_fs;
    ok ← exec_cmd (preprocess_cmd fs interface v imprt deps);
    if (ok : bool) then mret tt
    else
      show_dep_error (base_name interface) ≫= fun _ =>
      assert_false "Command failed." [].

(** ** [add_dependency] *)

Definition add_dependency (self : ApiDependencies) (interface : AidlInterface) (v : str)
    : M ApiDependencies :=
  let name := base_name interface in
  keep ← match dget (api_dependecies self) name with
         | None => mret false
         | Some old =>
             o ← of_res (py_int (dep_version old));
             n ← of_res (py_int v);
             mret (bool_decide (n <= o)%Z)
         end;
  if (keep : bool) then mret self
  else
    let deps := ddel (api_dependecies self) name in
    imprt ← of_res (version_dir interface v);
    aidl_gen_preprocessed interface v deps ≫= fun _ =>
    mret (set_deps (dset deps name
                      (DepInfo v (get_preprocessed_dir interface v) imprt)) self).

(** ** [process_imports] *)

(** The imports that are followed for one interface. *)
Definition imports_to_follow (interface : AidlInterface) (t : import_type) (v : str)
    : M (dict str str) :=
  match t with
  | Next => nv ← of_res (next_version interface); get_imports interface nv
  | Latest =>
      rec_counter ← gets w_rec_counter;
      if bool_decide (rec_counter = 1%Z) then
        nv ← of_res (next_version interface); get_imports interface nv
      else
        let ver_to_check := latest_version interface in
        if bool_decide (ver_to_check = "0"%str) then
          nv ← of_res (next_version interface); get_imports interface nv
        else get_imports interface ver_to_check
  | Frozen => get_imports interface v
  end.

(** The version at which an import is processed; [pin] is its entry in the
    imports. *)
Definition import_version (imp_interface : AidlInterface) (t : import_type) (pin : str) : res str :=
  match t with
  | Next => next_version imp_interface
  | Latest =>
      if bool_decide (pin = IMPORT_VERSION_UNPINNED) then
        let ver := latest_version imp_interface in
        if bool_decide (ver = "0"%str) then next_version imp_interface else Ok ver
      else Ok pin
  | Frozen => Ok pin
  end.

(** [interfaces[name]] *)
Definition get_interface (interfaces : dict str AidlInterface) (name : str) : res AidlInterface :=
  match dget interfaces name with Some i => Ok i | None => Err (KeyError name) end.

Definition bump (z : Z) : M unit := modify (fun w => set_rec_counter (w_rec_counter w + z) w).

(** The interfaces and their recorded versions, counted. *)
Definition count_versions (interfaces : dict str AidlInterface) : nat :=
  foldr (fun e n => S (length (versions_with_info (snd e)) + n)) 0 interfaces.

(** How deep the recursion can go without processing some interface at some
    version inside itself, which the code would do until the interpreter's
    limit: the interface asked for may come up once more at its latest version,
    and a call may fail before it recurses. *)
Definition recursion_depth (interfaces : dict str AidlInterface) : nat :=
  S (S (count_versions interfaces)).

(** [fuel] bounds the depth of the recursion. *)
Fixpoint process_imports (fuel : nat) (interfaces : dict str AidlInterface)
    (interface : AidlInterface) (api_deps : ApiDependencies) : M ApiDependencies :=
  match fuel with
  | 0 => raise RecursionError
  | S fuel =>
      bump 1 ≫= fun _ =>
      let t := import_ver_type api_deps in
      let interface_version := version api_deps in
      imports ← imports_to_follow interface t interface_version;
      api_deps ← fold_each (imports : dict str str) api_deps (fun api_deps imp =>
        imp_interface ← of_res (get_interface interfaces (fst imp));
        v ← of_res (import_version imp_interface t (snd imp));
        process_imports fuel interfaces imp_interface
          (set_name (base_name imp_interface) (set_version v api_deps)));
      rec_counter ← gets w_rec_counter;
      api_deps ← (if bool_decide (rec_counter <> 1%Z) then
                    d ← add_dependency api_deps interface interface_version;
                    mret (set_name (base_name interface) (set_version interface_version d))
                  else mret api_deps);
      bump (-1) ≫= fun _ => mret api_deps
  end.

(** [get_dependencies] *)
Definition get_dependencies (interface : AidlInterface) (interfaces : dict str AidlInterface)
    (v : str) (is_freeze_api : bool) : M (list str * list str * list str) :=
  nv ← of_res (next_version interface);
  let t := if bool_decide (v = nv) then if is_freeze_api then Latest else Next else Frozen in
  api_deps ← of_res (new_ApiDependencies (base_name interface) t v);
  d ← process_imports (recursion_depth interfaces) interfaces interface api_deps;
  mret (list_dependencies (api_dependecies d)).
End os.
