(* ===== verification/ImportsFacts.v ===== *)
(** * Correctness of the resolution of imports

    The recursion counter is balanced, recorded versions never go down, and
    resolving the next version lists exactly the transitive imports, each
    preprocessed once and after its own imports. *)

From S2P Require Import Prelude PyStr PyStrFacts PyDict Graph Logger PyOs AidlInterface.
From S2P Require Import Examples InterfaceFacts Imports TopoSort.

(** ** The recursion counter *)

Section import_counter.
Context `{Os}.

Lemma keeps_exec_cmd cmd : preserves w_rec_counter (exec_cmd cmd).
Proof.
  intros w. unfold exec_cmd, run.
  destruct (run_process cmd (w_fs w)) as [[r|e] fs]; [|done]. by case_bool_decide.
Qed.

Lemma keeps_show_dep_error name : preserves w_rec_counter (show_dep_error name).
Proof. unfold show_dep_error. preserves. Qed.

Lemma keeps_get_imports self v : preserves w_rec_counter (get_imports self v).
Proof. unfold get_imports, assert_false. pose proof keeps_show_dep_error. preserves. Qed.

Lemma keeps_imports_to_follow i t v : preserves w_rec_counter (imports_to_follow i t v).
Proof. unfold imports_to_follow. pose proof keeps_get_imports. preserves. Qed.

Lemma keeps_add_dependency d i v : preserves w_rec_counter (add_dependency d i v).
Proof.
  unfold add_dependency, aidl_gen_preprocessed, exists_path, assert_false.
  pose proof keeps_show_dep_error. pose proof keeps_exec_cmd. preserves.
Qed.

Lemma process_imports_counter fuel I : forall i d w,
  match process_imports fuel I i d w with
  | (Ok _, w') => w_rec_counter w' = w_rec_counter w
  | (Err _, w') => if fuel is 0 then w' = w else (w_rec_counter w < w_rec_counter w')%Z
  end.
Proof.
  induction fuel as [|fuel IH]; intros i d w; [done|].
  cbn [process_imports]. unfold mbind, M_bind. unfold bump at 1, modify at 1.
  set (w1 := set_rec_counter _ w).
  assert (E1 : w_rec_counter w1 = (w_rec_counter w + 1)%Z) by done. clearbody w1.
  pose proof (keeps_imports_to_follow i (import_ver_type d) (version d) w1) as K1.
  destruct (imports_to_follow _ _ _ w1) as [[imports|e] w2]; cbn in K1; [|lia].
  set (body := fun (api_deps : ApiDependencies) (imp : str * str) => _).
  assert (Hloop : forall l acc w,
    match fold_each l acc body w with
    | (Ok _, w') => w_rec_counter w' = w_rec_counter w
    | (Err _, w') => (w_rec_counter w <= w_rec_counter w')%Z
    end).
  { clear -IH. induction l as [|imp l IHl]; intros acc w; [done|]. cbn [fold_each].
    unfold mbind, M_bind. unfold body at 1, of_res, mbind, M_bind.
    destruct (get_interface I (fst imp)) as [i'|e]; [|lia].
    destruct (import_version i' _ (snd imp)) as [v|e]; [|lia].
    match goal with |- context [process_imports fuel I i' ?dd w] =>
      pose proof (IH i' dd w) as Hp; destruct (process_imports fuel I i' dd w) as [[acc'|e] w'] end.
    - rewrite <- Hp. apply IHl.
    - destruct fuel; [by subst|lia]. }
  specialize (Hloop imports d w2). destruct (fold_each imports d body w2) as [[d'|e] w3]; [|lia].
  unfold gets. set (add := if bool_decide (w_rec_counter w3 <> 1%Z) then _ else _).
  assert (K2 : preserves w_rec_counter add).
  { subst add. pose proof keeps_add_dependency. preserves. }
  specialize (K2 w3). destruct (add w3) as [[d''|e] w4]; cbn in K2 |- *; lia.
Qed.

(** C34: [process_imports] leaves the global [rec_counter] as it found it when
    it returns, and strictly higher when it raises: after a failed resolution
    no later call in the process is treated as the outermost one again. *)
Theorem process_imports_balanced fuel I i d w :
  fuel <> 0 ->
  match process_imports fuel I i d w with
  | (Ok _, w') => w_rec_counter w' = w_rec_counter w
  | (Err _, w') => (w_rec_counter w < w_rec_counter w')%Z
  end.
Proof.
  intros Hf. pose proof (process_imports_counter fuel I i d w) as K.
  destruct fuel; [done|]. by destruct (process_imports _ _ _ _ _) as [[?|?] ?].
Qed.
End import_counter.

Lemma process_imports_balanced_witness :
  match process_imports (H := quiet_os) 4 example_interfaces i_app
          (MkDeps "app" "1" Next []) example_world with
  | (Ok _, w') => w_rec_counter w' = 0%Z
  | (Err _, w') => (0 < w_rec_counter w')%Z
  end.
Proof.
  apply (process_imports_balanced (H := quiet_os) 4 example_interfaces i_app
           (MkDeps "app" "1" Next []) example_world). discriminate.
Defined.

(** ** Recorded versions *)

(** [b] is the same version as [a], or a number at least as high. *)
Definition ver_le (a b : str) : Prop :=
  a = b \/ exists x y, py_int a = Ok x /\ py_int b = Ok y /\ (x <= y)%Z.

#[export] Instance ver_le_preorder : PreOrder ver_le.
Proof.
  split; [by left|]. intros a b c [->|(x & y & Ha & Hb & Hxy)]; [done|].
  intros [<-|(y' & z & Hb' & Hc & Hyz)]; right; [by exists x, y|].
  exists x, z. split_and!; [done..|]. rewrite Hb in Hb'. injection Hb' as ->. lia.
Qed.

(** Every recorded dependency of [d] is recorded in [d'], no lower. *)
Definition raises (d d' : ApiDependencies) : Prop :=
  import_ver_type d' = import_ver_type d /\
  forall name info, dget (api_dependecies d) name = Some info ->
    exists info', dget (api_dependecies d') name = Some info' /\
      ver_le (dep_version info) (dep_version info').

Definition records (d : ApiDependencies) (name v : str) : Prop :=
  exists info, dget (api_dependecies d) name = Some info /\ ver_le v (dep_version info).

#[export] Instance raises_preorder : PreOrder raises.
Proof.
  split.
  - intros d. split; [done|]. intros name info Hi. exists info. split; [done|reflexivity].
  - intros d1 d2 d3 [E1 H1] [E2 H2]. split; [congruence|]. intros name info Hi.
    destruct (H1 _ _ Hi) as (i2 & Hi2 & L2). destruct (H2 _ _ Hi2) as (i3 & Hi3 & L3).
    exists i3. split; [done|]. by etransitivity.
Qed.

#[export] Instance records_proper : Proper (raises ==> eq ==> eq ==> impl) records.
Proof.
  intros d d' [_ Hd] n ? <- v ? <- (info & Hi & L). destruct (Hd _ _ Hi) as (i' & Hi' & L').
  exists i'. split; [done|]. by etransitivity.
Qed.

Section versions.
Context `{Os}.

Lemma add_dependency_raises d i v w d' w' :
  add_dependency d i v w = (Ok d', w') -> raises d d' /\ records d' (base_name i) v.
Proof.
  unfold add_dependency. unfold mbind at 1, M_bind at 1. intros E.
  destruct (dget (api_dependecies d) (base_name i)) as [old|] eqn:Eo.
  - unfold of_res, mbind, M_bind in E.
    destruct (py_int (dep_version old)) as [x|] eqn:Ex; [|done].
    destruct (py_int v) as [y|] eqn:Ey; [|done]. unfold mret, M_ret in E.
    case_bool_decide as Hxy.
    + injection E as <- <-. split; [done|]. exists old. split; [done|]. right. eauto.
    + destruct (version_dir i v); [|done].
      destruct (aidl_gen_preprocessed _ _ _ w) as [[|] ?]; [|done]. injection E as <- <-.
      split.
      * split; [done|]. intros name info Hi. cbn. rewrite dget_dset. case_decide as En.
        -- subst. eexists; split; [done|]. cbn. right. exists x, y.
           simplify_eq. split_and!; [done..|lia].
        -- exists info. by rewrite dget_ddel.
      * eexists. cbn. rewrite dget_dset_eq. split; [done|]. by left.
  - unfold of_res, mbind, M_bind, mret, M_ret in E.
    destruct (version_dir i v); [|done].
    destruct (aidl_gen_preprocessed _ _ _ w) as [[|] ?]; [|done]. injection E as <- <-.
    split.
    + split; [done|]. intros name info Hi. cbn. rewrite dget_dset. case_decide as En; [congruence|].
      exists info. by rewrite dget_ddel.
    + eexists. cbn. rewrite dget_dset_eq. split; [done|]. by left.
Qed.

(** The loop rule for computations that thread a value. *)
Lemma fold_each_inv {A B} (R : A -> A -> Prop) `{!PreOrder R} (body : A -> B -> M A) l :
  (forall acc x w acc' w', x ∈ l -> body acc x w = (Ok acc', w') -> R acc acc') ->
  forall acc w acc' w', fold_each l acc body w = (Ok acc', w') -> R acc acc'.
Proof.
  induction l as [|x l IH]; intros Hb acc w acc' w'; cbn.
  - intros [= <- _]. reflexivity.
  - unfold mbind, M_bind. destruct (body acc x w) as [[a|e] w1] eqn:E; [|done]. intros Hl.
    transitivity a; [by eapply Hb; [left|]|]. eapply IH; [|done].
    intros. eapply Hb; [by right|done].
Qed.

(** C25: a resolution never forgets or lowers what is recorded: every
    dependency stays, at the same version or a higher number, and a nested
    call records its own interface at the version asked for or a higher
    number; so of several versions of one import, none is missed in favour of a
    lower one. *)
Theorem process_imports_raises fuel I i d w d' w' :
  process_imports fuel I i d w = (Ok d', w') ->
  raises d d' /\ ((1 <= w_rec_counter w)%Z -> records d' (base_name i) (version d)).
Proof.
  revert i d w d' w'; induction fuel as [|fuel IH]; intros i d w d' w' E; [done|].
  cbn [process_imports] in E. unfold mbind, M_bind in E. unfold bump at 1, modify at 1 in E.
  pose proof (keeps_imports_to_follow i (import_ver_type d) (version d)
    (set_rec_counter (w_rec_counter w + 1) w)) as K1.
  destruct (imports_to_follow _ _ _ _) as [[imports|e] w2]; [|done]. cbn in K1.
  set (body := fun (api_deps : ApiDependencies) (imp : str * str) => _) in E.
  destruct (fold_each imports d body w2) as [[d1|e] w3] eqn:Eloop; [|done].
  assert (Hloop : raises d d1 /\ w_rec_counter w3 = w_rec_counter w2).
  { assert (Hstep : forall acc x w acc' w', body acc x w = (Ok acc', w') ->
      raises acc acc' /\ w_rec_counter w' = w_rec_counter w).
    { intros acc x w0 acc' w0'. unfold body, of_res, mbind, M_bind.
      destruct (get_interface I (fst x)) as [i'|]; [|done].
      destruct (import_version i' _ (snd x)) as [v|]; [|done]. intros Ep.
      pose proof (process_imports_counter fuel I i'
        (set_name (base_name i') (set_version v acc)) w0) as K. rewrite Ep in K.
      apply IH in Ep as [[Et Hr] _]. by split; [split|]. }
    split.
    - apply (fold_each_inv raises body imports) in Eloop; [done|]. intros. by eapply Hstep.
    - assert (Hl : forall l acc w0 acc' w0', fold_each l acc body w0 = (Ok acc', w0') ->
        w_rec_counter w0' = w_rec_counter w0); [|by eapply Hl].
      clear -Hstep. induction l as [|x l IHl]; intros acc w0 acc' w0' El; [by injection El as _ <-|].
      cbn in El. unfold mbind, M_bind in El.
      destruct (body acc x w0) as [[a|] w1] eqn:Eb; [|done].
      apply Hstep in Eb as [_ <-]. by eapply IHl. }
  destruct Hloop as [Hr Hc]. unfold gets in E. case_bool_decide as Hn.
  - destruct (add_dependency d1 i (version d) w3) as [[d2|e] w4] eqn:Ea; [|done].
    injection E as <- _. apply add_dependency_raises in Ea as [Hr2 Hrec].
    split; [|intros _; exact Hrec]. transitivity d1; [done|]. exact Hr2.
  - injection E as <- _. split; [done|]. lia.
Qed.
End versions.

Lemma process_imports_raises_witness :
  let run := process_imports (H := quiet_os) 4 example_interfaces i_app
               (MkDeps "app" "1" Next []) (set_rec_counter 1 example_world) in
  is_ok (fst run) = true /\
  forall d' w', run = (Ok d', w') -> records d' "app" "1".
Proof.
  split; [vm_compute; reflexivity|]. intros d' w' E.
  apply (process_imports_raises (H := quiet_os) _ _ _ _ _ _ _ E). discriminate.
Defined.

(** ** Resolving the next version *)

(** Interface names and the imports of their definitions. *)
Definition import_graph (I : dict str AidlInterface) : dict str (list str) :=
  map (fun p => (fst p, dkeys (unfrozen_imports (snd p)))) I.

(** Every interface has the directory of its [current] version. *)
Definition in_place (I : dict str AidlInterface) (fs : fsys) : Prop :=
  forall n i, dget I n = Some i -> fs_exists fs (get_versioned_dir i CURRENT_VERSION) = true.

(** Stable interfaces stored under their names, whose imports are all there
    and whose next version is not recorded yet. *)
Record resolvable (I : dict str AidlInterface) : Prop := {
  res_names : forall n i, dget I n = Some i -> base_name i = n;
  res_stable : forall n i, dget I n = Some i -> exists k, numbered i k /\
    dget (versions_with_info i) (fmt_d (Z.of_nat k + 1)) = None;
  res_closed : closed (import_graph I);
  res_acyclic : ~ cyclic (import_graph I)
}.

(** The aidl compiler accepts every input and leaves the versioned
    directories in place. *)
Definition tools_work `{Os} (I : dict str AidlInterface) : Prop :=
  forall cmd fs, in_place I fs ->
    exists r fs', run_process cmd fs = (Ok r, fs') /\ returncode r = 0%Z /\ in_place I fs'.

Definition next_of (i : AidlInterface) : str :=
  match next_version i with Ok v => v | Err _ => [] end.

Definition next_info (i : AidlInterface) : dep_info :=
  DepInfo (next_of i) (get_preprocessed_dir i (next_of i)) (get_versioned_dir i CURRENT_VERSION).

(** What [api_dependecies] holds after the names of [l]. *)
Definition recorded (I : dict str AidlInterface) (l : list str) : dict str dep_info :=
  omap (fun n => (fun i => (n, next_info i)) <$> dget I n) l.

Lemma recorded_app I l1 l2 : recorded I (l1 ++ l2) = recorded I l1 ++ recorded I l2.
Proof. apply omap_app. Qed.

Lemma recorded_keys I l : (forall n, n ∈ l -> n ∈ dkeys I) -> dkeys (recorded I l) = l.
Proof.
  induction l as [|n l IH]; intros Hl; [done|]. unfold recorded. cbn.
  destruct (dget I n) as [i|] eqn:E; [|apply dget_None in E; destruct E; apply Hl; left].
  cbn. f_equal. apply IH. intros m Hm. apply Hl. by right.
Qed.

Lemma dget_recorded I l n i : dget I n = Some i -> n ∈ l -> dget (recorded I l) n = Some (next_info i).
Proof.
  intros Hi. induction l as [|m l IH]; [by intros ?%elem_of_nil|]. intros Hn.
  unfold recorded. cbn. destruct (decide (m = n)) as [->|Hm].
  - rewrite Hi. cbn. by rewrite decide_True.
  - destruct (dget I m) as [j|]; cbn; [rewrite decide_False by done|]; apply IH; set_solver.
Qed.

Lemma import_graph_depth I : length (import_graph I) <= S (count_versions I).
Proof.
  unfold import_graph. rewrite length_map. unfold count_versions.
  induction I as [|e I IH]; cbn [foldr length]; lia.
Qed.

Lemma dget_import_graph I n :
  dget (import_graph I) n = (fun i => dkeys (unfrozen_imports i)) <$> dget I n.
Proof.
  unfold import_graph. induction I as [|[m i] I IH]; [done|]. cbn. by case_decide.
Qed.

Lemma dkeys_import_graph I : dkeys (import_graph I) = dkeys I.
Proof. unfold dkeys, import_graph. rewrite <- list_fmap_compose. done. Qed.

(** [preprocessing seen l cmds]: one command per name of [l], each given the
    preprocessed files of the names before it as [-p] flags. *)
Inductive preprocessing `{Os} (I : dict str AidlInterface) :
    list str -> list str -> list (list str) -> Prop :=
| preprocessing_nil seen : preprocessing I seen [] []
| preprocessing_cons seen n i fs l cmds :
    dget I n = Some i ->
    preprocessing I (seen ++ [n]) l cmds ->
    preprocessing I seen (n :: l)
      (preprocess_cmd fs i (next_of i) (get_versioned_dir i CURRENT_VERSION) (recorded I seen) :: cmds).

Lemma preprocessing_app `{Os} I seen l1 l2 c1 c2 :
  preprocessing I seen l1 c1 -> preprocessing I (seen ++ l1) l2 c2 ->
  preprocessing I seen (l1 ++ l2) (c1 ++ c2).
Proof.
  intros H1 H2. induction H1 as [seen|seen n i fs l cmds Hi _ IH].
  - by rewrite app_nil_r in H2.
  - cbn. constructor; [done|]. apply IH. by rewrite <- app_assoc.
Qed.

Section next.
Context `{Os} (I : dict str AidlInterface) (HI : resolvable I) (HT : tools_work I).

Lemma next_of_spec n i : dget I n = Some i ->
  next_version i = Ok (next_of i) /\ dget (versions_with_info i) (next_of i) = None /\
  exists z, py_int (next_of i) = Ok z.
Proof using HI.
  intros Hi. destruct (res_stable I HI n i Hi) as (k & Hk & Hv). unfold next_of.
  rewrite (next_version_numbered i k Hk). split_and!; [done..|]. eexists. apply py_int_fmt_d.
Qed.

Lemma version_dir_next n i : dget I n = Some i ->
  version_dir i (next_of i) = Ok (get_versioned_dir i CURRENT_VERSION).
Proof using HI.
  intros Hi. unfold version_dir. destruct (next_of_spec n i Hi) as (-> & _ & _). cbn.
  by rewrite bool_decide_eq_true_2.
Qed.

Lemma exec_cmd_works cmd w : in_place I (w_fs w) -> exists w',
  exec_cmd cmd w = (Ok true, w') /\ in_place I (w_fs w') /\
  w_rec_counter w' = w_rec_counter w /\ w_cmds w' = w_cmds w ++ [cmd].
Proof using HT.
  intros Hp. destruct (HT cmd _ Hp) as (r & fs' & Hr & H0 & Hp').
  unfold exec_cmd, run. rewrite Hr, bool_decide_eq_true_2 by done. by eexists.
Qed.

Lemma preprocess_works n i deps w : dget I n = Some i -> in_place I (w_fs w) -> exists w',
  aidl_gen_preprocessed i (next_of i) deps w = (Ok tt, w') /\ in_place I (w_fs w') /\
  w_rec_counter w' = w_rec_counter w /\
  w_cmds w' = w_cmds w ++ [preprocess_cmd (w_fs w) i (next_of i)
                             (get_versioned_dir i CURRENT_VERSION) deps].
Proof using HI HT.
  intros Hi Hp. unfold aidl_gen_preprocessed, of_res, exists_path, gets, mbind, M_bind.
  rewrite (version_dir_next n i Hi), (Hp n i Hi). cbn [negb].
  edestruct exec_cmd_works as (w' & -> & Hw); [done|]. by exists w'.
Qed.

Lemma add_dependency_next n i d seen w :
  dget I n = Some i -> in_place I (w_fs w) -> api_dependecies d = recorded I seen ->
  exists w' k cmds,
    add_dependency d i (next_of i) w =
      (Ok (set_deps (recorded I (if decide (n ∈ seen) then seen else seen ++ [n])) d), w') /\
    in_place I (w_fs w') /\ w_rec_counter w' = w_rec_counter w /\
    w_cmds w' = w_cmds w ++ cmds /\ preprocessing I seen k cmds /\
    (if decide (n ∈ seen) then seen else seen ++ [n]) = seen ++ k.
Proof using HI HT.
  intros Hi Hp Hd. destruct (next_of_spec n i Hi) as (Hn & Hv & z & Hz).
  unfold add_dependency. rewrite (res_names I HI n i Hi), Hd.
  unfold of_res, mbind, M_bind. destruct (decide (n ∈ seen)) as [Hin|Hin].
  - rewrite (dget_recorded I seen n i) by done. cbn. rewrite Hz. unfold mret, M_ret.
    rewrite bool_decide_eq_true_2 by lia. exists w, [], []. rewrite !app_nil_r.
    split_and!; try done; [|constructor]. rewrite <- Hd. by destruct d.
  - assert (Hk : n ∉ dkeys (recorded I seen)).
    { unfold dkeys, recorded. intros (p & -> & (m & Hm & Em)%list_elem_of_omap)%list_elem_of_fmap.
      destruct (dget I m); [|done]. by injection Em as <-. }
    rewrite (proj2 (dget_None _ _) Hk). unfold mret, M_ret.
    assert (ddel (recorded I seen) n = recorded I seen) as Edel.
    { clear -Hk. induction (recorded I seen) as [|[m x] l IH]; [done|]. cbn in *.
      rewrite decide_False by set_solver. f_equal. apply IH. set_solver. }
    rewrite Edel, (version_dir_next n i Hi).
    edestruct (preprocess_works n i (recorded I seen) w) as (w' & -> & Hp' & Hc & Hcmd); [done..|].
    eexists w', [n], _. split_and!; try done.
    + do 3 f_equal. rewrite recorded_app, dset_fresh by done. f_equal. cbn. by rewrite Hi.
    + eapply preprocessing_cons; [done|constructor].
Qed.

(** A nested call extends the recorded names as the traversal does. *)
Definition simulates (seen seen' : list str) (w : world) (r : res ApiDependencies * world) : Prop :=
  exists d' w' k cmds, r = (Ok d', w') /\ import_ver_type d' = Next /\
    api_dependecies d' = recorded I seen' /\ in_place I (w_fs w') /\
    w_rec_counter w' = w_rec_counter w /\
    seen' = seen ++ k /\ w_cmds w' = w_cmds w ++ cmds /\ preprocessing I seen k cmds.

Definition next_step (fuel : nat) (d : ApiDependencies) (imp : str * str) : M ApiDependencies :=
  imp_interface ← of_res (get_interface I (fst imp));
  v ← of_res (import_version imp_interface Next (snd imp));
  process_imports fuel I imp_interface (set_name (base_name imp_interface) (set_version v d)).

Lemma next_loop fuel (Hrec : forall n i seen seen' d w,
    dget I n = Some i -> in_place I (w_fs w) -> (1 <= w_rec_counter w)%Z ->
    import_ver_type d = Next -> version d = next_of i -> api_dependecies d = recorded I seen ->
    visit (import_graph I) fuel seen n = Ok seen' ->
    simulates seen seen' w (process_imports fuel I i d w)) :
  forall l seen seen' d w,
    (forall n, n ∈ dkeys l -> n ∈ dkeys I) -> in_place I (w_fs w) -> (1 <= w_rec_counter w)%Z ->
    import_ver_type d = Next -> api_dependecies d = recorded I seen ->
    foldM_res (visit (import_graph I) fuel) seen (dkeys l) = Ok seen' ->
    simulates seen seen' w (fold_each l d (next_step fuel) w).
Proof using HI HT.
  induction l as [|[n pin] l IH]; intros seen seen' d w Hl Hp Hc Ht Hd Hv.
  - injection Hv as <-. exists d, w, [], []. rewrite !app_nil_r. split_and!; try done. constructor.
  - cbn in Hv. res_inv. destruct (dget I n) as [i|] eqn:Hi;
      [|apply dget_None in Hi; destruct Hi; apply Hl; left].
    cbn [fold_each]. unfold mbind at 1, M_bind at 1.
    assert (next_step fuel d (n, pin) w =
      process_imports fuel I i (set_name (base_name i) (set_version (next_of i) d)) w) as ->.
    { unfold next_step, of_res, mbind, M_bind, get_interface. cbn. rewrite Hi.
      by rewrite (proj1 (next_of_spec n i Hi)). }
    edestruct (Hrec n i seen a (set_name (base_name i) (set_version (next_of i) d)) w)
      as (d1 & w1 & k1 & c1 & -> & Ht1 & Hd1 & Hp1 & Hc1 & -> & Hw1 & Hr1); [done..|].
    destruct (IH (seen ++ k1) seen' d1 w1) as (d2 & w2 & k2 & c2 & -> & Ht2 & Hd2 & Hp2 & Hc2 & -> & Hw2 & Hr2);
      [|done|lia|done..|].
    { intros m Hm. apply Hl. by right. }
    exists d2, w2, (k1 ++ k2), (c1 ++ c2). rewrite Hw2, Hw1. rewrite <- app_assoc in Hd2.
    rewrite <- !app_assoc. split_and!; try done; [lia|]. by apply preprocessing_app.
Qed.

Lemma imports_next n i w : dget I n = Some i ->
  imports_to_follow i Next (next_of i) w = (Ok (unfrozen_imports i), w).
Proof using HI.
  intros Hi. destruct (next_of_spec n i Hi) as (Hn & Hv & _).
  unfold imports_to_follow, of_res. unfold mbind, M_bind. rewrite Hn.
  by apply get_imports_next.
Qed.

Lemma deps_of_import_graph n i : dget I n = Some i ->
  deps_of (import_graph I) n = dkeys (unfrozen_imports i).
Proof using. intros Hi. unfold deps_of. by rewrite dget_import_graph, Hi. Qed.

Lemma imports_known n i m : dget I n = Some i -> m ∈ dkeys (unfrozen_imports i) -> m ∈ dkeys I.
Proof using HI.
  intros Hi Hm. rewrite <- dkeys_import_graph. apply (res_closed I HI n).
  unfold depends. by rewrite (deps_of_import_graph n i Hi).
Qed.

Lemma process_next fuel : forall n i seen seen' d w,
  dget I n = Some i -> in_place I (w_fs w) -> (1 <= w_rec_counter w)%Z ->
  import_ver_type d = Next -> version d = next_of i -> api_dependecies d = recorded I seen ->
  visit (import_graph I) fuel seen n = Ok seen' ->
  simulates seen seen' w (process_imports fuel I i d w).
Proof using HI HT.
  induction fuel as [|fuel IH]; intros n i seen seen' d w Hi Hp Hc Ht Hv Hd E; [done|].
  cbn [visit] in E. res_inv. rewrite (deps_of_import_graph n i Hi) in E0.
  cbn [process_imports]. rewrite Ht, Hv. unfold mbind, M_bind. unfold bump at 1, modify at 1.
  set (w1 := set_rec_counter _ w). rewrite (imports_next n i w1 Hi).
  pose proof (next_loop fuel IH (unfrozen_imports i) seen a d w1
    (fun m => imports_known n i m Hi) Hp ltac:(cbn; lia) Ht Hd E0) as Hloop.
  unfold next_step, mbind, M_bind in Hloop.
  destruct Hloop as (d1 & w2 & k1 & c1 & -> & Ht1 & Hd1 & Hp1 & Hc1 & -> & Hw1 & Hr1).
  unfold gets. rewrite bool_decide_eq_true_2 by (rewrite Hc1; cbn; lia).
  edestruct (add_dependency_next n i d1 (seen ++ k1) w2)
    as (w3 & k2 & c2 & -> & Hp3 & Hc3 & Hw3 & Hr3 & Hk); [done..|].
  rewrite Hk. unfold mret, M_ret, bump, modify.
  eexists _, _, (k1 ++ k2), (c1 ++ c2). split; [reflexivity|].
  cbn. rewrite Hc3, Hc1, Hw3, Hw1. cbn. rewrite <- !app_assoc.
  split_and!; try done; [lia|]. by apply preprocessing_app.
Qed.
End next.

(** C3: with stable interfaces, imports that are all present and acyclic, and
    a working compiler, the dependencies of the next version are found: they
    are exactly the transitive imports, each once, after its own imports and at
    its own next version, whatever the diamonds; the aidl compiler is run once
    per dependency in that order, each time with exactly the dependencies
    already preprocessed; and [rec_counter] is back at 0. *)
Theorem get_dependencies_next `{Os} I name i w :
  resolvable I -> tools_work I -> dget I name = Some i -> in_place I (w_fs w) ->
  w_rec_counter w = 0%Z ->
  exists order cmds w',
    get_dependencies i I (next_of i) false w = (Ok (list_dependencies (recorded I order)), w') /\
    NoDup order /\ (forall n, n ∈ order <-> tc (depends (import_graph I)) name n) /\
    dependencies_first (import_graph I) order /\
    w_cmds w' = w_cmds w ++ cmds /\ preprocessing I [] order cmds /\
    w_rec_counter w' = 0%Z.
Proof.
  intros HI HT Hi Hp Hc. assert (Hkey : name ∈ dkeys (import_graph I)).
  { rewrite dkeys_import_graph. apply dmem_dkeys. unfold dmem. by rewrite Hi. }
  destruct (visits_total (import_graph I) (S (count_versions I)) name [] (import_graph_depth I) (res_closed I HI) (res_acyclic I HI) Hkey)
    as [order E].
  exists order. pose proof (visits_below _ _ _ _ E) as (Hnd & Hdf & Hbelow).
  rewrite (deps_of_import_graph I name i Hi) in E.
  destruct (next_of_spec I HI name i Hi) as (Hnv & _ & _).
  unfold get_dependencies, of_res, new_ApiDependencies. unfold mbind, M_bind. rewrite Hnv.
  rewrite (bool_decide_eq_true_2 (next_of i = next_of i)) by done.
  rewrite (bool_decide_eq_false_2 (Next = Frozen /\ _)) by naive_solver.
  unfold recursion_depth. set (fuel := S (count_versions I)) in *.
  cbn [process_imports import_ver_type version]. unfold mbind, M_bind.
  unfold bump at 1, modify at 1. set (w1 := set_rec_counter _ w).
  rewrite (imports_next I HI name i w1 Hi).
  assert (Hc1 : w_rec_counter w1 = 1%Z) by (cbn; lia).
  pose proof (next_loop I HI HT _ (process_next I HI HT fuel) (unfrozen_imports i)
    [] order (MkDeps (base_name i) (next_of i) Next []) w1
    (fun m => imports_known I HI name i m Hi) Hp ltac:(lia) eq_refl eq_refl E) as Hloop.
  unfold next_step, mbind, M_bind in Hloop.
  destruct Hloop as (d1 & w2 & k1 & cmds & -> & Ht1 & Hd1 & Hp1 & Hc2 & -> & Hw1 & Hr1).
  unfold gets. rewrite bool_decide_eq_false_2 by (rewrite Hc2, Hc1; auto).
  unfold mret, M_ret, bump, modify. exists cmds. eexists. rewrite Hd1.
  split; [reflexivity|]. cbn. rewrite Hc2, Hw1, Hc1. done.
Qed.

(** ** Witness *)

Ltac dict_cases :=
  repeat match goal with
  | H : dget _ ?n = Some _ |- _ => cbn in H; repeat case_decide; subst; simplify_eq
  end.

Lemma example_resolvable : resolvable example_interfaces.
Proof.
  assert (Hc : closed (import_graph example_interfaces)).
  { apply closedb_sound. vm_compute. reflexivity. }
  split; [| |exact Hc|].
  - intros n i Hi. unfold example_interfaces in Hi. dict_cases; reflexivity.
  - intros n i Hi. exists 0. unfold example_interfaces in Hi.
    dict_cases; (split; [split; [discriminate|reflexivity]|reflexivity]).
  - apply (topological_sort_acyclic _ ["common"; "hal"; "app"]%str); [|exact Hc|vm_compute; reflexivity].
    apply (bool_decide_unpack _). vm_compute. exact I.
Qed.

Lemma example_tools : tools_work (H := quiet_os) example_interfaces.
Proof. intros cmd fs Hp. exists (Completed 0 [] []), fs. done. Qed.

Lemma get_dependencies_next_witness :
  exists order cmds w',
    get_dependencies (H := quiet_os) i_app example_interfaces (next_of i_app) false example_world =
      (Ok (list_dependencies (recorded example_interfaces order)), w') /\
    NoDup order /\
    (forall n, n ∈ order <-> tc (depends (import_graph example_interfaces)) "app"%str n) /\
    dependencies_first (import_graph example_interfaces) order /\
    w_cmds w' = [] ++ cmds /\ preprocessing (H := quiet_os) example_interfaces [] order cmds /\
    w_rec_counter w' = 0%Z.
Proof.
  apply (get_dependencies_next (H := quiet_os) example_interfaces "app" i_app example_world).
  - exact example_resolvable.
  - exact example_tools.
  - reflexivity.
  - intros n i Hi. unfold example_interfaces in Hi. dict_cases; vm_compute; reflexivity.
  - reflexivity.
Defined.

(** ** Dotted versions *)

Definition frozen_interface (name v : str) (ver_imports : list str) : AidlInterface :=
  let i := example_interface name [] in
  MkInterface name (srcs i) (interface_root i) (interface_root_stable i) (interface_gen_dir i)
    [] [] ["1"%str] [(v, Some ver_imports)] (stability i) "stable" "aidl" "central" "/ws" SNone
    (interface_root_out i) (interface_api_dir_out i).

(** Two imports that share a dependency at a dotted version. *)
Definition dotted_diamond : dict str AidlInterface :=
  [("top", frozen_interface "top" "1" ["a-v0.1.0.0"; "b-v0.1.0.0"]);
   ("a", frozen_interface "a" "0.1.0.0" ["c-v0.1.0.0"]);
   ("b", frozen_interface "b" "0.1.0.0" ["c-v0.1.0.0"]);
   ("c", frozen_interface "c" "0.1.0.0" [])]%str.

Definition dotted_world : world :=
  World (map (fun n => (n, Directory))
    ["/ws/stable/aidl/a/0.1.0.0"; "/ws/stable/aidl/b/0.1.0.0"; "/ws/stable/aidl/c/0.1.0.0"]%str)
    [] [] 0 [] None [].

(** A dependency met twice is compared by [int], which a dotted version is not:
    the resolution ends in [ValueError] although every version is recorded. *)
Lemma dotted_diamond_raises :
  exists i, dget dotted_diamond "top"%str = Some i /\
    fst (get_dependencies (H := quiet_os) i dotted_diamond "1" false dotted_world) =
      Err (invalid_int "10" "0.1.0.0").
Proof. eexists. split; [reflexivity|]. vm_compute. reflexivity. Qed.
