(* ===== verification/ResolveFacts.v ===== *)
(** * Correctness of import resolution, in all modes

    [process_imports] follows imports in one of three ways: at their next
    versions, at their latest ones, or as a frozen version recorded them.  In
    each, the dependencies are the versions that come up below the direct
    imports, every interface at the highest of its versions. *)

From S2P Require Import Prelude PyStr PyStrFacts PyDict Graph Logger PyOs AidlInterface Examples.
From S2P Require Import InterfaceFacts Imports ImportsFacts.

(** ** The versions that come up *)

(** An interface at a version. *)
Definition version_node : Type := str * str.

(** The imports recorded for a version. *)
Definition frozen_imports (i : AidlInterface) (v : str) : option (dict str str) :=
  match dget (versions_with_info i) v with
  | Some (Some l) => Some (dict_of (map split_versioned l))
  | _ => None
  end.

(** The imports followed for an interface that is itself imported at [v]. *)
Definition followed (i : AidlInterface) (t : import_type) (v : str) : option (dict str str) :=
  match t with
  | Next => Some (unfrozen_imports i)
  | Latest =>
      if decide (latest_version i = "0"%str) then Some (unfrozen_imports i)
      else frozen_imports i (latest_version i)
  | Frozen => frozen_imports i v
  end.

(** The direct imports of the interface asked for. *)
Definition direct (i : AidlInterface) (t : import_type) (v : str) : option (dict str str) :=
  match t with
  | Next | Latest => Some (unfrozen_imports i)
  | Frozen => frozen_imports i v
  end.

Section graph.
Context (I : dict str AidlInterface) (t : import_type).

(** The import of [fst y] among [d] is processed at version [snd y]. *)
Definition resolved (d : dict str str) (y : version_node) : Prop :=
  exists pin j, (fst y, pin) ∈ d /\ dget I (fst y) = Some j /\ import_version j t pin = Ok (snd y).

Definition leads_to (x y : version_node) : Prop :=
  exists i d, dget I (fst x) = Some i /\ followed i t (snd x) = Some d /\ resolved d y.

Definition comes_up (i : AidlInterface) (v : str) (y : version_node) : Prop :=
  exists d c, direct i t v = Some d /\ resolved d c /\ rtc leads_to c y.

(** Every import in [d] is there and has a version. *)
Definition all_resolved (d : dict str str) : Prop :=
  forall m pin, (m, pin) ∈ d -> exists j u, dget I m = Some j /\ import_version j t pin = Ok u.

(** An interface at a version that is a number and recorded, or else its next
    one, which is not recorded yet. *)
Record usable (y : version_node) (j : AidlInterface) : Prop := {
  us_interface : dget I (fst y) = Some j;
  us_next : next_version j = Ok (next_of j) /\ dget (versions_with_info j) (next_of j) = None;
  us_version : snd y = next_of j \/ snd y ∈ dkeys (versions_with_info j);
  us_number : exists z, py_int (snd y) = Ok z;
  us_imports : exists d, followed j t (snd y) = Some d /\ all_resolved d
}.

(** Interfaces under their names, whose versions that come up are usable, and
    whose imports never lead back. *)
Record resolvable_from (i : AidlInterface) (v : str) : Prop := {
  rf_names : forall n j, dget I n = Some j -> base_name j = n;
  rf_next : next_version i = Ok (next_of i) /\ dget (versions_with_info i) (next_of i) = None;
  rf_direct : exists d, direct i t v = Some d /\ all_resolved d;
  rf_usable : forall y, comes_up i v y -> exists j, usable y j;
  rf_acyclic : forall y, comes_up i v y -> ~ tc leads_to y y
}.

Lemma comes_up_below i v x y : comes_up i v x -> rtc leads_to x y -> comes_up i v y.
Proof. intros (d & c & Hd & Hc & Hx) Hy. exists d, c. split_and!; [done..|]. by transitivity x. Qed.

(** ** Finitely many versions *)

Definition all_nodes : list version_node :=
  concat (map (fun p => map (pair (fst p)) (next_of (snd p) :: dkeys (versions_with_info (snd p)))) I).

Lemma usable_node y j : usable y j -> y ∈ all_nodes.
Proof.
  intros [Hj _ Hv _ _]. unfold all_nodes. apply elem_of_concat.
  exists (map (pair (fst y)) (next_of j :: dkeys (versions_with_info j))). split.
  - apply elem_of_map. exists (fst y, j). split; [done|]. by apply dget_Some_elem.
  - apply elem_of_map. exists (snd y). split; [by destruct y|]. apply elem_of_cons. tauto.
Qed.

Lemma all_nodes_length : length all_nodes <= count_versions I.
Proof.
  unfold all_nodes, count_versions. induction I as [|[n i] l IH]; [cbn; lia|].
  cbn [map concat foldr fst snd app length] in *. rewrite length_app, length_map. unfold dkeys at 1.
  rewrite length_fmap. unfold version_node in *. lia.
Qed.
End graph.

(** ** The highest versions of a set of nodes *)

Definition version_le (u v : str) : Prop :=
  exists a b, py_int u = Ok a /\ py_int v = Ok b /\ (a <= b)%Z.

(** The directory of a version. *)
Definition dir_of (i : AidlInterface) (v : str) : str :=
  get_versioned_dir i (if decide (v = next_of i) then CURRENT_VERSION else v).

Definition info_of (i : AidlInterface) (v : str) : dep_info :=
  DepInfo v (get_preprocessed_dir i v) (dir_of i v).

(** [deps] records exactly the interfaces in [S], each at its highest version
    in [S]. *)
Record highest (I : dict str AidlInterface) (S : version_node -> Prop) (deps : dict str dep_info) : Prop := {
  hi_keys : NoDup (dkeys deps);
  hi_sound : forall n info, dget deps n = Some info ->
    S (n, dep_version info) /\ exists i, dget I n = Some i /\ info = info_of i (dep_version info);
  hi_complete : forall n u, S (n, u) -> exists info, dget deps n = Some info /\ version_le u (dep_version info)
}.

Lemma highest_equiv I S S' deps : (forall x, S x <-> S' x) -> highest I S deps -> highest I S' deps.
Proof.
  intros HS [H1 H2 H3]. split; [done| |].
  - intros n info Hn. rewrite <- HS. by apply H2.
  - intros n u Hu. apply H3. by apply HS.
Qed.

Lemma highest_keep I S deps n v info :
  highest I S deps -> dget deps n = Some info -> version_le v (dep_version info) ->
  highest I (fun x => S x \/ x = (n, v)) deps.
Proof.
  intros [H1 H2 H3] Hn Hle. split; [done| |].
  - intros m info' Hm. destruct (H2 m info' Hm). auto.
  - intros m u [Hu|[= -> ->]]; [by apply H3|eauto].
Qed.

Lemma highest_raise I S deps n v i :
  highest I S deps -> dget I n = Some i -> version_le v v ->
  (forall info, dget deps n = Some info -> version_le (dep_version info) v) ->
  highest I (fun x => S x \/ x = (n, v)) (dset (ddel deps n) n (info_of i v)).
Proof.
  intros [H1 H2 H3] Hi Hv Hle. split.
  - apply NoDup_dset. by apply NoDup_ddel.
  - intros m info. rewrite dget_dset. case_decide as E.
    + intros [= <-]. subst. cbn. split; [by right|eauto].
    + rewrite dget_ddel by done. intros Hm. destruct (H2 m info Hm). auto.
  - intros m u Hu. rewrite dget_dset. case_decide as E.
    + subst. exists (info_of i v). split; [done|]. cbn. destruct Hu as [Hu|[= <-]]; [|done].
      apply H3 in Hu as (info & Hinfo & a & b & Ha & Hb & Hab).
      destruct (Hle info Hinfo) as (b' & c & Hb' & Hc & Hbc). exists a, c. split_and!; [done..|].
      rewrite Hb in Hb'. injection Hb' as <-. lia.
    + rewrite dget_ddel by done. destruct Hu as [Hu|[= -> ->]]; [by apply H3|done].
Qed.

(** ** The resolution *)

(** Commands succeed and leave [P] true of the files. *)
Definition tools_keep `{Os} (P : fsys -> Prop) : Prop :=
  forall cmd fs, P fs -> exists r fs', run_process cmd fs = (Ok r, fs') /\ returncode r = 0%Z /\ P fs'.

Lemma exec_cmd_keeps `{Os} P cmd w : tools_keep P -> P (w_fs w) -> exists w',
  exec_cmd cmd w = (Ok true, w') /\ P (w_fs w') /\ w_rec_counter w' = w_rec_counter w.
Proof.
  intros HT Hp. destruct (HT cmd _ Hp) as (r & fs' & Hr & H0 & Hp').
  unfold exec_cmd, run. rewrite Hr, bool_decide_eq_true_2 by done. by eexists.
Qed.

Lemma frozen_imports_run i v d w : frozen_imports i v = Some d -> get_imports i v w = (Ok d, w).
Proof.
  unfold frozen_imports. destruct (dget (versions_with_info i) v) as [[l|]|] eqn:E; [|done..].
  intros [= <-]. by apply get_imports_frozen.
Qed.

Lemma followed_run i t v d w :
  next_version i = Ok (next_of i) /\ dget (versions_with_info i) (next_of i) = None ->
  w_rec_counter w <> 1%Z -> followed i t v = Some d -> imports_to_follow i t v w = (Ok d, w).
Proof.
  intros [Hn Hv] Hc Hd. unfold imports_to_follow. destruct t; cbn in Hd.
  - injection Hd as <-. unfold of_res, mbind, M_bind. rewrite Hn. by apply get_imports_next.
  - unfold gets. unfold mbind at 1, M_bind at 1. rewrite bool_decide_eq_false_2 by done. case_decide as E.
    + injection Hd as <-. rewrite bool_decide_eq_true_2 by done. unfold of_res, mbind, M_bind. rewrite Hn.
      by apply get_imports_next.
    + rewrite bool_decide_eq_false_2 by done. by apply frozen_imports_run.
  - by apply frozen_imports_run.
Qed.

Lemma direct_run i t v d w :
  next_version i = Ok (next_of i) /\ dget (versions_with_info i) (next_of i) = None ->
  w_rec_counter w = 1%Z -> direct i t v = Some d -> imports_to_follow i t v w = (Ok d, w).
Proof.
  intros [Hn Hv] Hc Hd. unfold imports_to_follow. destruct t; cbn in Hd.
  - injection Hd as <-. unfold of_res, mbind, M_bind. rewrite Hn. by apply get_imports_next.
  - unfold gets. unfold mbind at 1, M_bind at 1. rewrite bool_decide_eq_true_2 by done.
    injection Hd as <-. unfold of_res, mbind, M_bind. rewrite Hn. by apply get_imports_next.
  - by apply frozen_imports_run.
Qed.

Section resolution.
Context `{Os} (I : dict str AidlInterface) (t : import_type) (top : AidlInterface) (v0 : str).
Context (HI : resolvable_from I t top v0).
Context (P : fsys -> Prop) (HT : tools_keep P).
Context (HP : forall fs y j, P fs -> comes_up I t top v0 y -> usable I t y j ->
                fs_exists fs (dir_of j (snd y)) = true).

Notation leads_to := (leads_to I t).
Notation valid := (comes_up I t top v0).

Lemma version_dir_usable y j : usable I t y j -> version_dir j (snd y) = Ok (dir_of j (snd y)).
Proof using.
  intros [_ [Hn _] _ _ _]. unfold version_dir, dir_of. rewrite Hn. cbn. f_equal. f_equal.
  by case_decide; case_bool_decide.
Qed.

Lemma valid_number y : valid y -> exists z, py_int (snd y) = Ok z.
Proof using HI. intros Hy. destruct (rf_usable _ _ _ _ HI y Hy) as [j Hj]. apply Hj. Qed.

(** Recording a dependency keeps the highest versions. *)
Lemma add_dependency_highest x i d S w :
  valid x -> usable I t x i -> (forall y, S y -> valid y) ->
  P (w_fs w) -> highest I S (api_dependecies d) ->
  exists d' w', add_dependency d i (snd x) w = (Ok d', w') /\ import_ver_type d' = import_ver_type d /\
    highest I (fun y => S y \/ y = x) (api_dependecies d') /\ P (w_fs w') /\
    w_rec_counter w' = w_rec_counter w.
Proof using HI HT HP.
  intros Hx Hu HS Hp Hd. pose proof (us_interface _ _ _ _ Hu) as Hi.
  destruct (us_number _ _ _ _ Hu) as [b Hb].
  pose proof (version_dir_usable x i Hu) as Hdir. pose proof (HP _ x i Hp Hx Hu) as Hex.
  destruct x as [n v]. cbn [fst snd] in *.
  unfold add_dependency. rewrite (rf_names _ _ _ _ HI n i Hi). unfold of_res, mbind, M_bind.
  assert (Hraise : (forall info, dget (api_dependecies d) n = Some info -> version_le (dep_version info) v) ->
    exists d' w', match version_dir i v with
      | Ok imprt => match aidl_gen_preprocessed i v (ddel (api_dependecies d) n) w with
                    | (Ok _, w) => (mret (set_deps (dset (ddel (api_dependecies d) n) n
                                     (DepInfo v (get_preprocessed_dir i v) imprt)) d) : M ApiDependencies) w
                    | (Err e, w) => (Err e, w) end
      | Err e => (Err e, w) end = (Ok d', w') /\ import_ver_type d' = import_ver_type d /\
    highest I (fun y => S y \/ y = (n, v)) (api_dependecies d') /\ P (w_fs w') /\
    w_rec_counter w' = w_rec_counter w).
  { intros Hle. unfold aidl_gen_preprocessed, of_res, exists_path, gets, mbind, M_bind.
    rewrite Hdir, Hex. cbn [negb].
    edestruct exec_cmd_keeps as (w' & -> & Hp' & Hc); [exact HT|exact Hp|].
    eexists _, w'. split; [reflexivity|]. split; [done|]. split; [|done]. cbn.
    apply (highest_raise I S _ n v i); [done..| |done]. by exists b, b. }
  destruct (dget (api_dependecies d) n) as [old|] eqn:Eold.
  - destruct (hi_sound _ _ _ Hd n old Eold) as [Hold _]. apply HS in Hold.
    destruct (valid_number _ Hold) as [a Ha]. cbn [snd] in Ha. rewrite Ha, Hb. unfold mret at 1, M_ret at 1.
    case_bool_decide as Hab.
    + exists d, w. split; [done|]. split; [done|]. split; [|done].
      eapply highest_keep; [done..|]. by exists b, a.
    + apply Hraise. intros info [= <-]. exists a, b. split_and!; [done..|lia].
  - unfold mret at 1, M_ret at 1. by apply Hraise.
Qed.

(** The state of the resolution: the versions in [S] have been recorded. *)
Record starts (S : version_node -> Prop) (d : ApiDependencies) (w : world) : Prop := {
  st_valid : forall y, S y -> valid y;
  st_highest : highest I S (api_dependecies d);
  st_type : import_ver_type d = t;
  st_place : P (w_fs w)
}.

Lemma starts_equiv S S' d w : (forall y, S y <-> S' y) -> starts S d w -> starts S' d w.
Proof using.
  intros HE [H1 H2 H3 H4]. split; [|eapply highest_equiv; [exact HE|done]|done..].
  intros y Hy. apply H1. by apply HE.
Qed.

(** A call that succeeds has added the versions in [T]. *)
Definition resolves (S T : version_node -> Prop) (w : world) (r : res ApiDependencies * world) : Prop :=
  exists d' w', r = (Ok d', w') /\ starts (fun y => S y \/ T y) d' w' /\ w_rec_counter w' = w_rec_counter w.

(** What comes up below the imports in [d]. *)
Definition below_imports (d : dict str str) (y : version_node) : Prop :=
  exists c, resolved I t d c /\ rtc leads_to c y.

Definition import_body (fuel : nat) (d : ApiDependencies) (imp : str * str) : M ApiDependencies :=
  imp_interface ← of_res (get_interface I (fst imp));
  v ← of_res (import_version imp_interface t (snd imp));
  process_imports fuel I imp_interface (set_name (base_name imp_interface) (set_version v d)).

Lemma below_imports_nil y : ~ below_imports [] y.
Proof using. intros (c & (pin & j & Hc & _) & _). by apply elem_of_nil in Hc. Qed.

Lemma below_imports_cons m pin j u d y :
  dget I m = Some j -> import_version j t pin = Ok u ->
  below_imports ((m, pin) :: d) y <-> rtc leads_to (m, u) y \/ below_imports d y.
Proof using.
  intros Hj Hu. split.
  - intros (c & (pin' & j' & Hc & Hj' & Hu') & Hy). apply elem_of_cons in Hc as [[= E1 ->]|Hc].
    + left. rewrite E1, Hj in Hj'. injection Hj' as <-. rewrite Hu in Hu'. injection Hu' as E2.
      by replace (m, u) with c by (destruct c; cbn in *; congruence).
    + right. exists c. split; [by exists pin', j'|done].
  - intros [Hy|(c & (pin' & j' & Hc & Hj' & Hu') & Hy)].
    + exists (m, u). split; [|done]. exists pin, j. split_and!; [left|done..].
    + exists c. split; [|done]. exists pin', j'. split_and!; [by right|done..].
Qed.

(** The loop over imports: it adds what comes up below them, or one of them
    leads as deep as there is fuel. *)
Lemma import_loop_resolves fuel (Hrec : forall x i S d w, valid x -> usable I t x i ->
    starts S d w -> version d = snd x -> (1 <= w_rec_counter w)%Z ->
    resolves S (rtc leads_to x) w (process_imports fuel I i d w) \/ deep leads_to fuel x) :
  forall (l : dict str str) S d w,
    all_resolved I t l -> (forall c, resolved I t l c -> valid c) ->
    starts S d w -> (1 <= w_rec_counter w)%Z ->
    resolves S (below_imports l) w (fold_each l d (import_body fuel) w) \/
    exists c, resolved I t l c /\ deep leads_to fuel c.
Proof using HI.
  induction l as [|[m pin] l IH]; intros S d w Hl Hval Hs Hc.
  - left. exists d, w. split; [done|]. split; [|done]. eapply starts_equiv; [|exact Hs].
    intros y. split; [auto|]. intros [Hy|Hy]; [done|by apply below_imports_nil in Hy].
  - destruct (Hl m pin) as (j & u & Hj & Hu); [left|].
    assert (Hx : resolved I t ((m, pin) :: l) (m, u)) by (exists pin, j; split_and!; [left|done..]).
    pose proof (Hval _ Hx) as Hvx. destruct (rf_usable _ _ _ _ HI _ Hvx) as [j' Hus].
    assert (j' = j) as -> by (pose proof (us_interface _ _ _ _ Hus); cbn in *; congruence).
    cbn [fold_each]. unfold mbind at 1, M_bind at 1.
    assert (import_body fuel d (m, pin) w =
      process_imports fuel I j (set_name (base_name j) (set_version u d)) w) as ->.
    { unfold import_body, of_res, mbind, M_bind, get_interface. cbn [fst snd]. by rewrite Hj, Hu. }
    destruct (Hrec (m, u) j S (set_name (base_name j) (set_version u d)) w)
      as [(d1 & w1 & -> & Hs1 & Hc1)|Hd]; try done; [by destruct Hs; split| |right; by exists (m, u)].
    assert (Hval' : forall c, resolved I t l c -> valid c).
    { intros c (pin' & j' & Hcl & Hc'). apply Hval. exists pin', j'. split; [by right|done]. }
    destruct (IH _ d1 w1 (fun n p Hn => Hl n p (list_elem_of_further _ _ _ Hn)) Hval' Hs1 ltac:(lia))
      as [(d2 & w2 & -> & Hs2 & Hc2)|(c & (pin' & j' & Hcl & Hc') & Hd)].
    + left. exists d2, w2. split; [done|]. split; [|lia]. eapply starts_equiv; [|exact Hs2].
      intros y. rewrite (below_imports_cons m pin j u l y Hj Hu). tauto.
    + right. exists c. split; [|done]. exists pin', j'. split; [by right|done].
Qed.

(** A nested call adds the version it is for and all below it. *)
Lemma process_imports_resolves fuel : forall x i S d w, valid x -> usable I t x i ->
  starts S d w -> version d = snd x -> (1 <= w_rec_counter w)%Z ->
  resolves S (rtc leads_to x) w (process_imports fuel I i d w) \/ deep leads_to fuel x.
Proof using HI HT HP.
  induction fuel as [|fuel IH]; intros x i S d w Hx Hu Hs Hv Hc; [right; apply deep_0|].
  pose proof (us_interface _ _ _ _ Hu) as Hi. destruct (us_imports _ _ _ _ Hu) as (imps & Hd & Hall).
  cbn [process_imports]. rewrite (st_type _ _ _ Hs), Hv. unfold mbind, M_bind. unfold bump at 1, modify at 1.
  set (w1 := set_rec_counter _ w).
  rewrite (followed_run i t (snd x) imps w1 (us_next _ _ _ _ Hu) ltac:(cbn; lia) Hd).
  assert (Hchild : forall c, resolved I t imps c -> leads_to x c) by (intros c Hc'; by exists i, imps).
  assert (Hs1 : starts S d w1) by (destruct Hs; by split).
  assert (Hval : forall c, resolved I t imps c -> valid c).
  { intros c Hc'. eapply comes_up_below; [done|]. by apply rtc_once, Hchild. }
  destruct (import_loop_resolves fuel IH imps S d w1 Hall Hval Hs1 ltac:(cbn; lia))
    as [(d1 & w2 & E & Hs2 & Hc2)|(c & Hc' & Hdeep)].
  - left. unfold import_body, mbind, M_bind in E. rewrite E. clear E.
    unfold gets. rewrite bool_decide_eq_true_2 by (rewrite Hc2; cbn; lia).
    destruct Hs2 as [H1 H2 H3 H4].
    destruct (add_dependency_highest x i d1 _ w2 Hx Hu H1 H4 H2) as (d2 & w3 & -> & Ht & Hh & Hp & Hc3).
    unfold mret, M_ret, modify. eexists _, _. split; [reflexivity|]. cbn. split; [|rewrite Hc3, Hc2; cbn; lia].
    assert (HE : forall y, (S y \/ below_imports imps y) \/ y = x <-> S y \/ rtc leads_to x y).
    { intros y. assert (rtc leads_to x y <-> y = x \/ below_imports imps y); [|tauto]. split.
      - intros Hy. inversion Hy as [|? c ? Hxc Hcy]; subst; [by left|right].
        destruct Hxc as (i' & d' & Hi' & Hd' & Hr). exists c. split; [|done].
        rewrite Hi in Hi'. injection Hi' as <-. rewrite Hd in Hd'. by injection Hd' as <-.
      - intros [->|(c & Hr & Hy)]; [done|]. apply rtc_l with c; [by apply Hchild|done]. }
    split; [|eapply highest_equiv; [exact HE|exact Hh]|cbn; congruence|done].
    intros y [Hy|Hy]; [by apply (st_valid _ _ _ Hs)|by eapply comes_up_below].
  - right. apply deep_S with c; [by apply Hchild|done].
Qed.
End resolution.

(** How the imports of a version are followed. *)
Definition import_mode (i : AidlInterface) (v : str) (is_freeze_api : bool) : import_type :=
  if decide (v = next_of i) then if is_freeze_api then Latest else Next else Frozen.

(** The directories of all versions that come up are there. *)
Definition versions_in_place (I : dict str AidlInterface) (t : import_type) (i : AidlInterface) (v : str)
    (fs : fsys) : Prop :=
  forall y j, comes_up I t i v y -> usable I t y j -> fs_exists fs (dir_of j (snd y)) = true.

Lemma resolve_highest `{Os} I P i v is_freeze_api w :
  let t := import_mode i v is_freeze_api in
  v <> [] -> resolvable_from I t i v ->
  tools_keep P -> (forall fs, P fs -> versions_in_place I t i v fs) -> P (w_fs w) ->
  w_rec_counter w = 0%Z ->
  exists deps w',
    get_dependencies i I v is_freeze_api w = (Ok (list_dependencies deps), w') /\
    highest I (comes_up I t i v) deps /\ P (w_fs w') /\ w_rec_counter w' = 0%Z.
Proof.
  intros t Hnil HI HT HP Hp Hc.
  destruct (rf_direct _ _ _ _ HI) as (imps & Hd & Hall). pose proof (rf_next _ _ _ _ HI) as Hn.
  assert (HP' : forall fs y j, P fs -> comes_up I t i v y -> usable I t y j -> fs_exists fs (dir_of j (snd y)) = true)
    by (intros fs y j Hf; by apply HP).
  unfold get_dependencies, of_res, new_ApiDependencies, recursion_depth. unfold mbind, M_bind.
  rewrite (proj1 Hn).
  assert (Ht : (if bool_decide (v = next_of i) then if is_freeze_api then Latest else Next else Frozen) = t).
  { unfold t, import_mode. by case_decide; case_bool_decide. }
  rewrite Ht. rewrite (bool_decide_eq_false_2 (t = Frozen /\ v = [])) by naive_solver.
  set (fuel := S (count_versions I)). cbn [process_imports import_ver_type version]. unfold mbind, M_bind.
  unfold bump at 1, modify at 1. set (w1 := set_rec_counter _ w).
  rewrite (direct_run i t v imps w1 Hn ltac:(cbn; lia) Hd).
  set (d0 := MkDeps (base_name i) v t []).
  assert (Hs : starts I t i v P (fun _ => False) d0 w1).
  { split; [done| |done..]. split; [constructor|done|done]. }
  assert (Hval : forall c, resolved I t imps c -> comes_up I t i v c) by (intros c Hc'; by exists imps, c).
  destruct (import_loop_resolves I t i v HI P fuel (process_imports_resolves I t i v HI P HT HP' fuel)
              imps _ d0 w1 Hall Hval Hs ltac:(cbn; lia)) as [(d1 & w2 & E & Hs2 & Hc2)|(c & Hc' & Hdeep)].
  - unfold import_body, mbind, M_bind in E. rewrite E. clear E.
    unfold gets. rewrite bool_decide_eq_false_2 by (rewrite Hc2; cbn; lia).
    unfold mret, M_ret, modify. eexists _, _. split; [reflexivity|]. cbn.
    destruct Hs2 as [H1 H2 H3 H4]. split; [|split; [done|rewrite Hc2; cbn; lia]].
    eapply highest_equiv; [|exact H2]. intros y. split.
    + intros [[]|(c & Hr & Hy)]. by exists imps, c.
    + intros (d & c & Hd' & Hr & Hy). right. exists c. split; [|done].
      rewrite Hd in Hd'. by injection Hd' as <-.
  - exfalso. apply (deep_cycle _ _ _ (all_nodes I)) in Hdeep as (z & Hcz & Hz).
    + apply (rf_acyclic _ _ _ _ HI z); [|done]. apply (comes_up_below _ _ _ _ c); [by apply Hval|]. by apply tc_rtc.
    + intros z Hz. destruct (rf_usable _ _ _ _ HI z) as [j Hj].
      { apply (comes_up_below _ _ _ _ c); [by apply Hval|]. by apply tc_rtc. }
      by eapply usable_node.
    + pose proof (all_nodes_length I). lia.
Qed.

(** C4: resolution finds the dependencies of a version in every mode (imports at
    their next versions, at their latest ones for a freeze, or as a frozen
    version recorded them), whatever the diamonds and version conflicts: they
    are exactly the interfaces that come up directly or not below that version,
    each once and at the highest of the versions at which it comes up, with the
    directory of that version; and [rec_counter] is back at 0.  The recursion
    never needs to be deeper than there are versions.  What comes up must exist,
    be numbered and on disk and not lead back; the compiler must work. *)
Theorem get_dependencies_highest `{Os} I i v is_freeze_api w :
  let t := import_mode i v is_freeze_api in
  v <> [] -> resolvable_from I t i v ->
  tools_keep (versions_in_place I t i v) -> versions_in_place I t i v (w_fs w) ->
  w_rec_counter w = 0%Z ->
  exists deps w',
    get_dependencies i I v is_freeze_api w = (Ok (list_dependencies deps), w') /\
    NoDup (dkeys deps) /\
    (forall n, n ∈ dkeys deps <-> exists u, comes_up I t i v (n, u)) /\
    (forall n info, dget deps n = Some info ->
       comes_up I t i v (n, dep_version info) /\
       (forall u, comes_up I t i v (n, u) -> version_le u (dep_version info)) /\
       exists j, dget I n = Some j /\ info = info_of j (dep_version info)) /\
    w_rec_counter w' = 0%Z.
Proof.
  intros t Hnil HI HT Hp Hc.
  destruct (resolve_highest I _ i v is_freeze_api w Hnil HI HT (fun _ Hf => Hf) Hp Hc)
    as (deps & w' & E & [Hk Hs Hall] & _ & Hc').
  exists deps, w'. split; [done|]. split; [done|]. split; [|split; [|done]].
  - intros n. split.
    + intros Hn%dmem_dkeys. unfold dmem in Hn. destruct (dget deps n) as [info|] eqn:En; [|done].
      destruct (Hs n info En) as [Ht _]. eauto.
    + intros (u & Hu). destruct (Hall n u Hu) as (info & Hinfo & _). apply dmem_dkeys. unfold dmem. by rewrite Hinfo.
  - intros n info Hn. destruct (Hs n info Hn) as [Ht Hj]. split; [done|]. split; [|done].
    intros u Hu. destruct (Hall n u Hu) as (info' & Hinfo' & Hle). congruence.
Qed.

(** ** Deciding the hypotheses *)

Section decide.
Context (I : dict str AidlInterface) (t : import_type).

Definition children (d : dict str str) : list version_node :=
  omap (fun e => j ← dget I (fst e);
                 match import_version j t (snd e) with Ok u => Some (fst e, u) | Err _ => None end) d.

Lemma elem_of_children d y : y ∈ children d <-> resolved I t d y.
Proof.
  unfold children, resolved. rewrite list_elem_of_omap. split.
  - intros ([m pin] & He & E). cbn in E. destruct (dget I m) as [j|] eqn:Ej; [|done]. cbn in E.
    destruct (import_version j t pin) as [u|] eqn:Eu; [|done]. injection E as <-. by exists pin, j.
  - intros (pin & j & He & Hj & Hu). exists (fst y, pin). split; [done|]. cbn. rewrite Hj. cbn. rewrite Hu.
    by destruct y.
Qed.

Definition node_children (x : version_node) : list version_node :=
  match dget I (fst x) with
  | Some i => match followed i t (snd x) with Some d => children d | None => [] end
  | None => []
  end.

Lemma elem_of_node_children x y : leads_to I t x y -> y ∈ node_children x.
Proof. intros (i & d & Hi & Hd & Hr). unfold node_children. rewrite Hi, Hd. by apply elem_of_children. Qed.

Definition all_resolvedb (d : dict str str) : bool :=
  forallb (fun e => match dget I (fst e) with
                    | Some j => is_ok (import_version j t (snd e))
                    | None => false
                    end) d.

Lemma all_resolvedb_sound d : all_resolvedb d = true -> all_resolved I t d.
Proof.
  unfold all_resolvedb. rewrite forallb_forall. intros H m pin Hm.
  specialize (H (m, pin) (proj1 (list_elem_of_In _ _) Hm)). cbn in H.
  destruct (dget I m) as [j|]; [|done]. destruct (import_version j t pin) as [u|] eqn:E; [|done]. by exists j, u.
Qed.

Definition nextb (i : AidlInterface) : bool :=
  bool_decide (next_version i = Ok (next_of i)) && negb (dmem (versions_with_info i) (next_of i)).

Lemma nextb_sound i : nextb i = true ->
  next_version i = Ok (next_of i) /\ dget (versions_with_info i) (next_of i) = None.
Proof.
  unfold nextb, dmem. intros [H1%bool_decide_eq_true H2]%andb_true_iff. split; [done|].
  by destruct (dget _ _).
Qed.

Definition usableb (y : version_node) : bool :=
  match dget I (fst y) with
  | Some j =>
      nextb j && bool_decide (snd y = next_of j \/ snd y ∈ dkeys (versions_with_info j)) &&
      is_ok (py_int (snd y)) &&
      match followed j t (snd y) with Some d => all_resolvedb d | None => false end
  | None => false
  end.

Lemma usableb_sound y : usableb y = true -> exists j, usable I t y j.
Proof.
  unfold usableb. destruct (dget I (fst y)) as [j|] eqn:Ej; [|done]. rewrite !andb_true_iff.
  intros [[[Hn%nextb_sound Hv%bool_decide_eq_true] Hz] Hd]. exists j. split; try done.
  - destruct (py_int (snd y)); [eauto|done].
  - destruct (followed j t (snd y)) as [d|]; [|done]. exists d. split; [done|]. by apply all_resolvedb_sound.
Qed.

(** [nodes] holds all versions that come up, and [rank] falls along imports. *)
Definition resolvable_fromb (rank : version_node -> nat) (nodes : list version_node) (i : AidlInterface) (v : str) : bool :=
  forallb (fun e => bool_decide (base_name (snd e) = fst e)) I && nextb i &&
  match direct i t v with
  | Some d => all_resolvedb d && forallb (fun c => bool_decide (c ∈ nodes)) (children d)
  | None => false
  end &&
  forallb (fun x => usableb x &&
    forallb (fun y => bool_decide (y ∈ nodes) && (rank y <? rank x)) (node_children x)) nodes.

Lemma forallb_elem {A} (f : A -> bool) l x : forallb f l = true -> x ∈ l -> f x = true.
Proof. rewrite forallb_forall. intros H Hx. apply H. by apply list_elem_of_In. Qed.

Context (rank : version_node -> nat) (nodes : list version_node) (i : AidlInterface) (v : str).
Context (Hb : resolvable_fromb rank nodes i v = true).

Lemma comes_up_nodes y : comes_up I t i v y -> y ∈ nodes.
Proof using Hb.
  unfold resolvable_fromb in Hb. rewrite !andb_true_iff in Hb. destruct Hb as [[_ Hd] Hn].
  intros (d & c & Ed & Hc%elem_of_children & Hy). rewrite Ed in Hd.
  apply andb_true_iff in Hd as [_ Hd]. apply (forallb_elem _ _ _ Hd), bool_decide_eq_true in Hc.
  clear -Hn Hc Hy. induction Hy as [c|c z y Hcz _ IH]; [done|]. apply IH.
  apply (forallb_elem _ _ _ Hn), andb_true_iff in Hc as [_ Hc].
  apply elem_of_node_children, (forallb_elem _ _ _ Hc), andb_true_iff in Hcz as [Hz%bool_decide_eq_true _]. done.
Qed.

Lemma resolvable_fromb_sound : resolvable_from I t i v.
Proof using Hb.
  pose proof comes_up_nodes as Hin. unfold resolvable_fromb in Hb. rewrite !andb_true_iff in Hb.
  destruct Hb as [[[Hnames Hnext%nextb_sound] Hd] Hn]. split.
  - intros n j Hj%dget_Some_elem. by apply (forallb_elem _ _ _ Hnames), bool_decide_eq_true in Hj.
  - done.
  - destruct (direct i t v) as [d|]; [|done]. apply andb_true_iff in Hd as [Hd _]. exists d. split; [done|].
    by apply all_resolvedb_sound.
  - intros y Hy%Hin. apply (forallb_elem _ _ _ Hn), andb_true_iff in Hy as [Hy _]. by apply usableb_sound.
  - intros y Hy%Hin Ht. assert (Hrank : forall y z, y ∈ nodes -> tc (leads_to I t) y z -> z ∈ nodes /\ rank z < rank y).
    { clear -Hn. assert (Hstep : forall y z, y ∈ nodes -> leads_to I t y z -> z ∈ nodes /\ rank z < rank y).
      { intros y z Hy Hz. apply (forallb_elem _ _ _ Hn), andb_true_iff in Hy as [_ Hy].
        apply elem_of_node_children, (forallb_elem _ _ _ Hy), andb_true_iff in Hz as [Hz%bool_decide_eq_true Hr].
        split; [done|]. by apply Nat.ltb_lt. }
      intros y z Hy Ht. induction Ht as [y z Hyz|y u z Hyu _ IH]; [by apply Hstep|].
      destruct (Hstep _ _ Hy Hyu) as [Hu Hr]. destruct (IH Hu) as [Hz Hr2]. split; [done|lia]. }
    destruct (Hrank y y Hy Ht). lia.
Qed.
End decide.

(** ** Witness: a diamond with two versions of its lowest interface *)

(** [b] was frozen later than [a], against version 2 of [c]. *)
Definition i_top : AidlInterface := frozen_interface "top" "1" ["a-v1"; "b-v1"]%str.
Definition frozen_diamond : dict str AidlInterface :=
  [("top", i_top); ("a", frozen_interface "a" "1" ["c-v1"]);
   ("b", frozen_interface "b" "1" ["c-v2"]); ("c", with_versions (example_interface "c" []) 2)]%str.

Definition frozen_diamond_world : world :=
  World (map (fun p => (p, Directory))
    ["/ws/stable/aidl/a/1"; "/ws/stable/aidl/b/1"; "/ws/stable/aidl/c/1"; "/ws/stable/aidl/c/2"]%str) [] [] 0 [] None [].

Definition frozen_diamond_nodes : list version_node := [("a", "1"); ("b", "1"); ("c", "1"); ("c", "2")]%str.

Lemma frozen_diamond_check :
  resolvable_fromb frozen_diamond Frozen (fun x => if decide (fst x = "c"%str) then 0 else 1)
    frozen_diamond_nodes i_top "1" = true.
Proof. vm_compute. reflexivity. Qed.

Lemma frozen_diamond_in_place :
  versions_in_place frozen_diamond Frozen i_top "1" (w_fs frozen_diamond_world).
Proof.
  intros y j Hy%(comes_up_nodes _ _ _ _ _ _ frozen_diamond_check) [Hj _ _ _ _]. revert j Hj.
  assert (Hall : Forall (fun y => forall j, dget frozen_diamond (fst y) = Some j ->
    fs_exists (w_fs frozen_diamond_world) (dir_of j (snd y)) = true) frozen_diamond_nodes).
  { repeat constructor; intros j [= <-]; vm_compute; reflexivity. }
  rewrite Forall_forall in Hall. by apply Hall.
Qed.

Lemma get_dependencies_highest_witness :
  exists deps w',
    get_dependencies (H := quiet_os) i_top frozen_diamond "1" false frozen_diamond_world =
      (Ok (list_dependencies deps), w') /\
    forall n, n ∈ dkeys deps <-> exists u, comes_up frozen_diamond Frozen i_top "1" (n, u).
Proof.
  destruct (get_dependencies_highest (H := quiet_os) frozen_diamond i_top "1" false frozen_diamond_world)
    as (deps & w' & E & _ & Hn & _).
  - discriminate.
  - exact (resolvable_fromb_sound _ _ _ _ _ _ frozen_diamond_check).
  - intros cmd fs Hp. exists (Completed 0 [] []), fs. done.
  - exact frozen_diamond_in_place.
  - reflexivity.
  - exists deps, w'. split; [exact E|exact Hn].
Defined.

(** [top] gets version 2 of [c] only; [a] was preprocessed with version 1, which
    came up first. *)
Example frozen_diamond_dependencies :
  fst (get_dependencies (H := quiet_os) i_top frozen_diamond "1" false frozen_diamond_world) =
  Ok (["/ws/out/.preprocessed/a/a_interface/1/preprocessed.aidl";
       "/ws/out/.preprocessed/c/c_interface/2/preprocessed.aidl";
       "/ws/out/.preprocessed/b/b_interface/1/preprocessed.aidl"]%str,
      ["/ws/stable/aidl/a/1"; "/ws/stable/aidl/c/2"; "/ws/stable/aidl/b/1"]%str,
      ["a-v1"; "c-v2"; "b-v1"]%str).
Proof. vm_compute. reflexivity. Qed.
