(* ===== verification/LinkFacts.v ===== *)
(** * Linked libraries and resolved imports agree

    [dependencies.txt] says which libraries the library of a version links
    against; [get_dependencies] says which versions the sources of a version are
    compiled against.  For a frozen version the two find the same. *)

From S2P Require Import Prelude PyStr PyStrFacts PyDict Graph Logger PyOs AidlInterface Examples.
From S2P Require Import InterfaceFacts LibDeps LibDepsFacts Imports ImportsFacts ResolveFacts.

(** ** Targets *)

Definition node_target (y : version_node) : str := target (fst y) (snd y).

Lemma target_inj n u m v : dashless n -> dashless m -> target n u = target m v -> n = m /\ u = v.
Proof.
  intros Hn Hm E. apply (f_equal split_versioned) in E. unfold target in E.
  rewrite !split_versioned_at in E by done. injection E as -> E. split; [done|]. by apply app_inv_tail in E.
Qed.

Lemma target_inj_version n u v : target n u = target n v -> u = v.
Proof. unfold target. by intros E%app_inv_head%(app_inv_head "-v"%str)%app_inv_tail. Qed.

Lemma frozen_targets_other n i D D' k :
  frozen_targets n i D = Ok D' -> (forall v, k <> target n v) -> dget D' k = dget D k.
Proof.
  intros E Hk. unfold frozen_targets in E.
  apply (foldM_res_inv _ (fun D' => dget D' k = dget D k)) with (3 := E); [|done].
  intros D1 [v libs] D2 _ <- E2. cbn in E2. destruct libs; [|done]. injection E2 as <-.
  apply dget_dset_ne. congruence.
Qed.

Lemma frozen_targets_here n i D D' v l :
  frozen_targets n i D = Ok D' -> NoDup (dkeys (versions_with_info i)) ->
  dget (versions_with_info i) v = Some (Some l) ->
  dget D' (target n v) = Some (map (fun lib => lib ++ "-cpp")%str l).
Proof.
  unfold frozen_targets. intros E Hnd Hv%dget_Some_elem. revert D E Hnd.
  apply list_elem_of_split in Hv as (l1 & l2 & ->). intros D E Hnd.
  rewrite foldM_res_app in E. cbn [foldM_res] in E. destruct (foldM_res _ D l1) as [D1|]; [|done].
  cbn [mbind res_bind fst snd] in E.
  apply (foldM_res_inv _ (fun D' => dget D' (target n v) = Some (map (fun lib => lib ++ "-cpp")%str l)))
    with (3 := E); [|apply dget_dset_eq].
  intros D2 [u libs] D3 Hu HD E2. cbn in E2. destruct libs; [|done]. injection E2 as <-.
  rewrite dget_dset_ne; [done|]. intros ->%target_inj_version.
  unfold dkeys in Hnd. rewrite fmap_app, fmap_cons in Hnd. apply NoDup_app in Hnd as (_ & _ & [Hn _]%NoDup_cons).
  apply Hn. apply list_elem_of_fmap. by exists (v, Some l0).
Qed.

(** ** The dict of targets *)

Section targets.
Context (I : dict str AidlInterface).

(** Every interface has its name, without the separator of name and version, as
    key, and its versions once. *)
Record linkable : Prop := {
  lk_keys : NoDup (dkeys I);
  lk_names : forall n j, dget I n = Some j -> dashless n;
  lk_versions : forall n j, dget I n = Some j -> NoDup (dkeys (versions_with_info j));
  lk_recorded : forall n j v l, dget I n = Some j -> dget (versions_with_info j) v = Some (Some l) ->
    Forall (fun lib => contains "-v" lib = true) l /\ NoDup (map (fun lib => fst (split_versioned lib)) l)
}.

Definition current_step (lib_deps : dict str (list str)) (e : str * AidlInterface) : M (dict str (list str)) :=
  let (interface_name, interface) := (e : str * AidlInterface) in
  lib_deps ← of_res (frozen_targets interface_name interface lib_deps);
  current ← _resolve_lib_deps_for_current interface;
  mret (dset lib_deps (target interface_name CURRENT_VERSION) current).

Lemma current_step_run D n j w D' w' : current_step D (n, j) w = (Ok D', w') ->
  exists D1 cur, frozen_targets n j D = Ok D1 /\ D' = dset D1 (target n CURRENT_VERSION) cur.
Proof.
  unfold current_step, of_res, mbind, M_bind. destruct (frozen_targets n j D) as [D1|]; [|done].
  destruct (_resolve_lib_deps_for_current j w) as [[cur|] w1]; [|done]. intros [= <- _]. by exists D1, cur.
Qed.

(** The steps for other interfaces do not touch a target. *)
Lemma current_steps_other (l : dict str AidlInterface) n v : dashless n ->
  Forall (fun e => dashless (fst e) /\ fst e <> n) l ->
  forall D w D' w', fold_each l D current_step w = (Ok D', w') -> dget D' (target n v) = dget D (target n v).
Proof using.
  intros Hn Hl. induction Hl as [|[m j] l [Hm Hne] _ IH]; intros D w D' w' E; cbn [fold_each] in E;
    [by injection E as -> _|].
  unfold mbind, M_bind in E. destruct (current_step D (m, j) w) as [[D1|] w1] eqn:E1; [|done].
  apply IH in E as ->. apply current_step_run in E1 as (D2 & cur & E2 & ->). cbn [fst] in *.
  assert (Hk : forall u, target n v <> target m u) by (intros u Eu; apply target_inj in Eu as [Eu _]; congruence).
  rewrite dget_dset_ne by by apply not_eq_sym, Hk. by apply (frozen_targets_other m j).
Qed.

(** A recorded version is a target with what is recorded for it. *)
Lemma collect_targets_frozen all_loaded w D w' n j v l : linkable ->
  collect_targets I all_loaded w = (Ok D, w') -> dget I n = Some j ->
  dget (versions_with_info j) v = Some (Some l) -> v <> CURRENT_VERSION ->
  dget D (target n v) = Some (map (fun lib => lib ++ "-cpp")%str l).
Proof using.
  intros HI E Hj Hv Hc. unfold collect_targets, mbind, M_bind in E.
  destruct (current_targets I w) as [[D0|] w0] eqn:E0; [|done].
  assert (H0 : dget D0 (target n v) = Some (map (fun lib => lib ++ "-cpp")%str l)).
  2: { destruct (snapshot_targets_run all_loaded D0 w0) as (D1 & w1 & E1 & _ & H1). rewrite E1 in E.
       injection E as -> _. by rewrite H1, H0. }
  pose proof (lk_names HI n j Hj) as Hn. pose proof (lk_keys HI) as Hnd.
  assert (Hdash : Forall (fun e => dashless (fst e)) I).
  { apply Forall_forall. intros [m k] Hm. eapply (lk_names HI). by apply dget_elem. }
  pose proof (lk_versions HI n j Hj) as Hvs. clear HI.
  apply dget_Some_elem, list_elem_of_split in Hj as (l1 & l2 & ->).
  change (fold_each (l1 ++ (n, j) :: l2) [] current_step w = (Ok D0, w0)) in E0.
  rewrite (fold_each_app l1 ((n, j) :: l2) [] current_step w) in E0. unfold mbind, M_bind in E0.
  destruct (fold_each l1 [] current_step w) as [[D1|] w1]; [|done]. cbn [fold_each] in E0.
  unfold mbind, M_bind in E0. destruct (current_step D1 (n, j) w1) as [[D2|] w2] eqn:E2; [|done].
  apply Forall_app in Hdash as [_ Hdash]. apply Forall_cons in Hdash as [_ Hdash].
  rewrite (current_steps_other l2 n v) with (3 := E0); [|done|].
  - apply current_step_run in E2 as (D3 & cur & E3 & ->).
    rewrite dget_dset_ne by (by intros Ec%target_inj_version; apply Hc). by eapply frozen_targets_here.
  - apply Forall_forall. intros [m k] Hm. split; [by apply (proj1 (Forall_forall _ _) Hdash) in Hm|].
    cbn. intros ->. unfold dkeys in Hnd. rewrite fmap_app, fmap_cons in Hnd.
    apply NoDup_app in Hnd as (_ & _ & [Hn' _]%NoDup_cons). apply Hn', list_elem_of_fmap. by exists (n, k).
Qed.
End targets.

(** ** Links are imports *)

Section links.
Context (I : dict str AidlInterface) (D : dict str (list str)) (HL : linkable I).
Hypothesis HD : forall n j v l, dget I n = Some j -> dget (versions_with_info j) v = Some (Some l) ->
  v <> CURRENT_VERSION -> dget D (target n v) = Some (map (fun lib => lib ++ "-cpp")%str l).

(** A recorded version whose imports all are interfaces. *)
Definition followable (y : version_node) : Prop :=
  snd y <> CURRENT_VERSION /\
  exists j d, dget I (fst y) = Some j /\ frozen_imports j (snd y) = Some d /\ all_resolved I Frozen d.

Lemma recorded_lib lib : contains "-v" lib = true ->
  (lib ++ "-cpp")%str = node_target (split_versioned lib).
Proof using. intros H. unfold node_target, target. by rewrite (split_versioned_join lib H) at 1; rewrite <- !app_assoc. Qed.

(** The library of a recorded version links against what it imports. *)
Lemma depends_leads x b : followable x ->
  depends D (node_target x) b <-> exists y, leads_to I Frozen x y /\ b = node_target y.
Proof using HL HD.
  destruct x as [n v]. intros (Hc & j & d & Hj & Hd & Hall). cbn [fst snd] in *.
  unfold frozen_imports in Hd. destruct (dget (versions_with_info j) v) as [[l|]|] eqn:Ev; try done.
  injection Hd as <-. destruct (lk_recorded I HL n j v l Hj Ev) as [Hsep Hnd].
  assert (Hd : dict_of (map split_versioned l) = map split_versioned l).
  { apply dict_of_NoDup. by rewrite <- list_fmap_compose. }
  unfold depends, deps_of, node_target at 1. cbn [fst snd]. rewrite (HD n j v l Hj Ev Hc). unfold default, id.
  rewrite elem_of_map. split.
  - intros (lib & -> & Hlib). pose proof (proj1 (Forall_forall _ _) Hsep lib Hlib) as Hs.
    exists (split_versioned lib). split; [|by apply recorded_lib].
    assert (Hin : split_versioned lib ∈ dict_of (map split_versioned l)) by (rewrite Hd; apply elem_of_map; eauto).
    exists j, (dict_of (map split_versioned l)). cbn [fst snd]. split; [done|]. split; [cbn; unfold frozen_imports; by rewrite Ev|].
    destruct (split_versioned lib) as [m u]. destruct (Hall m u Hin) as (k & u' & Hk & Hu').
    exists u, k. by split_and!.
  - intros ([m u] & (j' & d' & Hj' & Hd' & pin & k & Hin & Hk & Hu) & ->). cbn [fst snd] in *.
    rewrite Hj in Hj'. injection Hj' as <-. cbn in Hd'. unfold frozen_imports in Hd'. rewrite Ev in Hd'.
    injection Hd' as <-. injection Hu as ->. rewrite Hd in Hin. apply elem_of_map in Hin as (lib & E & Hlib).
    exists lib. split; [|done]. rewrite recorded_lib by by apply (proj1 (Forall_forall _ _) Hsep). by rewrite <- E.
Qed.
End links.

Lemma current_no_number : ~ exists z, py_int CURRENT_VERSION = Ok z.
Proof. intros [z Hz]. vm_compute in Hz. discriminate. Qed.

Section resolution.
Context (I : dict str AidlInterface) (i : AidlInterface) (v : str) (HR : resolvable_from I Frozen i v).
Hypothesis (Hi : dget I (base_name i) = Some i) (Hv : v <> CURRENT_VERSION).

Lemma top_followable : followable I (base_name i, v).
Proof using HR Hi Hv. destruct (rf_direct _ _ _ _ HR) as (d & Hd & Hall). split; [done|]. by exists i, d. Qed.

Lemma below_followable y : comes_up I Frozen i v y -> followable I y.
Proof using HR.
  intros Hy. destruct (rf_usable _ _ _ _ HR y Hy) as [j [Hj _ _ Hz (d & Hd & Hall)]].
  split; [|by exists j, d]. intros E. apply current_no_number. by rewrite <- E.
Qed.

(** What comes up is what the version leads to. *)
Lemma comes_up_tc y : comes_up I Frozen i v y <-> tc (leads_to I Frozen) (base_name i, v) y.
Proof using Hi.
  split.
  - intros (d & c & Hd & Hc & Hy). apply tc_rtc_r with c; [|done]. apply tc_once. by exists i, d.
  - intros Hy. assert (exists c, leads_to I Frozen (base_name i, v) c /\ rtc (leads_to I Frozen) c y)
      as (c & (j & d & Hj & Hd & Hc) & Hcy).
    { inversion Hy as [? ? Hs|? c ? Hs Ht]; subst; [by exists y|]. exists c. split; [done|by apply tc_rtc]. }
    cbn [fst snd] in *. exists d, c. split_and!; [|done..]. rewrite Hi in Hj. by injection Hj as <-.
Qed.
End resolution.

(** C28: for a frozen version, the libraries that dependencies.txt links it
    against and the versions its sources are compiled against agree.  Every
    dependency that the resolution of its imports finds is, at the version found,
    among the libraries it needs directly or not; and every library it needs is
    of a dependency found, at the version found or, where versions conflict, at a
    lower one.  The recorded imports must be separated by [-v] and name each
    interface once; the other hypotheses are those of the resolution. *)
Theorem frozen_libraries_resolved `{Os} I i v is_freeze_api all_loaded D w w1 w2 :
  linkable I -> dget I (base_name i) = Some i -> v <> [] -> v <> CURRENT_VERSION -> v <> next_of i ->
  resolvable_from I Frozen i v ->
  tools_keep (versions_in_place I Frozen i v) -> versions_in_place I Frozen i v (w_fs w) ->
  w_rec_counter w = 0%Z ->
  collect_targets I all_loaded w1 = (Ok D, w2) ->
  exists deps w',
    get_dependencies i I v is_freeze_api w = (Ok (list_dependencies deps), w') /\
    (forall n info, dget deps n = Some info ->
       tc (depends D) (target (base_name i) v) (target n (dep_version info))) /\
    (forall lib, tc (depends D) (target (base_name i) v) lib ->
       exists n u info, lib = target n u /\ dget deps n = Some info /\ version_le u (dep_version info)).
Proof.
  intros HL Hi Hnil Hv Hnext HR HT Hp Hc HD.
  assert (Ht : import_mode i v is_freeze_api = Frozen) by (unfold import_mode; by rewrite decide_False).
  destruct (resolve_highest I (versions_in_place I Frozen i v) i v is_freeze_api w Hnil) as (deps & w' & E & Hh & _);
    rewrite ?Ht; [done..|]. rewrite Ht in Hh. exists deps, w'. split; [done|].
  assert (Hlink : forall lib, tc (depends D) (target (base_name i) v) lib <->
    exists y, comes_up I Frozen i v y /\ lib = node_target y).
  { intros lib. setoid_rewrite (comes_up_tc I i v Hi).
    change (target (base_name i) v) with (node_target (base_name i, v)).
    apply (tc_image (leads_to I Frozen) (depends D) node_target
      (fun x => x = (base_name i, v) \/ comes_up I Frozen i v x)); [| |by left].
    - intros x b Hx. apply (depends_leads I D HL).
      + intros n j u l. by eapply collect_targets_frozen.
      + destruct Hx as [->|Hx]; [by apply top_followable|by eapply below_followable].
    - intros x y Hx Hxy. right. destruct Hx as [->|Hx].
      + apply (comes_up_tc I i v Hi). by apply tc_once.
      + eapply comes_up_below; [exact Hx|by apply rtc_once]. }
  destruct Hh as [_ Hs Hcomp]. split.
  - intros n info Hn. apply Hlink. exists (n, dep_version info). split; [by apply Hs|done].
  - intros lib ([n u] & Hy & ->)%Hlink. destruct (Hcomp n u Hy) as (info & Hn & Hle). by exists n, u, info.
Qed.

(** ** Witness: the diamond with two versions of its lowest interface *)

Definition diamond_targets : dict str (list str) :=
  match fst (collect_targets frozen_diamond [] frozen_diamond_world) with Ok D => D | Err _ => [] end.

Lemma diamond_linkable : linkable frozen_diamond.
Proof.
  split.
  - apply (bool_decide_unpack _). vm_compute. exact I.
  - intros n j Hj%dget_Some_elem. unfold frozen_diamond in Hj. rewrite !elem_of_cons, elem_of_nil in Hj.
    destruct_or! Hj; simplify_eq; reflexivity.
  - intros n j Hj%dget_Some_elem. unfold frozen_diamond in Hj. rewrite !elem_of_cons, elem_of_nil in Hj.
    destruct_or! Hj; simplify_eq; (apply (bool_decide_unpack _); vm_compute; exact I).
  - intros n j v l Hj%dget_Some_elem Hl%dget_Some_elem. unfold frozen_diamond in Hj.
    rewrite !elem_of_cons, elem_of_nil in Hj.
    destruct_or! Hj; simplify_eq; cbn in Hl; rewrite ?elem_of_cons, elem_of_nil in Hl; destruct_or! Hl; simplify_eq;
      (split; [by repeat constructor|apply (bool_decide_unpack _); vm_compute; exact I]).
Qed.

Lemma frozen_libraries_resolved_witness : exists deps w',
  get_dependencies (H := quiet_os) i_top frozen_diamond "1" false frozen_diamond_world =
    (Ok (list_dependencies deps), w') /\
  exists n u info, "c-v1-cpp"%str = target n u /\ dget deps n = Some info /\ version_le u (dep_version info).
Proof.
  destruct (frozen_libraries_resolved (H := quiet_os) frozen_diamond i_top "1" false [] diamond_targets
    frozen_diamond_world frozen_diamond_world
    (snd (collect_targets frozen_diamond [] frozen_diamond_world))) as (deps & w' & E & _ & Hlibs).
  - exact diamond_linkable.
  - reflexivity.
  - discriminate.
  - discriminate.
  - vm_compute. discriminate.
  - exact (resolvable_fromb_sound _ _ _ _ _ _ frozen_diamond_check).
  - intros cmd fs Hp. exists (Completed 0 [] []), fs. done.
  - exact frozen_diamond_in_place.
  - reflexivity.
  - vm_compute. reflexivity.
  - exists deps, w'. split; [exact E|].
    apply Hlibs. apply tc_l with "a-v1-cpp"%str; [|apply tc_once];
      unfold depends; apply (bool_decide_unpack _); vm_compute; exact I.
Defined.

(** The current version of an interface is linked against the versions its
    imports are pinned to, but compiled against their next versions. *)
Definition pinning : dict str AidlInterface :=
  [("app", example_interface "app" [("common", Some "1")]); ("common", with_versions i_common 2)]%str.

Lemma pinned_import_diverges :
  (exists D, fst (collect_targets pinning [] example_world) = Ok D /\
     dget D (target "app" CURRENT_VERSION) = Some [target "common" "1"]) /\
  fst (get_dependencies (H := quiet_os) (example_interface "app" [("common", Some "1")]%str) pinning "1" false
         example_world) =
    Ok (["/ws/out/.preprocessed/common/common_interface/3/preprocessed.aidl"]%str,
        ["/ws/stable/aidl/common/current"]%str, ["common-v3"]%str).
Proof. split; [eexists; split|]; vm_compute; reflexivity. Qed.
