(* ===== verification/Checks.v ===== *)
(** * host/aidl_interface.py: API dumps and their checks

    Compatibility and integrity of the versions of an interface, and
    [validate_interface], which runs them over all versions in order. *)

From S2P Require Import Prelude PyStr PyDict Logger PyOs AidlInterface Imports.

(** A version of an interface on disk; a dump of sources has no hash file. *)
Record ApiDump : Type := MkDump {
  dump_version : str;
  api_dir : str;
  files : list str;
  hash_file : option str
}.

Section checks.
Context `{Os} (interfaces : dict str AidlInterface).

(** [["--stability=..."]] unless [""], ["unstable"] (an absent field prints
    [None]). *)
Definition check_stability_flag (interface : AidlInterface) : list str :=
  if bool_decide (stability interface = Some [] \/ stability interface = Some "unstable"%str) then []
  else ["--stability=" ++ default "None" (stability interface)]%str.

(** ["=" * 80] *)
Definition rule : str := replicate 80 "="%char.

(** The marks in front of the changes listed are not Latin-1 and left out. *)
Definition check_api_messages (interface : AidlInterface) (err : str) : list (str * list str) :=
  [([], []); (rule, []);
   ("AIDL Compatibility Check FAILED for %s", [base_name interface]); (rule, [])]
  ++ (if bool_decide (err = []) then []
      else [("Detailed error from AIDL compiler:", []); (err, [])])
  ++ [([], []);
      ("IMPORTANT: Breaking changes are NOT permitted in AIDL versioned interfaces.", []);
      ("Only the following changes are allowed:", []);
      ("  ADD new methods at the END of an interface", []);
      ("  ADD new fields at the END of a parcelable", []);
      ("  ADD new enum values (with fallback handling)", []);
      ([], []);
      ("The following changes are FORBIDDEN:", []);
      ("  Remove methods or fields", []);
      ("  Change method signatures or field types", []);
      ("  Reorder methods or fields", []);
      ("  Rename methods or fields", []);
      ([], []);
      ("If you need to make breaking changes:", []);
      ("  1. Create a NEW interface component (e.g., I%sNew)", [capitalize (base_name interface)]);
      ("  2. Leave the existing interface unchanged", []);
      ("  3. Clients can migrate to the new interface at their own pace", []);
      ([], []); (rule, [])]%str.

Definition check_api_cmd (interface : AidlInterface) (oldDump newDump : ApiDump)
    (checkApiLevel : str) (deps : list str) : list str :=
  [CMD_AIDL; "--checkapi=" ++ checkApiLevel]%str
  ++ check_stability_flag interface
  ++ map (fun dep => "-p " ++ dep)%str deps
  ++ [api_dir oldDump; api_dir newDump].

Definition check_api (interface : AidlInterface) (oldDump newDump : ApiDump)
    (checkApiLevel messageFile : str) : M str :=
  let newVersion := basename (api_dir newDump) in
  let timestampFile := path_join (interface_api_dir_out interface)
                         ("checkapi_" ++ newVersion ++ ".timestamp") in
  di ← get_dependencies interface interfaces (dump_version newDump) false;
  result ← run (check_api_cmd interface oldDump newDump checkApiLevel (fst (fst di)));
  if bool_decide (returncode result <> 0%Z) then
    exec_cmd ["cat"%str; messageFile] ≫= fun _ =>
    for_each (check_api_messages interface (stderr result)) (fun m => log ERROR (fst m) (snd m))
      ≫= fun _ =>
    assert_false "Failed at check_api. Please update the module" []
  else
    makedirs (dirname timestampFile) ≫= fun _ =>
    exec_cmd ["touch"%str; timestampFile] ≫= fun _ =>
    mret timestampFile.

Definition check_compatibility (interface : AidlInterface) (oldDump newDump : ApiDump) : M str :=
  check_api interface oldDump newDump "compatible"
    (path_join host_dir "message_check_compatibility.txt").

(** [subprocess.Popen(cmd, stdout=file)] starts a process in the background and
    does not wait for it.  [background cmd fs] is what the process has written by
    the time the file is read, or the error of a program that cannot be
    started. *)
Definition popen_to (background : list str -> fsys -> res str) (cmd : list str) (file : str) : M unit :=
  fs ← gets w_fs;
  modify (fun w => set_cmds (w_cmds w ++ [cmd]) w) ≫= fun _ =>
  text ← of_res (background cmd fs);
  write_file file text.

(** The script replaces the text [%s], the placeholder of the message. *)
Definition equality_sed_cmd (interface : AidlInterface) (messageFile : str) : list str :=
  ["sed"; "s/%s/" ++ base_name interface ++ "/g"; messageFile]%str.

Definition check_equality (background : list str -> fsys -> res str) (interface : AidlInterface)
    (oldDump newDump : ApiDump) : M str :=
  let messageFile := path_join host_dir "message_check_equality.txt" in
  makedirs (interface_api_dir_out interface) ≫= fun _ =>
  let formattedMessageFile := path_join (interface_api_dir_out interface) "message_check_equality.txt" in
  write_file formattedMessageFile [] ≫= fun _ =>
  popen_to background (equality_sed_cmd interface messageFile) formattedMessageFile ≫= fun _ =>
  check_api interface oldDump newDump "equal" formattedMessageFile.

(** The shell command of [check_integrity]. *)
Definition integrity_cmd (dir salt hash messageFile : str) : str :=
  "if [ `cd " ++ dir ++ " && { find ./ -name " ++ [dquote] ++ "*.aidl" ++ [dquote]
  ++ " -print0 |             LC_ALL=C sort -z | xargs -0 sha1sum && echo " ++ salt
  ++ "; } |             sha1sum | cut -d " ++ [dquote; space; dquote] ++ " -f 1` = `tail -1 "
  ++ hash ++ "` ]; then true; else cat " ++ messageFile ++ " && exit 1; fi".

Definition check_integrity (interface : AidlInterface) (api_dump : ApiDump) : M unit :=
  let version := basename (api_dir api_dump) in
  let messageFile := path_join host_dir "message_check_integrity.txt" in
  salt ← of_res (version_for_hashgen (dump_version api_dump));
  result ← shell (integrity_cmd (api_dir api_dump) salt
                    (default "None"%str (hash_file api_dump)) messageFile);
  if bool_decide (result <> 0%Z) then
    raise (RuntimeError "Hash integrity check failed for %s version %s"
             [base_name interface; version])
  else mret tt.

(** ** [validate_interface] *)

Definition dump_of (fs : fsys) (v dir : str) : ApiDump :=
  MkDump v dir (get_path_for_files_rec fs dir "*.aidl") (Some (path_join dir ".hash")).

(** The dumps of the recorded versions, or the first one that is not there. *)
Definition frozen_dumps (fs : fsys) (interface : AidlInterface) : res (list ApiDump) :=
  if has_frozen_versions fs interface then
    mapM_res (fun ver =>
      let dir := get_versioned_dir interface ver in
      if fs_exists fs dir then Ok (dump_of fs ver dir)
      else Err (RuntimeError "API version %s path %s does not exist." [ver; dir]))
      (versions interface)
  else Ok [].

(** The body of the loop over [api_dumps]: dump [i], preceded by [prev]. *)
Definition validate_dump (interface : AidlInterface) (last : bool) (prev : option ApiDump)
    (dump : ApiDump) : M unit :=
  present ← exists_path (default [] (hash_file dump));
  (if (present : bool) then check_integrity interface dump
   else if last then mret tt
   else assert_false "No hash file(%s) found for the frozen version %s"
          [default [] (hash_file dump); dump_version dump]) ≫= fun _ =>
  match prev with
  | None => mret tt
  | Some prev => check_compatibility interface prev dump ≫= fun _ => mret tt
  end.

Fixpoint validate_dumps (interface : AidlInterface) (prev : option ApiDump)
    (dumps : list ApiDump) : M unit :=
  match dumps with
  | [] => mret tt
  | d :: dumps =>
      validate_dump interface (match dumps with [] => true | _ => false end) prev d ≫= fun _ =>
      validate_dumps interface (Some d) dumps
  end.

Definition validate_interface (interface : AidlInterface) : M (list ApiDump) :=
  let current_api_dir := get_versioned_dir interface CURRENT_VERSION in
  fs ← gets w_fs;
  current ← (if fs_exists fs current_api_dir then
               nv ← of_res (next_version interface);
               mret [dump_of fs nv current_api_dir]
             else mret []);
  frozen ← of_res (frozen_dumps fs interface);
  let api_dumps := frozen ++ current in
  validate_dumps interface None api_dumps ≫= fun _ =>
  mret api_dumps.

(** ** [check_for_development] *)

Definition has_development_cmd (interface : AidlInterface) (latest : option ApiDump)
    (tot : ApiDump) (deps : list str) (has_dev_path : str) : str :=
  match latest with
  | Some latest =>
      CMD_AIDL ++ " --checkapi=equal "
      ++ join " " (check_stability_flag interface ++ map (fun dep => "-p " ++ dep)%str deps)
      ++ " " ++ api_dir latest ++ " " ++ api_dir tot
      ++ " 2> /dev/null; echo $? > " ++ has_dev_path
  | None => "echo 1 > " ++ has_dev_path
  end.

Definition check_for_development (interface : AidlInterface)
    (latest_version_dump : option ApiDump) (tot_dump : ApiDump) : M str :=
  makedirs (interface_api_dir_out interface) ≫= fun _ =>
  let has_dev_path := path_join (interface_api_dir_out interface) "has_development" in
  deps ← match latest_version_dump with
         | Some _ => di ← get_dependencies interface interfaces (dump_version tot_dump) false;
                     mret (fst (fst di))
         | None => mret []
         end;
  shell (has_development_cmd interface latest_version_dump tot_dump deps has_dev_path) ≫= fun _ =>
  mret has_dev_path.
End checks.
