(* ===== verification/Api.v ===== *)
(** * host/aidl_api.py

    The update-api and freeze-api operations: copying sources into the
    versioned tree, hashing them, and recording a frozen version. *)

From S2P Require Import Prelude PyStr PyDict Logger PyOs AidlInterface Imports Checks LibDeps.

Section api.
Context `{Os} (interfaces : dict str AidlInterface).

Definition CMD_AIDL_HASH_GEN : str := path_join host_dir "aidl_hash_gen".
Definition CMD_INTERFACE_DEF_UPDATE : str := path_join host_dir "interface-update.py".

(** The test of a generated command: [if [ "$(cat FILE)" = "1" ]; then ] *)
Definition if_has_development (has_development : str) : str :=
  "if [ " ++ quoted ("$(cat " ++ has_development ++ ")") ++ " = " ++ quoted "1" ++ " ]; then ".

(** ** [make_api_dump_as_version] *)

Definition freeze_copy_cmd (dump : ApiDump) (target_dir has_development : str) : str :=
  if_has_development has_development
  ++ "mkdir -p " ++ target_dir ++ " && " ++ "cp -rf " ++ api_dir dump ++ "/. " ++ target_dir ++ ";"
  ++ "rm -f " ++ target_dir ++ "/interface.yaml " ++ target_dir ++ "/interface.json;" ++ "fi".

Definition coloured (colour msg : str) : str :=
  "echo -e " ++ quoted (escape :: colour ++ msg ++ escape :: "[0m").

Definition freeze_message_cmd (interface : AidlInterface) (v has_development : str) : str :=
  if_has_development has_development
  ++ coloured "[0;32m" ("There is change between ToT version and the latest stable version. Freezing "
                        ++ base_name interface ++ "-v" ++ v ++ ".")
  ++ "; else "
  ++ coloured "[0;31m" ("There is no change from the latest stable version of "
                        ++ base_name interface ++ ". Nothing happened.")
  ++ "; fi".

Definition make_api_dump_as_version (interface : AidlInterface) (dump : ApiDump)
    (v has_development : str) : M unit :=
  let target_dir := get_versioned_dir interface v in
  if bool_decide (v <> CURRENT_VERSION) then
    shell (freeze_copy_cmd dump target_dir has_development) ≫= fun _ =>
    shell (freeze_message_cmd interface v has_development) ≫= fun _ => mret tt
  else
    shell ("mkdir -p " ++ target_dir ++ " && rm -rf " ++ target_dir ++ "/* && cp -rf "
           ++ api_dir dump ++ "/* " ++ target_dir) ≫= fun _ => mret tt.

(** ** [append_version] *)

(** The [imports] recorded for the version: every import at its latest
    version. *)
Definition versioned_imports (interface : AidlInterface) : res (list str) :=
  mapM_res (fun imprt =>
    i ← get_interface interfaces imprt;
    Ok (versioned_name i (latest_version i))) (imports interface).

(** The entry of [versions_with_info], as a literal. *)
Definition entry_literal (v : str) (imports : list str) : str :=
  "{" ++ quoted "version" ++ ": " ++ quoted v ++ ", " ++ quoted "imports" ++ ": ["
  ++ join "," (map quoted imports) ++ "]}".

Definition append_version_cmd (interface : AidlInterface) (v has_development : str)
    (imports : list str) : str :=
  if_has_development has_development
  ++ CMD_INTERFACE_DEF_UPDATE ++ " -w -m " ++ base_name interface ++ " "
  ++ "--parameter versions_with_info --add-literal '" ++ entry_literal v imports ++ "' "
  ++ interface_root interface ++ "/interface; fi".

(** [has_development] is the module global, unset before the first freeze. *)
Definition append_version (interface : AidlInterface) (v : str) : M unit :=
  imports ← of_res (versioned_imports interface);
  has_development ← gets w_has_development;
  match has_development with
  | None => raise (NameError "has_development")
  | Some path =>
      shell (append_version_cmd interface v path imports) ≫= fun _ => mret tt
  end.

(** ** [dependecies_check_for_freeze] *)

(** Here all optional flags are one argument, with a space after each. *)
Definition freeze_check_cmd (fs : fsys) (interface : AidlInterface) (nv imprt : str)
    (deps : list str) : list str :=
  [CMD_AIDL; "--preprocess"; preprocessed_file (get_preprocessed_dir interface nv);
   (if bool_decide (stability interface = Some "unstable") then []
    else "--stability=" ++ default "None" (stability interface) ++ " ")
   ++ (match deps with [] => [] | _ => join " " (map (fun dep => "-p" ++ dep) deps) ++ " " end);
   "--structured"; "-I" ++ imprt]%str
  ++ get_path_for_files fs (interface_root interface) (srcs interface).

Definition dependecies_check_for_freeze (interface : AidlInterface) : M unit :=
  nv ← of_res (next_version interface);
  di ← get_dependencies interface interfaces nv true;
  let imprt := get_versioned_dir interface CURRENT_VERSION in
  found ← exists_path imprt;
  if negb found then
    log ERROR "The import directory %s, does not exist." [imprt] ≫= fun _ =>
    assert_false "Failed with the above error." []
  else
    fs ← gets w_fs;
    ok ← exec_cmd (freeze_check_cmd fs interface nv imprt (fst (fst di)));
    if (ok : bool) then mret tt else assert_false "Dependencies are not fullfilled" [].

(** ** [update_hash_for_current_api] *)

Definition update_hash_for_current_api (interface : AidlInterface) : M unit :=
  nv ← of_res (next_version interface);
  hashgen_version ← of_res (version_for_hashgen nv);
  let api_dump_dir := get_versioned_dir interface CURRENT_VERSION in
  let hash_file := path_join api_dump_dir ".hash" in
  remove_if_exists hash_file ≫= fun _ =>
  run [CMD_AIDL_HASH_GEN; api_dump_dir; hashgen_version; hash_file] ≫= fun _ =>
  mret tt.

(** ** [handle_update_api] *)

(** [except (AssertionError, RuntimeError)]: a [RecursionError] is a
    [RuntimeError]. *)
Definition caught_by_update (e : exn) : bool :=
  match e with
  | AssertionError _ _ | RuntimeError _ _ | RecursionError => true
  | _ => false
  end.

Definition update_abort : exn :=
  RuntimeError "Compatibility validation failed - aborting update to prevent data corruption" [].

(** The [try] block of the pre-copy validation. *)
Definition pre_validate (interface : AidlInterface) (old new : ApiDump) : M unit := fun w =>
  match check_compatibility interfaces interface old new w with
  | (Ok _, w) =>
      log INFO "Pre-validation passed: source changes are backward-compatible" [] w
  | (Err e, w) =>
      if caught_by_update e then
        (for_each
           [("Pre-validation FAILED: Source changes are incompatible with existing stable API", []);
            ("Error: %s", [exn_str e]);
            ([], []);
            ("Breaking changes are NOT allowed in AIDL versioned interfaces.", []);
            ("You can only ADD methods/fields/enums at the end.", []);
            ("To make breaking changes, create a new interface (e.g., I%sNew)", [capitalize (base_name interface)]);
            ([], []);
            ("Please revert your changes or create a new interface component.", [])]%str
           (fun m => log ERROR (fst m) (snd m)) ≫= fun _ => raise update_abort) w
      else (Err e, w)
  end.

Definition rsync_cmd (src dst : str) : str :=
  "rsync -a --include='*/' --include='*.aidl' --exclude='*' " ++ src ++ "/ " ++ dst ++ "/".

(** From the creation of the target directory on. *)
Definition update_copy (interface : AidlInterface) (current_api_dir : str) : M unit :=
  makedirs current_api_dir ≫= fun _ =>
  shell (rsync_cmd (interface_root interface) current_api_dir) ≫= fun _ =>
  update_hash_for_current_api interface ≫= fun _ =>
  validate_interface interfaces interface ≫= fun _ => mret tt.

Definition handle_update_api (interface_name : str) : M unit :=
  interface ← of_res (get_interface interfaces interface_name);
  if bool_decide (layout interface = "module-local"%str) then
    log INFO "update-api skipped for %s - module-local layout, AIDL is already in place"
      [base_name interface]
  else
    let current_api_dir := get_versioned_dir interface CURRENT_VERSION in
    fs ← gets w_fs;
    (if fs_exists fs current_api_dir then
       if has_frozen_versions fs interface then
         log INFO "Pre-validating compatibility before updating %s" [base_name interface] ≫= fun _ =>
         log INFO "Frozen versions exist - enforcing backward compatibility" [] ≫= fun _ =>
         nv ← of_res (next_version interface);
         pre_validate interface (dump_of fs nv current_api_dir)
           (MkDump nv (interface_root interface)
              (get_path_for_files_rec fs (interface_root interface) "*.aidl") None)
       else
         log INFO "Pre-validation skipped for %s - no frozen versions yet (current/ is free development)"
           [base_name interface]
     else log INFO "First update for %s - skipping pre-validation" [base_name interface]) ≫= fun _ =>
    update_copy interface current_api_dir.

(** ** [handle_freeze_api] *)

Definition no_current_dump (interface : AidlInterface) : M unit :=
  log ERROR "API dump for the current version of AIDL interface %s does not exist."
    [base_name interface] ≫= fun _ =>
  log_fatal ("Run " ++ quoted "aidl_ops -u %s" ++ ", or add " ++ quoted "stability: unstable"
             ++ " to the build rule for the interface if it does not need to be versioned")%str
    [base_name interface].

(** [api_dumps[len(api_dumps)-2]], if there are two dumps. *)
Definition latest_dump (api_dumps : list ApiDump) : option ApiDump :=
  match api_dumps with
  | _ :: _ :: _ => api_dumps !! (length api_dumps - 2)
  | _ => None
  end.

Definition handle_freeze_api (interface_name : str) : M unit :=
  interface ← of_res (get_interface interfaces interface_name);
  api_dumps ← validate_interface interfaces interface;
  current ← match last api_dumps with
            | Some d =>
                nv ← of_res (next_version interface);
                if bool_decide (dump_version d = nv) then mret (Some d) else mret None
            | None => mret None
            end;
  match (current : option ApiDump) with
  | None => no_current_dump interface
  | Some current_api_dump =>
      update_hash_for_current_api interface ≫= fun _ =>
      has_development ← check_for_development interfaces interface (latest_dump api_dumps) current_api_dump;
      modify (set_has_development (Some has_development)) ≫= fun _ =>
      dependecies_check_for_freeze interface ≫= fun _ =>
      nv ← of_res (next_version interface);
      make_api_dump_as_version interface current_api_dump nv has_development ≫= fun _ =>
      append_version interface nv
  end.
End api.

(** ** [aidl_api] *)

Inductive api_operation : Type := UpdateApi | FreezeApi | OtherOperation (name : str).

Definition aidl_api `{Os} `{Loader} (interface_name : str) (operation : api_operation)
    (interfaces_roots : list str) (out_dir : str) : M unit :=
  interfaces ← load_interfaces interfaces_roots out_dir false;
  (match interfaces with
   | [] => log_fatal "No interfaces found at %s" interfaces_roots
   | _ => mret tt
   end) ≫= fun _ =>
  (if dmem interfaces interface_name then mret tt
   else log_fatal "Interface %s is not defined in the provided locations " [interface_name]) ≫= fun _ =>
  match operation with
  | UpdateApi => handle_update_api interfaces interface_name
  | FreezeApi => handle_freeze_api interfaces interface_name
  | OtherOperation _ => mret tt
  end.
