(* ===== verification/Evolution.v ===== *)
(** * How operations change the workspace

    A preorder on states that every command and every directory made on the way
    respects is respected by all operations built from them: resolution of
    imports, the checks, validation, and the steps of a freeze. *)

From S2P Require Import Prelude PyStr PyDict Logger PyOs AidlInterface Imports ImportsFacts Checks LibDeps Api.

(** The files, and the commands so far. *)
Definition outside (w : world) : fsys * list (list str) * list (list str * Z) := (w_fs w, w_cmds w, w_exits w).

#[export] Instance outside_log_free : LogFree outside.
Proof. by split. Qed.

Class Evolution `{Os} (R : world -> world -> Prop) : Prop := {
  evolution_preorder :: PreOrder R;
  evolution_outside : forall w w', outside w' = outside w -> R w w';
  evolution_run : forall cmd w, R w (snd (run cmd w));
  evolution_makedirs : forall p w, R w (snd (makedirs p w))
}.

Definition evolves {A} (R : world -> world -> Prop) (m : M A) : Prop := forall w, R w (snd (m w)).

Lemma evolves_to {A} R (m : M A) w r w' : evolves R m -> m w = (r, w') -> R w w'.
Proof. intros H E. specialize (H w). by rewrite E in H. Qed.

Create HintDb trace.

Section evolution.
Context `{Os} (R : world -> world -> Prop) `{!Evolution R}.

Lemma evolves_outside {A} (m : M A) : preserves outside m -> evolves R m.
Proof. intros Hm w. by apply evolution_outside. Qed.

Lemma evolves_bind {A B} (m : M A) (f : A -> M B) :
  evolves R m -> (forall a, evolves R (f a)) -> evolves R (m ≫= f).
Proof.
  intros Hm Hf w. specialize (Hm w). unfold mbind, M_bind.
  destruct (m w) as [[a|e] w1]; cbn in *; [|done]. etrans; [exact Hm|apply Hf].
Qed.

Lemma evolves_for_each {A} (l : list A) body : (forall x, evolves R (body x)) -> evolves R (for_each l body).
Proof.
  intros Hb. induction l as [|x l IH]; cbn; [apply evolves_outside; preserves|by apply evolves_bind].
Qed.

Lemma evolves_fold_each {A B} (l : list B) (acc : A) body :
  (forall a x, evolves R (body a x)) -> evolves R (fold_each l acc body).
Proof.
  intros Hb. revert acc. induction l as [|x l IH]; intros acc; cbn;
    [apply evolves_outside; preserves|by apply evolves_bind].
Qed.

Lemma evolves_run cmd : evolves R (run cmd).
Proof. intros w. apply evolution_run. Qed.

Lemma evolves_shell cmd : evolves R (shell cmd).
Proof. apply evolves_bind; [apply evolves_run|]. intros r. apply evolves_outside. preserves. Qed.

Lemma evolves_makedirs p : evolves R (makedirs p).
Proof. intros w. apply evolution_makedirs. Qed.

Lemma evolves_exec_cmd cmd : evolves R (exec_cmd cmd).
Proof.
  intros w. unfold exec_cmd. pose proof (evolution_run cmd w) as Hr.
  destruct (run cmd w) as [[r|e] w1]; cbn in Hr; [case_bool_decide|]; cbn; [done|..];
    (etrans; [exact Hr|by apply evolution_outside]).
Qed.

Lemma outside_show_dep_error name : preserves outside (show_dep_error name).
Proof. unfold show_dep_error. preserves. Qed.

Lemma outside_get_imports i v : preserves outside (get_imports i v).
Proof. unfold get_imports, assert_false. pose proof outside_show_dep_error. preserves. Qed.

Lemma outside_imports_to_follow i t v : preserves outside (imports_to_follow i t v).
Proof. unfold imports_to_follow. pose proof outside_get_imports. preserves. Qed.
End evolution.

#[export] Hint Resolve evolves_run evolves_shell evolves_exec_cmd evolves_makedirs evolves_outside
  outside_show_dep_error outside_get_imports outside_imports_to_follow : trace.

(** Follows the structure of a computation. *)
Ltac evolves :=
  repeat match goal with
  | |- evolves _ (if ?b then _ else _) => destruct b
  | |- evolves _ (match ?x with _ => _ end) => destruct x
  | |- evolves _ (_ ≫= _) => apply evolves_bind; [typeclasses eauto| |intros ?]
  | |- evolves _ (for_each _ _) => apply evolves_for_each; [typeclasses eauto|intros ?]
  | |- evolves _ (fold_each _ _ _) => apply evolves_fold_each; [typeclasses eauto|intros ? ?]
  | _ => solve [eauto 2 with trace typeclass_instances]
  | _ => solve [apply evolves_outside; [typeclasses eauto|preserves]]
  end.

Section operations.
Context `{Os} (I : dict str AidlInterface) (R : world -> world -> Prop) `{!Evolution R}.

Lemma evolves_add_dependency d i v : evolves R (add_dependency d i v).
Proof. unfold add_dependency, aidl_gen_preprocessed, exists_path, assert_false. evolves. Qed.

Lemma evolves_bump z : evolves R (bump z).
Proof. by apply evolves_outside. Qed.

Lemma evolves_process_imports fuel i d : evolves R (process_imports fuel I i d).
Proof.
  revert i d; induction fuel as [|fuel IH]; intros i d; cbn [process_imports];
    [by apply evolves_outside|].
  pose proof evolves_add_dependency. pose proof evolves_bump. evolves.
Qed.

Lemma evolves_get_dependencies i v b : evolves R (get_dependencies i I v b).
Proof. unfold get_dependencies. pose proof evolves_process_imports. evolves. Qed.

Lemma evolves_check_api i o n level msg : evolves R (check_api I i o n level msg).
Proof. unfold check_api, assert_false. pose proof evolves_get_dependencies. evolves. Qed.

Lemma evolves_check_integrity i d : evolves R (check_integrity i d).
Proof. unfold check_integrity. evolves. Qed.

Lemma evolves_validate_dump i last prev d : evolves R (validate_dump I i last prev d).
Proof.
  unfold validate_dump, exists_path, assert_false, check_compatibility.
  pose proof evolves_check_api. pose proof evolves_check_integrity. evolves.
Qed.

Lemma evolves_validate_dumps i prev l : evolves R (validate_dumps I i prev l).
Proof.
  revert prev; induction l as [|d l IH]; intros prev; cbn [validate_dumps]; [by apply evolves_outside|].
  pose proof evolves_validate_dump. evolves.
Qed.

Lemma evolves_validate_interface i : evolves R (validate_interface I i).
Proof. unfold validate_interface. pose proof evolves_validate_dumps. evolves. Qed.

Lemma evolves_check_for_development i latest tot : evolves R (check_for_development I i latest tot).
Proof. unfold check_for_development. pose proof evolves_get_dependencies. evolves. Qed.

Lemma evolves_dependecies_check i : evolves R (dependecies_check_for_freeze I i).
Proof.
  unfold dependecies_check_for_freeze, exists_path, assert_false. pose proof evolves_get_dependencies. evolves.
Qed.

Lemma evolves_make_api_dump i dump v path : evolves R (make_api_dump_as_version i dump v path).
Proof. unfold make_api_dump_as_version. evolves. Qed.
End operations.

#[export] Hint Resolve evolves_get_dependencies evolves_check_api evolves_check_integrity
  evolves_validate_dumps : trace.

(** ** The trace *)

(** The trace of commands only grows. *)
Definition grown (w w' : world) : Prop := exists l, w_cmds w' = w_cmds w ++ l.

#[export] Instance grown_preorder : PreOrder grown.
Proof.
  split.
  - intros w. exists []. by rewrite app_nil_r.
  - intros w1 w2 w3 [l1 E1] [l2 E2]. exists (l1 ++ l2). by rewrite E2, E1, app_assoc.
Qed.

Lemma cmds_makedirs p : preserves w_cmds (makedirs p).
Proof. intros w. unfold makedirs. by destruct (_ || _). Qed.

#[export] Instance grown_evolution `{Os} : Evolution grown.
Proof.
  split.
  - apply _.
  - intros w w' [= _ E _]. exists []. by rewrite E, app_nil_r.
  - intros cmd w. unfold run. destruct (run_process cmd (w_fs w)) as [r fs]. by exists [cmd].
  - intros p w. exists []. by rewrite cmds_makedirs, app_nil_r.
Qed.

(** So does that of the exit statuses. *)
Definition exits_grown (w w' : world) : Prop := exists l, w_exits w' = w_exits w ++ l.

#[export] Instance exits_grown_preorder : PreOrder exits_grown.
Proof.
  split.
  - intros w. exists []. by rewrite app_nil_r.
  - intros w1 w2 w3 [l1 E1] [l2 E2]. exists (l1 ++ l2). by rewrite E2, E1, app_assoc.
Qed.

#[export] Instance exits_grown_evolution `{Os} : Evolution exits_grown.
Proof.
  split.
  - apply _.
  - intros w w' [= _ _ E]. exists []. by rewrite E, app_nil_r.
  - intros cmd w. unfold run. destruct (run_process cmd (w_fs w)) as [r fs]. cbn. by eexists.
  - intros p w. exists []. unfold makedirs. destruct (_ || _); by rewrite app_nil_r.
Qed.

(** ** A file *)

(** The trace only grows, and a file is left alone if the commands do so. *)
Definition leaves `{Os} (file : str) (cmd : list str) : Prop :=
  forall fs, dget (snd (run_process cmd fs)) file = dget fs file.

Definition undisturbed `{Os} (file : str) (w w' : world) : Prop :=
  exists l, w_cmds w' = w_cmds w ++ l /\
    (Forall (leaves file) l -> forall c, dget (w_fs w) file = Some (File c) -> dget (w_fs w') file = Some (File c)).

#[export] Instance undisturbed_evolution `{Os} file : Evolution (undisturbed file).
Proof.
  assert (Hout : forall w w', outside w' = outside w -> undisturbed file w w').
  { intros w w' [= E1 E2 _]. exists []. rewrite E1, E2, app_nil_r. split; [done|]. auto. }
  split; [split| |..].
  - intros w. by apply Hout.
  - intros w1 w2 w3 (l1 & E1 & H1) (l2 & E2 & H2). exists (l1 ++ l2). split; [by rewrite E2, E1, app_assoc|].
    intros [Hl1 Hl2]%Forall_app c Hc. auto.
  - done.
  - intros cmd w. exists [cmd]. unfold run. destruct (run_process cmd (w_fs w)) as [r fs] eqn:E. split; [done|].
    intros Hl c Hc. apply Forall_inv in Hl. specialize (Hl (w_fs w)). rewrite E in Hl. cbn in *. congruence.
  - intros p w. exists []. rewrite cmds_makedirs, app_nil_r. split; [done|]. intros _ c Hc. unfold makedirs.
    destruct (_ || _); [done|]. cbn. by rewrite dget_fs_makedirs, Hc.
Qed.
