(* ===== verification/ApiFacts.v ===== *)
(** * Correctness of validation, update-api and freeze-api

    What a successful validation has checked, that an incompatible source tree
    is never copied, what a freeze runs and in which order, and that the
    imports recorded by a freeze are read back. *)

From S2P Require Import Prelude PyStr PyStrFacts PyDict Logger PyOs AidlInterface Examples.
From S2P Require Import InterfaceFacts Imports ImportsFacts Checks LibDeps Api Evolution.

(** ** Commands that ran *)

(** Between [w] and [w'] the command [cmd] ended with exit status 0. *)
Definition ran_ok (w w' : world) (cmd : list str) : Prop :=
  exists l1 l2, w_exits w' = w_exits w ++ l1 ++ (cmd, 0%Z) :: l2.

Lemma ran_ok_grown w0 w1 w2 w3 cmd :
  exits_grown w0 w1 -> ran_ok w1 w2 cmd -> exits_grown w2 w3 -> ran_ok w0 w3 cmd.
Proof.
  intros [l0 E0] (l1 & l2 & E) [l3 E3].
  exists (l0 ++ l1), (l2 ++ l3). rewrite E3, E, E0. by rewrite <- !app_assoc.
Qed.

Lemma ran_ok_after w1 w2 w3 cmd : ran_ok w1 w2 cmd -> exits_grown w2 w3 -> ran_ok w1 w3 cmd.
Proof. by apply ran_ok_grown. Qed.

Lemma ran_ok_before w0 w1 w2 cmd : exits_grown w0 w1 -> ran_ok w1 w2 cmd -> ran_ok w0 w2 cmd.
Proof. intros H1 H2. by eapply ran_ok_grown. Qed.

(** ** [validate_interface] *)

Definition integrity_shell `{Os} (d : ApiDump) (salt : str) : list str :=
  ["/bin/sh"; "-c"; integrity_cmd (api_dir d) salt (default "None" (hash_file d))
                      (path_join host_dir "message_check_integrity.txt")]%str.

Section validation.
Context `{Os} (I : dict str AidlInterface) (i : AidlInterface).

Lemma run_ran cmd w r w' : run cmd w = (Ok r, w') -> returncode r = 0%Z -> ran_ok w w' cmd.
Proof.
  unfold run. destruct (run_process cmd (w_fs w)) as [r' fs'] eqn:E. intros [= -> <-] H0.
  exists [], []. cbn. by rewrite H0.
Qed.

Lemma check_api_ran o n level msg w t w' :
  check_api I i o n level msg w = (Ok t, w') ->
  exists deps, ran_ok w w' (check_api_cmd i o n level deps).
Proof.
  unfold check_api. unfold mbind at 1, M_bind at 1.
  destruct (get_dependencies i I (dump_version n) false w) as [[di|e] w1] eqn:E1; [|done].
  unfold mbind at 1, M_bind at 1. set (cmd := check_api_cmd _ _ _ _ _).
  destruct (run cmd w1) as [[r|e] w2] eqn:E2; [|done].
  case_bool_decide as Hr.
  - intros E. exfalso. revert E. unfold mbind, M_bind.
    destruct (exec_cmd ["cat"%str; msg] w2) as [[b|e] w3]; [|done].
    by rewrite for_each_log.
  - intros E3. exists (fst (fst di)). fold cmd.
    assert (exits_grown w2 w') as G3.
    { revert E3. apply evolves_to. evolves. }
    assert (exits_grown w w1) as G1.
    { revert E1. apply evolves_to. evolves. }
    eapply ran_ok_grown; [exact G1| |exact G3]. by eapply run_ran.
Qed.

Lemma check_integrity_ran d w w' :
  check_integrity i d w = (Ok tt, w') ->
  exists salt, version_for_hashgen (dump_version d) = Ok salt /\ ran_ok w w' (integrity_shell d salt).
Proof.
  unfold check_integrity, of_res, shell. unfold mbind, M_bind.
  destruct (version_for_hashgen (dump_version d)) as [salt|]; [|done].
  set (cmd := [_; _; _]).
  destruct (run cmd w) as [[r|e] w1] eqn:E; [|done]. unfold mret, M_ret.
  case_bool_decide as Hr; [done|]. intros [= <-].
  exists salt. split; [done|]. by eapply run_ran.
Qed.

Lemma validate_dump_ran last prev d w w' :
  validate_dump I i last prev d w = (Ok tt, w') ->
  (last = false -> exists salt, version_for_hashgen (dump_version d) = Ok salt /\
     ran_ok w w' (integrity_shell d salt)) /\
  (forall old, prev = Some old -> exists deps, ran_ok w w' (check_api_cmd i old d "compatible" deps)).
Proof.
  unfold validate_dump, exists_path, gets, assert_false, raise. unfold mbind, M_bind.
  destruct (fs_exists (w_fs w) (default [] (hash_file d))).
  - destruct (check_integrity i d w) as [[[]|e] w1] eqn:E1; [|done].
    apply check_integrity_ran in E1 as H1. intros E2.
    assert (G2 : exits_grown w1 w').
    { destruct prev; [|by injection E2 as <-]. unfold check_compatibility in E2.
      destruct (check_api _ _ _ _ _ _ w1) as [[t|e] w2] eqn:E3; [|done].
      injection E2 as <-. revert E3. apply evolves_to. evolves. }
    assert (G1 : exits_grown w w1) by (revert E1; apply evolves_to; evolves).
    split.
    + intros _. destruct H1 as (salt & Hs & Hr). exists salt. split; [done|]. by eapply ran_ok_after.
    + intros old ->. unfold check_compatibility in E2.
      destruct (check_api _ _ _ _ _ _ w1) as [[t|e] w2] eqn:E3; [|done]. injection E2 as <-.
      apply check_api_ran in E3 as [deps Hd]. exists deps.
      by eapply ran_ok_before.
  - destruct last; [|done]. unfold mret, M_ret. intros E2. split; [done|].
    intros old ->. unfold check_compatibility in E2.
    destruct (check_api _ _ _ _ _ _ w) as [[t|e] w2] eqn:E3; [|done]. injection E2 as <-.
    by apply check_api_ran in E3.
Qed.

Lemma validate_dumps_ran dumps : forall prev w w',
  validate_dumps I i prev dumps w = (Ok tt, w') ->
  (forall k d, dumps !! k = Some d -> S k < length dumps ->
     exists salt, version_for_hashgen (dump_version d) = Ok salt /\ ran_ok w w' (integrity_shell d salt)) /\
  (forall k old new, match prev with Some p => p :: dumps | None => dumps end !! k = Some old ->
     match prev with Some p => p :: dumps | None => dumps end !! S k = Some new ->
     exists deps, ran_ok w w' (check_api_cmd i old new "compatible" deps)).
Proof.
  induction dumps as [|d dumps IH]; intros prev w w' E.
  - split; [done|]. intros k old new _ Hn. by destruct prev.
  - cbn [validate_dumps] in E. unfold mbind at 1, M_bind at 1 in E.
    destruct (validate_dump _ _ _ _ _ w) as [[[]|e] w1] eqn:E1; [|done].
    assert (G1 : exits_grown w w1).
    { revert E1. apply evolves_to. unfold validate_dump, exists_path, assert_false, check_compatibility.
      evolves. }
    assert (G2 : exits_grown w1 w') by (revert E; apply evolves_to; evolves).
    apply validate_dump_ran in E1 as [Hi Hc]. apply IH in E as [IHi IHc].
    assert (Hup : forall cmd, ran_ok w1 w' cmd -> ran_ok w w' cmd).
    { intros cmd. by apply ran_ok_before. }
    split.
    + intros [|k] d' Hk Hl; cbn in Hk, Hl.
      * injection Hk as <-. destruct Hi as (salt & Hs & Hr); [by destruct dumps; cbn in Hl; [lia|]|].
        exists salt. split; [done|]. by eapply ran_ok_after.
      * destruct (IHi k d' Hk ltac:(lia)) as (salt & Hs & Hr). eauto.
    + assert (Hd : forall k old new, (d :: dumps) !! k = Some old -> (d :: dumps) !! S k = Some new ->
        exists deps, ran_ok w w' (check_api_cmd i old new "compatible" deps)).
      { intros k old new Ho Hn. destruct (IHc k old new Ho Hn) as [deps Hr]. eauto. }
      destruct prev as [p|]; [|exact Hd]. intros [|k] old new Ho Hn; [|by eapply Hd].
      cbn in Ho, Hn. injection Ho as <-. injection Hn as <-.
      destruct (Hc p eq_refl) as [deps Hr]. exists deps. by eapply ran_ok_after.
Qed.

(** The dumps that are compared, from the file system. *)
Lemma frozen_dumps_versions fs dumps : frozen_dumps fs i = Ok dumps ->
  dump_version <$> dumps = (if has_frozen_versions fs i then versions i else []) /\
  (has_frozen_versions fs i = true ->
     Forall (fun v => fs_exists fs (get_versioned_dir i v) = true) (versions i)).
Proof using.
  unfold frozen_dumps. destruct (has_frozen_versions fs i); [|by intros [= <-]].
  intros HF%mapM_res_Ok. split.
  - induction HF as [|v d l dumps Hv _ IH]; [done|]. cbn. f_equal; [|exact IH].
    destruct (fs_exists fs _); [|done]. by injection Hv as <-.
  - intros _. clear -HF. induction HF as [|v d l dumps Hv _ IH]; constructor; [|done].
    by destruct (fs_exists fs (get_versioned_dir i v)).
Qed.
End validation.

(** What [validate_interface] runs over. *)
Lemma validate_interface_run `{Os} I i w dumps w' :
  validate_interface I i w = (Ok dumps, w') ->
  let fs := w_fs w in
  (has_frozen_versions fs i = true ->
     Forall (fun v => fs_exists fs (get_versioned_dir i v) = true) (versions i)) /\
  (dump_version <$> dumps =
     (if has_frozen_versions fs i then versions i else []) ++
     (if fs_exists fs (get_versioned_dir i CURRENT_VERSION)
      then match next_version i with Ok v => [v] | Err _ => [] end else [])) /\
  validate_dumps I i None dumps w = (Ok tt, w').
Proof.
  intros E fs. unfold validate_interface, gets, of_res in E. unfold mbind, M_bind in E. fold fs in E.
  assert (exists cur, (if fs_exists fs (get_versioned_dir i CURRENT_VERSION)
      then match next_version i with Ok v => [v] | Err _ => [] end else []) = dump_version <$> cur /\
    match frozen_dumps fs i with
    | Ok frozen => (validate_dumps I i None (frozen ++ cur) ≫= fun _ => mret (frozen ++ cur)) w = (Ok dumps, w')
    | Err e => False
    end) as (cur & Hcur & E').
  { destruct (fs_exists fs (get_versioned_dir i CURRENT_VERSION)).
    - destruct (next_version i) as [nv|]; [|done].
      exists [dump_of fs nv (get_versioned_dir i CURRENT_VERSION)]. split; [done|].
      by destruct (frozen_dumps fs i).
    - exists []. split; [done|]. by destruct (frozen_dumps fs i). }
  destruct (frozen_dumps fs i) as [frozen|] eqn:Ef; [|done].
  apply frozen_dumps_versions in Ef as [Hv Hd].
  unfold mbind, M_bind in E'. destruct (validate_dumps I i None (frozen ++ cur) w) as [[[]|e] w1] eqn:Ev; [|done].
  injection E' as <- <-. split_and!; [done| |done]. rewrite fmap_app, Hv. by rewrite Hcur.
Qed.

(** C13: a successful [validate_interface] has looked at every recorded version
    (all of them on disk) and the current one, in order; for each two adjacent
    versions the aidl compiler compared the older with the newer for
    compatibility, and for each version but the last the hash was checked, salted
    with the version before it; each of these commands was run then and ended
    with exit status 0. *)
Theorem validate_interface_sound `{Os} I i w dumps w' :
  validate_interface I i w = (Ok dumps, w') ->
  let fs := w_fs w in
  (has_frozen_versions fs i = true ->
     Forall (fun v => fs_exists fs (get_versioned_dir i v) = true) (versions i)) /\
  (dump_version <$> dumps =
     (if has_frozen_versions fs i then versions i else []) ++
     (if fs_exists fs (get_versioned_dir i CURRENT_VERSION)
      then match next_version i with Ok v => [v] | Err _ => [] end else [])) /\
  (forall k old new, dumps !! k = Some old -> dumps !! S k = Some new ->
     exists deps, ran_ok w w' (check_api_cmd i old new "compatible" deps)) /\
  (forall k d, dumps !! k = Some d -> S k < length dumps ->
     exists salt, version_for_hashgen (dump_version d) = Ok salt /\ ran_ok w w' (integrity_shell d salt)).
Proof.
  intros (Hd & Hv & [Hi Hc]%validate_dumps_ran)%validate_interface_run fs. by split_and!.
Qed.

(** ** update-api *)

Section update.
Context `{Os} (I : dict str AidlInterface).

(** The dumps that the validation before the copy compares. *)
Definition stable_dump (i : AidlInterface) (fs : fsys) (nv : str) : ApiDump :=
  dump_of fs nv (get_versioned_dir i CURRENT_VERSION).
Definition source_dump (i : AidlInterface) (fs : fsys) (nv : str) : ApiDump :=
  MkDump nv (interface_root i) (get_path_for_files_rec fs (interface_root i) "*.aidl") None.

Definition logged (w w' : world) : Prop := exists rs, w' = set_log (w_log w ++ rs) w.

Lemma pre_validate_run i old new w :
  match check_compatibility I i old new w with
  | (Ok _, w2) => exists w3, pre_validate I i old new w = (Ok tt, w3) /\ logged w2 w3
  | (Err e, w2) => exists w3,
      pre_validate I i old new w = (Err (if caught_by_update e then update_abort else e), w3) /\
      logged w2 w3
  end.
Proof.
  unfold pre_validate. destruct (check_compatibility I i old new w) as [[t|e] w2].
  - eexists. split; [reflexivity|]. by eexists.
  - destruct (caught_by_update e).
    + unfold mbind, M_bind. rewrite for_each_log. eexists. split; [reflexivity|]. by eexists.
    + exists w2. split; [done|]. exists []. rewrite app_nil_r. by destruct w2.
Qed.

End update.

(** C7: update-api on a known interface.  In module-local layout it does
    nothing but print.  With frozen versions and a current version in place,
    the compiler first compares the sources with it: if that fails, the
    operation raises (assertion failures and runtime errors as one
    [RuntimeError]) in the very state the comparison left, up to messages, so
    nothing is copied, hashed or removed; only if it succeeds does the copy
    go on.  Otherwise the copy starts right away. *)
Theorem handle_update_api_exact `{Os} I name i w :
  dget I name = Some i ->
  let cur := get_versioned_dir i CURRENT_VERSION in
  if decide (layout i = "module-local"%str) then
    exists w', handle_update_api I name w = (Ok tt, w') /\ logged w w'
  else if fs_exists (w_fs w) cur && has_frozen_versions (w_fs w) i then
    exists w1, logged w w1 /\
    match next_version i with
    | Err e => handle_update_api I name w = (Err e, w1)
    | Ok nv =>
        match check_compatibility I i (stable_dump i (w_fs w) nv) (source_dump i (w_fs w) nv) w1 with
        | (Err e, w2) => exists w3, logged w2 w3 /\
            handle_update_api I name w = (Err (if caught_by_update e then update_abort else e), w3)
        | (Ok _, w2) => exists w3, logged w2 w3 /\
            handle_update_api I name w = update_copy I i cur w3
        end
    end
  else exists w1, logged w w1 /\ handle_update_api I name w = update_copy I i cur w1.
Proof.
  intros Hi cur. unfold handle_update_api, get_interface, of_res, gets. unfold mbind, M_bind.
  rewrite Hi. fold cur. case_decide as Hl.
  { rewrite bool_decide_eq_true_2 by done. eexists. split; [reflexivity|]. by eexists. }
  rewrite bool_decide_eq_false_2 by done.
  destruct (fs_exists (w_fs w) cur); cbn [andb]; [|by eexists; split; [eexists|]].
  destruct (has_frozen_versions (w_fs w) i); [|by eexists; split; [eexists|]].
  cbv beta iota delta [log modify].
  set (w1 := set_log (_ ++ _log INFO INFO "Frozen versions exist - enforcing backward compatibility" []) _).
  exists w1. split.
  { eexists. unfold w1. cbn. rewrite <- app_assoc. reflexivity. }
  destruct (next_version i) as [nv|e] eqn:En; [|reflexivity].
  pose proof (pre_validate_run I i (stable_dump i (w_fs w) nv) (source_dump i (w_fs w) nv) w1) as Hp.
  destruct (check_compatibility _ _ _ _ w1) as [[t|e] w2];
    destruct Hp as (w3 & Hp & Hw3); exists w3; (split; [done|]);
    unfold stable_dump, source_dump in Hp; fold cur in Hp; by rewrite Hp.
Qed.

Definition hash_cmd `{Os} (i : AidlInterface) (salt : str) : list str :=
  [CMD_AIDL_HASH_GEN; get_versioned_dir i CURRENT_VERSION; salt;
   path_join (get_versioned_dir i CURRENT_VERSION) ".hash"].

Definition sh (cmd : str) : list str := ["/bin/sh"; "-c"; cmd]%str.

Lemma shell_run `{Os} cmd w r w' : shell cmd w = (Ok r, w') -> w_cmds w' = w_cmds w ++ [sh cmd] /\
  w_has_development w' = w_has_development w.
Proof.
  unfold shell, run, mbind, M_bind.
  destruct (run_process _ (w_fs w)) as [[c|e] fs]; [|done]. by intros [= _ <-].
Qed.

Lemma update_hash_run `{Os} i w w' : update_hash_for_current_api i w = (Ok tt, w') ->
  exists nv salt, next_version i = Ok nv /\ version_for_hashgen nv = Ok salt /\
    w_cmds w' = w_cmds w ++ [hash_cmd i salt] /\ w_has_development w' = w_has_development w.
Proof.
  unfold update_hash_for_current_api, of_res, mbind, M_bind.
  destruct (next_version i) as [nv|]; [|done].
  destruct (version_for_hashgen nv) as [salt|] eqn:Es; [|done].
  unfold remove_if_exists. fold (hash_cmd i salt).
  destruct (dget (w_fs w) _) as [[c|]|]; [|done|].
  all: unfold run; destruct (run_process _ _) as [[r|e] fs]; [|done]; intros [= <-];
    exists nv, salt; split_and!; done.
Qed.

(** C37: a copy that succeeds has synchronised the sources into the [current]
    version, then hashed it under the salt of the next version, then validated
    the interface in the state that left, in that order. *)
Theorem update_copy_order `{Os} I i cur w w' :
  update_copy I i cur w = (Ok tt, w') ->
  exists nv salt w1 dumps, next_version i = Ok nv /\ version_for_hashgen nv = Ok salt /\
    w_cmds w1 = w_cmds w ++ [sh (rsync_cmd (interface_root i) cur); hash_cmd i salt] /\
    validate_interface I i w1 = (Ok dumps, w').
Proof.
  unfold update_copy. intros E. unfold mbind, M_bind in E.
  pose proof (cmds_makedirs cur w) as E0. destruct (makedirs cur w) as [[[]|e] w0]; [|done].
  cbn in E0.
  destruct (shell _ w0) as [[r|e] w1] eqn:E1; [|done]. apply shell_run in E1 as [E1 _].
  destruct (update_hash_for_current_api i w1) as [[[]|e] w2] eqn:E2; [|done].
  apply update_hash_run in E2 as (nv & salt & Hnv & Hs & E2 & _).
  destruct (validate_interface I i w2) as [[dumps|e] w3] eqn:E3; [|done].
  injection E as <-. exists nv, salt, w2, dumps. split_and!; [done..| |done].
  rewrite E2, E1, E0. by rewrite <- app_assoc.
Qed.

(** ** freeze-api *)

Lemma fmt_d_not_current z : (0 <= z)%Z -> fmt_d z <> CURRENT_VERSION.
Proof.
  intros [HF _]%fmt_d_nonneg E. rewrite E in HF. unfold CURRENT_VERSION in HF.
  apply Forall_cons in HF as [Hc _]. by vm_compute in Hc.
Qed.

Lemma freeze_copy_run `{Os} i dump z path w w' : (0 <= z)%Z ->
  make_api_dump_as_version i dump (fmt_d z) path w = (Ok tt, w') ->
  w_cmds w' = w_cmds w ++
    [sh (freeze_copy_cmd dump (get_versioned_dir i (fmt_d z)) path);
     sh (freeze_message_cmd i (fmt_d z) path)] /\
  w_has_development w' = w_has_development w.
Proof.
  intros Hz. unfold make_api_dump_as_version.
  rewrite bool_decide_eq_true_2 by by apply fmt_d_not_current. unfold mbind, M_bind.
  destruct (shell _ w) as [[r|e] w1] eqn:E1; [|done]. apply shell_run in E1 as [E1 D1].
  destruct (shell _ w1) as [[r2|e] w2] eqn:E2; [|done]. apply shell_run in E2 as [E2 D2].
  intros [= <-]. rewrite E2, E1, <- app_assoc. split; [done|congruence].
Qed.

Lemma append_version_run `{Os} I i v w w' : append_version I i v w = (Ok tt, w') ->
  exists imports path, versioned_imports I i = Ok imports /\ w_has_development w = Some path /\
    w_cmds w' = w_cmds w ++ [sh (append_version_cmd i v path imports)] /\
    w_has_development w' = Some path.
Proof.
  unfold append_version, of_res, gets, mbind, M_bind.
  destruct (versioned_imports I i) as [imports|]; [|done].
  destruct (w_has_development w) as [path|] eqn:Ep; [|done].
  destruct (shell _ w) as [[r|e] w1] eqn:E1; [|done]. apply shell_run in E1 as [E1 D1].
  intros [= <-]. exists imports, path. split_and!; [done..|congruence].
Qed.

(** What is left is what the command that records leaves. *)
Lemma append_version_files `{Os} I i v w w' path : append_version I i v w = (Ok tt, w') ->
  w_has_development w = Some path ->
  exists imports r, versioned_imports I i = Ok imports /\
    run_process (sh (append_version_cmd i v path imports)) (w_fs w) = (Ok r, w_fs w').
Proof.
  unfold append_version, of_res, gets, shell, run, mbind, M_bind. intros E Hp. rewrite Hp in E.
  destruct (versioned_imports I i) as [imports|]; [|done]. fold (sh (append_version_cmd i v path imports)) in E.
  destruct (run_process _ _) as [[r|e] fs] eqn:Er; [|done]. injection E as <-. by exists imports, r.
Qed.

Lemma check_for_development_path `{Os} I i latest tot w path w' :
  check_for_development I i latest tot w = (Ok path, w') ->
  path = path_join (interface_api_dir_out i) "has_development".
Proof.
  unfold check_for_development, mbind, M_bind.
  destruct (makedirs _ w) as [[[]|e] w1]; [|done].
  destruct (match latest with Some _ => _ | None => _ end) as [[deps|e] w2]; [|done].
  destruct (shell _ w2) as [[r|e] w3]; [|done]. by intros [= <-].
Qed.

(** No part of the resolution of imports sets the global [has_development]. *)
Section has_development.
Context `{Os} (I : dict str AidlInterface).

Lemma development_exec_cmd cmd : preserves w_has_development (exec_cmd cmd).
Proof.
  intros w. unfold exec_cmd, run.
  destruct (run_process cmd (w_fs w)) as [[r|e] fs]; [|done]. by case_bool_decide.
Qed.

Lemma development_show_dep_error name : preserves w_has_development (show_dep_error name).
Proof. unfold show_dep_error. preserves. Qed.

Lemma development_imports_to_follow i t v : preserves w_has_development (imports_to_follow i t v).
Proof.
  unfold imports_to_follow, get_imports, assert_false.
  pose proof development_show_dep_error. preserves.
Qed.

Lemma development_add_dependency d i v : preserves w_has_development (add_dependency d i v).
Proof.
  unfold add_dependency, aidl_gen_preprocessed, exists_path, assert_false.
  pose proof development_show_dep_error. pose proof development_exec_cmd. preserves.
Qed.

Lemma development_process_imports fuel i d : preserves w_has_development (process_imports fuel I i d).
Proof.
  revert i d; induction fuel as [|fuel IH]; intros i d; cbn [process_imports]; [done|].
  assert (forall z, preserves w_has_development (bump z)) by done.
  pose proof development_imports_to_follow. pose proof development_add_dependency. preserves.
Qed.

Lemma development_dependecies_check i : preserves w_has_development (dependecies_check_for_freeze I i).
Proof.
  unfold dependecies_check_for_freeze, get_dependencies, exists_path, assert_false.
  pose proof development_process_imports. pose proof development_exec_cmd. preserves.
Qed.
End has_development.

(** The steps of a freeze that succeeds. *)
Lemma freeze_order `{Os} I name i n w w' :
  dget I name = Some i -> numbered i n ->
  handle_freeze_api I name w = (Ok tt, w') ->
  let v := fmt_d (Z.of_nat n + 1) in
  let path := path_join (interface_api_dir_out i) "has_development" in
  exists dumps cur w1 salt imports middle,
    validate_interface I i w = (Ok dumps, w1) /\ last dumps = Some cur /\ dump_version cur = v /\
    version_for_hashgen v = Ok salt /\ versioned_imports I i = Ok imports /\
    w_cmds w' = w_cmds w1 ++ [hash_cmd i salt] ++ middle ++
      [sh (freeze_copy_cmd cur (get_versioned_dir i v) path);
       sh (freeze_message_cmd i v path);
       sh (append_version_cmd i v path imports)].
Proof.
  intros Hi Hn E v path. pose proof (next_version_numbered i n Hn) as Hnv. fold v in Hnv.
  unfold handle_freeze_api, get_interface, of_res in E. rewrite Hi in E. unfold mbind, M_bind in E.
  destruct (validate_interface I i w) as [[dumps|e] w1] eqn:Ev; [|done].
  destruct (last dumps) as [cur|] eqn:El; [|done]. rewrite Hnv in E.
  case_bool_decide as Hc; [|done]. unfold mret, M_ret in E.
  destruct (update_hash_for_current_api i w1) as [[[]|e] w2] eqn:E2; [|done].
  apply update_hash_run in E2 as (nv & salt & Hnv' & Hs & E2 & _).
  rewrite Hnv in Hnv'. injection Hnv' as <-.
  destruct (check_for_development _ _ _ _ w2) as [[p|e] w3] eqn:E3; [|done].
  apply check_for_development_path in E3 as Hp. fold path in Hp. subst p.
  unfold modify in E. set (w3' := set_has_development (Some path) w3) in E.
  destruct (dependecies_check_for_freeze I i w3') as [[[]|e] w4] eqn:E4; [|done].
  destruct (make_api_dump_as_version _ _ _ _ w4) as [[[]|e] w5] eqn:E5; [|done].
  apply freeze_copy_run in E5 as [E5 D5]; [|lia].
  apply append_version_run in E as (imports & p & Him & Hpath & E6 & _).
  assert (grown w2 w3) as [l3 G3].
  { revert E3. apply evolves_to. unfold check_for_development. evolves. }
  assert (grown w3' w4) as [l4 G4].
  { revert E4. apply evolves_to. unfold dependecies_check_for_freeze, exists_path, assert_false. evolves. }
  pose proof (development_dependecies_check I i w3') as D4. rewrite E4 in D4. cbn in D4.
  assert (p = path) as -> by congruence.
  exists dumps, cur, w1, salt, imports, (l3 ++ l4). split_and!; [done..|].
  rewrite E6, E5, G4. unfold w3'. cbn [w_cmds set_has_development]. rewrite G3, E2.
  by rewrite <- !app_assoc.
Qed.

(** C12: a freeze that succeeds has validated the interface up to a current
    version whose number is the next one, and its last three commands freeze
    exactly that number: copy the dump of [current] to its directory if the
    development check said so, print what was done, and record the version
    with every import at its latest version.  All three read the same
    development file; the hash of [current] was renewed first. *)
Theorem handle_freeze_api_order `{Os} I name i n w w' :
  dget I name = Some i -> numbered i n ->
  handle_freeze_api I name w = (Ok tt, w') ->
  let v := fmt_d (Z.of_nat n + 1) in
  let path := path_join (interface_api_dir_out i) "has_development" in
  exists dumps cur w1 salt imports middle,
    validate_interface I i w = (Ok dumps, w1) /\ last dumps = Some cur /\ dump_version cur = v /\
    version_for_hashgen v = Ok salt /\ versioned_imports I i = Ok imports /\
    w_cmds w' = w_cmds w1 ++ [hash_cmd i salt] ++ middle ++
      [sh (freeze_copy_cmd cur (get_versioned_dir i v) path);
       sh (freeze_message_cmd i v path);
       sh (append_version_cmd i v path imports)].
Proof. apply freeze_order. Qed.

(** ** What a freeze records is read back *)

Lemma last_value_functional {A} (f : A -> str) (g : str -> str) (l : list A) (h : A -> str) n :
  (forall x, x ∈ l -> h x = g (f x)) -> n ∈ f <$> l ->
  last_value (map (fun x => (f x, h x)) l) n = Some (g n).
Proof.
  induction l as [|x l IH] using rev_ind; intros Hl Hn; [by apply elem_of_nil in Hn|].
  rewrite map_app. cbn [map]. rewrite last_value_snoc. case_decide as E.
  - subst. f_equal. apply Hl. set_solver.
  - apply IH; [intros y Hy; apply Hl; set_solver|]. rewrite fmap_app in Hn. set_solver.
Qed.

(** The imports that a freeze records for a version are, when the
    definition is loaded again, read back as every import at the version that
    was its latest; provided no name contains ["-v"], which separates name and
    version in the record. *)
Lemma frozen_imports_roundtrip I i i' v l w :
  (forall n j, dget I n = Some j -> base_name j = n) ->
  Forall dashless (imports i) ->
  versioned_imports I i = Ok l ->
  dget (versions_with_info i') v = Some (Some l) ->
  exists d, get_imports i' v w = (Ok d, w) /\
    forall n, dget d n =
      if decide (n ∈ imports i) then latest_version <$> dget I n else None.
Proof.
  intros Hnames Hdash HI Hv. exists (dict_of (map split_versioned l)).
  split; [by apply get_imports_frozen|]. intros n. rewrite dget_dict_of.
  apply mapM_res_Ok in HI. clear Hv.
  assert (Hl : map split_versioned l =
    map (fun n => (n, match dget I n with Some j => latest_version j | None => [] end)) (imports i)).
  { induction HI as [|m x ms l Hx _ IH]; [done|]. apply Forall_cons in Hdash as [Hm Hdash]. cbn.
    rewrite (IH Hdash). f_equal. unfold get_interface in Hx.
    destruct (dget I m) as [j|] eqn:Ej; [|done]. cbn in Hx. injection Hx as <-.
    apply Hnames in Ej as Hb. rewrite split_versioned_name by (unfold dashless in *; by rewrite Hb).
    by rewrite Hb. }
  rewrite Hl. case_decide as Hn.
  - rewrite (last_value_functional (fun m => m)
      (fun m => match dget I m with Some j => latest_version j | None => [] end)); [|done|by rewrite list_fmap_id].
    assert (exists j, dget I n = Some j) as [j ->]; [|done].
    clear -HI Hn. induction HI as [|m x ms l Hx _ IH]; [by apply elem_of_nil in Hn|].
    apply elem_of_cons in Hn as [->|Hn]; [|auto]. unfold get_interface in Hx.
    destruct (dget I m); [eauto|done].
  - apply last_value_None. by rewrite <- list_fmap_compose, list_fmap_id.
Qed.

Lemma frozen_imports_roundtrip_witness :
  exists d, get_imports (frozen_interface "app" "1" ["common-v0"; "hal-v0"]) "1" example_world =
    (Ok d, example_world) /\
  forall n, dget d n =
    if decide (n ∈ imports i_app) then latest_version <$> dget example_interfaces n else None.
Proof.
  apply (frozen_imports_roundtrip example_interfaces i_app _ "1" ["common-v0"; "hal-v0"]%str).
  - intros n j Hj. unfold example_interfaces in Hj. dict_cases; reflexivity.
  - repeat constructor.
  - vm_compute. reflexivity.
  - reflexivity.
Defined.

(** A name that contains ["-v"] is read back as another one. *)
Lemma dashed_name_misread :
  split_versioned (versioned_name (example_interface "audio-vendor" []) "1") =
    ("audio", "endor-v1")%str.
Proof. vm_compute. reflexivity. Qed.

(** ** Witnesses *)

Definition hal_name : str := "hal".

(** One frozen version and the current one. *)
Definition validated_interface : AidlInterface := with_versions i_common 1.
Definition validated_world : world :=
  World [("/ws/stable/aidl/common", Directory); ("/ws/stable/aidl/common/1", Directory);
         ("/ws/stable/aidl/common/1/.hash", File "f00"); ("/ws/stable/aidl/common/current", Directory)]%str
    [] [] 0 [] None [].

Lemma validate_interface_sound_witness :
  let run := validate_interface (H := quiet_os) [] validated_interface validated_world in
  is_ok (fst run) = true /\
  forall dumps w', run = (Ok dumps, w') -> dump_version <$> dumps = ["1"; "2"]%str /\
    forall d1 d2, dumps = [d1; d2] ->
      (exists deps, ran_ok validated_world w'
         (check_api_cmd (H := quiet_os) validated_interface d1 d2 "compatible" deps)) /\
      exists salt, ran_ok validated_world w' (integrity_shell (H := quiet_os) d1 salt).
Proof.
  split; [vm_compute; reflexivity|]. intros dumps w' E.
  destruct (validate_interface_sound (H := quiet_os) [] validated_interface validated_world dumps w' E)
    as (_ & Hv & Hc & Hi). split; [rewrite Hv; vm_compute; reflexivity|]. intros d1 d2 ->.
  split; [exact (Hc 0 d1 d2 eq_refl eq_refl)|].
  destruct (Hi 0 d1 eq_refl ltac:(cbn; lia)) as (salt & _ & Hr). exists salt. exact Hr.
Defined.

Lemma handle_update_api_exact_witness :
  exists w1, logged example_world w1 /\
    handle_update_api (H := quiet_os) example_interfaces hal_name example_world =
    update_copy (H := quiet_os) example_interfaces i_hal (get_versioned_dir i_hal CURRENT_VERSION) w1.
Proof.
  apply (handle_update_api_exact (H := quiet_os) example_interfaces hal_name i_hal example_world).
  reflexivity.
Defined.

Lemma update_copy_order_witness :
  let run := update_copy (H := quiet_os) example_interfaces i_hal
               (get_versioned_dir i_hal CURRENT_VERSION) example_world in
  is_ok (fst run) = true /\
  forall w', run = (Ok tt, w') -> exists nv salt, next_version i_hal = Ok nv /\
    version_for_hashgen nv = Ok salt.
Proof.
  split; [vm_compute; reflexivity|]. intros w' E.
  destruct (update_copy_order (H := quiet_os) _ _ _ _ _ E) as (nv & salt & _ & _ & Hn & Hs & _).
  exists nv, salt. split; [exact Hn|exact Hs].
Defined.

Lemma handle_freeze_api_order_witness :
  let run := handle_freeze_api (H := quiet_os) example_interfaces hal_name example_world in
  is_ok (fst run) = true /\
  forall w', run = (Ok tt, w') -> exists imports, versioned_imports example_interfaces i_hal = Ok imports.
Proof.
  split; [vm_compute; reflexivity|]. intros w' E.
  destruct (handle_freeze_api_order (H := quiet_os) example_interfaces hal_name i_hal 0 example_world w')
    as (_ & _ & _ & _ & imports & _ & _ & _ & _ & _ & Hi & _).
  - reflexivity.
  - split; [discriminate|reflexivity].
  - exact E.
  - exists imports. exact Hi.
Defined.

(** The commands of a first freeze. *)
Example first_freeze_last_command :
  last (w_cmds (snd (handle_freeze_api (H := quiet_os) example_interfaces hal_name example_world))) =
    Some (sh (append_version_cmd (H := quiet_os) i_hal "1" "/out/hal/hal-api/has_development"
                ["common-v0"%str])).
Proof. vm_compute. reflexivity. Qed.

(** An import that was never frozen is recorded at version 0, which it does not
    have: the frozen version cannot be resolved afterwards. *)
Lemma unfrozen_import_unresolvable :
  versioned_imports example_interfaces i_hal = Ok ["common-v0"%str] /\
  fst (get_dependencies (H := quiet_os) (frozen_interface "hal" "1" ["common-v0"])
         example_interfaces "1" false example_world) =
    Err (AssertionError "Unknown version provided" []).
Proof. split; vm_compute; reflexivity. Qed.
