(* ===== verification/ApiProgress.v ===== *)
(** * update-api and freeze-api succeed

    In a workspace in order, with tools that do their work, both operations come
    to their end.  A computation [runs] if from every state in order it returns
    a result and leaves a state in order. *)

From S2P Require Import Prelude PyStr PyStrFacts PyDict Graph Logger PyOs AidlInterface Examples.
From S2P Require Import InterfaceFacts Imports ImportsFacts ResolveFacts Checks LibDeps Api ApiFacts.

(** ** Computations that return *)

Definition runs {A} (Inv : world -> Prop) (Q : A -> Prop) (m : M A) : Prop :=
  forall w, Inv w -> exists a w', m w = (Ok a, w') /\ Q a /\ Inv w'.

Lemma M_bind_ok {A B} (m : M A) (f : A -> M B) a w w1 : m w = (Ok a, w1) -> (m ≫= f) w = f a w1.
Proof. unfold mbind, M_bind. by intros ->. Qed.

Section runs.
Context (Inv : world -> Prop).

Lemma runs_ret {A} (Q : A -> Prop) a : Q a -> runs Inv Q (mret a).
Proof. intros Ha w Hw. by exists a, w. Qed.

Lemma runs_bind {A B} (Q : A -> Prop) (R : B -> Prop) (m : M A) (f : A -> M B) :
  runs Inv Q m -> (forall a, Q a -> runs Inv R (f a)) -> runs Inv R (m ≫= f).
Proof.
  intros Hm Hf w Hw. destruct (Hm w Hw) as (a & w1 & E & Ha & Hw1).
  destruct (Hf a Ha w1 Hw1) as (b & w2 & E2 & Hb & Hw2).
  exists b, w2. unfold mbind, M_bind. by rewrite E.
Qed.

Lemma runs_mono {A} (Q R : A -> Prop) (m : M A) : (forall a, Q a -> R a) -> runs Inv Q m -> runs Inv R m.
Proof. intros HQ Hm w Hw. destruct (Hm w Hw) as (a & w1 & E & Ha & Hw1). exists a, w1. auto. Qed.

Lemma runs_gets {A} (Q : A -> Prop) (f : world -> A) : (forall w, Inv w -> Q (f w)) -> runs Inv Q (gets f).
Proof. intros HQ w Hw. exists (f w), w. auto. Qed.

Lemma runs_of_res {A} (Q : A -> Prop) (r : res A) a : r = Ok a -> Q a -> runs Inv Q (of_res r).
Proof. intros -> Ha w Hw. by exists a, w. Qed.

Lemma runs_for_each {A} (l : list A) (body : A -> M unit) :
  (forall x, x ∈ l -> runs Inv (fun _ => True) (body x)) -> runs Inv (fun _ => True) (for_each l body).
Proof.
  induction l as [|x l IH]; intros Hb; [by apply runs_ret|].
  cbn [for_each]. apply (runs_bind (fun _ => True)); [apply Hb; left|]. intros _ _. apply IH.
  intros y Hy. apply Hb. by right.
Qed.
End runs.

(** ** A workspace in order *)

Section workspace.
Context `{Os} (I : dict str AidlInterface) (i : AidlInterface).

Definition current_dir : str := get_versioned_dir i CURRENT_VERSION.
Definition current_hash : str := path_join current_dir ".hash".

(** The versions whose dependencies the operations ask for, with the way
    imports are followed. *)
Definition asked_for (t : import_type) (v : str) : Prop :=
  (v ∈ versions i /\ t = Frozen) \/ (v = next_of i /\ t <> Frozen).

(** The paths that must be there: the recorded versions with their hashes, and
    what comes up below the versions asked for. *)
Definition needed (p : str) : Prop :=
  (exists v, v ∈ versions i /\ (p = get_versioned_dir i v \/ p = path_join (get_versioned_dir i v) ".hash")) \/
  (exists t v y j, asked_for t v /\ comes_up I t i v y /\ usable I t y j /\ p = dir_of j (snd y)).

(** No file has the name of [d] or of a directory above it. *)
Definition makeable (fs : fsys) (d : str) : Prop :=
  forall q, q ∈ ancestors (length d) d -> fs_isfile fs q = false.

(** The files are in order; [cur] says whether the [current] version is there. *)
Record ready (cur : bool) (fs : fsys) : Prop := {
  rd_needed : forall p, needed p -> fs_exists fs p = true;
  rd_current : cur = true -> fs_exists fs current_dir = true;
  rd_makeable : makeable fs current_dir /\ makeable fs (interface_api_dir_out i);
  rd_hash : dget fs current_hash <> Some Directory;
  rd_names : NoDup (dkeys fs)
}.

(** What does not depend on the files: every version asked for is resolvable,
    and the hash of [current], which the operations remove, is none of the
    paths needed. *)
Record in_order (n : nat) : Prop := {
  or_numbered : numbered i n;
  or_resolvable : forall t v, asked_for t v -> resolvable_from I t i v;
  or_hash : ~ needed current_hash /\ current_hash ∉ ancestors (length (interface_api_dir_out i)) (interface_api_dir_out i);
  or_out : interface_api_dir_out i <> [] /\ last (interface_api_dir_out i) <> Some slash;
  or_current : current_dir <> []
}.

Lemma fs_exists_makedirs fs p q : fs_exists fs q = true -> fs_exists (fs_makedirs fs p) q = true.
Proof using. unfold fs_exists, dmem. rewrite dget_fs_makedirs. by destruct (dget fs q). Qed.

Lemma fs_isfile_makedirs fs p q : fs_isfile (fs_makedirs fs p) q = fs_isfile fs q.
Proof using. unfold fs_isfile. rewrite dget_fs_makedirs. destruct (dget fs q); [done|]. by case_decide. Qed.

Lemma NoDup_makedirs fs p : NoDup (dkeys fs) -> NoDup (dkeys (fs_makedirs fs p)).
Proof using.
  unfold fs_makedirs. generalize (filter (fun d => d <> []) (ancestors (length p) p)). intros l.
  revert fs. induction l as [|x l IH]; intros fs Hn; [done|]. cbn. apply IH.
  destruct (fs_exists fs x); [done|]. by apply NoDup_dset.
Qed.

Lemma ready_makedirs cur fs d :
  current_hash ∉ ancestors (length d) d -> ready cur fs -> ready cur (fs_makedirs fs d).
Proof using.
  intros Hd [H1 H2 [H3 H3'] H4 H5]. split.
  - intros p Hp. by apply fs_exists_makedirs, H1.
  - intros Hc. by apply fs_exists_makedirs, H2.
  - split; intros q Hq; rewrite fs_isfile_makedirs; auto.
  - rewrite dget_fs_makedirs. destruct (dget fs current_hash); [done|]. rewrite decide_False; [done|tauto].
  - by apply NoDup_makedirs.
Qed.

Lemma current_hash_longer : length current_dir < length current_hash.
Proof using. by apply path_join_longer. Qed.

Lemma hash_not_above : current_hash ∉ ancestors (length current_dir) current_dir.
Proof using. intros Hq%ancestors_length. pose proof current_hash_longer. lia. Qed.

Lemma ready_remove n cur fs : in_order n -> ready cur fs -> ready cur (fs_remove fs current_hash).
Proof using.
  intros HO [H1 H2 [H3 H3'] H4 H5].
  assert (Hex : forall q, q <> current_hash -> fs_exists fs q = true -> fs_exists (fs_remove fs current_hash) q = true).
  { intros q Hq Hx. unfold fs_exists, fs_remove, dmem in *. by rewrite dget_ddel. }
  assert (Hno : dget (fs_remove fs current_hash) current_hash = None) by (by apply dget_None, ddel_gone).
  assert (Hfile : forall q, fs_isfile fs q = false -> fs_isfile (fs_remove fs current_hash) q = false).
  { intros q Hq. unfold fs_isfile in *. destruct (decide (current_hash = q)) as [<-|Hne]; [by rewrite Hno|].
    unfold fs_remove. by rewrite dget_ddel. }
  split.
  - intros p Hp. apply Hex; [|by apply H1]. intros E. apply (proj1 (or_hash n HO)). by rewrite <- E.
  - intros Hc. apply Hex; [|by apply H2]. intros E. pose proof current_hash_longer. rewrite <- E in *. lia.
  - split; intros q Hq; apply Hfile; auto.
  - by rewrite Hno.
  - by apply NoDup_ddel.
Qed.

(** ** The steps of the operations *)

(** Between steps: [rec_counter] is 0, the development file is as given. *)
Definition Inv (cur : bool) (h : option str) (w : world) : Prop :=
  ready cur (w_fs w) /\ w_rec_counter w = 0%Z /\ w_has_development w = h.

(** Commands exit with status 0 and leave the workspace in order. *)
Definition tools_ready : Prop := forall cur, tools_keep (ready cur).

Context (n : nat) (HO : in_order n) (HT : tools_ready).

Section steps.
Context (cur : bool) (h : option str).
Notation "'step' m" := (runs (Inv cur h) (fun _ => True) m) (at level 20).

Lemma runs_log l msg args : step (log l msg args).
Proof using. intros w (Hr & Hc & Hh). eexists _, _. split; [reflexivity|]. by split_and!. Qed.

Lemma runs_run cmd : runs (Inv cur h) (fun c => returncode c = 0%Z) (run cmd).
Proof using HT.
  intros w (Hr & Hc & Hh). destruct (HT cur cmd _ Hr) as (c & fs' & E & H0 & Hr').
  unfold run. rewrite E. eexists _, _. split; [reflexivity|]. by split_and!.
Qed.

Lemma runs_shell cmd : runs (Inv cur h) (fun r => r = 0%Z) (shell cmd).
Proof using HT.
  apply (runs_bind _ _ _ _ _ (runs_run _)). intros c Hc. by apply runs_ret.
Qed.

Lemma runs_exec_cmd cmd : runs (Inv cur h) (fun ok => ok = true) (exec_cmd cmd).
Proof using HT.
  intros w Hw. destruct (runs_run cmd w Hw) as (c & w' & E & Hc & Hw').
  unfold exec_cmd. rewrite E, bool_decide_eq_true_2 by done. by exists true, w'.
Qed.

Lemma runs_exists p : needed p -> runs (Inv cur h) (fun b => b = true) (exists_path p).
Proof using. intros Hp. apply runs_gets. intros w [Hr _]. by apply (rd_needed _ _ Hr). Qed.

Lemma runs_makedirs_out : step (makedirs (interface_api_dir_out i)).
Proof using HO.
  intros w (Hr & Hc & Hh). unfold makedirs. destruct (or_out n HO) as [Hne _].
  rewrite bool_decide_eq_false_2 by done.
  destruct (existsb _ _) eqn:E.
  { apply existsb_exists in E as (q & Hq%list_elem_of_In & Hf). rewrite (proj2 (rd_makeable _ _ Hr) q Hq) in Hf. done. }
  eexists _, _. split; [reflexivity|]. split; [done|]. split; [|done]. apply ready_makedirs; [apply (or_hash n HO)|done].
Qed.

Lemma runs_remove : step (remove_if_exists current_hash).
Proof using HO.
  intros w (Hr & Hc & Hh). unfold remove_if_exists.
  destruct (dget (w_fs w) current_hash) as [[c|]|] eqn:E.
  - eexists _, _. split; [reflexivity|]. split; [done|]. split; [|done]. by eapply ready_remove.
  - by destruct (rd_hash _ _ Hr).
  - by eexists _, _.
Qed.

Lemma asked_for_mode v is_freeze_api : v ∈ versions i /\ v <> next_of i \/ v = next_of i ->
  asked_for (import_mode i v is_freeze_api) v.
Proof using.
  unfold asked_for, import_mode. intros [[Hv Hn]|Hn].
  - rewrite decide_False by done. by left.
  - rewrite decide_True by done. right. by destruct is_freeze_api.
Qed.

Lemma runs_get_dependencies v is_freeze_api :
  v <> [] -> v ∈ versions i /\ v <> next_of i \/ v = next_of i ->
  step (get_dependencies i I v is_freeze_api).
Proof using HO HT.
  intros Hnil Hv w (Hr & Hc & Hh). apply (asked_for_mode v is_freeze_api) in Hv.
  destruct (resolve_highest I (ready cur) i v is_freeze_api w Hnil (or_resolvable n HO _ _ Hv) (HT cur))
    as (deps & w' & E & _ & Hr' & Hc'); [|done|done|].
  - intros fs Hf y j Hy Hu. apply (rd_needed _ _ Hf). right. by exists (import_mode i v is_freeze_api), v, y, j.
  - exists (list_dependencies deps), w'. split; [done|]. split; [done|]. split; [done|]. split; [done|].
    rewrite <- Hh. assert (Hp : preserves w_has_development (get_dependencies i I v is_freeze_api)).
    { unfold get_dependencies. pose proof development_process_imports. preserves. }
    specialize (Hp w). by rewrite E in Hp.
Qed.

(** A version of the interface: recorded, or the next one. *)
Definition some_version (v : str) : Prop := v ∈ versions i \/ v = next_of i.

Lemma next_numbered : next_of i = fmt_d (Z.of_nat n + 1).
Proof using HO. unfold next_of. by rewrite (next_version_numbered i n (or_numbered n HO)). Qed.

Lemma some_version_number v : some_version v -> exists z, v = fmt_d z.
Proof using HO.
  intros [Hv| ->]; [|rewrite next_numbered; eauto].
  rewrite (proj2 (or_numbered n HO)) in Hv. apply elem_of_versions_upto in Hv as (z & -> & _). eauto.
Qed.

Lemma frozen_not_next v : v ∈ versions i -> v <> next_of i.
Proof using HO.
  rewrite next_numbered, (proj2 (or_numbered n HO)).
  intros (z & -> & Hz)%elem_of_versions_upto E%fmt_d_inj. lia.
Qed.

Lemma runs_dependencies v is_freeze_api : some_version v -> step (get_dependencies i I v is_freeze_api).
Proof using HO HT.
  intros Hv. apply runs_get_dependencies.
  - intros ->. apply some_version_number in Hv as [z Hz]. apply (f_equal py_int) in Hz.
    rewrite py_int_fmt_d in Hz. by vm_compute in Hz.
  - destruct Hv as [Hv|Hv]; [left|by right]. split; [done|by apply frozen_not_next].
Qed.

(** The time stamp goes into the output directory. *)
Lemma timestamp_dir p :
  dirname (path_join (interface_api_dir_out i) ("checkapi_" ++ basename p ++ ".timestamp")%str) =
  interface_api_dir_out i.
Proof using HO.
  destruct (or_out n HO) as [H1 H2]. apply dirname_join; [done..| |done].
  assert (Hs : Forall (fun c => c <> slash) ("checkapi_" ++ basename p ++ ".timestamp")%str).
  { repeat (apply Forall_app; split); [repeat constructor; done|apply basename_no_slash|repeat constructor; done]. }
  rewrite Forall_forall in Hs. intros Hin. by apply Hs in Hin.
Qed.

Lemma runs_check_api old new level message :
  some_version (dump_version new) -> step (check_api I i old new level message).
Proof using HO HT.
  intros Hv. unfold check_api. cbn zeta.
  apply (runs_bind _ (fun _ => True)); [by apply runs_dependencies|]. intros di _.
  apply (runs_bind _ _ _ _ _ (runs_run _)). intros c Hc. rewrite bool_decide_eq_false_2 by auto.
  rewrite timestamp_dir. apply (runs_bind _ (fun _ => True)); [apply runs_makedirs_out|]. intros _ _.
  apply (runs_bind _ _ _ _ _ (runs_exec_cmd _)). intros _ _. by apply runs_ret.
Qed.

Lemma runs_check_integrity d : some_version (dump_version d) -> step (check_integrity i d).
Proof using HO HT.
  intros [z Hz]%some_version_number. unfold check_integrity. cbn zeta.
  eapply (runs_bind _ (fun _ => True)); [eapply runs_of_res; [rewrite Hz; apply version_for_hashgen_fmt|done]|].
  intros salt _. apply (runs_bind _ _ _ _ _ (runs_shell _)). intros r ->. by apply runs_ret.
Qed.

Lemma runs_validate_dump last prev d :
  some_version (dump_version d) -> (last = false -> needed (default [] (hash_file d))) ->
  step (validate_dump I i last prev d).
Proof using HO HT.
  intros Hv Hh. unfold validate_dump.
  apply (runs_bind _ (fun b => last = false -> b = true)).
  { destruct last; [by apply runs_gets|]. eapply runs_mono; [|by apply runs_exists, Hh]. auto. }
  intros present Hp. apply (runs_bind _ (fun _ => True)).
  - destruct present; [by apply runs_check_integrity|].
    destruct last; [by apply runs_ret|]. by discriminate Hp.
  - intros _ _. destruct prev as [prev|]; [|by apply runs_ret].
    apply (runs_bind _ (fun _ => True)); [by apply runs_check_api|]. intros _ _. by apply runs_ret.
Qed.

Lemma runs_validate_dumps l d prev :
  Forall (fun d => some_version (dump_version d) /\ needed (default [] (hash_file d))) l ->
  some_version (dump_version d) -> step (validate_dumps I i prev (l ++ [d])).
Proof using HO HT.
  intros Hl Hd. revert prev. induction Hl as [|e l [He Hh] Hl IH]; intros prev; cbn [validate_dumps app].
  - apply (runs_bind _ (fun _ => True)); [by apply runs_validate_dump|]. intros _ _. by apply runs_ret.
  - apply (runs_bind _ (fun _ => True)); [|intros _ _; apply IH]. by apply runs_validate_dump.
Qed.

Lemma frozen_dumps_good fs : ready cur fs -> exists l, frozen_dumps fs i = Ok l /\
  Forall (fun d => some_version (dump_version d) /\ needed (default [] (hash_file d))) l.
Proof using.
  intros Hr. unfold frozen_dumps. destruct (has_frozen_versions fs i); [|by exists []].
  assert (Hl : forall vs, (forall v, v ∈ vs -> v ∈ versions i) -> exists l,
    mapM_res (fun ver => let dir := get_versioned_dir i ver in
      if fs_exists fs dir then Ok (dump_of fs ver dir)
      else Err (RuntimeError "API version %s path %s does not exist." [ver; dir])) vs = Ok l /\
    Forall (fun d => some_version (dump_version d) /\ needed (default [] (hash_file d))) l).
  { induction vs as [|v vs IH]; intros Hvs; [by exists []|].
    assert (Hv : v ∈ versions i) by (apply Hvs; left).
    destruct IH as (l & E & Hl); [intros u Hu; apply Hvs; by right|].
    cbn [mapM_res]. cbv zeta. rewrite (rd_needed _ _ Hr) by (left; exists v; auto). cbn.
    cbv zeta in E. rewrite E. eexists. split; [reflexivity|]. constructor; [|done]. split; [by left|].
    left. exists v. split; [done|by right]. }
  by apply Hl.
Qed.

(** ** The hash of [current] *)

Lemma runs_update_hash : step (update_hash_for_current_api i).
Proof using HO HT.
  unfold update_hash_for_current_api. pose proof (next_version_numbered i n (or_numbered n HO)) as Hn.
  apply (runs_bind _ (fun v => exists z, v = fmt_d z)); [eapply runs_of_res; [exact Hn|by eexists]|].
  intros v [z ->]. apply (runs_bind _ (fun _ => True)).
  { eapply runs_of_res; [apply version_for_hashgen_fmt|done]. }
  intros salt _. cbn zeta. apply (runs_bind _ (fun _ => True)); [apply runs_remove|]. intros _ _.
  apply (runs_bind _ _ _ _ _ (runs_run _)). intros _ _. by apply runs_ret.
Qed.
End steps.

Notation step m := (fun cur h => runs (Inv cur h) (fun _ => True) m).

(** With [current] there, the interface validates up to its next version. *)
Lemma runs_validate h : runs (Inv true h)
  (fun dumps => exists l d, dumps = l ++ [d] /\ dump_version d = next_of i) (validate_interface I i).
Proof using HO HT.
  unfold validate_interface. cbn zeta. pose proof (next_version_numbered i n (or_numbered n HO)) as Hn.
  apply (runs_bind _ (fun fs => ready true fs)); [apply runs_gets; by intros w [Hr _]|]. intros fs Hr.
  apply (runs_bind _ (fun l => exists d, l = [d] /\ dump_version d = next_of i)).
  { fold current_dir. rewrite (rd_current _ _ Hr) by done.
    apply (runs_bind _ (fun v => v = next_of i)).
    - eapply runs_of_res; [exact Hn|]. by rewrite next_numbered.
    - intros v ->. apply runs_ret. eexists. split; [reflexivity|done]. }
  intros l (d & -> & Hd). destruct (frozen_dumps_good true fs Hr) as (fl & Ef & Hfl).
  apply (runs_bind _ (fun l => l = fl)); [by eapply runs_of_res|]. intros ? ->.
  apply (runs_bind _ (fun _ => True)).
  { apply runs_validate_dumps; [done|]. rewrite Hd. by right. }
  intros _ _. apply runs_ret. by exists fl, d.
Qed.

(** ** update-api *)

Lemma runs_update_copy cur h w : Inv cur h w ->
  exists w', update_copy I i current_dir w = (Ok tt, w') /\ Inv true h w'.
Proof using HO HT.
  intros (Hr & Hc & Hh). unfold update_copy. unfold mbind at 1, M_bind at 1.
  assert (Hm : exists w1, makedirs current_dir w = (Ok tt, w1) /\ Inv true h w1).
  { unfold makedirs. rewrite bool_decide_eq_false_2 by apply (or_current n HO). destruct (existsb _ _) eqn:E.
    - apply existsb_exists in E as (q & Hq%list_elem_of_In & Hf).
      by rewrite (proj1 (rd_makeable _ _ Hr) q Hq) in Hf.
    - eexists. split; [reflexivity|]. split; [|done]. cbn.
      destruct (ready_makedirs cur _ current_dir hash_not_above Hr) as [H1 H2 H3 H4 H5]. split; try done.
      intros _. unfold fs_exists, dmem. rewrite dget_fs_makedirs. destruct (dget (w_fs w) current_dir); [done|].
      by rewrite decide_True by (split; [apply ancestors_self|apply (or_current n HO)]). }
  destruct Hm as (w1 & -> & Hw1).
  assert (Hrest : step (shell (rsync_cmd (interface_root i) current_dir) ≫= fun _ =>
    update_hash_for_current_api i ≫= fun _ => validate_interface I i ≫= fun _ => mret tt) true h).
  { apply (runs_bind _ _ _ _ _ (runs_shell true h _)). intros _ _.
    apply (runs_bind _ (fun _ => True)); [apply runs_update_hash|]. intros _ _.
    apply (runs_bind _ _ _ _ _ (runs_validate h)). intros _ _. by apply runs_ret. }
  destruct (Hrest w1 Hw1) as ([] & w' & E & _ & Hw'). by exists w'.
Qed.

Lemma runs_pre_validate cur h old new : some_version (dump_version new) ->
  runs (Inv cur h) (fun _ => True) (pre_validate I i old new).
Proof using HO HT.
  intros Hv w Hw. destruct (runs_check_api cur h old new "compatible"
    (path_join host_dir "message_check_compatibility.txt") Hv w Hw) as (a & w1 & E & _ & Hw1).
  unfold pre_validate, check_compatibility. rewrite E. by apply runs_log.
Qed.

Lemma update_succeeds name cur h w : dget I name = Some i -> Inv cur h w ->
  exists w', handle_update_api I name w = (Ok tt, w') /\
    Inv (if decide (layout i = "module-local"%str) then cur else true) h w'.
Proof using HO HT.
  intros Hi Hw. unfold handle_update_api, get_interface. rewrite Hi, (M_bind_ok _ _ i w w) by done.
  destruct (decide (layout i = "module-local"%str)) as [Hl|Hl].
  { rewrite bool_decide_eq_true_2 by done.
    destruct (runs_log cur h INFO "update-api skipped for %s - module-local layout, AIDL is already in place"
      [base_name i] w Hw) as ([] & w' & E & _ & Hw'). by exists w'. }
  rewrite bool_decide_eq_false_2 by done. cbn zeta. rewrite (M_bind_ok _ _ (w_fs w) w w) by done. fold current_dir.
  set (pre := if fs_exists (w_fs w) current_dir then _ else _).
  assert (Hpre : runs (Inv cur h) (fun _ => True) pre).
  { unfold pre. destruct (fs_exists _ _); [destruct (has_frozen_versions _ _)|]; [|apply runs_log..].
    apply (runs_bind _ (fun _ => True)); [apply runs_log|]. intros _ _.
    apply (runs_bind _ (fun _ => True)); [apply runs_log|]. intros _ _.
    apply (runs_bind _ (fun v => v = next_of i)).
    - eapply runs_of_res; [apply (next_version_numbered i n (or_numbered n HO))|]. by rewrite next_numbered.
    - intros v ->. apply runs_pre_validate. by right. }
  destruct (Hpre w Hw) as ([] & w1 & E & _ & Hw1). rewrite (M_bind_ok _ _ _ _ _ E).
  by apply (runs_update_copy cur).
Qed.

(** ** freeze-api *)

Lemma runs_check_for_development h latest tot : some_version (dump_version tot) ->
  runs (Inv true h) (fun _ => True) (check_for_development I i latest tot).
Proof using HO HT.
  intros Hv. unfold check_for_development. cbn zeta.
  apply (runs_bind _ (fun _ => True)); [apply runs_makedirs_out|]. intros _ _.
  apply (runs_bind _ (fun _ => True)).
  { destruct latest; [|by apply runs_ret].
    apply (runs_bind _ (fun _ => True)); [by apply runs_dependencies|]. intros di _. by apply runs_ret. }
  intros deps _. apply (runs_bind _ _ _ _ _ (runs_shell true h _)). intros _ _. by apply runs_ret.
Qed.

Lemma runs_dependecies_check h : runs (Inv true h) (fun _ => True) (dependecies_check_for_freeze I i).
Proof using HO HT.
  unfold dependecies_check_for_freeze. cbn zeta.
  apply (runs_bind _ (fun v => v = next_of i)).
  { eapply runs_of_res; [apply (next_version_numbered i n (or_numbered n HO))|]. by rewrite next_numbered. }
  intros v ->. apply (runs_bind _ (fun _ => True)); [apply runs_dependencies; by right|]. intros di _.
  apply (runs_bind _ (fun b => b = true)).
  { apply runs_gets. intros w [Hr _]. by apply (rd_current _ _ Hr). }
  intros b ->. cbn [negb]. apply (runs_bind _ (fun _ => True)); [by apply runs_gets|]. intros fs _.
  apply (runs_bind _ _ _ _ _ (runs_exec_cmd true h _)). intros b ->. by apply runs_ret.
Qed.

Lemma runs_copy h dump v path : runs (Inv true h) (fun _ => True) (make_api_dump_as_version i dump v path).
Proof using HT.
  unfold make_api_dump_as_version. cbn zeta. case_bool_decide.
  - apply (runs_bind _ _ _ _ _ (runs_shell true h _)). intros _ _.
    apply (runs_bind _ _ _ _ _ (runs_shell true h _)). intros _ _. by apply runs_ret.
  - apply (runs_bind _ _ _ _ _ (runs_shell true h _)). intros _ _. by apply runs_ret.
Qed.

Lemma versioned_imports_total : exists l, versioned_imports I i = Ok l.
Proof using HO.
  destruct (rf_direct _ _ _ _ (or_resolvable n HO Next (next_of i) ltac:(by right))) as (d & Hd & Hall).
  injection Hd as <-. apply mapM_res_total. intros m Hm.
  assert (Hk : m ∈ dkeys (unfrozen_imports i)).
  { unfold unfrozen_imports. apply dkeys_dict_of. rewrite <- list_fmap_compose. cbn.
    apply list_elem_of_fmap. by exists m. }
  apply list_elem_of_fmap in Hk as ([m' pin] & E & Hk). cbn in E. subst m'.
  destruct (Hall m pin Hk) as (j & u & Hj & _). unfold get_interface. rewrite Hj. by eexists.
Qed.

Lemma runs_append_version p v : runs (Inv true (Some p)) (fun _ => True) (append_version I i v).
Proof using HO HT.
  destruct versioned_imports_total as [l Hl]. unfold append_version.
  apply (runs_bind _ (fun _ => True)); [by eapply runs_of_res|]. intros imps _.
  apply (runs_bind _ (fun h => h = Some p)); [apply runs_gets; by intros w (_ & _ & Hh)|]. intros h ->.
  apply (runs_bind _ _ _ _ _ (runs_shell true (Some p) _)). intros _ _. by apply runs_ret.
Qed.

Lemma freeze_succeeds name h w : dget I name = Some i -> Inv true h w ->
  exists w' p w5, handle_freeze_api I name w = (Ok tt, w') /\ Inv true (Some p) w' /\
    append_version I i (next_of i) w5 = (Ok tt, w') /\ Inv true (Some p) w5 /\
    p = path_join (interface_api_dir_out i) "has_development".
Proof using HO HT.
  intros Hi Hw. unfold handle_freeze_api, get_interface. rewrite Hi, (M_bind_ok _ _ i w w) by done.
  destruct (runs_validate h w Hw) as (dumps & w1 & E1 & (l & d & -> & Hd) & Hw1).
  rewrite (M_bind_ok _ _ _ _ _ E1), last_snoc.
  pose proof (next_version_numbered i n (or_numbered n HO)) as Hn. rewrite <- next_numbered in Hn. rewrite Hn.
  rewrite (M_bind_ok _ _ (Some d) w1 w1).
  2: { rewrite (M_bind_ok _ _ (next_of i) w1 w1) by done. by rewrite bool_decide_eq_true_2. }
  destruct (runs_update_hash true h w1 Hw1) as ([] & w2 & E2 & _ & Hw2). rewrite (M_bind_ok _ _ _ _ _ E2).
  destruct (runs_check_for_development h (latest_dump (l ++ [d])) d ltac:(by right) w2 Hw2)
    as (p & w3 & E3 & _ & Hw3). rewrite (M_bind_ok _ _ _ _ _ E3).
  set (w3' := set_has_development (Some p) w3). rewrite (M_bind_ok _ _ tt w3 w3') by done.
  assert (Hw3' : Inv true (Some p) w3') by (destruct Hw3 as (H1 & H2 & _); by split_and!).
  destruct (runs_dependecies_check (Some p) w3' Hw3') as ([] & w4 & E4 & _ & Hw4).
  rewrite (M_bind_ok _ _ _ _ _ E4), (M_bind_ok _ _ (next_of i) w4 w4) by done.
  destruct (runs_copy (Some p) d (next_of i) p w4 Hw4) as ([] & w5 & E5 & _ & Hw5).
  rewrite (M_bind_ok _ _ _ _ _ E5).
  destruct (runs_append_version p (next_of i) w5 Hw5) as ([] & w6 & E6 & _ & Hw6).
  exists w6, p, w5. split_and!; try done. by apply check_for_development_path in E3.
Qed.
End workspace.

(** C10: update-api comes to its end.  In a workspace in order (recorded versions
    with their hashes and everything that comes up below them on disk, imports
    that resolve, nothing in the way of the directories to make), with tools that
    exit with status 0 and keep it in order, the operation succeeds, whether or
    not there are a [current] version or frozen ones, and leaves the workspace
    in order, with a [current] version unless the layout is module-local. *)
Theorem handle_update_api_succeeds `{Os} I name i n cur w :
  dget I name = Some i -> in_order I i n -> tools_ready I i ->
  ready I i cur (w_fs w) -> w_rec_counter w = 0%Z ->
  exists w', handle_update_api I name w = (Ok tt, w') /\
    ready I i (if decide (layout i = "module-local"%str) then cur else true) (w_fs w') /\
    w_rec_counter w' = 0%Z.
Proof.
  intros Hi HO HT Hr Hc.
  destruct (update_succeeds I i n HO HT name cur (w_has_development w) w Hi) as (w' & E & Hr' & Hc' & _);
    [done|]. by exists w'.
Qed.

(** C9: freeze-api comes to its end.  In a workspace in order that has a
    [current] version, with tools that exit with status 0 and keep it in order,
    the operation succeeds: the frozen versions and the next one, in this order,
    validate; then the hash is renewed, and the last three commands copy the
    current version, print what was done and record the version with the latest
    versions of its imports; the workspace it leaves is the one that the command
    that records makes of a workspace in order, and in order itself. *)
Theorem handle_freeze_api_succeeds `{Os} I name i n w :
  dget I name = Some i -> in_order I i n -> tools_ready I i ->
  ready I i true (w_fs w) -> w_rec_counter w = 0%Z ->
  let v := fmt_d (Z.of_nat n + 1) in
  let path := path_join (interface_api_dir_out i) "has_development" in
  exists w' dumps w1 cur salt imports middle fs r,
    handle_freeze_api I name w = (Ok tt, w') /\
    ready I i true (w_fs w') /\ w_rec_counter w' = 0%Z /\
    validate_interface I i w = (Ok dumps, w1) /\
    dump_version <$> dumps = (if has_frozen_versions (w_fs w) i then versions i else []) ++ [v] /\
    last dumps = Some cur /\ version_for_hashgen v = Ok salt /\ versioned_imports I i = Ok imports /\
    w_cmds w' = w_cmds w1 ++ [hash_cmd i salt] ++ middle ++
      [sh (freeze_copy_cmd cur (get_versioned_dir i v) path);
       sh (freeze_message_cmd i v path);
       sh (append_version_cmd i v path imports)] /\
    ready I i true fs /\ run_process (sh (append_version_cmd i v path imports)) fs = (Ok r, w_fs w').
Proof.
  intros Hi HO HT Hr Hc v path. pose proof (or_numbered _ _ _ HO) as Hn.
  destruct (freeze_succeeds I i n HO HT name (w_has_development w) w Hi)
    as (w' & p & w5 & E & (Hr' & Hc' & Hp') & E5 & (Hr5 & _ & Hp5) & ->); [done|]. fold path in Hp5.
  destruct (freeze_order I name i n w w' Hi Hn E)
    as (dumps & cur & w1 & salt & imports & middle & Ev & Hl & _ & Hs & Him & Htr).
  rewrite (next_numbered I i n HO) in E5. fold v in E5.
  destruct (append_version_files I i v w5 w' path E5 Hp5) as (imports' & r & Him' & Erun).
  assert (imports' = imports) as -> by congruence.
  exists w', dumps, w1, cur, salt, imports, middle, (w_fs w5), r. split_and!; try done.
  apply validate_interface_run in Ev as (_ & -> & _). f_equal.
  fold (current_dir i). rewrite (rd_current _ _ _ _ Hr) by done. by rewrite (next_version_numbered i n Hn).
Qed.

(** ** Witness: an interface with a frozen version and a frozen import *)

Definition i_c : AidlInterface := with_versions (example_interface "c" []) 2.
Definition i_b : AidlInterface :=
  let i := example_interface "b" [("c", None)]%str in
  MkInterface (base_name i) (srcs i) (interface_root i) (interface_root_stable i) (interface_gen_dir i)
    (imports i) (import_versions i) ["1"%str] [("1", Some ["c-v2"])]%str (stability i) (frozen_location i)
    (stable_aidl_subdir i) (layout i) (workspace_root i) (module_version i) (interface_root_out i)
    (interface_api_dir_out i).
Definition two_interfaces : dict str AidlInterface := [("b", i_b); ("c", i_c)]%str.

Definition two_fs : fsys :=
  [("/ws/stable/aidl", Directory); ("/ws/stable/aidl/b", Directory); ("/ws/stable/aidl/b/1", Directory);
   ("/ws/stable/aidl/b/1/.hash", File "f00"); ("/ws/stable/aidl/b/current", Directory);
   ("/ws/stable/aidl/b/current/B.aidl", File "parcelable B {}"); ("/ws/stable/aidl/b/current/.hash", File "f01");
   ("/ws/stable/aidl/c/2", Directory); ("/ws/stable/aidl/c/current", Directory)]%str.
Definition two_world : world := World two_fs [] [] 0 [] None [].

(** What comes up, in each mode: [c] at one version. *)
Definition two_nodes (t : import_type) : list version_node :=
  match t with Next => [("c", "3")] | Latest | Frozen => [("c", "2")] end%str.

Lemma two_check t v : asked_for i_b t v ->
  resolvable_fromb two_interfaces t (fun _ => 0) (two_nodes t) i_b v = true.
Proof.
  intros [[Hv ->]|[-> Ht]].
  - apply list_elem_of_singleton in Hv as ->. vm_compute. reflexivity.
  - destruct t; [vm_compute; reflexivity..|done].
Qed.

Definition two_paths : list str :=
  ["/ws/stable/aidl/b/1"; "/ws/stable/aidl/b/1/.hash"; "/ws/stable/aidl/c/2"; "/ws/stable/aidl/c/current"]%str.

Lemma two_needed p : needed two_interfaces i_b p -> p ∈ two_paths.
Proof.
  intros [(v & ->%list_elem_of_singleton & [->| ->])|(t & v & y & j & Ha & Hy & [Hj _ _ _ _] & ->)].
  - vm_compute. set_solver.
  - vm_compute. set_solver.
  - apply (comes_up_nodes _ _ _ _ _ _ (two_check t v Ha)) in Hy.
    destruct t; apply list_elem_of_singleton in Hy as ->; injection Hj as <-; vm_compute; set_solver.
Qed.

Lemma two_in_order : in_order two_interfaces i_b 1.
Proof.
  split.
  - split; [discriminate|reflexivity].
  - intros t v Ha. exact (resolvable_fromb_sound _ _ _ _ _ _ (two_check t v Ha)).
  - split; [intros Hn%two_needed|intros Hn]; revert Hn; apply (bool_decide_unpack _); vm_compute; exact I.
  - split; [discriminate|]. vm_compute. discriminate.
  - discriminate.
Qed.

Lemma two_ready : ready two_interfaces i_b true two_fs.
Proof.
  split.
  - intros p Hp%two_needed. unfold two_paths in Hp. rewrite !elem_of_cons, elem_of_nil in Hp.
    destruct Hp as [->|[->|[->|[->|[]]]]]; vm_compute; reflexivity.
  - intros _. vm_compute. reflexivity.
  - assert (Hm : forall d, forallb (fun q => negb (fs_isfile two_fs q)) (ancestors (length d) d) = true -> makeable two_fs d).
    { intros d Hd q Hq. by apply (forallb_elem _ _ _ Hd), negb_true_iff in Hq. }
    split; apply Hm; vm_compute; reflexivity.
  - vm_compute. discriminate.
  - apply (bool_decide_unpack _). vm_compute. exact I.
Qed.

Lemma two_tools : tools_ready (H := quiet_os) two_interfaces i_b.
Proof. intros cur cmd fs Hr. exists (Completed 0 [] []), fs. done. Qed.

Lemma handle_update_api_succeeds_witness :
  exists w', handle_update_api (H := quiet_os) two_interfaces "b" two_world = (Ok tt, w') /\
    ready two_interfaces i_b true (w_fs w') /\ w_rec_counter w' = 0%Z.
Proof.
  exact (handle_update_api_succeeds (H := quiet_os) two_interfaces "b" i_b 1 true two_world
           eq_refl two_in_order two_tools two_ready eq_refl).
Defined.

(** Tools that leave the last command in a file. *)
Definition recording_os : Os := {|
  cwd := "/ws";
  host_dir := "/ws/host";
  getenv := fun _ => None;
  run_process := fun cmd fs =>
    (Ok (Completed 0 [] []), dset fs "/recorded"%str (File (default [] (last cmd))))
|}.

Lemma recording_tools : tools_ready (H := recording_os) two_interfaces i_b.
Proof.
  intros cur cmd fs [H1 H2 [H3 H3'] H4 H5]. eexists _, _. split; [reflexivity|]. split; [reflexivity|].
  assert (Hex : forall p t, fs_exists fs p = true -> fs_exists (dset fs "/recorded"%str (File t)) p = true).
  { intros p t. unfold fs_exists, dmem. rewrite dget_dset. by case_decide. }
  assert (Hmk : forall d t, "/recorded"%str ∉ ancestors (length d) d -> makeable fs d ->
    makeable (dset fs "/recorded"%str (File t)) d).
  { intros d t Hd Hm q Hq. unfold fs_isfile. rewrite dget_dset. case_decide as E; [by subst q|]. by apply Hm. }
  split.
  - intros p Hp. by apply Hex, H1.
  - intros Hc. by apply Hex, H2.
  - split; (apply Hmk; [|done]); apply (bool_decide_unpack _); vm_compute; exact I.
  - rewrite dget_dset. by case_decide.
  - by apply NoDup_dset.
Qed.

Lemma handle_freeze_api_succeeds_witness : exists w',
  handle_freeze_api (H := recording_os) two_interfaces "b" two_world = (Ok tt, w') /\
  dget (w_fs w') "/recorded"%str = Some (File
    (append_version_cmd (H := recording_os) i_b "2" "/out/b/b-api/has_development" ["c-v2"%str])).
Proof.
  destruct (handle_freeze_api_succeeds (H := recording_os) two_interfaces "b" i_b 1 two_world
    eq_refl two_in_order recording_tools two_ready eq_refl)
    as (w' & dumps & w1 & cur & salt & imports & middle & fs & r & E & _ & _ & _ & _ & _ & _ & Hi & _ & _ & Hr).
  exists w'. split; [exact E|]. vm_compute in Hi. injection Hi as <-. injection Hr as _ Hr. rewrite <- Hr.
  apply dget_dset_eq.
Defined.

(** The freeze of version 2 records the latest version of [c]. *)
Example two_recorded :
  last (w_cmds (snd (handle_freeze_api (H := quiet_os) two_interfaces "b" two_world))) =
  Some (sh (append_version_cmd (H := quiet_os) i_b "2" "/out/b/b-api/has_development" ["c-v2"%str])).
Proof. vm_compute. reflexivity. Qed.
