(* ===== verification/ImportFiles.v ===== *)
(** * host/aidl_gen_rule.py: the files that AIDL sources import

    [get_imports_file] follows the [import] statements of a source file through
    the import directories, [get_aidl_files_for_imports] does so for all sources
    of an interface.  The import statements among files form a graph; the search
    returns exactly the files below the sources, and it ends exactly if they do
    not import each other in a circle. *)

From S2P Require Import Prelude PyStr PyDict Regex Logger PyOs Graph.

(** ** Import statements *)

(** [r'import\s+([\w\.]+);'] *)
Definition import_pattern : re :=
  Seq [Lit "import"; Plus Space;
       Grp 1 (Plus (Cls (fun c => is_word c || bool_decide (c = "."%char)))); Chr ";"%char].

(** [f.readlines()]: lines keep their ends. *)
Fixpoint readlines_from (cur : str) (s : str) : list str :=
  match s with
  | [] => if bool_decide (cur = []) then [] else [reverse cur]
  | c :: s =>
      if bool_decide (c = newline) then reverse (c :: cur) :: readlines_from [] s
      else readlines_from (c :: cur) s
  end.
Definition readlines (s : str) : list str := readlines_from [] s.

Definition found_imports (text : str) : list str :=
  concat (map (fun line => map (fun cs => default [] (group cs 1)) (re_findall import_pattern line))
            (readlines (universal_newlines text))).

Definition imports_path (text : str) : list str :=
  map (fun imprt => replace_char "."%char "/" imprt ++ ".aidl")%str (found_imports text).

(** The paths below the directories [dirs] that are files. *)
Definition imports_path_abs (fs : fsys) (dirs paths : list str) : list str :=
  filter (fun p => fs_isfile fs p = true)
    (concat (map (fun import_dir => map (path_join import_dir) paths) dirs)).

(** ** The search *)

Section search.
(** [list(set(l))]: the elements of [l], each once, in an order that the
    interpreter chooses. *)
Context (set_order : list str -> list str).
Context (fs : fsys) (search_srcs imports_dir imports_dir_tot : list str).

(** The two lists of files found so far are appended to in place; here they are
    passed on.  [fuel] is the depth at which the interpreter gives up. *)
Fixpoint get_imports_file (fuel : nat) (found : list str * list str) (search_src : str)
    : res (list str * list str) :=
  match fuel with
  | 0 => Err RecursionError
  | S fuel =>
      paths ← match dget fs search_src with
              | Some (File text) => Ok (imports_path text)
              | _ => Err OSError
              end;
      found ←
        (if bool_decide (imports_dir_tot = []) then Ok found
         else foldM_res (fun found next_src_tot =>
                if bool_decide (next_src_tot <> search_src) then
                  found ← get_imports_file fuel found next_src_tot;
                  Ok (fst found, snd found ++ [next_src_tot])
                else Ok found)
                found
                (filter (fun p => p ∉ search_srcs /\ p ∉ snd found)
                   (set_order (imports_path_abs fs imports_dir_tot paths))));
      foldM_res (fun found next_src =>
        found ← (if bool_decide (imports_dir_tot = [] /\ next_src <> search_src)
                 then get_imports_file fuel found next_src else Ok found);
        Ok (fst found ++ [next_src], snd found))
        found
        (filter (fun p => p ∉ search_srcs /\ p ∉ fst found)
           (set_order (imports_path_abs fs imports_dir paths)))
  end.
End search.

(** The imported files of the sources [srcs]. *)
Definition get_aidl_files_for_imports (set_order : list str -> list str) (fuel : nat)
    (imports_dir srcs : list str) : M (list str) :=
  fs ← gets w_fs;
  found ← of_res (foldM_res (get_imports_file set_order fs srcs imports_dir [] fuel) ([], []) srcs);
  mret (filter (fun import_file => import_file ∉ srcs) (fst found)).

(** ** The graph of import statements *)

Section import_graph.
Context (fs : fsys) (search_srcs imports_dir : list str).

(** The files a file imports. *)
Definition imported (f : str) : list str :=
  match dget fs f with
  | Some (File text) => imports_path_abs fs imports_dir (imports_path text)
  | _ => []
  end.

(** Every file with the files it imports, the sources left out: those are
    searched anyway. *)
Definition import_file_graph : dict str (list str) :=
  map (fun p => (p, filter (fun q => q ∉ search_srcs) (imported p))) (dkeys fs).

(** [x] imports [y], and [y] is not one of the sources. *)
Definition imports_file : str -> str -> Prop := depends import_file_graph.

Lemma imports_file_spec x y : imports_file x y <-> y ∈ imported x /\ y ∉ search_srcs.
Proof.
  unfold imports_file, depends, deps_of, import_file_graph.
  assert (E : forall l, dget (map (fun p => (p, filter (fun q => q ∉ search_srcs) (imported p))) l) x =
                        if decide (x ∈ l) then Some (filter (fun q => q ∉ search_srcs) (imported x)) else None).
  { induction l as [|p l IH]; [done|]. cbn. destruct (decide (p = x)) as [->|Hne].
    - by rewrite decide_True by left.
    - rewrite IH. destruct (decide (x ∈ l)); [by rewrite decide_True by (by right)|].
      by rewrite decide_False by set_solver. }
  rewrite E. case_decide as Hx; cbn.
  - rewrite list_elem_of_filter. tauto.
  - unfold imported. rewrite (proj2 (dget_None _ _) Hx). set_solver.
Qed.

Lemma imported_file x y : y ∈ imported x -> fs_isfile fs y = true.
Proof.
  unfold imported, imports_path_abs. destruct (dget fs x) as [[text|]|]; [|set_solver..].
  by intros [? _]%list_elem_of_filter.
Qed.

(** Where the search from the sources comes by. *)
Definition below (x : str) : Prop := exists s, s ∈ search_srcs /\ tc imports_file s x.

(** Files below the sources that import each other in a circle. *)
Definition circular : Prop := exists x, below x /\ tc imports_file x x.
End import_graph.

(** ** What the search finds *)

Section search_facts.
Context (set_order : list str -> list str).
Hypothesis set_order_perm : forall l, set_order l ≡ₚ remove_dups l.
Context (fs : fsys) (search_srcs imports_dir : list str).

Notation search := (get_imports_file set_order fs search_srcs imports_dir []).
Notation imports_file := (imports_file fs search_srcs imports_dir).
Notation dependencies_first := (dependencies_first (import_file_graph fs search_srcs imports_dir)).

(** The loop body, for one imported file. *)
Definition search_next (fuel : nat) (search_src : str) (found : list str * list str) (next_src : str)
    : res (list str * list str) :=
  found ← (if bool_decide (next_src <> search_src) then search fuel found next_src else Ok found);
  Ok (fst found ++ [next_src], snd found).

(** The files the loop goes over. *)
Definition to_search (found : list str) (search_src : str) : list str :=
  filter (fun p => p ∉ search_srcs /\ p ∉ found) (set_order (imported fs imports_dir search_src)).

Lemma search_eq fuel found f :
  fs_isfile fs f = true ->
  search (S fuel) found f = foldM_res (search_next fuel f) found (to_search (fst found) f).
Proof.
  unfold fs_isfile, to_search, imported. cbn [get_imports_file].
  destruct (dget fs f) as [[text|]|]; [|done..]. intros _. cbn [mbind res_bind].
  rewrite bool_decide_eq_true_2 by done. cbn [mbind res_bind].
  generalize (filter (fun p => p ∉ search_srcs /\ p ∉ found.1)
                (set_order (imports_path_abs fs imports_dir (imports_path text)))).
  intros l. revert found. induction l as [|x l IH]; intros found; [done|]. cbn [foldM_res]. cbv beta.
  assert (Eb : bool_decide (@nil str = [] /\ x <> f) = bool_decide (x <> f)).
  { apply bool_decide_ext. split; [by intros [_ ?]|done]. }
  assert (En : search_next fuel f found x =
    (found ← (if bool_decide (@nil str = [] /\ x <> f) then search fuel found x else Ok found);
     Ok (fst found ++ [x], snd found))) by (unfold search_next; by rewrite Eb).
  rewrite En. destruct (if bool_decide _ then _ else _) as [found'|e]; [|done]. cbn. apply IH.
Qed.

Lemma elem_of_to_search found f p :
  p ∈ to_search found f <-> imports_file f p /\ p ∉ found.
Proof.
  unfold to_search. rewrite list_elem_of_filter, imports_file_spec, set_order_perm, elem_of_remove_dups.
  tauto.
Qed.

Definition extended (P : str -> Prop) (found found' : list str) : Prop :=
  dependencies_first found' /\ exists k, found' = found ++ k /\ forall x, x ∈ k -> P x.

Hypothesis no_self_import : forall f, ~ imports_file f f.

Lemma imports_isfile f p : imports_file f p -> fs_isfile fs p = true.
Proof. intros [Hp _]%imports_file_spec. by eapply imported_file. Qed.

Lemma extended_trans P l1 l2 l3 : extended P l1 l2 -> extended P l2 l3 -> extended P l1 l3.
Proof.
  intros (_ & k & -> & Hk) (H & k' & -> & Hk'). split; [done|]. exists (k ++ k').
  split; [by rewrite app_assoc|]. intros x [?|?]%elem_of_app; auto.
Qed.

Lemma extended_incl P l l' x : extended P l l' -> x ∈ l -> x ∈ l'.
Proof. intros (_ & k & -> & _) H. apply elem_of_app. by left. Qed.

Lemma extended_weaken (P Q : str -> Prop) l l' : (forall x, P x -> Q x) -> extended P l l' -> extended Q l l'.
Proof. intros HPQ (H & k & E & Hk). split; [done|]. exists k. auto. Qed.

(** What is found from [f] extends the list, dependencies first, by files below
    [f]; all that [f] imports is then there. *)
Lemma search_extends fuel : forall found f found',
  fs_isfile fs f = true -> dependencies_first (fst found) -> search fuel found f = Ok found' ->
  extended (tc imports_file f) (fst found) (fst found') /\ (forall y, imports_file f y -> y ∈ fst found').
Proof.
  induction fuel as [|fuel IH]; intros found f found' Hf Ho H; [done|].
  rewrite search_eq in H by done.
  assert (Hl : forall p, p ∈ to_search (fst found) f -> imports_file f p)
    by (intros p Hp; by apply elem_of_to_search in Hp as [? _]).
  assert (Hr : forall p, imports_file f p -> p ∈ to_search (fst found) f \/ p ∈ fst found).
  { intros p Hp. destruct (decide (p ∈ fst found)); [by right|left]. by apply elem_of_to_search. }
  enough (G : extended (tc imports_file f) (fst found) (fst found') /\
              forall p, p ∈ to_search (fst found) f -> p ∈ fst found').
  { destruct G as [Ho' Hin]. split; [done|]. intros y [Hy|Hy]%Hr; [auto|by eapply extended_incl]. }
  clear Hr. revert H Hl. generalize (to_search (fst found) f). intros l.
  revert found Ho. induction l as [|p l IHl]; intros found Ho H Hl; cbn in H; res_inv.
  { split; [|by intros p ?%elem_of_nil]. split; [done|]. exists []. rewrite app_nil_r. set_solver. }
  assert (Hp : imports_file f p) by (apply Hl; left).
  unfold search_next in E. rewrite bool_decide_eq_true_2 in E by (intros ->; by eapply no_self_import).
  destruct (search fuel found p) as [found1|] eqn:E1; [|done]. injection E as <-.
  destruct (IH _ _ _ (imports_isfile f p Hp) Ho E1) as [Hx1 Hin1].
  assert (Hx : extended (tc imports_file f) (fst found) (fst found1 ++ [p])).
  { eapply extended_trans; [eapply extended_weaken; [|exact Hx1]; intros x Hx; by apply tc_l with p|].
    split; [apply dependencies_first_snoc; [apply Hx1|exact Hin1]|]. exists [p]. split; [done|].
    intros x ->%list_elem_of_singleton. by apply tc_once. }
  destruct (IHl (fst found1 ++ [p], snd found1)) as [Hx2 Hin2]; [apply Hx|done|set_solver|].
  split; [by eapply extended_trans|].
  intros q [->|Hq]%elem_of_cons; [|auto]. eapply extended_incl; [exact Hx2|]. cbn. set_solver.
Qed.

(** A search that fails has followed a chain of imports as long as the fuel. *)
Lemma search_err fuel found f e :
  fs_isfile fs f = true -> search fuel found f = Err e -> e = RecursionError /\ deep imports_file fuel f.
Proof.
  assert (Hstep : forall fuel s n e, fs_isfile fs n = true -> search (S fuel) s n = Err e ->
    exists m s' , imports_file n m /\ fs_isfile fs m = true /\ search fuel s' m = Err e).
  { clear fuel found f e. intros fuel s n e Hn H. rewrite search_eq in H by done.
    apply foldM_res_err in H as (s' & m & [Hm _]%elem_of_to_search & E).
    unfold search_next in E. exists m, s'. split; [done|]. split; [by eapply imports_isfile|].
    case_bool_decide; [|done]. destruct (search fuel s' m); [done|]. by injection E as <-. }
  intros Hf H. split.
  - revert found f Hf H. induction fuel as [|fuel IH]; intros found f Hf H; [by injection H as <-|].
    apply Hstep in H as (m & s' & _ & Hm & H); [|done]. by eapply IH.
  - eapply (descent_deep _ search (fun x => fs_isfile fs x = true)); [|exact Hf|exact H].
    intros fuel' s n e' Hn Hs. apply Hstep in Hs as (m & s' & ? & ? & ?); eauto 10.
Qed.

(** All sources *)
Lemma sources_extend fuel l found found' :
  (forall s, s ∈ l -> s ∈ search_srcs /\ fs_isfile fs s = true) -> dependencies_first (fst found) ->
  foldM_res (search fuel) found l = Ok found' ->
  extended (below fs search_srcs imports_dir) (fst found) (fst found') /\
  forall s y, s ∈ l -> imports_file s y -> y ∈ fst found'.
Proof.
  revert found. induction l as [|s l IH]; intros found Hs Ho H; cbn in H; res_inv.
  { split; [|by intros ? ? ?%elem_of_nil]. split; [done|]. exists []. rewrite app_nil_r. set_solver. }
  destruct (Hs s) as [Hin Hf]; [left|].
  destruct (search_extends _ _ _ _ Hf Ho E) as [Hx Hi].
  apply (extended_weaken _ (below fs search_srcs imports_dir)) in Hx; [|by exists s].
  destruct (IH _ (fun s' Hs' => Hs s' (list_elem_of_further _ _ _ Hs')) (proj1 Hx) H) as [Hx' Hi'].
  split; [by eapply extended_trans|].
  intros s' y [->|Hs']%elem_of_cons Hy; [|by eapply Hi']. eapply extended_incl; [exact Hx'|auto].
Qed.

Lemma below_not_source x : below fs search_srcs imports_dir x -> x ∉ search_srcs.
Proof.
  intros (s & _ & H). clear -H. induction H as [s x H|s y x _ _ IH]; [|done].
  by apply imports_file_spec in H as [_ ?].
Qed.

Hypothesis sources_are_files : forall s, s ∈ search_srcs -> fs_isfile fs s = true.
Notation below := (below fs search_srcs imports_dir).
Notation circular := (circular fs search_srcs imports_dir).

Definition search_all (fuel : nat) : res (list str * list str) :=
  foldM_res (search fuel) ([], []) search_srcs.

Lemma search_all_exact fuel found :
  search_all fuel = Ok found ->
  dependencies_first (fst found) /\ (forall x, x ∈ fst found <-> below x) /\ ~ circular.
Proof.
  intros H. apply sources_extend in H as [(Ho & k & E & Hk) Hi]; [|by auto|apply dependencies_first_nil].
  cbn in E. rewrite E in *. clear E.
  assert (Hall : forall x, x ∈ k <-> below x).
  { intros x. split; [apply Hk|]. intros (s & Hs & Ht). destruct Ht as [s x Hd|s y x Hd Ht].
    - by eapply Hi.
    - eapply dependencies_first_tc; [exact Ho| |exact Ht]. by eapply Hi. }
  split; [done|]. split; [done|]. intros (x & Hb%Hall & Hc).
  by apply (dependencies_first_no_cycle _ _ _ Ho Hb).
Qed.

Lemma search_all_err fuel e : search_all fuel = Err e -> e = RecursionError /\ (length fs < fuel -> circular).
Proof.
  intros H. apply foldM_res_err in H as (found & s & Hs & H).
  apply search_err in H as [-> Hd]; [|by auto]. split; [done|]. intros Hf.
  apply (deep_cycle _ _ _ (dkeys fs)) in Hd as (x & Hx & Hc).
  - exists x. split; [by exists s|done].
  - intros x Hx. assert (Hfile : fs_isfile fs x = true).
    { clear -Hx. induction Hx as [? ? H|]; [by eapply imports_isfile|done]. }
    apply dmem_dkeys. unfold fs_isfile in Hfile. unfold dmem. by destruct (dget fs x).
  - unfold dkeys. by rewrite length_fmap.
Qed.
End search_facts.

(** C18: the search for imported files ends exactly if the files below the
    sources do not import each other in a circle.  It then returns the files that
    the sources import, directly or not, sources left out, each after the files
    it imports itself; a nesting of one more than the number of paths is enough.
    On a circle it recurses until the interpreter gives up, since a file is
    recorded only after its own imports.  The sources must be files and no file
    may import itself. *)
Theorem get_aidl_files_for_imports_exact set_order imports_dir srcs w :
  (forall l, set_order l ≡ₚ remove_dups l) ->
  (forall s, s ∈ srcs -> fs_isfile (w_fs w) s = true) ->
  (forall f, ~ imports_file (w_fs w) srcs imports_dir f f) ->
  let result fuel := get_aidl_files_for_imports set_order fuel imports_dir srcs w in
  (~ circular (w_fs w) srcs imports_dir -> forall fuel, length (w_fs w) < fuel ->
     exists files, result fuel = (Ok files, w) /\
       dependencies_first (import_file_graph (w_fs w) srcs imports_dir) files /\
       forall x, x ∈ files <-> below (w_fs w) srcs imports_dir x) /\
  (circular (w_fs w) srcs imports_dir -> forall fuel, result fuel = (Err RecursionError, w)).
Proof.
  intros Hset Hsrcs Hself result.
  assert (E : forall fuel, result fuel = (match search_all set_order (w_fs w) srcs imports_dir fuel with
    | Ok found => Ok (filter (fun p => p ∉ srcs) (fst found)) | Err e => Err e end, w)).
  { intros fuel. unfold result, get_aidl_files_for_imports, search_all. unfold gets, of_res, mbind, M_bind.
    by destruct (foldM_res _ _ _). }
  split; intros Hc fuel; [intros Hf|]; rewrite E;
    destruct (search_all set_order (w_fs w) srcs imports_dir fuel) as [found|e] eqn:Es.
  - apply search_all_exact in Es as (Ho & Hall & _); [|done..].
    exists (fst found). rewrite filter_all; [done|]. intros x Hx%Hall. by eapply below_not_source.
  - apply search_all_err in Es as [_ H]; [|done..]. by destruct Hc; apply H.
  - apply search_all_exact in Es as (_ & _ & H); [|done..]. by destruct H.
  - by apply search_all_err in Es as [-> _].
Qed.

(** Sources and imports of an interface, without and with a circle. *)
Definition import_fs (common : str) : fsys :=
  [("/a/IApp.aidl", File "package a; import b.Hal; import c.Common; import a.IOther; interface IApp {}");
   ("/a/IOther.aidl", File "package a; interface IOther {}");
   ("/inc/b/Hal.aidl", File "package b; import c.Common; parcelable Hal { Common c; }");
   ("/inc/c/Common.aidl", File common)]%str.
Definition import_world (common : str) : world := World (import_fs common) [] [] 0 [] None [].

(** [Common] is found below [Hal] and once more for the source. *)
Example imported_twice :
  get_aidl_files_for_imports remove_dups 5 ["/inc"]%str ["/a/IApp.aidl"; "/a/IOther.aidl"]%str
    (import_world "package c; enum Common { A }") =
  (Ok ["/inc/c/Common.aidl"; "/inc/b/Hal.aidl"; "/inc/c/Common.aidl"]%str,
   import_world "package c; enum Common { A }").
Proof. vm_compute. reflexivity. Qed.

(** Deciding the hypotheses *)
Lemma no_self_importb_sound fs srcs dirs :
  forallb (fun p => bool_decide (p ∉ imported fs dirs p)) (dkeys fs) = true ->
  forall f, ~ imports_file fs srcs dirs f f.
Proof.
  intros H f [Hf _]%imports_file_spec. rewrite forallb_forall in H.
  assert (Hk : f ∈ dkeys fs).
  { apply dmem_dkeys. unfold dmem. unfold imported in Hf. destruct (dget fs f); [done|].
    by apply elem_of_nil in Hf. }
  specialize (H f (proj1 (list_elem_of_In _ _) Hk)). by apply bool_decide_eq_true in H.
Qed.

Lemma get_aidl_files_for_imports_exact_witness :
  let sources := ["/a/IApp.aidl"; "/a/IOther.aidl"]%str in
  let straight := import_world "package c; enum Common { A }" in
  let circle := import_world "package c; import b.Hal; parcelable Common { Hal h; }" in
  (exists files, get_aidl_files_for_imports remove_dups 5 ["/inc"]%str sources straight = (Ok files, straight) /\
     forall x, x ∈ files <-> below (w_fs straight) sources ["/inc"]%str x) /\
  (forall fuel, get_aidl_files_for_imports remove_dups fuel ["/inc"]%str sources circle =
     (Err RecursionError, circle)).
Proof.
  intros sources straight circle.
  assert (Hs : forall w s, w = straight \/ w = circle -> s ∈ sources -> fs_isfile (w_fs w) s = true).
  { intros w s [->| ->] H; unfold sources in H; rewrite !elem_of_cons, elem_of_nil in H;
      destruct H as [->|[->|[]]]; vm_compute; reflexivity. }
  assert (Hn : ~ circular (w_fs straight) sources ["/inc"]%str).
  { eapply (search_all_exact remove_dups (fun l => reflexivity _) _ _ _
              (no_self_importb_sound _ _ _ _) (fun s => Hs _ s (or_introl eq_refl)) 5).
    vm_compute. reflexivity.
    Unshelve. vm_compute. reflexivity. }
  split.
  - destruct (get_aidl_files_for_imports_exact remove_dups ["/inc"]%str sources straight) as [H _];
      [done|by auto|apply no_self_importb_sound; vm_compute; reflexivity|].
    destruct (H Hn 5) as (files & E & _ & Hf); [vm_compute; lia|eauto].
  - destruct (get_aidl_files_for_imports_exact remove_dups ["/inc"]%str sources circle) as [_ H];
      [done|by auto|apply no_self_importb_sound; vm_compute; reflexivity|].
    apply H. exists "/inc/b/Hal.aidl"%str.
    assert (E : forall x y, bool_decide (y ∈ imported (w_fs circle) ["/inc"]%str x /\ y ∉ sources) = true ->
      imports_file (w_fs circle) sources ["/inc"]%str x y).
    { intros x y Hxy%bool_decide_eq_true. by apply imports_file_spec. }
    split.
    + exists "/a/IApp.aidl"%str. split; [left|]. apply tc_once, E. vm_compute. reflexivity.
    + eapply tc_l; [|apply tc_once]; apply (E _ "/inc/c/Common.aidl"%str) || apply E; vm_compute; reflexivity.
Defined.
