(* ===== verification/GenRule.v ===== *)
(** * host/aidl_gen_rule.py

    Generation of the C++ sources of one version of an interface. *)

From S2P Require Import Prelude PyStr PyDict Logger PyOs AidlInterface Imports Checks LibDeps.

Definition check_for_sources (fs : fsys) (dir_path : str) : bool :=
  fs_isdir fs dir_path &&
  match fs_listdir fs dir_path with [] => false | _ => true end.

(** ** [resolve_emit_version] *)

(** The dash of the second message is not Latin-1 and printed as [-]. *)

Definition bad_ordinal (base_name : str) (module_version : scalar) : exn :=
  RuntimeError "interface.yaml 'version' for %s must be a positive integer (got %r)"
    [base_name; repr_scalar module_version].

Definition not_frozen_ordinal (mv_str base_name : str) : exn :=
  RuntimeError "interface.yaml 'version: %s' set on %s but the contract is 'notfrozen' - a pinned version requires a frozen .hash"
    [mv_str; base_name].

Definition resolve_emit_version (layout : str) (module_version : scalar)
    (gen_version hash_gen base_name : str) : res str :=
  if bool_decide (layout <> "module-local"%str \/ module_version = SNone) then Ok gen_version
  else
    let mv_str := strip (str_scalar module_version) in
    positive ← (if negb (isdigit mv_str) then Ok false
                else v ← py_int mv_str; Ok (negb (v <? 1)%Z));
    if negb positive then Err (bad_ordinal base_name module_version)
    else if bool_decide (hash_gen = "notfrozen"%str) then Err (not_frozen_ordinal mv_str base_name)
    else Ok mv_str.

Section gen.
Context `{Os} (interfaces : dict str AidlInterface).

(** The directory name of the version that is generated. *)
Definition gen_version_dir (interface : AidlInterface) (gen_version next : str) : str :=
  if bool_decide (layout interface = "module-local"%str) then basename (interface_root interface)
  else if bool_decide (gen_version = next) then CURRENT_VERSION
  else gen_version.

(** Where sources and headers go. *)
Definition gen_dirs (interface : AidlInterface) (version_dir : str) (gen_dir : option str)
    : str * str :=
  match gen_dir with
  | None => (path_joins (interface_gen_dir interface) [version_dir; "src"%str],
             path_joins (interface_gen_dir interface) [version_dir; "include"%str])
  | Some d => (d, path_join d "include")
  end.

(** [file.read().replace('\n', '')], or ["notfrozen"] without a hash file *)
Definition read_hash (hash_file : str) : M str :=
  present ← exists_path hash_file;
  if (present : bool) then text ← read_file hash_file; mret (replace_char newline [] text)
  else mret "notfrozen"%str.

Definition aidl_gen_cmd (interface : AidlInterface) (imports : list str)
    (gen_dir gen_dir_inc emit_version hash_gen : str) (files : list str) : str :=
  CMD_AIDL ++ " --lang=cpp --structured --min_sdk_version=33 "
  ++ join " " (stability_flag interface ++ map (fun imprt => "-I" ++ imprt)%str imports)
  ++ " -h " ++ gen_dir_inc ++ " "
  ++ "--version=" ++ emit_version ++ " --hash=" ++ hash_gen ++ " "
  ++ "--out=" ++ gen_dir ++ " " ++ join " " files ++ " ".

(** From the look at the version's directory on. *)
Definition compile_sources (interface : AidlInterface) (gen_version version_dir gen_dir gen_dir_inc : str)
    : M unit :=
  fs ← gets w_fs;
  let api_dir := get_versioned_dir interface version_dir in
  (if fs_exists fs api_dir then
     match get_path_for_files_rec fs api_dir "*.aidl" with
     | [] => assert_false ("No AIDL sources are found for the Interface " ++ replicate 20 space ++ "%s in %s")%str
               [base_name interface; api_dir]
     | _ => mret tt
     end
   else assert_false "Could not fine api directory, %s" [api_dir]) ≫= fun _ =>
  di ← get_dependencies interface interfaces gen_version false;
  hash_gen ← read_hash (path_join api_dir ".hash");
  emit_version ← of_res (resolve_emit_version (layout interface) (module_version interface)
                           gen_version hash_gen (base_name interface));
  result ← shell (aidl_gen_cmd interface (api_dir :: snd (fst di)) gen_dir gen_dir_inc
                    emit_version hash_gen (get_path_for_files_rec fs api_dir "*.aidl"));
  if bool_decide (result <> 0%Z) then
    log ERROR "AIDL compilation failed for %s version %s with exit code %d"
      [base_name interface; gen_version; fmt_d result] ≫= fun _ =>
    raise (RuntimeError "AIDL compilation failed with exit code %d" [fmt_d result])
  else mret tt.

Definition gen_cpp_sources (interface_name : str) (gen_dir gen_version : option str) : M unit :=
  interface ← of_res (get_interface interfaces interface_name);
  next ← of_res (next_version interface);
  let gen_version := default next gen_version in
  let version_dir := gen_version_dir interface gen_version next in
  let (gen_dir, gen_dir_inc) := gen_dirs interface version_dir gen_dir in
  fs ← gets w_fs;
  (if bool_decide (gen_version <> next) && check_for_sources fs gen_dir
      && check_for_sources fs gen_dir_inc
   then log INFO "Sources are already generated for %s, version: %s at %s (Includes: %s"
          [base_name interface; gen_version; gen_dir; gen_dir_inc]
   else mret tt) ≫= fun _ =>
  log INFO "Generating sources for %s, version: %s at %s"
    [base_name interface; gen_version; gen_dir] ≫= fun _ =>
  compile_sources interface gen_version version_dir gen_dir gen_dir_inc.

(** The check of a version given with [-v]. *)
Definition check_gen_version (interface : AidlInterface) (gen_version : str) : M unit :=
  (if bool_decide (layout interface = "module-local"%str) then
     log_fatal "-v/--version is not applicable to module-local interface %s; the version is its own directory (%s)"
       [base_name interface; basename (interface_root interface)]
   else mret tt) ≫= fun _ =>
  v ← of_res (py_int gen_version);
  next ← of_res (next_version interface);
  bad ← (if (v <? 1)%Z then mret true
         else n ← of_res (py_int next); mret (n <? v)%Z);
  if (bad : bool) then
    log ERROR "%s doesn have version %s, latest Available: %s" [base_name interface; gen_version; next]
      ≫= fun _ =>
    assert_false ("Provide the correct version. Available versions " ++ replicate 20 space ++ "%s & %s(current)")%str
      [join ", " (versions interface); next]
  else mret tt.

Definition handle_source_gen (interface_name : str) (gen_dir gen_version : option str) : M unit :=
  interface ← of_res (get_interface interfaces interface_name);
  api_dumps ← validate_interface interfaces interface;
  current ← match last api_dumps with
            | Some d => nv ← of_res (next_version interface); mret (bool_decide (dump_version d = nv))
            | None => mret false
            end;
  (if (current : bool) then mret tt
   else log ERROR ("API dump for the current version of AIDL " ++ replicate 16 space ++ "interface %s does not exist.")%str
          [base_name interface] ≫= fun _ =>
        log_fatal ("Run " ++ quoted "make %s-update-api" ++ ", or add "
                   ++ quoted ("stability: " ++ replicate 16 space ++ "unstable")
                   ++ " to the build rule for the interface if it "
                   ++ replicate 16 space ++ "does not need to be versioned")%str
          [base_name interface]) ≫= fun _ =>
  if bool_decide (stability interface = Some "unstable"%str) then mret tt
  else
    (match gen_version with
     | Some v => check_gen_version interface v
     | None => mret tt
     end) ≫= fun _ =>
    gen_cpp_sources interface_name gen_dir gen_version.
End gen.

Definition aidl_gen_rule `{Os} `{Loader} (interface_name : str) (interfaces_roots : list str)
    (out_dir : str) (gen_dir gen_version : option str) : M unit :=
  interfaces ← load_interfaces interfaces_roots out_dir false;
  (match interfaces with
   | [] => log_fatal "No interfaces found at %s" interfaces_roots
   | _ => mret tt
   end) ≫= fun _ =>
  (if dmem interfaces interface_name then mret tt
   else log_fatal "Interface %s is not defined in the provided locations " [interface_name]) ≫= fun _ =>
  handle_source_gen interfaces interface_name gen_dir gen_version.

Definition aidl_gen_deps `{Os} `{Loader} (interfaces_roots : list str) (out_dir : str) : M unit :=
  interfaces ← load_interfaces interfaces_roots out_dir true;
  match interfaces with
  | [] => log_fatal "No interfaces found at %s" interfaces_roots
  | _ => mret tt
  end.
