(* ===== verification/Getopt.v ===== *)
(** * [getopt.getopt] of the standard library

    Short options with and without an argument, long options with unique
    abbreviations; parsing stops at the first argument that is no option. *)

From S2P Require Import Prelude PyStr.

(** [None] is [GetoptError]. *)
Abbreviation parsed := (option (list (str * str) * list str)).

(** [short_has_arg]: [None] for an unknown letter. *)
Fixpoint short_has_arg (o : ascii) (shortopts : str) : option bool :=
  match shortopts with
  | [] => None
  | c :: rest =>
      if bool_decide (o = c /\ c <> ":"%char) then Some (startswith ":" rest)
      else short_has_arg o rest
  end.

Fixpoint do_shorts (shortopts : str) (s : str) (args : list str)
    : option (list (str * str) * list str) :=
  match s with
  | [] => Some ([], args)
  | o :: s =>
      match short_has_arg o shortopts with
      | None => None
      | Some true =>
          match s, args with
          | [], [] => None
          | [], a :: args => Some ([("-" ++ [o], a)]%str, args)
          | _, _ => Some ([("-" ++ [o], s)]%str, args)
          end
      | Some false =>
          r ← do_shorts shortopts s args;
          Some (("-" ++ [o], [])%str :: fst r, snd r)
      end
  end.

(** [long_has_args]: an exact name, or the only one that starts so. *)
Definition long_has_args (o : str) (longopts : list str) : option (bool * str) :=
  let possibilities := filter (fun l => startswith o l = true) longopts in
  if bool_decide (o ∈ possibilities) then Some (false, o)
  else if bool_decide (o ++ "=" ∈ possibilities)%str then Some (true, o)
  else match possibilities with
       | [l] => if endswith "=" l then Some (true, removelast l) else Some (false, l)
       | _ => None
       end.

Definition do_longs (longopts : list str) (o : str) (args : list str)
    : option ((str * str) * list str) :=
  let '(name, eq, value) := partition "=" o in
  let optarg := match eq with [] => None | _ => Some value end in
  match long_has_args name longopts with
  | None => None
  | Some (true, name) =>
      match optarg, args with
      | Some v, _ => Some (("--" ++ name, v)%str, args)
      | None, a :: args => Some (("--" ++ name, a)%str, args)
      | None, [] => None
      end
  | Some (false, name) =>
      match optarg with Some _ => None | None => Some (("--" ++ name, [])%str, args) end
  end.

(** The loop takes at least one argument each time. *)
Fixpoint getopt_loop (fuel : nat) (shortopts : str) (longopts : list str) (args : list str)
    : parsed :=
  match fuel, args with
  | S fuel, a :: rest =>
      if bool_decide (a = "--"%str) then Some ([], rest)
      else if startswith "--" a then
        r ← do_longs longopts (drop 2 a) rest;
        q ← getopt_loop fuel shortopts longopts (snd r);
        Some (fst r :: fst q, snd q)
      else if startswith "-" a && negb (bool_decide (a = "-"%str)) then
        r ← do_shorts shortopts (drop 1 a) rest;
        q ← getopt_loop fuel shortopts longopts (snd r);
        Some (fst r ++ fst q, snd q)
      else Some ([], args)
  | _, _ => Some ([], args)
  end.

Definition getopt (args : list str) (shortopts : str) (longopts : list str) : parsed :=
  getopt_loop (S (length args)) shortopts longopts args.
