(* ===== verification/IfaceUpdate.v ===== *)
(** * host/interface-update.py

    Appends an entry to [versions_with_info] of an interface definition. *)

From S2P Require Import Prelude PyStr PyDict Json Logger PyOs AidlInterface Getopt.

(** The YAML library, ruamel.yaml: a text to the value it holds, and back.  A
    document remembers the comments and quotes of the text it was loaded from. *)
Class Editor : Type := {
  rt_load : str -> res value;
  rt_dump : str -> value -> str
}.

Definition MODULE_TYPE_INTERFACE : str := "aidl_interface".
Definition MODULE_KEY_NAME : str := "name".
Definition MODULE_KEY_VERSIONSWITHINFO : str := "versions_with_info".
Definition MODULE_KEY_VERSION : str := "version".
Definition MODULE_KEY_IMPORTS : str := "imports".

(** [v[key]] for a text [key] *)
Definition getitem (v : value) (key : str) : res value :=
  match v with
  | VDict d => match dget d key with Some x => Ok x | None => Err (KeyError key) end
  | _ => Err TypeError
  end.

(** [[v[i] for i in range(len(v))]] *)
Definition listed (v : value) : res (list value) :=
  match v with
  | VList l => Ok l
  | VStr s => Ok (map (fun c => VStr [c]) s)
  | VDict [] => Ok []
  | VDict _ => Err (KeyError "0")
  | _ => Err TypeError
  end.

Definition update_versions_with_info (versionWithInfo : value) (addLiteral : str) : res value :=
  addLiteralDict ← literal_eval addLiteral;
  _ ← getitem addLiteralDict MODULE_KEY_VERSION;
  _ ← getitem addLiteralDict MODULE_KEY_IMPORTS;
  l ← listed versionWithInfo;
  Ok (VList (l ++ [addLiteralDict])).

(** [v == s] for a text [s] *)
Definition is_text (s : str) (v : value) : bool :=
  match v with VStr t => bool_decide (t = s) | _ => false end.

(** One iteration over [moduleNames]. *)
Definition update_module (propertyName addLiteral : str) (data : value) (moduleName : str) : res value :=
  module ← getitem data MODULE_TYPE_INTERFACE;
  name ← getitem module MODULE_KEY_NAME;
  match data, module with
  | VDict data, VDict fields =>
      if is_text moduleName name then
        module ← (if bool_decide (propertyName = MODULE_KEY_VERSIONSWITHINFO) then
                    v ← update_versions_with_info
                          (default (VList []) (dget fields MODULE_KEY_VERSIONSWITHINFO)) addLiteral;
                    Ok (dset fields MODULE_KEY_VERSIONSWITHINFO v)
                  else Ok fields);
        Ok (VDict (dset data MODULE_TYPE_INTERFACE (VDict module)))
      else Ok (VDict data)
  | _, _ => Err TypeError
  end.

Definition update_data (moduleNames : list str) (propertyName addLiteral : str) (data : value) : res value :=
  foldM_res (update_module propertyName addLiteral) data moduleNames.

(** What is printed to standard output is left out; the file is written
    whatever was updated, and whether or not [-w] was given. *)
Definition process_file `{Floats} `{Editor} (moduleNames : list str)
    (propertyName addLiteral : str) (file : str) : M unit :=
  has_json ← exists_path (file ++ ".json")%str;
  has_yaml ← exists_path (file ++ ".yaml")%str;
  if (has_json : bool) then
    text ← read_file (file ++ ".json")%str;
    data ← of_res (json_loads text);
    data ← of_res (update_data moduleNames propertyName addLiteral data);
    write_file (file ++ ".json")%str (json_dumps 4 data)
  else if (has_yaml : bool) then
    text ← read_file (file ++ ".yaml")%str;
    data ← of_res (rt_load text);
    data ← of_res (update_data moduleNames propertyName addLiteral data);
    write_file (file ++ ".yaml")%str (rt_dump text data)
  else mret tt.

(** ** [main] *)

Definition update_long : list str :=
  ["add-literal="; "parameter="; "property="; "remove-property"; "help"]%str.

(** The module globals. *)
Record update_options : Type := UpdateOptions {
  u_moduleNames : list str;
  u_addLiteral : str;
  u_propertyName : option str;
  u_removeProperty : bool
}.

Definition update_option (o : update_options) (opt : str * str) : update_options :=
  let (name, a) := opt in
  if bool_decide (name = "-m"%str) then
    UpdateOptions (split_ws (replace_char ","%char " " a)) (u_addLiteral o) (u_propertyName o) (u_removeProperty o)
  else if bool_decide (name = "--add-literal"%str) then
    UpdateOptions (u_moduleNames o) a (u_propertyName o) (u_removeProperty o)
  else if bool_decide (name = "--property"%str \/ name = "--parameter"%str) then
    UpdateOptions (u_moduleNames o) (u_addLiteral o) (Some a) (u_removeProperty o)
  else if bool_decide (name = "--remove-property"%str) then
    UpdateOptions (u_moduleNames o) (u_addLiteral o) (u_propertyName o) true
  else o.

Definition update_main `{Floats} `{Editor} (argv : list str) : M unit :=
  match getopt argv "m:w" update_long with
  | None => raise GetoptError
  | Some (opts, inputFiles) =>
      let o := foldl update_option (UpdateOptions [] [] None false) opts in
      match u_propertyName o with
      | None => assert_false "parameter/property name is required" []
      | Some propertyName =>
          if bool_decide (u_moduleNames o = []) then assert_false "-m parameter is required" []
          else if negb (u_removeProperty o) && bool_decide (u_addLiteral o = []) then
            assert_false "--add-literal, or --remove-property is required" []
          else if bool_decide (inputFiles = []) then assert_false "Input file is required" []
          else for_each inputFiles
                 (process_file (u_moduleNames o) propertyName (u_addLiteral o))
      end
  end.
