(* ===== verification/Yaml.v ===== *)
(** * The two YAML libraries

    Definitions are read with PyYAML (YAML 1.1) and rewritten with ruamel.yaml
    (YAML 1.2).  The versions disagree about unquoted words and numbers, and
    about the order of keys nothing is promised, so what is relied on is stated
    for texts that mean themselves in both, and up to the order of keys. *)

From S2P Require Import Prelude PyStr PyStrFacts PyDict Json JsonFacts Logger PyOs AidlInterface Document.
From S2P Require Import IfaceUpdate.

(** ** Texts that mean themselves *)

(** The characters of names, versions and paths. *)
Definition portable_char (c : ascii) : bool :=
  is_decimal c || in_range 65 90 c || in_range 97 122 c || bool_decide (c ∈ "_-./*@+ "%str).

(** Words that YAML 1.1 reads as something else, in lower case. *)
Definition yaml_words : list str :=
  ["y"; "n"; "yes"; "no"; "on"; "off"; "true"; "false"; "null"]%str.

Definition word_start (c : ascii) : bool :=
  in_range 65 90 c || in_range 97 122 c || bool_decide (c ∈ "_/*"%str).

(** A text that starts like a word and is none of those. *)
Definition word_like (s : str) : bool :=
  match s with
  | c :: _ => word_start c && bool_decide (map to_lower s ∉ yaml_words)
  | [] => false
  end.

(** Three or more numbers: a version, not a number. *)
Definition dotted_version (s : str) : bool :=
  (3 <=? length (split_char "."%char s)) &&
  forallb (fun c => bool_decide (c <> []) && forallb is_decimal c) (split_char "."%char s).

(** A number as a text is quoted by either version; so is a word with a mark in
    front.  Spaces are single and inside. *)
Definition portable_text (s : str) : bool :=
  forallb portable_char s && bool_decide (join " " (split_ws s) = s) &&
  (forallb is_decimal s || dotted_version s || word_like s).

(** Values made of such texts, without floats. *)
Fixpoint portable (v : value) : bool :=
  match v with
  | VFloat _ => false
  | VStr s => portable_text s
  | VList l => forallb portable l
  | VDict d => forallb (fun e => portable_text (fst e) && portable (snd e)) d
  | VNull | VBool _ | VInt _ => true
  end.

Example portable_examples :
  forallb portable_text ["hal"; "*.aidl"; "vintf"; "2"; "0.1.0.0"; "common-v3"; "common@current";
                         "RDK Central"; "/ws/hal"; "nose"]%str = true /\
  forallb (fun s => negb (portable_text s))
    ["yes"; "No"; "on"; "~"; "1.5"; "12:30:45"; "2024-01-01"; "1_000"; "0x1F"; "<<"; "a  b"; " a"]%str = true.
Proof. split; vm_compute; reflexivity. Qed.

Lemma portable_list l : portable (VList l) = true <-> Forall (fun v => portable v = true) l.
Proof. cbn. induction l as [|v l IH]; cbn; [by split|]. by rewrite andb_true_iff, IH, Forall_cons. Qed.

Lemma portable_dict d : portable (VDict d) = true <->
  Forall (fun e => portable_text (fst e) = true /\ portable (snd e) = true) d.
Proof. cbn. induction d as [|e d IH]; cbn; [by split|]. by rewrite !andb_true_iff, IH, Forall_cons. Qed.

Lemma portable_texts l : portable (VList (map VStr l)) = forallb portable_text l.
Proof. cbn. induction l as [|s l IH]; cbn; by rewrite ?IH. Qed.

(** A number printed is portable. *)
Lemma portable_fmt_d z : (0 <= z)%Z -> portable_text (fmt_d z) = true.
Proof.
  intros [Hd Hn]%fmt_d_nonneg. unfold portable_text. rewrite split_ws_word.
  2: { split; [|done]. eapply Forall_impl; [exact Hd|]. intros c Hc. by apply decimal_not_space. }
  assert (E : forallb is_decimal (fmt_d z) = true).
  { apply forallb_forall. intros c Hc%list_elem_of_In. by apply (proj1 (Forall_forall _ _) Hd). }
  rewrite E, bool_decide_eq_true_2 by done. rewrite !andb_true_r. apply forallb_forall.
  intros c Hc. unfold portable_char. rewrite forallb_forall in E. by rewrite (E c Hc).
Qed.

(** ** Values up to the order of keys *)

Inductive same_value : value -> value -> Prop :=
| same_refl v : same_value v v
| same_list l l' : Forall2 same_value l l' -> same_value (VList l) (VList l')
| same_dict d d' : (forall k, option_Forall2 same_value (dget d k) (dget d' k)) ->
    same_value (VDict d) (VDict d').

Section same.
Context {A : Type} (f : value -> option A) (Hf : forall v v', same_value v v' -> f v = f v').

Lemma mapM_same l l' : Forall2 same_value l l' -> mapM f l = mapM f l'.
Proof using Hf. induction 1 as [|v v' l l' Hv _ IH]; [done|]. cbn. by rewrite (Hf v v' Hv), IH. Qed.

Lemma list_field_same d d' k : (forall k, option_Forall2 same_value (dget d k) (dget d' k)) ->
  list_field d f k = list_field d' f k.
Proof using Hf.
  intros Hd. unfold list_field. destruct (Hd k) as [v v' Hv|]; [|done].
  destruct Hv as [|l l' Hl|]; [done| |done]. by rewrite (mapM_same _ _ Hl).
Qed.
End same.

Lemma as_text_same v v' : same_value v v' -> as_text v = as_text v'.
Proof. by destruct 1. Qed.

Lemma as_scalar_same v v' : same_value v v' -> as_scalar v = as_scalar v'.
Proof. by destruct 1. Qed.

Lemma as_texts_same v v' : same_value v v' -> as_texts v = as_texts v'.
Proof. destruct 1 as [|l l' Hl|]; try done. apply (mapM_same _ as_text_same _ _ Hl). Qed.

Lemma as_entry_same v v' : same_value v v' -> as_entry v = as_entry v'.
Proof.
  destruct 1 as [| |d d' Hd]; try done. cbn [as_entry].
  assert (dget d "version"%str ≫= as_text = dget d' "version"%str ≫= as_text) as ->.
  { destruct (Hd "version"%str) as [v v' Hv|]; [|done]. by apply as_text_same. }
  destruct (dget d' "version"%str ≫= as_text) as [ver|]; [|done]. cbn [mbind option_bind].
  destruct (Hd "imports"%str) as [v v' Hv|]; [|done].
  destruct Hv as [|l l' Hl|]; [done| |done]. by rewrite (as_texts_same _ _ (same_list _ _ Hl)).
Qed.

(** The definition in a document does not depend on the order of keys. *)
Lemma doc_of_fields_same d d' : (forall k, option_Forall2 same_value (dget d k) (dget d' k)) ->
  doc_of_fields d = doc_of_fields d'.
Proof.
  intros Hd.
  assert (Ht : forall k, text_field d k = text_field d' k).
  { intros k. unfold text_field. destruct (Hd k) as [v v' Hv|]; [by destruct Hv|done]. }
  assert (Hdef : forall k, default_field d k = default_field d' k).
  { intros k. unfold default_field. destruct (Hd k) as [v v' Hv|]; [by destruct Hv|done]. }
  assert (Hb : forall A (f : value -> option A) k, (forall v v', same_value v v' -> f v = f v') ->
    dget d k ≫= f = dget d' k ≫= f).
  { intros A f k Hf. destruct (Hd k) as [v v' Hv|]; [by apply Hf|done]. }
  unfold doc_of_fields. rewrite !Ht, !Hdef, (Hb _ _ _ as_text_same), (Hb _ _ _ as_texts_same).
  rewrite (list_field_same as_scalar as_scalar_same d d') by done.
  rewrite (list_field_same as_entry as_entry_same d d') by done.
  assert (as_scalar (default VNull (dget d "version"%str)) = as_scalar (default VNull (dget d' "version"%str))) as ->.
  { destruct (Hd "version"%str) as [v v' Hv|]; [by apply as_scalar_same|done]. }
  done.
Qed.

Lemma doc_of_value_same v v' : same_value v v' -> doc_of_value v = doc_of_value v'.
Proof.
  destruct 1 as [| |d d' Hd]; try done. cbn [doc_of_value].
  destruct (Hd "aidl_interface"%str) as [x x' Hx|]; [|done].
  destruct Hx as [| |f f' Hf]; try done. by apply doc_of_fields_same.
Qed.

(** ** What the libraries promise *)

(** ruamel.yaml loads documents that have each key once.  If both libraries read
    a document alike and it is made of texts that mean themselves, then PyYAML
    reads what ruamel.yaml makes of it after a change as the changed document. *)
Class YamlLaws `{Floats} `{SafeLoader} `{Editor} : Prop := {
  rt_load_stable : forall text v, rt_load text = Ok v -> stable v;
  yaml_reads_dump : forall text v u v',
    rt_load text = Ok v -> yaml_safe_load text = Ok u -> same_value v u -> portable v = true ->
    stable v' -> portable v' = true ->
    exists u', yaml_safe_load (universal_newlines (rt_dump text v')) = Ok u' /\ same_value v' u'
}.

(** ** Libraries that disagree

    Two libraries over JSON texts: one takes some words for truth values,
    even quoted, and the other writes the keys of a dict in reverse. *)

Fixpoint misread (v : value) : value :=
  match v with
  | VStr s => if decide (s ∈ ["yes"; "Yes"; "on"; "On"]%str) then VBool true else VStr s
  | VList l => VList (map misread l)
  | VDict d => VDict (map (fun e => (fst e, misread (snd e))) d)
  | v => v
  end.

Fixpoint flip (v : value) : value :=
  match v with
  | VList l => VList (map flip l)
  | VDict d => VDict (reverse (map (fun e => (fst e, flip (snd e))) d))
  | v => v
  end.

Definition plain_safe_loader : SafeLoader :=
  {| yaml_safe_load := fun text => v ← json_loads (H := identity_floats) text; Ok (misread v) |}.

Definition plain_editor : Editor := {|
  rt_load := json_loads (H := identity_floats);
  rt_dump := fun _ v => json_dumps 2 (flip v)
|}.

Lemma misread_portable v : portable v = true -> misread v = v.
Proof.
  induction v as [| | | |s|l IH|d IH] using value_ind'; intros Hp; try done; cbn [misread].
  - rewrite decide_False; [done|]. intros Hs. rewrite !elem_of_cons, elem_of_nil in Hs.
    by destruct_or! Hs; subst.
  - apply portable_list in Hp. f_equal. induction IH as [|v l Hv _ IHl]; [done|].
    apply Forall_cons in Hp as [Hp1 Hp2]. cbn [map]. by rewrite Hv, IHl.
  - apply portable_dict in Hp. f_equal. induction IH as [|[k v] d Hv _ IHd]; [done|].
    apply Forall_cons in Hp as [[_ Hp1] Hp2]. cbn [map fst snd] in *. by rewrite Hv, IHd.
Qed.

Lemma flip_portable v : portable v = true -> portable (flip v) = true.
Proof.
  induction v as [| | | | |l IH|d IH] using value_ind'; intros Hp; try done; cbn [flip].
  - apply portable_list in Hp. by apply portable_list, Forall_fmap, (Forall_mp _ _ _ IH).
  - apply portable_dict in Hp. apply portable_dict, Forall_reverse, Forall_fmap.
    apply Forall_forall. intros [k v] Hin. pose proof (proj1 (Forall_forall _ _) IH _ Hin) as Hv.
    apply (proj1 (Forall_forall _ _) Hp) in Hin as [Hk Hs]. cbn in *. auto.
Qed.

Lemma dkeys_flip (d : dict str value) :
  dkeys (reverse (map (fun e => (fst e, flip (snd e))) d)) = reverse (dkeys d).
Proof. unfold dkeys. rewrite fmap_reverse. f_equal. by rewrite <- list_fmap_compose. Qed.

Lemma flip_stable `{Floats} v : stable v -> stable (flip v).
Proof.
  induction v as [| | | | |l IH|d IH] using value_ind'; inversion_clear 1 as [| | | | |? Hl|? Hn Hd];
    try by constructor.
  - constructor. by apply Forall_fmap, (Forall_mp _ _ _ IH).
  - constructor; [by rewrite dkeys_flip, reverse_Permutation|]. apply Forall_reverse, Forall_fmap.
    by apply (Forall_mp _ _ _ IH).
Qed.

Lemma dget_map_snd {A B} (f : A -> B) (d : dict str A) k :
  dget (map (fun e => (fst e, f (snd e))) d) k = f <$> dget d k.
Proof. induction d as [|[k' v] d IH]; [done|]. cbn. by case_decide. Qed.

Lemma same_flip `{Floats} v : stable v -> same_value v (flip v).
Proof.
  induction v as [| | | | |l IH|d IH] using value_ind'; inversion_clear 1 as [| | | | |? Hl|? Hn Hd];
    try apply same_refl.
  - apply same_list, Forall2_fmap_r. by apply Forall_Forall2_diag, (Forall_mp _ _ _ IH).
  - apply same_dict. intros k. set (d' := map _ d).
    assert (Hd' : NoDup (dkeys (reverse d'))) by (unfold d'; by rewrite dkeys_flip, reverse_Permutation).
    rewrite (dget_perm (reverse d') d') by (done || apply reverse_Permutation). unfold d'. rewrite dget_map_snd.
    destruct (dget d k) as [v|] eqn:Ev; constructor. apply dget_Some_elem in Ev.
    apply (proj1 (Forall_forall _ _) IH _ Ev). by apply (proj1 (Forall_forall _ _) Hd) in Ev.
Qed.

#[export] Instance plain_yaml_laws :
  YamlLaws (H := identity_floats) (H0 := plain_safe_loader) (H1 := plain_editor).
Proof.
  split; cbn.
  - intros text v. apply (json_loads_stable (H := identity_floats)).
  - intros _ _ _ v _ _ _ _ Hs Hp. exists (flip v).
    pose proof (flip_stable (H := identity_floats) v Hs) as Hf.
    rewrite no_return_newlines by by apply (no_return_json_text (H := identity_floats)).
    rewrite (json_loads_dumps (H := identity_floats)) by done. cbn.
    rewrite misread_portable by by apply flip_portable. split; [done|].
    by apply (same_flip (H := identity_floats)).
Qed.
