(* ===== verification/IfaceUpdateFacts.v ===== *)
(** * Recording a frozen version and loading it again

    The cycle of a freeze through the definition file: the entry appended by
    interface-update is what the next load finds, and only that. *)

From S2P Require Import Prelude PyStr PyStrFacts PyDict Json JsonFacts Logger PyOs AidlInterface Document.
From S2P Require Import Examples InterfaceFacts Getopt IfaceUpdate Yaml.

(** ** The document *)

(** The definition with one more version. *)
Definition with_entry (d : iface_doc) (e : ver_entry) : iface_doc :=
  IfaceDoc (doc_name d) (doc_stable_aidl_subdir d) (doc_frozen_location d) (doc_layout d)
    (doc_srcs d) (doc_imports d) (doc_stability d) (doc_version d)
    (Some (default [] (doc_versions_with_info d) ++ [e])).

(** The entry as a value. *)
Definition entry_value (version : str) (imports : list str) : value :=
  VDict [("version", VStr version); ("imports", VList (map VStr imports))]%str.

Lemma mapM_as_text l : mapM as_text (map VStr l) = Some l.
Proof. induction l as [|s l IH]; [done|]. cbn. by rewrite IH. Qed.

Lemma as_entry_value version imports :
  as_entry (entry_value version imports) = Some (VerEntry version (Some imports)).
Proof.
  transitivity (l ← Some <$> mapM as_text (map VStr imports); Some (VerEntry version l)); [done|].
  by rewrite mapM_as_text.
Qed.

Lemma mapM_app_option {A B} (f : A -> option B) l x ys y :
  mapM f l = Some ys -> f x = Some y -> mapM f (l ++ [x]) = Some (ys ++ [y]).
Proof.
  intros Hl%mapM_Some Hx. apply mapM_Some. apply Forall2_app; [done|]. by repeat constructor.
Qed.

(** Replacing the field of the versions. *)
Lemma doc_append fields d version imports :
  doc_of_fields fields = Some d -> dget fields MODULE_KEY_VERSIONSWITHINFO <> Some VNull ->
  exists old, listed (default (VList []) (dget fields MODULE_KEY_VERSIONSWITHINFO)) = Ok old /\
    doc_of_fields (dset fields MODULE_KEY_VERSIONSWITHINFO (VList (old ++ [entry_value version imports]))) =
      Some (with_entry d (VerEntry version (Some imports))).
Proof.
  intros Hd Hn. unfold doc_of_fields in Hd.
  repeat match goal with
  | H : mbind _ ?m = Some _ |- _ =>
      let E := fresh "E" in destruct m eqn:E; [cbn [mbind option_bind] in H|discriminate H]
  end. injection Hd as <-.
  assert (exists vs, listed (default (VList []) (dget fields MODULE_KEY_VERSIONSWITHINFO)) = Ok vs /\
    mapM as_entry vs = Some (default [] o4)) as (vs & Hvs & Hes).
  { unfold list_field in E7. change MODULE_KEY_VERSIONSWITHINFO with "versions_with_info"%str in *.
    destruct (dget fields "versions_with_info"%str) as [[| | | | |vs|]|]; try done; [|injection E7 as <-; by exists []].
    exists vs. split; [done|]. destruct (mapM as_entry vs); [by injection E7 as <-|done]. }
  exists vs. split; [done|]. unfold doc_of_fields, text_field, default_field, list_field in *.
  change MODULE_KEY_VERSIONSWITHINFO with "versions_with_info"%str.
  rewrite dget_dset_eq, !dget_dset_ne by done.
  rewrite (mapM_app_option _ _ _ _ _ Hes (as_entry_value version imports)).
  by repeat match goal with
  | E : ?x = Some _ |- context [?x] => rewrite E; cbn [mbind option_bind]
  end.
Qed.

Lemma doc_name_field fields d : doc_of_fields fields = Some d ->
  dget fields MODULE_KEY_NAME = Some (VStr (doc_name d)).
Proof.
  unfold doc_of_fields. change MODULE_KEY_NAME with "name"%str.
  destruct (dget fields "name"%str) as [[]|]; try done. cbn [mbind option_bind as_text]. intros Hd.
  repeat match goal with
  | H : mbind _ ?m = Some _ |- _ => destruct m; [cbn [mbind option_bind] in H|discriminate H]
  end. by injection Hd as <-.
Qed.

Lemma doc_list_field fields d : doc_of_fields fields = Some d ->
  list_field fields as_entry MODULE_KEY_VERSIONSWITHINFO <> None.
Proof.
  unfold doc_of_fields. change "versions_with_info"%str with MODULE_KEY_VERSIONSWITHINFO. intros Hd.
  repeat match goal with
  | H : mbind _ ?m = Some _ |- _ =>
      let E := fresh "E" in destruct m eqn:E; [cbn [mbind option_bind] in H|discriminate H]
  end. congruence.
Qed.

(** [versions_with_info:] with nothing after it. *)
Definition null_versions (v : value) : Prop :=
  exists data fields, v = VDict data /\ dget data MODULE_TYPE_INTERFACE = Some (VDict fields) /\
    dget fields MODULE_KEY_VERSIONSWITHINFO = Some VNull.

Section update.
Context `{Floats}.

Lemma stable_dset d k v : stable (VDict d) -> stable v -> stable (VDict (dset d k v)).
Proof.
  inversion_clear 1 as [| | | | | |? Hn Hd]. intros Hv. constructor; [by apply NoDup_dset|].
  apply Forall_forall. intros [k' x] Hx. apply dget_elem in Hx; [|by apply NoDup_dset].
  rewrite dget_dset in Hx. case_decide; [by injection Hx as <-|].
  apply dget_Some_elem in Hx. by apply (proj1 (Forall_forall _ _) Hd) in Hx.
Qed.

Lemma stable_dget d k v : stable (VDict d) -> dget d k = Some v -> stable v.
Proof.
  inversion_clear 1 as [| | | | | |? Hn Hd]. intros Hv%dget_Some_elem.
  by apply (proj1 (Forall_forall _ _) Hd) in Hv.
Qed.

Lemma stable_entry version imports : stable (entry_value version imports).
Proof.
  constructor; [repeat constructor; set_solver|]. repeat constructor. by apply Forall_fmap, Forall_true; constructor.
Qed.

Lemma portable_dset d k v : portable (VDict d) = true -> portable_text k = true -> portable v = true ->
  portable (VDict (dset d k v)) = true.
Proof using.
  rewrite !portable_dict. intros Hd Hk Hv. induction Hd as [|[k' v'] d He Hd IH]; cbn [dset]; [by repeat constructor|].
  case_decide; constructor; try done. by split; [apply He|].
Qed.

Lemma portable_dget d k v : portable (VDict d) = true -> dget d k = Some v -> portable v = true.
Proof using. intros Hd%portable_dict Hv%dget_Some_elem. by apply (proj1 (Forall_forall _ _) Hd) in Hv as [_ Hv]. Qed.

(** The values listed before an update are those of the field. *)
Lemma listed_old fields old : dget fields MODULE_KEY_VERSIONSWITHINFO <> Some VNull ->
  list_field fields as_entry MODULE_KEY_VERSIONSWITHINFO <> None ->
  listed (default (VList []) (dget fields MODULE_KEY_VERSIONSWITHINFO)) = Ok old ->
  old = [] \/ dget fields MODULE_KEY_VERSIONSWITHINFO = Some (VList old).
Proof using.
  unfold list_field. destruct (dget fields MODULE_KEY_VERSIONSWITHINFO) as [[| | | | |l|]|]; try done; cbn.
  - intros _ _ [= ->]. by right.
  - intros _ _ [= <-]. by left.
Qed.

(** The document in memory after an update. *)
Lemma update_data_append v d lit version imports :
  doc_of_value v = Some d -> ~ null_versions v -> literal_eval lit = Ok (entry_value version imports) ->
  exists v', update_data [doc_name d] MODULE_KEY_VERSIONSWITHINFO lit v = Ok v' /\
    doc_of_value v' = Some (with_entry d (VerEntry version (Some imports))) /\ (stable v -> stable v') /\
    (portable v = true -> portable (entry_value version imports) = true -> portable v' = true).
Proof.
  destruct v as [| | | | | |data]; try done. cbn [doc_of_value].
  change "aidl_interface"%str with MODULE_TYPE_INTERFACE.
  destruct (dget data MODULE_TYPE_INTERFACE) as [[| | | | | |fields]|] eqn:Ef; try done. intros Hd Hnull Hlit.
  destruct (doc_append fields d version imports Hd) as (old & Hold & Hd').
  { intros Hv. apply Hnull. by exists data, fields. }
  assert (Hfield : old = [] \/ dget fields MODULE_KEY_VERSIONSWITHINFO = Some (VList old)).
  { apply listed_old; [|by eapply doc_list_field|done]. intros Hv. apply Hnull. by exists data, fields. }
  exists (VDict (dset data MODULE_TYPE_INTERFACE
    (VDict (dset fields MODULE_KEY_VERSIONSWITHINFO (VList (old ++ [entry_value version imports])))))).
  split_and!.
  - unfold update_data. cbn [foldM_res]. unfold update_module. cbn [getitem]. rewrite Ef.
    cbn [mbind res_bind getitem]. rewrite (doc_name_field _ _ Hd). cbn [mbind res_bind is_text].
    rewrite !bool_decide_eq_true_2 by done. unfold update_versions_with_info. rewrite Hlit, Hold. done.
  - cbn [doc_of_value]. by rewrite dget_dset_eq.
  - intros Hs. pose proof (stable_dget _ _ _ Hs Ef) as Hsf. apply stable_dset; [done|]. apply stable_dset; [done|].
    constructor. apply Forall_app_2; [|apply Forall_singleton, stable_entry].
    destruct Hfield as [->|Ev]; [constructor|]. apply (stable_dget _ _ _ Hsf) in Ev. by inversion Ev.
  - intros Hs He. pose proof (portable_dget _ _ _ Hs Ef) as Hsf. apply portable_dset; [done..|].
    apply portable_dset; [done..|]. apply portable_list, Forall_app_2; [|by apply Forall_singleton].
    destruct Hfield as [->|Ev]; [constructor|]. by apply portable_list, (portable_dget _ _ _ Hsf Ev).
Qed.
End update.

(** ** The file *)

Lemma path_join_name dir n :
  dir <> [] -> last dir <> Some slash -> startswith "/" n = false -> path_join dir n = dir ++ "/" ++ n.
Proof.
  intros Hd Hl Hn. unfold path_join. rewrite Hn.
  destruct dir as [|c dir _] using rev_ind; [done|]. rewrite reverse_snoc.
  rewrite last_snoc in Hl. by rewrite bool_decide_eq_false_2 by congruence.
Qed.

(** The definition of the interface at [dir]: JSON comes first. *)
Definition definition_file (fs : fsys) (dir : str) : str :=
  if fs_exists fs (dir ++ "/interface.json") then dir ++ "/interface.json" else dir ++ "/interface.yaml".

(** The definition at [dir] holds the value [v]; a YAML file, for both libraries
    and in texts that mean themselves. *)
Definition holds `{Floats} `{SafeLoader} `{Editor} (fs : fsys) (dir : str) (v : value) : Prop :=
  match dget fs (dir ++ "/interface.json"), dget fs (dir ++ "/interface.yaml") with
  | Some (File c), _ => json_loads (universal_newlines c) = Ok v
  | None, Some (File c) =>
      rt_load (universal_newlines c) = Ok v /\ portable v = true /\
      exists u, yaml_safe_load (universal_newlines c) = Ok u /\ same_value v u
  | _, _ => False
  end.

Section process.
Context {F : Floats} {FL : FloatLaws} {SL : SafeLoader} {ED : Editor} {YL : YamlLaws}.
Context (dir : str) (Hdir : dir <> [] /\ last dir <> Some slash).

Lemma load_document_json text d w :
  dget (w_fs w) (dir ++ "/interface.json") = Some (File text) -> json_load (universal_newlines text) = Ok d ->
  load_document dir w = (Ok (Some d), w).
Proof.
  intros Hj Hd. destruct Hdir. unfold load_document, exists_path, gets, fs_exists, dmem, read_file, of_res.
  unfold mbind, M_bind. rewrite !path_join_name by done.
  change ("/" ++ INTERFACE_DEF_JSON)%str with "/interface.json"%str. rewrite Hj. cbv beta iota. by rewrite Hj, Hd.
Qed.

Lemma load_document_yaml text d w :
  dget (w_fs w) (dir ++ "/interface.json") = None ->
  dget (w_fs w) (dir ++ "/interface.yaml") = Some (File text) -> yaml_load (universal_newlines text) = Ok d ->
  load_document dir w = (Ok (Some d), w).
Proof.
  intros Hj Hy Hd. destruct Hdir. unfold load_document, exists_path, gets, fs_exists, dmem, read_file, of_res.
  unfold mbind, M_bind. rewrite !path_join_name by done.
  change ("/" ++ INTERFACE_DEF_JSON)%str with "/interface.json"%str.
  change ("/" ++ INTERFACE_DEF_YAML)%str with "/interface.yaml"%str. rewrite Hj. cbv beta iota. rewrite Hy.
  cbv beta iota. by rewrite Hy, Hd.
Qed.

Lemma document_of_value v d : doc_of_value v = Some d -> document_of (Ok v) = Ok d.
Proof. intros Hd. unfold document_of. cbn. by rewrite Hd. Qed.

(** What an update writes, and what the next load reads. *)
Lemma process_file_run v d lit version imports w :
  holds (w_fs w) dir v -> doc_of_value v = Some d -> ~ null_versions v ->
  (fs_exists (w_fs w) (dir ++ "/interface.json") = false -> portable (entry_value version imports) = true) ->
  literal_eval lit = Ok (entry_value version imports) ->
  exists text, process_file [doc_name d] MODULE_KEY_VERSIONSWITHINFO lit (dir ++ "/interface") w =
      (Ok tt, set_fs (dset (w_fs w) (definition_file (w_fs w) dir) (File text)) w) /\
    forall w', w_fs w' = dset (w_fs w) (definition_file (w_fs w) dir) (File text) ->
      load_document dir w' = (Ok (Some (with_entry d (VerEntry version (Some imports)))), w').
Proof.
  intros Hh Hd Hn He Hlit. destruct (update_data_append v d lit version imports Hd Hn Hlit) as (v' & Hu & Hd' & Hs & Hp).
  unfold holds in Hh. unfold process_file, definition_file, exists_path, gets, fs_exists, dmem, read_file, of_res.
  rewrite <- !app_assoc. change ("/interface" ++ ".json")%str with "/interface.json"%str.
  change ("/interface" ++ ".yaml")%str with "/interface.yaml"%str.
  set (j := dir ++ "/interface.json") in *. set (y := dir ++ "/interface.yaml") in *. unfold mbind, M_bind.
  destruct (dget (w_fs w) j) as [[c|]|] eqn:Ej; [|done|].
  - exists (json_dumps 4 v'). cbv beta iota. rewrite Ej, Hh, Hu. unfold write_file. rewrite Ej. split; [done|].
    intros w' Hw. apply (load_document_json (json_dumps 4 v')); [by rewrite Hw, dget_dset_eq|].
    pose proof (Hs (json_loads_stable _ _ Hh)) as Hsv.
    rewrite no_return_newlines by by apply no_return_json_text.
    cbn [json_load document_loader]. rewrite json_loads_dumps by done. by apply document_of_value.
  - destruct (dget (w_fs w) y) as [[c|]|] eqn:Ey; [|done..].
    destruct Hh as (Hrt & Hpv & u & Hsafe & Hsame). unfold fs_exists, dmem in He. rewrite Ej in He.
    destruct (yaml_reads_dump _ _ _ v' Hrt Hsafe Hsame Hpv (Hs (rt_load_stable _ _ Hrt)) (Hp Hpv (He eq_refl)))
      as (u' & Hu' & Hsame').
    exists (rt_dump (universal_newlines c) v'). cbv beta iota. rewrite Ey, Hrt, Hu. unfold write_file. rewrite Ey.
    split; [done|]. intros w' Hw. eapply load_document_yaml.
    + rewrite Hw, dget_dset_ne; [exact Ej|]. by intros E%app_inv_head.
    + by rewrite Hw, dget_dset_eq.
    + cbn [yaml_load document_loader]. rewrite Hu'. apply document_of_value.
      by rewrite <- (doc_of_value_same _ _ Hsame').
Qed.

(** C29: running interface-update on the definition of an interface, as a
    freeze does, leaves a file, JSON or YAML, from which the next load reads the
    same definition with exactly the new entry appended, and changes nothing
    else.  A YAML file must be read alike by the two YAML libraries before, and
    it and the entry be made of texts that mean themselves; the order of keys may
    change.  An empty [versions_with_info:] is refused, see
    [null_versions_refused]. *)
Theorem process_file_appends v d lit version imports w :
  holds (w_fs w) dir v -> doc_of_value v = Some d -> ~ null_versions v ->
  (fs_exists (w_fs w) (dir ++ "/interface.json") = false -> portable (entry_value version imports) = true) ->
  literal_eval lit = Ok (entry_value version imports) ->
  exists w',
    process_file [doc_name d] MODULE_KEY_VERSIONSWITHINFO lit (dir ++ "/interface") w = (Ok tt, w') /\
    load_document dir w' = (Ok (Some (with_entry d (VerEntry version (Some imports)))), w') /\
    set_fs (w_fs w) w' = w /\
    forall p, p <> definition_file (w_fs w) dir -> dget (w_fs w') p = dget (w_fs w) p.
Proof.
  intros Hh Hd Hn He Hlit. destruct (process_file_run v d lit version imports w Hh Hd Hn He Hlit) as (text & E & Hl).
  eexists. split; [exact E|]. split_and!; [by apply Hl|by destruct w|]. intros p Hp. apply dget_dset_ne. congruence.
Qed.
End process.

Lemma with_entry_info root0 root d specs i v l x :
  loads root0 root (with_entry d (VerEntry v (Some l))) specs i ->
  dget (versions_with_info i) x =
    if decide (v = x) then Some (Some l)
    else last_value (map (fun e => (v_version e, v_imports e)) (default [] (doc_versions_with_info d))) x.
Proof.
  intros L. rewrite (loads_info _ _ _ _ _ L). unfold with_entry.
  cbn [doc_versions_with_info default]. unfold default, id. rewrite map_app. cbn [map v_version v_imports].
  apply last_value_snoc.
Qed.

(** The numbering after a freeze.  If an interface with versions 1 to n is
    loaded again with the entry for its next version appended, it has versions
    1 to n + 1, its latest version is the frozen one and its next one is a new
    number; the frozen version answers with the imports recorded for it, and
    every other version answers as before. *)
Lemma freeze_cycle root0 root d specs i i' n l w :
  loads root0 root d specs i -> numbered i n ->
  loads root0 root (with_entry d (VerEntry (fmt_d (Z.of_nat n + 1)) (Some l))) specs i' ->
  numbered i' (S n) /\
  latest_version i' = fmt_d (Z.of_nat n + 1) /\ next_version i = Ok (latest_version i') /\
  next_version i' = Ok (fmt_d (Z.of_nat n + 2)) /\
  get_imports i' (latest_version i') w = (Ok (dict_of (map split_versioned l)), w) /\
  forall v, v <> latest_version i' -> dget (versions_with_info i') v = dget (versions_with_info i) v.
Proof.
  intros L N L'.
  assert (Hlen : length (default [] (doc_versions_with_info d)) = n).
  { destruct N as [_ N]. rewrite (loads_versions _ _ _ _ _ L) in N.
    apply (f_equal length) in N. unfold versions_upto in N. by rewrite !length_map, !length_seq in N. }
  assert (N' : numbered i' (S n)).
  { split.
    - rewrite (loads_stability _ _ _ _ _ L'). destruct N as [N _].
      by rewrite (loads_stability _ _ _ _ _ L) in N.
    - rewrite (loads_versions _ _ _ _ _ L'). cbn. by rewrite length_app, Hlen, Nat.add_1_r. }
  assert (Hlat : latest_version i' = fmt_d (Z.of_nat n + 1)).
  { rewrite (latest_version_numbered i' (S n) N'). f_equal. lia. }
  split; [done|]. split; [done|]. rewrite Hlat. split; [by apply next_version_numbered|]. split.
  { rewrite (next_version_numbered i' (S n) N'). do 2 f_equal. lia. }
  split.
  - apply get_imports_frozen. by rewrite (with_entry_info _ _ _ _ _ _ _ _ L'), decide_True.
  - intros v Hv. by rewrite (with_entry_info _ _ _ _ _ _ _ _ L'), decide_False, (loads_info _ _ _ _ _ L).
Qed.

(** ** Witnesses *)

(** An interface with [n] recorded versions; no field of the model says who
    owns it. *)
Definition hal_fields (info : value) : value :=
  VDict [("aidl_interface", VDict
    [("name", VStr "hal"); ("owner", VStr "rdk"); ("layout", VStr "module-local");
     ("srcs", VList [VStr "*.aidl"]); ("stability", VStr "vintf"); ("versions_with_info", info)])]%str.

Definition hal_value (n : nat) : value :=
  hal_fields (VList (map (fun k => entry_value (fmt_d (Z.of_nat k + 1)) []) (seq 0 n))).

Definition doc_of_count (n : nat) : iface_doc :=
  IfaceDoc "hal" None None (Some "module-local"%str) ["*.aidl"%str] None (Some "vintf"%str) SNone
    (Some (map (fun k => VerEntry (fmt_d (Z.of_nat k + 1)) (Some [])) (seq 0 n))).

Definition world_of (text : str) : world :=
  World [("/ws/hal/current/interface.yaml", File text)]%str [] [] 0 [] None [].

Definition entry_2 : str := "{'version': '2', 'imports': ['common-v3']}".

Lemma process_file_appends_witness : exists w',
  process_file (H := identity_floats) (H0 := plain_editor) ["hal"%str] MODULE_KEY_VERSIONSWITHINFO entry_2
    "/ws/hal/current/interface" (world_of (json_dumps 2 (hal_value 1))) = (Ok tt, w') /\
  load_document (H := document_loader (H := identity_floats) (H0 := plain_safe_loader)) "/ws/hal/current" w' =
    (Ok (Some (with_entry (doc_of_count 1) (VerEntry "2" (Some ["common-v3"%str])))), w').
Proof.
  destruct (process_file_appends (F := identity_floats) (SL := plain_safe_loader) (ED := plain_editor)
    "/ws/hal/current" ltac:(split; [discriminate|vm_compute; discriminate])
    (hal_value 1) (doc_of_count 1) entry_2 "2" ["common-v3"%str]
    (world_of (json_dumps 2 (hal_value 1)))) as (w' & H1 & H2 & _).
  - split; [vm_compute; reflexivity|]. split; [vm_compute; reflexivity|].
    exists (hal_value 1). split; [vm_compute; reflexivity|apply same_refl].
  - vm_compute. reflexivity.
  - intros (data & fields & [= <-] & [= <-] & Hn). discriminate Hn.
  - intros _. vm_compute. reflexivity.
  - vm_compute. reflexivity.
  - exists w'. split; [exact H1|exact H2].
Defined.

Lemma freeze_cycle_witness : exists i i',
  loads "/ws" "/ws/hal/current" (doc_of_count 1) [] i /\ numbered i 1 /\ numbered i' 2 /\
  latest_version i' = "2"%str.
Proof.
  destruct (interface_of_doc_run (H := quiet_os) "/ws" [] "/out" "/ws/hal/current" (doc_of_count 1)
    example_world [] eq_refl) as (i & L & _).
  destruct (interface_of_doc_run (H := quiet_os) "/ws" [] "/out" "/ws/hal/current"
    (with_entry (doc_of_count 1) (VerEntry "2" (Some []))) example_world [] eq_refl) as (i' & L' & _).
  assert (N : numbered i 1).
  { split; [rewrite (loads_stability _ _ _ _ _ L); discriminate|].
    rewrite (loads_versions _ _ _ _ _ L). reflexivity. }
  destruct (freeze_cycle "/ws" "/ws/hal/current" (doc_of_count 1) [] i i' 1 [] example_world L N L')
    as (N' & Hl & _).
  exists i, i'. split; [exact L|]. split; [exact N|]. split; [exact N'|exact Hl].
Defined.

(** The file is written whatever the command line said: without [-w], and also
    when no module matched. *)
Lemma written_without_w : exists w',
  update_main (H := identity_floats) (H0 := plain_editor)
    ["-m"; "other"; "--parameter"; "versions_with_info"; "--add-literal"; "{}";
     "/ws/hal/current/interface"]%str (world_of (json_dumps 4 (hal_value 1))) = (Ok tt, w') /\
  dget (w_fs w') "/ws/hal/current/interface.yaml"%str = Some (File (json_dumps 2 (flip (hal_value 1)))).
Proof. eexists. split; vm_compute; reflexivity. Qed.

(** [versions_with_info:] with nothing after it loads like an absent field, but
    the first freeze cannot be recorded. *)
Lemma null_versions_refused :
  doc_of_value (hal_fields VNull) = Some (IfaceDoc "hal" None None (Some "module-local") ["*.aidl"] None
                                            (Some "vintf") SNone None)%str /\
  update_data ["hal"%str] MODULE_KEY_VERSIONSWITHINFO entry_2 (hal_fields VNull) = Err TypeError.
Proof. split; vm_compute; reflexivity. Qed.
