(* ===== verification/Shell.v ===== *)
(** * What the shell promises

    The recording of a version goes through [/bin/sh]: the command is a text,
    which the shell splits into words and runs if the development file says 1.
    The class [PosixShell] states that; [toy_os] keeps the promise. *)

From S2P Require Import Prelude PyStr PyStrFacts PyDict Json JsonFacts Logger PyOs AidlInterface.
From S2P Require Import Imports Checks LibDeps Api Evolution ApiFacts Getopt IfaceUpdate.

(** ** Words *)

(** A character that means itself outside quotes. *)
Definition bare_char (c : ascii) : bool :=
  is_decimal c || in_range 65 90 c || in_range 97 122 c || bool_decide (c ∈ "_-./:@%+"%str).

Definition bare (s : str) : Prop := s <> [] /\ Forall (fun c => bare_char c = true) s.

(** [sh_word text word]: the shell reads [text] as the one word [word]. *)
Inductive sh_word : str -> str -> Prop :=
| word_bare w : bare w -> sh_word w w
| word_quoted w : squote ∉ w -> sh_word (squote :: w ++ [squote]) w.

Lemma bare_char_spec c : bare_char c = true -> is_space c = false /\ plain_char c /\ c <> ","%char /\ c <> ")"%char.
Proof.
  destruct c as [[] [] [] [] [] [] [] []]; vm_compute; try discriminate; intros _;
    (split_and!; [done|set_solver|done|done]).
Qed.

Lemma bare_plain s : bare s -> plain s.
Proof. intros [_ H]. eapply Forall_impl; [exact H|]. intros c Hc. apply (bare_char_spec c Hc). Qed.

(** ** The promise *)

Definition is_Ok {A} (r : res A) : Prop := exists a, r = Ok a.

(** The test of a generated command, on the text of the file: command substitution drops the newlines at the
    end. *)
Definition development_set (fs : fsys) (path : str) : bool :=
  match dget fs path with
  | Some (File c) =>
      bool_decide (reverse (drop_while (fun c => bool_decide (c = newline)) (reverse c)) = "1"%str)
  | _ => false
  end.

(** A program that is named by its path, can be started and is no shell itself
    is run with its words: a name with a slash is neither a builtin nor a
    function. *)
Class PosixShell `{Os} : Prop := {
  sh_if : forall path texts prog args fs, bare path -> startswith "/" path = true ->
    Forall2 sh_word texts (prog :: args) -> slash ∈ prog -> prog <> "/bin/sh"%str ->
    is_Ok (fst (run_process (prog :: args) fs)) ->
    exists r, run_process (sh (if_has_development path ++ join " " texts ++ "; fi")) fs =
      (Ok r, if development_set fs path then snd (run_process (prog :: args) fs) else fs)
}.

(** [interface-update.py] is installed: a run of it is a run of its [main], in a
    process of its own. *)
Class UpdateInstalled `{Os} `{Floats} `{Editor} : Prop := {
  update_runs : forall argv fs, exists r, run_process (CMD_INTERFACE_DEF_UPDATE :: argv) fs =
    (Ok r, w_fs (snd (update_main argv (World fs [] [] 0 [] None []))))
}.

(** ** A shell *)

(** Splitting at spaces outside single quotes; [cur] is the word so far,
    reversed. *)
Fixpoint sh_split (cur : option str) (quote : bool) (s : str) : list str :=
  match s with
  | [] => match cur with Some w => [reverse w] | None => [] end
  | c :: s =>
      if quote then
        if bool_decide (c = squote) then sh_split cur false s
        else sh_split (Some (c :: default [] cur)) true s
      else if bool_decide (c = squote) then sh_split (Some (default [] cur)) true s
      else if bool_decide (c = space) then
        match cur with Some w => [reverse w] | None => [] end ++ sh_split None false s
      else sh_split (Some (c :: default [] cur)) false s
  end.

Lemma sh_split_bare w cur s : Forall (fun c => bare_char c = true) w ->
  sh_split (Some cur) false (w ++ s) = sh_split (Some (reverse w ++ cur)) false s.
Proof.
  intros Hw. revert cur. induction Hw as [|c w Hc _ IH]; intros cur; [done|]. cbn [app sh_split].
  destruct (bare_char_spec c Hc) as (Hs & Hp & _). unfold plain_char in Hp.
  rewrite !bool_decide_eq_false_2 by (set_solver || by intros ->). cbn [default]. rewrite IH.
  by rewrite reverse_cons, <- app_assoc.
Qed.

Lemma sh_split_quoted w cur s : squote ∉ w ->
  sh_split (Some cur) true (w ++ squote :: s) = sh_split (Some (reverse w ++ cur)) false s.
Proof.
  revert cur. induction w as [|c w IH]; intros cur Hw; [done|]. cbn [app sh_split].
  rewrite bool_decide_eq_false_2 by set_solver. cbn [default]. rewrite IH by set_solver.
  by rewrite reverse_cons, <- app_assoc.
Qed.

Lemma sh_split_word text w s : sh_word text w ->
  sh_split None false (text ++ s) = sh_split (Some (reverse w)) false s.
Proof.
  destruct 1 as [w [Hn Hw]|w Hw].
  - destruct Hw as [|c w Hc Hw]; [done|]. pose proof (sh_split_bare w [c] s Hw) as E.
    cbn [app sh_split]. destruct (bare_char_spec c Hc) as (Hs & Hp & _). unfold plain_char in Hp.
    rewrite !bool_decide_eq_false_2 by (set_solver || by intros ->). cbn [default]. by rewrite E, reverse_cons.
  - cbn [app sh_split]. rewrite bool_decide_eq_true_2 by done. cbn [default].
    rewrite <- app_assoc. change ([squote] ++ s) with (squote :: s).
    by rewrite sh_split_quoted, app_nil_r.
Qed.

Lemma sh_split_join texts words : Forall2 sh_word texts words -> sh_split None false (join " " texts) = words.
Proof.
  induction 1 as [|t w ts ws Ht Hts IH]; [done|]. destruct Hts as [|t' w' ts ws Ht' Hts].
  - cbn [join]. rewrite <- (app_nil_r t), (sh_split_word _ _ _ Ht). cbn. by rewrite reverse_involutive.
  - change (join " " (t :: t' :: ts)) with (t ++ " " ++ join " " (t' :: ts)).
    rewrite (sh_split_word _ _ _ Ht). cbn [app sh_split]. rewrite IH. cbn. by rewrite reverse_involutive.
Qed.

(** The part between two texts, if it is there. *)
Definition between (before after s : str) : option str :=
  r ← prefixed before s;
  if endswith after r then Some (take (length r - length after) r) else None.

(** The commands that the tools generate with a test, a write of 1 to a file, and
    nothing else. *)
Definition toy_sh (run_words : list str -> fsys -> fsys) (text : str) (fs : fsys) : fsys :=
  match between ("if [ " ++ dquote :: "$(cat ") "; fi" text with
  | Some rest =>
      let '(path, _, body) := partition ")" rest in
      match prefixed (dquote :: " = " ++ quoted "1" ++ " ]; then ") body with
      | Some body => if development_set fs path then run_words (sh_split None false body) fs else fs
      | None => fs
      end
  | None =>
      match prefixed "echo 1 > " text with
      | Some path => dset fs path (File "1
")
      | None => fs
      end
  end.

(** An operating system with [interface-update.py] installed; every other
    program succeeds and changes nothing. *)
Definition toy_program `{Floats} `{Editor} (tool : str) (words : list str) (fs : fsys) : fsys :=
  match words with
  | prog :: argv =>
      if bool_decide (prog = tool) then w_fs (snd (update_main argv (World fs [] [] 0 [] None []))) else fs
  | [] => fs
  end.

Definition toy_os `{Floats} `{Editor} : Os := {|
  cwd := "/ws";
  host_dir := "/ws/host";
  getenv := fun _ => None;
  run_process := fun cmd fs =>
    (Ok (Completed 0 [] []),
     match cmd with
     | [sh; flag; text] =>
         if bool_decide (sh = "/bin/sh"%str)
         then toy_sh (toy_program "/ws/host/interface-update.py") text fs
         else toy_program "/ws/host/interface-update.py" cmd fs
     | _ => toy_program "/ws/host/interface-update.py" cmd fs
     end)
|}.

Lemma prefixed_app p s : prefixed p (p ++ s) = Some s.
Proof. unfold prefixed. by rewrite startswith_app, drop_app_length. Qed.

Lemma between_app before after s : between before after (before ++ s ++ after) = Some s.
Proof.
  unfold between. rewrite prefixed_app. cbn [mbind option_bind]. unfold endswith.
  rewrite reverse_app, startswith_app, length_app. by rewrite Nat.add_sub, take_app_length.
Qed.

Lemma toy_sh_if run_words path body fs : bare path ->
  toy_sh run_words (if_has_development path ++ body ++ "; fi") fs =
    if development_set fs path then run_words (sh_split None false body) fs else fs.
Proof.
  intros [_ Hp]. unfold toy_sh.
  assert (Hc : ")"%char ∉ path).
  { intros Hin. apply (proj1 (Forall_forall _ _) Hp), bare_char_spec in Hin. naive_solver. }
  assert (E : if_has_development path ++ body ++ "; fi" =
    ("if [ " ++ dquote :: "$(cat ") ++
      (path ++ ")"%char :: (dquote :: " = " ++ quoted "1" ++ " ]; then ") ++ body) ++ "; fi").
  { unfold if_has_development, quoted. cbn. rewrite <- !app_assoc. reflexivity. }
  rewrite E, between_app, partition_char by done. by rewrite prefixed_app.
Qed.

#[export] Instance toy_shell `{Floats} `{Editor} : PosixShell (H := toy_os).
Proof.
  split. intros path texts prog args fs Hp _ Hw _ Hprog _. eexists.
  change (run_process (sh ?text) fs) with
    (Ok (Completed 0 [] []), toy_sh (toy_program "/ws/host/interface-update.py") text fs).
  rewrite toy_sh_if, (sh_split_join _ _ Hw) by done. f_equal. destruct (development_set fs path); [|done].
  cbn. destruct args as [|a1 [|a2 [|]]]; try done. by rewrite (bool_decide_eq_false_2 (prog = "/bin/sh"%str)).
Qed.

#[export] Instance toy_update `{Floats} `{Editor} : UpdateInstalled (H := toy_os).
Proof. split. intros argv fs. eexists. destruct argv as [|a1 [|a2 [|]]]; reflexivity. Qed.
