(* ===== verification/FreezeCycle.v ===== *)
(** * A freeze, from the command to the next load

    The last command of a freeze is a text for the shell, which runs
    interface-update on the definition file, which the next load reads.  Here the
    three are put together. *)

From S2P Require Import Prelude PyStr PyStrFacts PyDict Json JsonFacts Logger PyOs AidlInterface Document.
From S2P Require Import Examples InterfaceFacts Imports Checks LibDeps Api Evolution ApiFacts.
From S2P Require Import Getopt IfaceUpdate Yaml IfaceUpdateFacts Shell.

(** ** The command *)

(** The words of the command that records a version, and how they are written. *)
Definition record_args (i : AidlInterface) (v : str) (imports : list str) : list str :=
  ["-w"; "-m"; base_name i; "--parameter"; "versions_with_info"; "--add-literal"; entry_literal v imports;
   interface_root i ++ "/interface"]%str.

Definition record_texts `{Os} (i : AidlInterface) (v : str) (imports : list str) : list str :=
  [CMD_INTERFACE_DEF_UPDATE; "-w"; "-m"; base_name i; "--parameter"; "versions_with_info"; "--add-literal";
   squote :: entry_literal v imports ++ [squote]; interface_root i ++ "/interface"]%str.

Lemma append_version_cmd_words `{Os} i v path imports :
  append_version_cmd i v path imports = if_has_development path ++ join " " (record_texts i v imports) ++ "; fi".
Proof.
  unfold append_version_cmd, record_texts. cbn [join]. f_equal. rewrite <- !app_assoc. cbn.
  by rewrite <- !app_assoc.
Qed.

(** A name is taken as one module. *)
Lemma bare_split name : bare name -> split_ws (replace_char ","%char " " name) = [name].
Proof.
  intros [Hn Hb]. assert (E : replace_char ","%char " " name = name).
  { clear Hn. induction Hb as [|c s Hc _ IH]; [done|]. cbn. apply bare_char_spec in Hc as (_ & _ & Hc & _).
    by rewrite bool_decide_eq_false_2, IH. }
  rewrite E. apply split_ws_word. split; [|done]. eapply Forall_impl; [exact Hb|].
  intros c Hc. apply (bare_char_spec c Hc).
Qed.

Lemma entry_literal_nonempty v imports : entry_literal v imports <> [].
Proof. done. Qed.

Lemma update_main_record `{Floats} `{Editor} i v imports w :
  bare (base_name i) -> startswith "/" (interface_root i) = true ->
  update_main (record_args i v imports) w =
    process_file [base_name i] MODULE_KEY_VERSIONSWITHINFO (entry_literal v imports) (interface_root i ++ "/interface") w.
Proof.
  intros Hn Hr. unfold update_main, record_args. pose proof (entry_literal_nonempty v imports) as Hl.
  destruct (entry_literal v imports) as [|c lit]; [done|].
  destruct (interface_root i) as [|x root]; [done|].
  cbn in Hr. rewrite andb_true_r in Hr. apply bool_decide_eq_true in Hr as <-.
  set (file := (("/"%char :: root) ++ "/interface")%str).
  assert (getopt ["-w"; "-m"; base_name i; "--parameter"; "versions_with_info"; "--add-literal"; c :: lit; file]%str
      "m:w" update_long =
    Some ([("-w", []); ("-m", base_name i); ("--parameter", "versions_with_info"); ("--add-literal", c :: lit)],
          [file])%str) as -> by reflexivity.
  assert (foldl update_option (UpdateOptions [] [] None false)
      [("-w", []); ("-m", base_name i); ("--parameter", "versions_with_info"); ("--add-literal", c :: lit)]%str =
    UpdateOptions (split_ws (replace_char ","%char " " (base_name i))) (c :: lit) (Some "versions_with_info"%str) false)
    as -> by reflexivity.
  cbn [u_propertyName u_moduleNames u_removeProperty u_addLiteral]. rewrite bare_split by done.
  rewrite !bool_decide_eq_false_2 by done. cbn [andb negb for_each]. unfold mbind, M_bind.
  change "versions_with_info"%str with MODULE_KEY_VERSIONSWITHINFO.
  by destruct (process_file _ _ _ _ w) as [[[]|] w'].
Qed.

(** ** The literal *)

Lemma reads_entry_members v imports : plain v -> Forall plain imports ->
  reads_members py_syntax
    (quoted "version" ++ ": " ++ quoted v ++ ", " ++ quoted "imports" ++ ": [" ++ join "," (map quoted imports) ++ "]}")
    [("version", VStr v); ("imports", VList (map VStr imports))]%str [].
Proof.
  intros Hv Hi.
  set (t3 := (": [" ++ join "," (map quoted imports) ++ "]}")%str). set (t2 := quoted "imports" ++ t3).
  apply (members_cons _ _ _ (": " ++ quoted v ++ ", " ++ t2) (space :: quoted v ++ ", " ++ t2) _ (", " ++ t2) (space :: t2)).
  - by apply (py_literal_quoted "version"); [apply bare_plain; split; [done|repeat constructor]|].
  - by apply drop_while_stop.
  - constructor. by apply (py_literal_quoted v (", " ++ t2)).
  - by apply drop_while_stop.
  - apply (members_last _ _ _ t3 (space :: "["%char :: join "," (map quoted imports) ++ "]}") _ "}"%str).
    + by apply (py_literal_quoted "imports" t3); [apply bare_plain; split; [done|repeat constructor]|].
    + by apply drop_while_stop.
    + by apply (reads_quoted_list imports "}").
    + done.
Qed.

(** The literal that is passed on is the entry. *)
Lemma literal_eval_entry_literal v imports : plain v -> Forall plain imports ->
  literal_eval (entry_literal v imports) = Ok (entry_value v imports).
Proof.
  intros Hv Hi. unfold literal_eval.
  assert (parse_text py_syntax (entry_literal v imports) = Some (entry_value v imports)) as ->; [|done].
  apply (parse_text_reads py_syntax). exists []. split; [|done].
  pose proof (reads_entry_members v imports Hv Hi) as Hm.
  set (t := quoted "version" ++ _) in Hm. unfold entry_literal. fold t.
  exact (reads_dict py_syntax t dquote (tail t) _ [] eq_refl eq_refl ltac:(discriminate) Hm).
Qed.

(** ** The last step of a freeze *)

Definition hash_file_of (i : AidlInterface) : str := path_join (get_versioned_dir i CURRENT_VERSION) ".hash".

Definition development_file (i : AidlInterface) : str := path_join (interface_api_dir_out i) "has_development".

Lemma evolves_update_hash `{Os} R `{!Evolution R} i :
  evolves R (remove_if_exists (hash_file_of i)) -> evolves R (update_hash_for_current_api i).
Proof. unfold update_hash_for_current_api. intros Hr. evolves. Qed.

(** A freeze that succeeds ends in recording the version; what comes before is
    made of commands, directories made on the way, and the removal of a hash. *)
Lemma freeze_last_step `{Os} I name i n w w' :
  dget I name = Some i -> numbered i n -> handle_freeze_api I name w = (Ok tt, w') ->
  exists w1, append_version I i (fmt_d (Z.of_nat n + 1)) w1 = (Ok tt, w') /\
    w_has_development w1 = Some (development_file i) /\
    forall R, Evolution R -> evolves R (remove_if_exists (hash_file_of i)) -> R w w1.
Proof.
  intros Hi Hn E. pose proof (next_version_numbered i n Hn) as Hnv.
  unfold handle_freeze_api, get_interface, of_res in E. rewrite Hi in E. unfold mbind, M_bind in E.
  destruct (validate_interface I i w) as [[dumps|e] w1] eqn:E1; [|done].
  destruct (last dumps) as [cur|]; [|done]. rewrite Hnv in E. case_bool_decide; [|done]. unfold mret, M_ret in E.
  destruct (update_hash_for_current_api i w1) as [[[]|e] w2] eqn:E2; [|done].
  destruct (check_for_development _ _ _ _ w2) as [[p|e] w3] eqn:E3; [|done].
  apply check_for_development_path in E3 as Hp. fold (development_file i) in Hp. subst p.
  unfold modify in E. set (w3' := set_has_development (Some (development_file i)) w3) in E.
  destruct (dependecies_check_for_freeze I i w3') as [[[]|e] w4] eqn:E4; [|done].
  destruct (make_api_dump_as_version _ _ _ _ w4) as [[[]|e] w5] eqn:E5; [|done].
  exists w5. split; [done|]. split.
  - pose proof (development_dependecies_check I i w3') as D4. rewrite E4 in D4.
    apply freeze_copy_run in E5 as [_ D5]; [|lia]. cbn in D4. congruence.
  - intros R HR Hrm. transitivity w1; [by eapply evolves_to; [apply evolves_validate_interface|exact E1]|].
    transitivity w2; [by eapply evolves_to; [apply evolves_update_hash|exact E2]|].
    transitivity w3; [by eapply evolves_to; [apply evolves_check_for_development|exact E3]|].
    transitivity w3'; [by apply evolution_outside|].
    transitivity w4; [by eapply evolves_to; [apply evolves_dependecies_check|exact E4]|].
    by eapply evolves_to; [apply evolves_make_api_dump|exact E5].
Qed.

Lemma undisturbed_remove `{Os} file p : p <> file -> evolves (undisturbed file) (remove_if_exists p).
Proof.
  intros Hp w. exists []. unfold remove_if_exists.
  destruct (dget (w_fs w) p) as [[c|]|]; cbn; rewrite app_nil_r; (split; [done|]); intros _ c' Hc; [|done..].
  unfold fs_remove. by rewrite dget_ddel.
Qed.

(** ** The file that is recorded in *)

Lemma definition_file_last fs root : last (definition_file fs root) <> Some "t"%char.
Proof. unfold definition_file. destruct (fs_exists fs _); by rewrite last_app. Qed.

Lemma development_file_last i : last (development_file i) = Some "t"%char.
Proof.
  unfold development_file, path_join. change (startswith "/" "has_development") with false. cbv iota.
  destruct (reverse _); [done|]. case_bool_decide; by rewrite !last_app.
Qed.

Lemma development_file_apart i fs root : development_file i <> definition_file fs root.
Proof.
  intros E. apply (definition_file_last fs root). by rewrite <- E, development_file_last.
Qed.

(** What can be written in the command as it is: the names and the paths, and in
    quotes the names and versions of the imports. *)
Record speakable `{Os} (I : dict str AidlInterface) (i : AidlInterface) : Prop := {
  sp_tool : bare CMD_INTERFACE_DEF_UPDATE /\ slash ∈ CMD_INTERFACE_DEF_UPDATE /\
    CMD_INTERFACE_DEF_UPDATE <> "/bin/sh"%str;
  sp_name : bare (base_name i);
  sp_root : bare (interface_root i) /\ startswith "/" (interface_root i) = true /\
    last (interface_root i) <> Some slash;
  sp_development : bare (development_file i) /\ startswith "/" (development_file i) = true;
  sp_imports : forall m j, m ∈ imports i -> dget I m = Some j -> bare (base_name j) /\ bare (latest_version j)
}.

Lemma bare_app a b : bare a -> bare b -> bare (a ++ b).
Proof. intros [Ha1 Ha2] [_ Hb]. split; [by destruct a|by apply Forall_app_2]. Qed.

(** The literal can be put in single quotes. *)
Lemma entry_literal_unquoted v imports : plain v -> Forall plain imports -> squote ∉ entry_literal v imports.
Proof.
  intros Hv Hi.
  assert (Hp : forall s, plain s -> Forall (fun c => c <> squote) (quoted s)).
  { intros s Hs. constructor; [done|]. apply Forall_app_2; [|by repeat constructor].
    eapply Forall_impl; [exact Hs|]. unfold plain_char. intros c Hc ->. set_solver. }
  assert (Hall : Forall (fun c => c <> squote) (entry_literal v imports)).
  { unfold entry_literal. repeat apply Forall_app_2; try (by repeat constructor); try (by apply Hp).
    apply Forall_join; [by repeat constructor|]. apply Forall_fmap. eapply Forall_impl; [exact Hi|apply Hp]. }
  intros Hin. by apply (proj1 (Forall_forall _ _) Hall) in Hin.
Qed.

Section recording.
Context `{Os, !PosixShell} {F : Floats} {FL : FloatLaws} {SL : SafeLoader} {ED : Editor} {YL : YamlLaws}.
Context `{!UpdateInstalled}.
Context (I : dict str AidlInterface) (i : AidlInterface) (HS : speakable I i).

Lemma recorded_plain imports : versioned_imports I i = Ok imports -> Forall plain imports.
Proof.
  intros Hi%mapM_res_Ok. pose proof (sp_imports _ _ HS) as Hs. induction Hi as [|m x ms l Hx Hi IH]; [constructor|].
  constructor; [|apply IH; intros m' j Hm; apply Hs; by right].
  unfold get_interface in Hx. destruct (dget I m) as [j|] eqn:Ej; [|done]. injection Hx as <-.
  destruct (Hs m j ltac:(left) Ej) as [Hb Hl]. apply Forall_app_2; [by apply bare_plain|].
  apply Forall_app_2; [|by apply bare_plain]. apply bare_plain. split; [done|repeat constructor].
Qed.

(** What the shell makes of the command that records a version. *)
Lemma record_process v path imports fs : bare v -> bare path -> startswith "/" path = true -> Forall plain imports ->
  exists r, run_process (sh (append_version_cmd i v path imports)) fs =
    (Ok r, if development_set fs path
           then w_fs (snd (update_main (record_args i v imports) (World fs [] [] 0 [] None []))) else fs).
Proof.
  intros Hv Hp Habs Hi. destruct (sp_tool _ _ HS) as (Ht & Hsl & Hne). destruct (sp_root _ _ HS) as [Hr _].
  rewrite append_version_cmd_words. destruct (sh_if path (record_texts i v imports) CMD_INTERFACE_DEF_UPDATE
    (record_args i v imports) fs Hp Habs) as [r E]; [|done..| |].
  - assert (Hw : forall w, w <> [] -> Forall (fun c => bare_char c = true) w -> sh_word w w) by by constructor.
    assert (Hlit : sh_word (squote :: entry_literal v imports ++ [squote]) (entry_literal v imports)).
    { by apply word_quoted, entry_literal_unquoted; [apply bare_plain|]. }
    assert (Hfile : bare (interface_root i ++ "/interface")).
    { apply bare_app; [done|]. split; [done|repeat constructor]. }
    pose proof (sp_name _ _ HS) as Hn.
    repeat (apply Forall2_cons; split);
      first [done | by constructor | by apply Hw; [|repeat constructor]].
  - destruct (update_runs (record_args i v imports) fs) as [r ->]. by exists r.
  - exists r. rewrite E. destruct (update_runs (record_args i v imports) fs) as [r' ->]. done.
Qed.

Context (d : iface_doc) (data : value).
Hypothesis Hname : base_name i = doc_name d.
Hypothesis Hdata : doc_of_value data = Some d /\ ~ null_versions data.

(** Recording a version: if the development file says so, the next load finds it
    in the definition, otherwise nothing is changed. *)
Lemma append_version_recorded v w w' : bare v ->
  holds (w_fs w) (interface_root i) data -> w_has_development w = Some (development_file i) ->
  (fs_exists (w_fs w) (interface_root i ++ "/interface.json") = false ->
   forall imports, versioned_imports I i = Ok imports -> portable (entry_value v imports) = true) ->
  append_version I i v w = (Ok tt, w') ->
  exists imports, versioned_imports I i = Ok imports /\
    development_set (w_fs w') (development_file i) = development_set (w_fs w) (development_file i) /\
    w_cmds w' = w_cmds w ++ [sh (append_version_cmd i v (development_file i) imports)] /\
    if development_set (w_fs w) (development_file i)
    then load_document (interface_root i) w' = (Ok (Some (with_entry d (VerEntry v (Some imports)))), w')
    else w_fs w' = w_fs w.
Proof.
  intros Hv Hh Hdev Hport E. unfold append_version, of_res, gets in E. unfold mbind, M_bind in E.
  destruct (versioned_imports I i) as [imports|] eqn:Ei; [|done]. rewrite Hdev in E. cbv beta iota in E.
  pose proof (recorded_plain imports Ei) as Hp. destruct Hdata as [Hd Hn].
  destruct (record_process v _ imports (w_fs w) Hv (proj1 (sp_development _ _ HS)) (proj2 (sp_development _ _ HS)) Hp)
    as [r Er].
  unfold shell, run, mbind, M_bind in E. fold (sh (append_version_cmd i v (development_file i) imports)) in E.
  rewrite Er in E. injection E as <-. exists imports. cbn [w_fs set_fs w_cmds set_cmds].
  destruct (sp_root _ _ HS) as (Hr & Hroot & Hlast).
  destruct (development_set (w_fs w) (development_file i)) eqn:Eset; [|done].
  rewrite update_main_record by first [done|apply HS]. rewrite Hname.
  destruct (process_file_run (interface_root i) (conj (proj1 Hr) Hlast) data d (entry_literal v imports) v imports
    (World (w_fs w) [] [] 0 [] None []) Hh Hd Hn (fun Hj => Hport Hj imports eq_refl)) as (text & -> & Hload).
  { apply literal_eval_entry_literal; [by apply bare_plain|done]. }
  cbn [snd w_fs set_fs]. split_and!; [done| |done|by apply Hload].
  unfold development_set. rewrite dget_dset_ne; [done|]. intros Ef. by eapply development_file_apart.
Qed.

(** Recording removes no file. *)
Lemma process_file_keeps names prop lit file w p :
  dget (w_fs (snd (process_file names prop lit file w))) p = None -> dget (w_fs w) p = None.
Proof using.
  assert (Hw : forall f t w0, dget (w_fs (snd (write_file f t w0))) p = None -> dget (w_fs w0) p = None).
  { intros f t w0. unfold write_file. destruct (dget (w_fs w0) f) as [[]|]; try done; [|destruct (_ || _); [|done]];
      cbn; rewrite dget_dset; by case_decide. }
  unfold process_file, exists_path, gets, read_file, of_res. unfold mbind, M_bind.
  destruct (fs_exists _ (file ++ ".json")); [|destruct (fs_exists _ (file ++ ".yaml")); [|done]];
    (destruct (dget (w_fs w) _) as [[c|]|]; [|done..]).
  - destruct (json_loads _) as [v|]; [|done]. destruct (update_data _ _ _ v); [apply Hw|done].
  - destruct (rt_load _) as [v|]; [|done]. destruct (update_data _ _ _ v); [apply Hw|done].
Qed.

Lemma append_version_keeps v w w' p : bare v -> w_has_development w = Some (development_file i) ->
  append_version I i v w = (Ok tt, w') -> dget (w_fs w') p = None -> dget (w_fs w) p = None.
Proof.
  intros Hv Hdev E Hp. unfold append_version, of_res, gets in E. unfold mbind, M_bind in E.
  destruct (versioned_imports I i) as [imports|] eqn:Ei; [|done]. rewrite Hdev in E. cbv beta iota in E.
  pose proof (recorded_plain imports Ei) as Hpl.
  destruct (record_process v _ imports (w_fs w) Hv (proj1 (sp_development _ _ HS)) (proj2 (sp_development _ _ HS)) Hpl)
    as [r Er].
  unfold shell, run, mbind, M_bind in E. fold (sh (append_version_cmd i v (development_file i) imports)) in E.
  rewrite Er in E. injection E as <-. cbn in Hp. destruct (development_set _ _); [|done].
  rewrite update_main_record in Hp by apply HS. by apply process_file_keeps in Hp.
Qed.

(** What is recorded means itself if the names and versions do. *)
Lemma recorded_portable v imports : portable_text v = true ->
  (forall m j, m ∈ AidlInterface.imports i -> dget I m = Some j ->
     portable_text (versioned_name j (latest_version j)) = true) ->
  versioned_imports I i = Ok imports -> portable (entry_value v imports) = true.
Proof using.
  intros Hv Hn Hi. unfold entry_value. apply portable_dict. repeat constructor; cbn [fst snd]; try done.
  rewrite portable_texts. apply mapM_res_Ok in Hi. induction Hi as [|m x ms l Hx _ IH]; [done|].
  cbn [forallb]. rewrite IH by (intros m' j Hm; apply Hn; by right). rewrite andb_true_r.
  unfold get_interface in Hx. destruct (dget I m) as [j|] eqn:Ej; [|done]. injection Hx as <-.
  apply (Hn m j); [left|done].
Qed.

(** The file that holds the definition is left alone: so is the definition. *)
Lemma holds_undisturbed fs fs' root c :
  holds fs root data ->
  dget fs (definition_file fs root) = Some (File c) -> dget fs' (definition_file fs root) = Some (File c) ->
  (dget fs (root ++ "/interface.json") = None -> dget fs' (root ++ "/interface.json") = None) ->
  holds fs' root data.
Proof using.
  unfold holds, definition_file, fs_exists, dmem.
  destruct (dget fs (root ++ "/interface.json")) as [[c'|]|] eqn:Ej; [|done|].
  - intros Hh Hc -> _. congruence.
  - intros Hh Hc -> Hnone. rewrite Hc in Hh. by rewrite Hnone.
Qed.

Lemma holds_file fs root : holds fs root data -> exists c, dget fs (definition_file fs root) = Some (File c).
Proof using.
  unfold holds, definition_file, fs_exists, dmem. destruct (dget fs (root ++ "/interface.json")) as [[c|]|] eqn:Ej.
  - intros _. rewrite Ej. by exists c.
  - done.
  - destruct (dget fs (root ++ "/interface.yaml")) as [[c|]|]; [by exists c|done..].
Qed.
End recording.

Lemma bare_fmt_d z : (0 <= z)%Z -> bare (fmt_d z).
Proof.
  intros [Hf Hn]%fmt_d_nonneg. split; [done|]. eapply Forall_impl; [exact Hf|]. intros c Hc.
  cbn in Hc. unfold bare_char. by rewrite Hc.
Qed.

(** ** The cycle *)

(** The commands between two states. *)
Definition commands_since (w w' : world) : list (list str) := drop (length (w_cmds w)) (w_cmds w').

(** The workspace before a freeze: the interface was loaded from the definition
    that is on disk, its name and those of its imports are plain words, which
    mean themselves if the definition is in YAML, and the hash that the freeze
    removes is not the definition. *)
Record freezable `{Os} `{Floats} `{SafeLoader} `{Editor} (I : dict str AidlInterface) (i : AidlInterface) (root0 : str)
    (data : value) (d : iface_doc) (specs : list (str * option str)) (fs : fsys) : Prop := {
  fz_specs : mapM_res parse_import_spec (default [] (doc_imports d)) = Ok specs;
  fz_loads : loads root0 (interface_root i) d specs i;
  fz_data : doc_of_value data = Some d /\ ~ null_versions data;
  fz_holds : holds fs (interface_root i) data;
  fz_speakable : speakable I i;
  fz_root : realpath (interface_root i) = interface_root i;
  fz_names : (forall m j, dget I m = Some j -> base_name j = m) /\ Forall dashless (imports i);
  fz_hash : hash_file_of i <> definition_file fs (interface_root i);
  fz_portable : fs_exists fs (interface_root i ++ "/interface.json") = false -> forall m j,
    m ∈ imports i -> dget I m = Some j -> portable_text (versioned_name j (latest_version j)) = true
}.


(** ** Witness: a first freeze *)

Definition cycle_doc : iface_doc :=
  IfaceDoc "hal" None None None ["*.aidl"%str] (Some [SStr "common@current"]) (Some "vintf"%str) SNone None.

Definition cycle_data : value :=
  VDict [("aidl_interface", VDict
    [("name", VStr "hal"); ("owner", VStr "rdk"); ("srcs", VList [VStr "*.aidl"]);
     ("imports", VList [VStr "common@current"]); ("stability", VStr "vintf")])]%str.

Definition cycle_fs : fsys :=
  [("/ws/hal", Directory); ("/ws/hal/interface.yaml", File (json_dumps 2 cycle_data));
   ("/ws/stable/aidl/hal", Directory); ("/ws/stable/aidl/hal/current", Directory);
   ("/ws/stable/aidl/hal/current/.hash", File "f00"); ("/ws/stable/aidl/hal/current/H.aidl", File "parcelable H {}");
   ("/ws/stable/aidl/common", Directory); ("/ws/stable/aidl/common/2", Directory);
   ("/ws/stable/aidl/common/current", Directory)]%str.

Definition cycle_world : world := World cycle_fs [] [] 0 [] None [].

Definition cycle_os : Os := toy_os (H := identity_floats) (H0 := plain_editor).

Definition i_cycle : AidlInterface :=
  match fst (interface_of_doc (H := cycle_os) ["/ws"%str] "/out" "/ws/hal" cycle_doc cycle_world) with
  | Ok i => i
  | Err _ => i_hal
  end.

Definition cycle_interfaces : dict str AidlInterface :=
  [("hal", i_cycle); ("common", with_versions i_common 2)]%str.

Definition cycle_end : world := snd (handle_freeze_api (H := cycle_os) cycle_interfaces "hal" cycle_world).

Ltac bare_text := split; [discriminate|repeat constructor].

Lemma cycle_speakable : speakable (H := cycle_os) cycle_interfaces i_cycle.
Proof.
  split.
  - split; [bare_text|]. split; [|discriminate]. by do 3 right; left.
  - bare_text.
  - split; [bare_text|]. split; [reflexivity|discriminate].
  - split; [bare_text|reflexivity].
  - intros m j ->%list_elem_of_singleton [= <-]. split; bare_text.
Qed.

Lemma cycle_freezable : freezable (H := cycle_os) (H0 := identity_floats) (H1 := plain_safe_loader) (H2 := plain_editor)
  cycle_interfaces i_cycle "/ws" cycle_data cycle_doc [("common", Some "current")]%str cycle_fs.
Proof.
  split.
  - reflexivity.
  - destruct (interface_of_doc_run (H := cycle_os) "/ws" [] "/out" "/ws/hal" cycle_doc cycle_world
      [("common", Some "current")]%str eq_refl) as (i & L & E).
    assert (i_cycle = i) as -> by (unfold i_cycle; by rewrite E).
    by rewrite (loads_root _ _ _ _ _ L).
  - split; [reflexivity|]. intros (data & fields & [= <-] & [= <-] & Hn). discriminate Hn.
  - split; [vm_compute; reflexivity|]. split; [vm_compute; reflexivity|].
    exists cycle_data. split; [vm_compute; reflexivity|apply same_refl].
  - apply cycle_speakable.
  - vm_compute. reflexivity.
  - split; [|by repeat constructor]. intros m j Hj. unfold cycle_interfaces in Hj. cbn [dget] in Hj.
    repeat case_decide; subst; try discriminate Hj; by injection Hj as <-.
  - vm_compute. discriminate.
  - intros _ m j ->%list_elem_of_singleton [= <-]. vm_compute. reflexivity.
Qed.

(** The toy commands of this freeze leave the definition alone. *)
Lemma cycle_leaves : Forall (leaves (H := cycle_os) "/ws/hal/interface.yaml") (removelast (commands_since cycle_world cycle_end)).
Proof.
  set (cmds := removelast _). vm_compute in cmds. subst cmds.
  repeat constructor; intros fs; try reflexivity.
  - by apply (dget_dset_ne fs "/out/hal/hal-api/has_development"%str).
  - match goal with |- context [run_process ?cmd fs] =>
      change (snd (run_process cmd fs)) with
        (if development_set fs "/out/hal/hal-api/has_development" then fs else fs)
    end. by destruct (development_set _ _).
Qed.

