(* ===== verification/Ops.v ===== *)
(** * host/aidl_ops.py

    Command line options, as [getopt] splits them, and the dispatch to the
    operations. *)

From S2P Require Import Prelude PyStr PyDict Logger PyOs AidlInterface Imports LibDeps Api GenRule.
From S2P Require Import SurfaceCli Getopt.

Definition ops_short : str := "r:ufgad:v:o:h".
Definition ops_long : list str :=
  ["interfaces_roots="; "update_api"; "freeze_api"; "generate_source"; "generate_deps";
   "gen_dir="; "version="; "out_dir="; "help"]%str.

(** ** The option loop of [main] *)

Inductive operation : Type := OpUpdate | OpFreeze | OpSource | OpDeps.

#[export] Instance operation_eq_dec : EqDecision operation.
Proof. solve_decision. Defined.

(** The module globals and [error]. *)
Record options : Type := Options {
  o_operation : option operation;
  o_roots : list str;
  o_out_dir : str;
  o_gen_dir : option str;
  o_gen_version : option str;
  o_error : bool
}.

Section ops.
Context `{Os} `{Loader}.

Definition CMD_GEN_AIDL : str := realpath (path_join host_dir "../build-aidl-generator-tool.sh").

Definition default_options : options :=
  Options None [] (dirname host_dir ++ "/out") None None false.

Definition set_operation (op : operation) (o : options) : options :=
  match o_operation o with
  | None => Options (Some op) (o_roots o) (o_out_dir o) (o_gen_dir o) (o_gen_version o) (o_error o)
  | Some _ => Options (o_operation o) (o_roots o) (o_out_dir o) (o_gen_dir o) (o_gen_version o) true
  end.

Definition add_root (o : options) (p : str) : M options :=
  found ← exists_path (realpath p);
  if (found : bool) then
    mret (Options (o_operation o) (o_roots o ++ [realpath p]) (o_out_dir o) (o_gen_dir o)
            (o_gen_version o) (o_error o))
  else
    log ERROR "Provided path, %s, for interfaces doesn't exist." [p] ≫= fun _ => mret o.

Definition is_opt (name short long : str) : bool := bool_decide (name = short \/ name = long).

(** One iteration of the loop over [opts]. *)
Definition option_step (o : options) (opt : str * str) : M options :=
  let (name, a) := opt in
  if is_opt name "-r" "--interfaces_roots" then fold_each (split_char ";"%char a) o add_root
  else if is_opt name "-u" "--update_api" then mret (set_operation OpUpdate o)
  else if is_opt name "-f" "--freeze_api" then mret (set_operation OpFreeze o)
  else if is_opt name "-g" "--generate_source" then mret (set_operation OpSource o)
  else if is_opt name "-a" "--generate_deps" then mret (set_operation OpDeps o)
  else if is_opt name "-d" "--gen_dir" then
    mret (Options (o_operation o) (o_roots o) (o_out_dir o) (Some a) (o_gen_version o) (o_error o))
  else if is_opt name "-v" "--version" then
    mret (Options (o_operation o) (o_roots o) (o_out_dir o) (o_gen_dir o) (Some (strip a)) (o_error o))
  else if is_opt name "-o" "--out_dir" then
    mret (Options (o_operation o) (o_roots o) a (o_gen_dir o) (o_gen_version o) (o_error o))
  else if is_opt name "-h" "--help" then raise (SystemExit 0)
  else log ERROR "Invalide argument, %s" [name] ≫= fun _ => raise (SystemExit 1).

(** What is asked for: the operation, the interface where one is needed, and
    the options. *)
Record request : Type := Request {
  q_operation : operation;
  q_interface : str;
  q_options : options
}.

(** Without a root, the working directory is one. *)
Definition ensure_roots (o : options) : M options :=
  match o_roots o with
  | [] =>
      log WARNING "No root directory for AIDL interfaces is provided." [] ≫= fun _ =>
      log INFO "setting it to %s" [cwd] ≫= fun _ =>
      mret (Options (o_operation o) [cwd] (o_out_dir o) (o_gen_dir o) (o_gen_version o) (o_error o))
  | _ => mret o
  end.

Definition check_request (o : options) (args : list str) : M request :=
  o ← ensure_roots o;
  match o_operation o with
  | None => log ERROR "No AIDL operation provided" [] ≫= fun _ => raise (SystemExit 1)
  | Some op =>
      (if o_error o then
         log ERROR "More than one AIDL operation provided" [] ≫= fun _ => raise (SystemExit 1)
       else mret tt) ≫= fun _ =>
      if bool_decide (op = OpDeps) then mret (Request op [] o)
      else match args with
           | [name] => mret (Request op name o)
           | _ => log FATAL "No or more than one interfaces are provided" [] ≫= fun _ =>
                  raise (SystemExit 1)
           end
  end.

(** [aidl] is built if it is not there. *)
Definition ensure_aidl : M unit :=
  found ← exists_path CMD_AIDL;
  (if (found : bool) then mret tt
   else log ERROR "AIDL tool not found, Installation Script: %s" [CMD_GEN_AIDL] ≫= fun _ =>
        exec_cmd [CMD_GEN_AIDL] ≫= fun _ => mret tt) ≫= fun _ =>
  found ← exists_path CMD_AIDL;
  if (found : bool) then mret tt
  else log ERROR "Could not generate AIDL tool" [] ≫= fun _ => raise (SystemExit 1).

(** [except RuntimeError], of which [RecursionError] is one *)
Definition caught_by_ops (e : exn) : bool :=
  match e with RuntimeError _ _ | RecursionError => true | _ => false end.

Definition dispatch (q : request) : M unit :=
  let o := q_options q in
  match q_operation q with
  | OpUpdate => aidl_api (q_interface q) UpdateApi (o_roots o) (o_out_dir o)
  | OpFreeze => aidl_api (q_interface q) FreezeApi (o_roots o) (o_out_dir o)
  | OpSource => fun w =>
      match aidl_gen_rule (q_interface q) (o_roots o) (o_out_dir o) (o_gen_dir o) (o_gen_version o) w with
      | (Ok _, w) => (Ok tt, w)
      | (Err e, w) =>
          if caught_by_ops e then
            (log ERROR "Source generation failed: %s" [exn_str e] ≫= fun _ =>
             raise (SystemExit 1)) w
          else (Err e, w)
      end
  | OpDeps => aidl_gen_deps (o_roots o) (o_out_dir o)
  end.

(** [main]: the text printed to standard output, unless it exits. *)
Definition ops_main (usage surface_usage : str) (argv : list str) : M str :=
  if match argv with
     | a :: _ => bool_decide (a ∈ ["dump-surface"; "diff-surface"]%str)
     | [] => false
     end
  then
    r ← surface_main surface_usage argv;
    raise (SystemExit (fst r))
  else
    match getopt argv ops_short ops_long with
    | None =>
        log ERROR "Exception occured while parsing arguments. err=%s" [] ≫= fun _ =>
        raise (SystemExit 2)
    | Some (opts, args) =>
        o ← fold_each opts default_options option_step;
        q ← check_request o args;
        ensure_aidl ≫= fun _ =>
        dispatch q ≫= fun _ => mret []
    end.
End ops.

Example getopt_ex :
  getopt ["-r"; "/a;/b"; "-gv"; "2"; "--out=/o"; "audio"; "-u"]%str ops_short ops_long =
    Some ([("-r", "/a;/b"); ("-g", []); ("-v", "2"); ("--out_dir", "/o")]%str, ["audio"; "-u"]%str).
Proof. vm_compute. reflexivity. Qed.
