(* ===== verification/GenRuleFacts.v ===== *)
(** * Correctness of the version handed to the compiler

    What [resolve_emit_version] accepts and emits, and which [-v] arguments
    [handle_source_gen] lets through. *)

From S2P Require Import Prelude PyStr PyStrFacts PyDict Logger PyOs AidlInterface Examples.
From S2P Require Import InterfaceFacts GenRule.

Definition decimals (s : str) : Prop := Forall (fun c => is_decimal c = true) s.

(** C30: the version emitted to the compiler.  Outside module-local layout, or
    without [version:], it is the resolution version.  Otherwise it is the
    stripped [version:] and it is a plain decimal number of at least 1, with a
    frozen hash (so nothing but digits reaches the shell command); every such
    number is accepted.  Everything else is a [RuntimeError], except digits
    that are not decimal (superscripts), for which [int] raises
    [ValueError]. *)
Theorem resolve_emit_version_exact layout mv gen_version hash_gen name :
  let r := resolve_emit_version layout mv gen_version hash_gen name in
  let s := strip (str_scalar mv) in
  (layout <> "module-local"%str \/ mv = SNone -> r = Ok gen_version) /\
  (layout = "module-local"%str -> mv <> SNone ->
     (forall v, r = Ok v <-> v = s /\ s <> [] /\ decimals s /\ hash_gen <> "notfrozen"%str /\
        exists n, py_int s = Ok n /\ (1 <= n)%Z) /\
     (forall e, r = Err e ->
        (exists msg args, e = RuntimeError msg args) \/
        (e = invalid_int "10" s /\ isdigit s = true /\ ~ decimals s))).
Proof.
  intros r s. unfold r, resolve_emit_version. fold s. split.
  { intros H. by rewrite bool_decide_eq_true_2. }
  intros Hl Hm. rewrite bool_decide_eq_false_2 by naive_solver.
  destruct (isdigit s) eqn:Ed; cbn [negb].
  - pose proof (py_int_isdigit s Ed) as Hp. apply isdigit_Forall in Ed as Hs. destruct Hs as [Hs _].
    destruct (py_int s) as [n|e] eqn:En; cbn.
    + destruct Hp as [Hd _]. destruct (n <? 1)%Z eqn:Hn; cbn.
      * apply Z.ltb_lt in Hn. split; [|unfold bad_ordinal; intros e [= <-]; eauto].
        intros v. split; [done|]. intros (_ & _ & _ & _ & n' & [= <-] & ?). lia.
      * apply Z.ltb_ge in Hn. case_bool_decide as Hh.
        -- split; [|unfold not_frozen_ordinal; intros e [= <-]; eauto]. intros v. split; [done|]. naive_solver.
        -- split; [|done]. intros v. split; [|naive_solver].
           intros [= <-]. split_and!; eauto.
    + destruct Hp as [-> Hd]. split; [|intros e [= <-]; auto].
      intros v. split; [done|]. intros (_ & _ & _ & _ & n & [=] & _).
  - cbn. split; [|unfold bad_ordinal; intros e [= <-]; eauto]. intros v. split; [done|].
    intros (_ & Hs & Hd & _). unfold isdigit in Ed. destruct s as [|c s']; [done|].
    assert (forallb is_digit (c :: s') = true) as E; [|congruence].
    apply forallb_forall. unfold decimals in Hd. rewrite List.Forall_forall in Hd.
    intros x Hx. unfold is_digit. by rewrite Hd.
Qed.

(** A positive integer ordinal on a frozen module-local snapshot is emitted
    in decimal. *)
Theorem resolve_emit_version_ordinal n gen_version hash_gen name :
  (1 <= n)%Z -> hash_gen <> "notfrozen"%str ->
  resolve_emit_version "module-local" (SInt n) gen_version hash_gen name = Ok (fmt_d n).
Proof.
  intros Hn Hh. destruct (fmt_d_nonneg n ltac:(lia)) as [HF Hne].
  unfold resolve_emit_version. rewrite bool_decide_eq_false_2 by naive_solver. cbn [str_scalar].
  rewrite strip_decimal, isdigit_fmt_d, py_int_fmt_d by (done || lia). cbn.
  assert ((n <? 1)%Z = false) as -> by (apply Z.ltb_ge; lia). cbn.
  by rewrite bool_decide_eq_false_2.
Qed.

Lemma resolve_emit_version_ordinal_witness :
  resolve_emit_version "module-local" (SInt 12) "1" "5d1f" "common" = Ok "12"%str.
Proof. apply (resolve_emit_version_ordinal 12 "1" "5d1f" "common"); [lia|discriminate]. Defined.

(** A superscript digit passes [isdigit] and not [int]. *)
Example emit_superscript :
  resolve_emit_version "module-local" (SStr ["178"%char]) "1" "5d1f" "common" =
    Err (invalid_int "10" ["178"%char]).
Proof. vm_compute. reflexivity. Qed.

(** C36: on a stable central-layout interface with n frozen versions, [-v] is
    accepted exactly for a number from 1 to n + 1, and nothing is printed;
    a number outside raises [AssertionError], and what is not a number (as a
    dotted version) the [ValueError] of [int]. *)
Theorem check_gen_version_exact i n v w :
  numbered i n -> layout i <> "module-local"%str ->
  match py_int v with
  | Err e => check_gen_version i v w = (Err e, w)
  | Ok z =>
      if decide (1 <= z <= Z.of_nat n + 1)%Z then check_gen_version i v w = (Ok tt, w)
      else exists msg args w', check_gen_version i v w = (Err (AssertionError msg args), w')
  end.
Proof.
  intros Hi Hl. unfold check_gen_version. rewrite bool_decide_eq_false_2 by done.
  rewrite (next_version_numbered i n Hi). unfold of_res, mbind, M_bind, mret, M_ret.
  destruct (py_int v) as [z|e]; [|done]. rewrite py_int_fmt_d.
  destruct (z <? 1)%Z eqn:H1.
  - apply Z.ltb_lt in H1. case_decide; [lia|]. cbn. unfold assert_false, raise. eauto.
  - apply Z.ltb_ge in H1. destruct (Z.of_nat n + 1 <? z)%Z eqn:H2.
    + apply Z.ltb_lt in H2. case_decide; [lia|]. cbn. unfold assert_false, raise. eauto.
    + apply Z.ltb_ge in H2. case_decide; [done|lia].
Qed.

Lemma check_gen_version_exact_witness :
  check_gen_version (with_versions i_hal 2) "3" example_world = (Ok tt, example_world).
Proof.
  apply (check_gen_version_exact (with_versions i_hal 2) 2 "3" example_world).
  - split; [discriminate|vm_compute; reflexivity].
  - discriminate.
Defined.
