(* ===== verification/GenCppFacts.v ===== *)
(** * Correctness of C++ generation

    What [gen_cpp_sources] has compiled when it succeeds, and how it ends when
    the compiler fails. *)

From S2P Require Import Prelude PyStr PyStrFacts PyDict Logger PyOs AidlInterface Examples.
From S2P Require Import InterfaceFacts Imports ImportsFacts Checks LibDeps Api ApiFacts GenRule.

#[export] Instance logged_preorder : PreOrder logged.
Proof.
  split.
  - intros w. exists []. rewrite app_nil_r. by destruct w.
  - intros w1 w2 w3 [r1 ->] [r2 ->]. exists (r1 ++ r2). by rewrite app_assoc.
Qed.

Lemma log_logged l msg args w : exists w', log l msg args w = (Ok tt, w') /\ logged w w'.
Proof. eexists. split; [reflexivity|]. by eexists. Qed.

(** The hash that is emitted: the text of the hash file on one line. *)
Definition emitted_hash (fs : fsys) (hash_file : str) : option str :=
  match dget fs hash_file with
  | Some (File c) => Some (replace_char newline [] (universal_newlines c))
  | Some Directory => None
  | None => Some "notfrozen"%str
  end.

Lemma read_hash_run p w :
  read_hash p w = (match emitted_hash (w_fs w) p with Some h => Ok h | None => Err OSError end, w).
Proof.
  unfold read_hash, exists_path, gets, mbind, M_bind, fs_exists, dmem, read_file, emitted_hash.
  unfold mret, M_ret. destruct (dget (w_fs w) p) as [[c|]|] eqn:E; by rewrite ?E.
Qed.

Lemma shell_exit `{Os} cmd w r w' : shell cmd w = (Ok r, w') ->
  exists c, run_process (sh cmd) (w_fs w) = (Ok c, w_fs w') /\ returncode c = r.
Proof.
  unfold shell, run, mbind, M_bind. fold (sh cmd).
  destruct (run_process (sh cmd) (w_fs w)) as [[c|e] fs'] eqn:E; [|done]. intros [= <- <-]. eauto.
Qed.

Lemma emit_elsewhere layout mv v hash name :
  layout <> "module-local"%str -> resolve_emit_version layout mv v hash name = Ok v.
Proof. intros Hl. unfold resolve_emit_version. by rewrite bool_decide_eq_true_2 by auto. Qed.

(** The compilation of the files of one version. *)
Record compiled `{Os} (I : dict str AidlInterface) (i : AidlInterface) (v api dir inc : str) (w w' : world)
    : Prop := {
  co_exists : fs_exists (w_fs w) api = true;
  co_files : get_path_for_files_rec (w_fs w) api "*.aidl" <> [];
  co_command : exists w1 di hash emit,
    get_dependencies i I v false w = (Ok di, w1) /\
    emitted_hash (w_fs w1) (path_join api ".hash") = Some hash /\
    resolve_emit_version (layout i) (module_version i) v hash (base_name i) = Ok emit /\
    (layout i <> "module-local"%str -> emit = v) /\
    let cmd := sh (aidl_gen_cmd i (api :: snd (fst di)) dir inc emit hash
                     (get_path_for_files_rec (w_fs w) api "*.aidl")) in
    w_cmds w' = w_cmds w1 ++ [cmd] /\
    exists c, run_process cmd (w_fs w1) = (Ok c, w_fs w') /\ returncode c = 0%Z
}.

Lemma compile_sources_compiled `{Os} I i v vd dir inc w w' :
  compile_sources I i v vd dir inc w = (Ok tt, w') ->
  compiled I i v (get_versioned_dir i vd) dir inc w w'.
Proof.
  unfold compile_sources, gets, of_res. unfold mbind, M_bind. cbn zeta.
  destruct (fs_exists (w_fs w) (get_versioned_dir i vd)) eqn:Ef; [|done].
  set (files := get_path_for_files_rec _ _ _).
  destruct files as [|f fl] eqn:Efiles; [done|]. unfold mret at 1, M_ret at 1. rewrite <- Efiles.
  destruct (get_dependencies i I v false w) as [[di|e] w1] eqn:Ed; [|done].
  rewrite read_hash_run. destruct (emitted_hash _ _) as [hash|] eqn:Eh; [|done].
  destruct (resolve_emit_version _ _ _ _ _) as [emit|e] eqn:Er; [|done].
  destruct (shell _ w1) as [[r|e] w2] eqn:Es; [|done].
  case_bool_decide as Hr; [done|]. intros [= <-].
  pose proof (shell_run _ _ _ _ Es) as [Hc _].
  apply shell_exit in Es as (c & Hp & Hrc).
  split; [done|unfold files in Efiles; by rewrite Efiles|].
  exists w1, di, hash, emit. split_and!; try done.
  - intros Hl. rewrite emit_elsewhere in Er by done. congruence.
  - cbn zeta. split; [exact Hc|]. exists c. split; [exact Hp|congruence].
Qed.

(** C17: a generation that succeeds has compiled, in its last command and with
    exit status 0, exactly the AIDL files of the version's directory, of which
    there is at least one; with that directory and the directories of the
    resolved imports, in this order, as import paths; and with the hash of the
    version's [.hash] file, or [notfrozen] if it has none.  Outside
    module-local layout the version emitted is the one asked for, or the next
    one if none is. *)
Theorem gen_cpp_sources_compiled `{Os} I name i n gen_dir gen_version w w' :
  dget I name = Some i -> numbered i n ->
  gen_cpp_sources I name gen_dir gen_version w = (Ok tt, w') ->
  let next := fmt_d (Z.of_nat n + 1) in
  let v := default next gen_version in
  let vd := gen_version_dir i v next in
  exists w0, logged w w0 /\
    compiled I i v (get_versioned_dir i vd) (fst (gen_dirs i vd gen_dir)) (snd (gen_dirs i vd gen_dir)) w0 w'.
Proof.
  intros Hi Hn E next v vd. pose proof (next_version_numbered i n Hn) as Hnv. fold next in Hnv.
  unfold gen_cpp_sources, get_interface in E. rewrite Hi in E.
  unfold of_res, gets, mbind, M_bind in E. rewrite Hnv in E. cbn zeta in E. fold v vd in E.
  destruct (gen_dirs i vd gen_dir) as [dir inc]. cbn [fst snd].
  set (already := _ && _) in E.
  destruct already; cbn in E; apply compile_sources_compiled in E; eexists; (split; [|exact E]);
    eexists; cbn; rewrite <- ?app_assoc; reflexivity.
Qed.

Lemma gen_cpp_sources_compiled_witness :
  let run := gen_cpp_sources (H := quiet_os) example_interfaces "common" None None example_world in
  is_ok (fst run) = true /\
  forall w', run = (Ok tt, w') -> exists w0, logged example_world w0 /\
    compiled (H := quiet_os) example_interfaces i_common "1"
      "/ws/stable/aidl/common/current" "/ws/stable/generated/common/current/src"
      "/ws/stable/generated/common/current/include" w0 w'.
Proof.
  split; [vm_compute; reflexivity|]. intros w' E.
  apply (gen_cpp_sources_compiled (H := quiet_os) example_interfaces "common" i_common 0 None None
           example_world w'); [reflexivity|split; [discriminate|reflexivity]|exact E].
Defined.

(** The command of a first generation. *)
Example common_command :
  last (w_cmds (snd (gen_cpp_sources (H := quiet_os) example_interfaces "common" None None example_world))) =
  Some (sh "/ws/out/host/bin/aidl --lang=cpp --structured --min_sdk_version=33 --stability=vintf -I/ws/stable/aidl/common/current -h /ws/stable/generated/common/current/include --version=1 --hash=notfrozen --out=/ws/stable/generated/common/current/src /ws/stable/aidl/common/current/C.aidl ").
Proof. vm_compute. reflexivity. Qed.
