(* ===== verification/OpsFacts.v ===== *)
(** * Correctness of the command line of aidl_ops

    [getopt] only yields declared options, and an operation is started exactly
    when one operation (and an interface, where one is needed) is asked for. *)

From S2P Require Import Prelude PyStr PyStrFacts PyDict Logger PyOs AidlInterface Examples.
From S2P Require Import LibDeps Api GenRule Getopt Ops.

(** ** What [getopt] yields *)

(** The names of the declared options. *)
Definition declared (shortopts : str) (longopts : list str) (name : str) : Prop :=
  (exists c, name = "-"%char :: [c] /\ c ∈ shortopts /\ c <> ":"%char) \/
  (exists l, name = "--"%str ++ l /\
     ((l ∈ longopts /\ endswith "=" l = false) \/ (l ++ "=")%str ∈ longopts)).

Section getopt.
Context (shortopts : str) (longopts : list str).

Lemma short_has_arg_declared o so b : short_has_arg o so = Some b -> o ∈ so /\ o <> ":"%char.
Proof.
  induction so as [|c so IH]; [done|]. cbn. case_bool_decide as E.
  - destruct E as [-> E]. intros _. split; [left|done].
  - intros H%IH. set_solver.
Qed.

Lemma do_shorts_declared s : forall args r,
  do_shorts shortopts s args = Some r ->
  Forall (fun o => declared shortopts longopts (fst o)) (fst r).
Proof.
  induction s as [|o s IH]; intros args r H; cbn in H; [injection H as <-; constructor|].
  destruct (short_has_arg o shortopts) as [[]|] eqn:E; [| |done].
  - apply short_has_arg_declared in E as [E1 E2].
    assert (Hd : declared shortopts longopts ("-"%char :: [o])) by (left; eauto).
    destruct s, args; try discriminate H; injection H as <-; cbn; (constructor; [exact Hd|constructor]).
  - apply short_has_arg_declared in E as [E1 E2].
    destruct (do_shorts shortopts s args) as [q|] eqn:Eq; [|done]. injection H as <-.
    constructor; [left; eauto|]. by eapply IH.
Qed.

Lemma endswith_eq l : endswith "=" l = true -> l = removelast l ++ "="%str.
Proof.
  unfold endswith. destruct l as [|c l _] using rev_ind; [done|].
  rewrite reverse_snoc. cbn. rewrite andb_true_r, bool_decide_eq_true. intros <-.
  by rewrite removelast_last.
Qed.

Lemma do_longs_declared o args r :
  do_longs longopts o args = Some r -> declared shortopts longopts (fst (fst r)).
Proof.
  unfold do_longs. pose proof (partition_char_before "="%char o) as Hname.
  destruct (partition "=" o) as [[name eq] value]. cbn [fst] in Hname.
  destruct (long_has_args name longopts) as [[b n]|] eqn:E; [|done].
  assert (Hn : declared shortopts longopts ("--" ++ n)%str).
  { right. exists n. split; [done|]. unfold long_has_args in E.
    set (P := filter _ _) in E.
    assert (HP : forall x, x ∈ P -> x ∈ longopts) by (intros x [_ Hx]%list_elem_of_filter; done).
    case_bool_decide as E1.
    { injection E as _ <-. left. split; [auto|]. apply not_true_is_false. intros He%endswith_eq.
      apply Hname. rewrite He. set_solver. }
    case_bool_decide as E2; [injection E as _ <-; auto|].
    destruct P as [|l [|l' P']]; [done| |done].
    destruct (endswith "=" l) eqn:El; injection E as _ <-; [right|left; split; [apply HP; left|done]].
    rewrite <- endswith_eq by done. apply HP. left. }
  destruct b, eq, args; intros H; try discriminate H; injection H as <-; exact Hn.
Qed.

Lemma getopt_declared fuel : forall args opts rest,
  getopt_loop fuel shortopts longopts args = Some (opts, rest) ->
  Forall (fun o => declared shortopts longopts (fst o)) opts.
Proof.
  induction fuel as [|fuel IH]; intros args opts rest H; [by destruct args; injection H as <- <-|].
  destruct args as [|a args]; [by injection H as <- <-|]. cbn [getopt_loop] in H.
  case_bool_decide; [by injection H as <- <-|].
  destruct (startswith "--" a).
  - destruct (do_longs longopts (drop 2 a) args) as [r|] eqn:E; cbn in H; [|done].
    destruct (getopt_loop fuel shortopts longopts (snd r)) as [[qo qr]|] eqn:E2; [|discriminate H].
    injection H as <- <-. constructor; [by eapply do_longs_declared|by eapply IH].
  - destruct (startswith "-" a && _); [|by injection H as <- <-].
    destruct (do_shorts shortopts (drop 1 a) args) as [r|] eqn:E; cbn in H; [|done].
    destruct (getopt_loop fuel shortopts longopts (snd r)) as [[qo qr]|] eqn:E2; [|discriminate H].
    injection H as <- <-. apply Forall_app. split; [by eapply do_shorts_declared|by eapply IH].
Qed.
End getopt.

(** ** The option loop *)

(** The operation an option asks for. *)
Definition op_of (opt : str * str) : option operation :=
  let name := fst opt in
  if is_opt name "-u" "--update_api" then Some OpUpdate
  else if is_opt name "-f" "--freeze_api" then Some OpFreeze
  else if is_opt name "-g" "--generate_source" then Some OpSource
  else if is_opt name "-a" "--generate_deps" then Some OpDeps
  else None.

Definition asks_help (opt : str * str) : bool := is_opt (fst opt) "-h" "--help".

Definition known_names : list str :=
  ["-r"; "-u"; "-f"; "-g"; "-a"; "-d"; "-v"; "-o"; "-h"; "--interfaces_roots"; "--update_api";
   "--freeze_api"; "--generate_source"; "--generate_deps"; "--gen_dir"; "--version"; "--out_dir";
   "--help"]%str.

Lemma declared_known name : declared ops_short ops_long name -> name ∈ known_names.
Proof.
  intros [(c & -> & Hc & Hn)|(l & -> & Hl)].
  - assert (forall x, x ∈ ops_short -> x = ":"%char \/ ("-"%char :: [x]) ∈ known_names) as Hall.
    { apply Forall_forall, (bool_decide_unpack _). vm_compute. exact I. }
    by destruct (Hall c Hc).
  - assert (forall x, x ∈ ops_long ->
      ((if endswith "=" x then "--" ++ removelast x else "--" ++ x) ∈ known_names)%str) as Hall.
    { apply Forall_forall, (bool_decide_unpack _). vm_compute. exact I. }
    destruct Hl as [[Hl He]|Hl]; apply Hall in Hl; [by rewrite He in Hl|].
    assert (endswith "=" (l ++ "=") = true)%str as He by (unfold endswith; by rewrite reverse_snoc).
    by rewrite He, removelast_last in Hl.
Qed.

Lemma known_covered name : name ∈ known_names ->
  is_opt name "-r" "--interfaces_roots" || is_opt name "-u" "--update_api"
  || is_opt name "-f" "--freeze_api" || is_opt name "-g" "--generate_source"
  || is_opt name "-a" "--generate_deps" || is_opt name "-d" "--gen_dir"
  || is_opt name "-v" "--version" || is_opt name "-o" "--out_dir"
  || is_opt name "-h" "--help" = true.
Proof.
  revert name. apply Forall_forall, (bool_decide_unpack _). vm_compute. exact I.
Qed.

(** Nothing but messages: files and commands are as before. *)
Definition quiet (w w' : world) : Prop := w_fs w' = w_fs w /\ w_cmds w' = w_cmds w.

#[export] Instance quiet_preorder : PreOrder quiet.
Proof. split; [done|]. intros w1 w2 w3 [H1 H2] [H3 H4]. split; congruence. Qed.

(** The options ask for the operations [L], in this order. *)
Definition asked (o : options) (L : list operation) : Prop :=
  o_operation o = head L /\ o_error o = bool_decide (1 < length L).

Section loop.
Context `{Os} `{Loader}.

Lemma add_roots_run l : forall o w, exists o' w', fold_each l o add_root w = (Ok o', w') /\
  quiet w w' /\ o_operation o' = o_operation o /\ o_error o' = o_error o.
Proof.
  induction l as [|p l IH]; intros o w; cbn [fold_each]; [by exists o, w|].
  assert (exists o' w', add_root o p w = (Ok o', w') /\ quiet w w' /\
    o_operation o' = o_operation o /\ o_error o' = o_error o) as (o1 & w1 & E1 & Q1 & P1 & R1).
  { unfold add_root, exists_path, gets. unfold mbind, M_bind.
    destruct (fs_exists (w_fs w) (realpath p)); eexists _, _; split; reflexivity || done. }
  unfold mbind, M_bind. rewrite E1. destruct (IH o1 w1) as (o' & w' & -> & Q & P & R).
  exists o', w'. split_and!; try congruence. by transitivity w1.
Qed.

Lemma option_step_run o L opt w :
  asked o L -> fst opt ∈ known_names -> asks_help opt = false ->
  exists o' w', option_step o opt w = (Ok o', w') /\ quiet w w' /\
    asked o' (L ++ option_list (op_of opt)).
Proof.
  intros [Ho He] Hk Hh. destruct opt as [name a]. cbn [fst] in *. unfold asks_help in Hh. cbn in Hh.
  assert (Hset : forall op, asked (set_operation op o) (L ++ [op])).
  { intros op. unfold set_operation, asked. destruct L as [|p L]; cbn in Ho; rewrite Ho; cbn.
    - split; [done|]. rewrite He. cbn. by rewrite !bool_decide_eq_false_2 by lia.
    - split; [done|]. symmetry. apply bool_decide_eq_true. rewrite length_app. cbn. lia. }
  unfold op_of, option_step. cbn [fst].
  destruct (is_opt name "-r" "--interfaces_roots") eqn:Er.
  { destruct (add_roots_run (split_char ";"%char a) o w) as (o' & w' & E & Q & P & R).
    exists o', w'. split; [done|]. split; [done|].
    assert (name = "-r" \/ name = "--interfaces_roots")%str as Hn by by apply bool_decide_eq_true in Er.
    assert (op_of (name, a) = None) as Hop by (destruct Hn; subst; vm_compute; done).
    unfold op_of in Hop. cbn [fst] in Hop. rewrite Hop. cbn. rewrite app_nil_r.
    split; congruence. }
  destruct (is_opt name "-u" _) eqn:Eu; [by eexists _, w|].
  destruct (is_opt name "-f" _) eqn:Ef; [by eexists _, w|].
  destruct (is_opt name "-g" _) eqn:Eg; [by eexists _, w|].
  destruct (is_opt name "-a" _) eqn:Ea; [by eexists _, w|].
  cbn [option_list]. rewrite app_nil_r.
  destruct (is_opt name "-d" _) eqn:Ed; [by eexists _, w|].
  destruct (is_opt name "-v" _) eqn:Ev; [by eexists _, w|].
  destruct (is_opt name "-o" _) eqn:Eo; [by eexists _, w|].
  pose proof (known_covered name Hk) as Hc. rewrite Er, Eu, Ef, Eg, Ea, Ed, Ev, Eo, Hh in Hc. done.
Qed.

Lemma option_loop_run opts : forall o L w,
  asked o L -> Forall (fun opt => fst opt ∈ known_names) opts ->
  Forall (fun opt => asks_help opt = false) opts ->
  exists o' w', fold_each opts o option_step w = (Ok o', w') /\ quiet w w' /\
    asked o' (L ++ omap op_of opts).
Proof.
  induction opts as [|opt opts IH]; intros o L w Ha Hk Hh; cbn [fold_each].
  - exists o, w. by rewrite app_nil_r.
  - apply Forall_cons in Hk as [Hk1 Hk]. apply Forall_cons in Hh as [Hh1 Hh].
    destruct (option_step_run o L opt w Ha Hk1 Hh1) as (o1 & w1 & E1 & Q1 & A1).
    unfold mbind, M_bind. rewrite E1.
    destruct (IH o1 _ w1 A1 Hk Hh) as (o' & w' & -> & Q & A).
    exists o', w'. split; [done|]. split; [by transitivity w1|].
    rewrite <- app_assoc in A. cbn. by destruct (op_of opt).
Qed.

(** C31: for arguments that [getopt] splits into options without help and
    operands, the request is settled before anything is touched: an operation
    is started exactly when a single one is asked for and, unless it generates
    dependencies, exactly one interface is named; otherwise the exit status is
    1.  Until then no file is changed and no command is run. *)
Theorem ops_request_exact argv opts args w :
  getopt argv ops_short ops_long = Some (opts, args) ->
  Forall (fun opt => asks_help opt = false) opts ->
  exists w', quiet w w' /\
  let r := (o ← fold_each opts default_options option_step; check_request o args) w in
  match omap op_of opts, args with
  | [OpDeps], _ => exists o, r = (Ok (Request OpDeps [] o), w')
  | [op], [name] => exists o, r = (Ok (Request op name o), w')
  | _, _ => r = (Err (SystemExit 1), w')
  end.
Proof.
  intros Hg Hh. assert (Hk : Forall (fun opt => fst opt ∈ known_names) opts).
  { eapply Forall_impl; [by eapply getopt_declared|]. intros opt. apply declared_known. }
  destruct (option_loop_run opts default_options [] w) as (o & w1 & E & Q & Ho & He); [done..|].
  unfold mbind, M_bind. rewrite E. cbn [app] in Ho, He.
  unfold check_request. unfold mbind, M_bind.
  assert (exists o1 w2, ensure_roots o w1 = (Ok o1, w2) /\ quiet w1 w2 /\
    o_operation o1 = o_operation o /\ o_error o1 = o_error o) as (o1 & w2 & -> & Q2 & Ho1 & He1).
  { unfold ensure_roots. destruct (o_roots o); eexists _, _; split; reflexivity || done. }
  rewrite Ho1, He1, Ho, He. destruct (omap op_of opts) as [|op [|op' ops]]; cbn [head].
  - exists (snd (log ERROR "No AIDL operation provided" [] w2)).
    split; [transitivity w1; [done|]; by transitivity w2|reflexivity].
  - rewrite (bool_decide_eq_false_2 (1 < length [op])) by (cbn; lia).
    unfold mret at 1, M_ret at 1. cbv beta iota.
    destruct (decide (op = OpDeps)) as [Hd|Hd];
      [rewrite (bool_decide_eq_true_2 _ Hd)|rewrite (bool_decide_eq_false_2 _ Hd)].
    + subst. exists w2. split; [by transitivity w1|]. by exists o1.
    + destruct args as [|name [|name' args]].
      * destruct op; try done; (eexists; split; [|reflexivity]; transitivity w1; [done|]; by transitivity w2).
      * exists w2. split; [by transitivity w1|]. destruct op; try done; by exists o1.
      * destruct op; try done; (eexists; split; [|reflexivity]; transitivity w1; [done|]; by transitivity w2).
  - rewrite (bool_decide_eq_true_2 (1 < length (op :: op' :: ops))) by (cbn; lia).
    destruct op; (eexists; split; [|reflexivity]; transitivity w1; [done|]; by transitivity w2).
Qed.
End loop.

Lemma ops_request_exact_witness : exists w' o, quiet example_world w' /\
  (o ← fold_each [("-r", "/ws"); ("-g", [])]%str (default_options (H := quiet_os))
     (option_step (H := quiet_os)); check_request (H := quiet_os) o ["hal"%str]) example_world =
  (Ok (Request OpSource "hal" o), w').
Proof.
  destruct (ops_request_exact (H := quiet_os) ["-r"; "/ws"; "-g"; "hal"]%str
    [("-r", "/ws"); ("-g", [])]%str ["hal"%str] example_world) as (w' & Q & o & E).
  - vm_compute. reflexivity.
  - repeat constructor.
  - exists w', o. split; [exact Q|exact E].
Defined.
